(* ===== verification/_CoqProject ===== *)
-Q . S2P
Prelude.v
RustStrings.v
Clock.v
Text.v
Ids.v
Status.v
Errors.v
StateMachine.v
Float64.v
FloatOrder.v
FloatText.v
Json.v
Expr.v
ExprSpec.v
RetryPolicy.v
Workflow.v
Fixtures.v
Versioning.v
Dag.v
DryRun.v
DryRunPath.v
DryRunRefs.v
Validation.v
Cron.v
Sampled.v
Store.v
Interference.v
MemoryStore.v
LruStore.v
StoreLaws.v
StoreSpec.v
Typed.v
Sqlite.v
SqliteSpec.v
TypedSql.v
LeaseModel.v
Events.v
HttpSink.v
Outbox.v
Watcher.v
AuditLog.v
Auth.v
Artifacts.v
Config.v
Pick.v
Executor.v
ExecutorLogic.v
ExecutorFrame.v
ExecutorOrder.v
ExecutorOutcome.v
ExecutorSuccess.v
ExecutorDefects.v
ExecutorSettled.v
Pool.v
TypedRun.v
ExecutorRaces.v
PoolEnd.v
PoolThreads.v
Throttle.v
Dashboard.v
Handlers.v
Telemetry.v
Api.v
ApiSpec.v
DashboardSpec.v
ApiEnd.v
Grpc.v
TypedApi.v
Completion.v
Cli.v
CliSpec.v
Serve.v
System.v
Process.v
Replay.v
ReplayRuns.v
ReplayStore.v
ReplayApi.v
ReplayTests.v
