(* ===== verification/Prelude.v ===== *)
(** * Runvane: a verification development

    Runvane (the crate under src/) is a durable workflow orchestrator. A client stores
    workflow definitions, acyclic graphs of tasks, and submits runs of them over HTTP, over
    gRPC or from the command line. A scheduler thread claims queued runs under leases and
    hands them to worker threads; a worker drives one attempt of a run: it executes the tasks
    whose dependencies succeeded, retries, skips, times out or cancels, and settles the queue
    entry. Events of runs are posted to webhooks, actions are audited, and retention sweeps
    delete old runs and artifacts. Records live in memory or in SQLite, behind a cache.

    The library models that program as Rocq definitions translated from the sources, function
    by function, and proves what makes each part correct and how the parts work together.

    ** Conventions

    - A [Result] is [result] (this file), with [let?] for the question-mark operator; a panic
      is [None], [Crash], [Panicked] or an [Abort] where the function can panic. Rust strings
      are strings of their UTF-8 bytes (RustStrings, Text). Integers are [Z] with the
      wrap-around of the width written out ([wrap_u64], [wrap_i64], ...): the release profile
      does not check overflow. Doubles are the binary64 specification floats of the Standard
      Library (Float64), printed as Rust prints them (FloatText).
    - A [BTreeMap] is a [gmap] read in key order ([bt_iter]), a [HashMap] a [gmap] read in an
      order the program may not rely on (the class [HashIter]).
    - State is passed explicitly: [MemoryState], [Db], [App], [World], [Dispatch],
      [Scheduler]. Each stateful component has a small monad where the source threads errors
      ([let%] in Sqlite, [let*] in Api, [let+] in Grpc, the [M] of Executor).
    - Code outside src/ is a class or an argument with the documented behaviour as its laws:
      serde_json, the url, uuid, sha2, lru, rand, toml and chrono crates, [powf], the clock,
      processes, sockets and the file system. Each property with such a law has a witness
      that instantiates it.
    - Concurrency is explicit. A store method runs under one mutex, so it is one transition.
      Other threads act between transitions: lists of calls before each call of the
      dispatcher ([others]) or of any client ([Interfered]), jobs that workers receive before
      each submission ([wp_receives]), store changes while a handler runs, interleaved atomic
      operations in Throttle, thread events in PoolThreads, lost requests and replies in Cli,
      interleaved activities in System.

    ** The parts, and where they are

    Foundations: Prelude (results, machine integers, sorting, tactics, hints), RustStrings and
    Text (byte strings, the [str] methods used), Clock (clock/mod.rs), Float64, FloatOrder (rounding
    in closed form; multiplication, subtraction and conversions respect the order), FloatText, Json.

    Domain (src/src/domain, src/src/state, src/src/retry): Ids (ids.rs), Status, Errors,
    StateMachine (machine.rs, run_fsm.rs, task_fsm.rs, invariant.rs), RetryPolicy
    (retry_policy.rs, backoff.rs), Workflow (workflow.rs, run.rs, snapshots.rs), Fixtures
    (persistence/fixtures.rs), Versioning, Dag (dag.rs), Validation.

    Engine (src/src/engine): Expr and ExprSpec (expr.rs), DryRun, DryRunPath and DryRunRefs
    (dry_run.rs).

    Persistence (src/src/persistence): Store (the trait as an indexed type of calls, records
    and filters), MemoryStore, LruStore (the cache, over any store), Sqlite (the tables,
    statement by statement, and the migrations), StoreLaws (what the scheduler relies on),
    StoreSpec (the contract of the trait), SqliteSpec (SQLite meets it), Interference (a
    store that other threads use meanwhile, a store that records its calls, and what it means
    for a store to uphold a discipline of calls and answers), Typed and TypedSql (the
    discipline of machine types and validated definitions, upheld by both backends and the
    cache), LeaseModel (loom_model.rs, compared with the stores).

    Scheduling (src/src/scheduler, src/src/plugins): Cron, Throttle, Pick (which tasks are
    ready), Executor (one attempt) with ExecutorLogic, ExecutorFrame, ExecutorOrder,
    ExecutorOutcome, ExecutorSuccess, ExecutorDefects and ExecutorSettled (what an attempt
    leaves alone), Pool (dispatcher, channel, worker),
    TypedRun (executor, worker and dispatcher keep the discipline of Typed), ExecutorRaces
    (what other threads do between the calls of an attempt or of a dispatch),
    PoolEnd (dispatch to success), PoolThreads (the threads around the channel), Handlers
    (registry, built-in, script and HTTP handlers).

    Events, audit, storage: Events and HttpSink (events/mod.rs, dispatch.rs), Outbox, Watcher,
    AuditLog (audit/), Artifacts (storage/), Telemetry, Auth.

    Surfaces: Api (error.rs, payloads.rs, server.rs), Dashboard (its HTML page), ApiSpec,
    DashboardSpec, ApiEnd, Grpc (grpc.rs), Config (config.rs), Completion, Cli and CliSpec
    (cli/mod.rs, client.rs, completion.rs), TypedApi (both services keep the discipline of
    Typed), Serve (cli/serve.rs: booting and the scheduler thread), System (everything [serve]
    starts, as interleaved activities on one store), Process ([serve] itself and main.rs).

    Tests: Sampled proves, for all inputs, the properties the repository samples with proptest
    (src/tests/proptest_*.rs). Replay, ReplayRuns, ReplayStore, ReplayApi and ReplayTests
    evaluate the definitions in the scenarios of the repository's own tests (the [#[test]]
    functions of the domain, scheduler, engine, persistence, events, audit, storage, API, gRPC,
    configuration and plugin modules and of src/tests) and state what those tests assert: one
    script of the store suite runs on the in-memory, the cached and the SQLite
    store. They check the translation, beside the theorems.

    Interfaces between parts are classes: [Store] (a backend), [RunStore] and [WorkflowFrame]
    (what executor and cache rely on of it), [WebhookSink], [AuditLogger], [ArtifactStore],
    [LruCache], [Host] (the operating system under [serve]), and [Upholds] (a store keeps an
    invariant as long as its callers keep a discipline, and then its answers keep it too).
    Clients are proved against the class, implementations provide instances.

    ** What is shown

    End to end. [accepted_run_succeeds]: a definition and a run accepted over HTTP with
    built-in handlers are dispatched by the next round, executed and reported as succeeded.
    [round_redispatches]: after a worker died, one round of the scheduler thread puts its run
    back into the channel under a new lease that the sweeps of the same round leave alone.
    [cli_create_is_http] and [grpc_mirrors_http]: the three surfaces do the same thing.
    [control_plane_sound]: from boot on, however the servers, the scheduler and the workers
    interleave, stored records keep their machine types and stored definitions stay
    validated. It composes one lemma per component over [Upholds]: the stores guarantee it,
    the clients rely on it and each keeps the discipline the others rely on.

    Stores. [lru_refines_inner]: the cache is invisible. [mem_meets_contract] and
    [sqlite_meets_contract]: both backends implement one contract, SQLite under failing
    statements too and with two departures that change nothing (the error of a second enqueue,
    the count of a page); [sqlite_failures_atomic]: a failed call changes nothing, with the two
    exceptions stated. [lease_exclusive] and [sqlite_lease_exclusive]: a leased entry changes
    only through the calls that may end its lease. [mem_reachable_wf]: the records of
    the in-memory store stay under their own ids. [board_faithful]: the model the repository
    checks with loom answers as the in-memory store. [backends_differ] has the places
    where the backends are distinguishable.

    Executor. [attempt_terminates], [attempt_discipline] (order and multiplicity of handler
    calls), [attempt_outcome] (the stored run agrees with the returned action),
    [attempt_success] (a valid run ends in success, each handler called once),
    [last_write_wins] (the outcome and the store agree under any interference),
    [settled_task_stays] (no later attempt touches a task that succeeded or was skipped).

    Pool. [step_holds_leases] (what a round claims is leased to the jobs it sent, while other
    threads cancel, claim and sweep and workers take jobs), [worker_settles], [shutdown_drains],
    [scheduler_rounds_total], [round_housekeeping]. Process: [serve_listeners_spec]. Throttle:
    [limiter_exact], [fair_share_bounded_wait].

    Algorithms. [topo_order_sound] and [topo_order_ok_iff], [simulate_stages] and
    [simulate_critical_path], [next_tick_first], [field_parse_spec], [interpolate_rendered],
    [validate_definition_iff], [backoff_schedule] (bounded and non-decreasing delays, in
    binary64), [backoff_bounds], [base32hex_roundtrip].

    Events, audit, artifacts. [outbox_drains], [outbox_step_attempts], [poll_offers_once],
    [loggers_keep_trail] (with writes and reads that may fail), [file_append_only],
    [sweep_purges_stale], [request_framed].

    Surfaces. [submit_run_spec], [cancel_run_spec], [access_enforced] and
    [outsiders_change_nothing] (the documented access tiers), [serve_never_panics],
    [dashboard_inert], [config_precedence], [tags_survive].

    Defects the model exhibits are theorems too: [retry_leaves_skipped] (an instance of
    [settled_task_stays]) and [running_task_wedges] in the executor, [cancel_race_strands] and
    [dispatch_overwrites_cancel] between threads, [stale_entry_redispatched], [second_hook_dropped],
    [fetch_race_stale], [cli_shut_out], [header_injection], [empty_secret_opens] and others,
    next to the code they are about.

    ** Loops and fuel

    Loops that are not structural run on fuel, and running out is a value of its own or is
    shown impossible. [attempt_loop] gets one round more than the definition has tasks, since
    every round executes a task that was not executed before ([attempt_terminates]). Kahn's
    loop gets one more than the number of tasks ([kahn_exhausts]); the waves of a dry run one
    more than the tasks, the walk back along the path one step per predecessor entry, the
    reachability search one pop per listed dependency. The skip fixpoint needs two passes
    ([pending_to_skip_complete]). [next_tick_ms] scans the same bounded window of minutes as
    the source. The shortest decimal of a double is searched over all exponents a double can
    have. A delay polls every five milliseconds, so a fifth of its length plus two rounds are
    enough. The client tries to connect 25 times, as in the source. [scheduler_rounds] takes
    the number of rounds the process is let run.

    ** Not modelled, and why

    Decoding and encoding on the wire (axum, tonic, serde): a request is the decoded message,
    an answer the document. Argument parsing (clap): a command is the parsed value. Sockets,
    the loops of the two server crates, signals and bind errors are the class [Host] of
    Process. Log lines and the sleep between rounds do not touch the state. The derived
    instances (Debug, Clone, serde) have no code of their own. A store call that panics on its
    own, as the SQLite mutex does inside an asynchronous handler, is outside the model and
    noted where it matters. Of the tests, those that only round-trip a document through serde,
    start a real server or parse arguments have no replay. *)
From Stdlib Require Export ZArith Lia Ascii.
From stdpp Require Export base gmap strings list fin_maps sorting.

(** ** Results

    [Result<A, E>] of the source; [let? x := c in k] is the [?] operator. *)

Inductive result (A E : Type) : Type :=
| Ok (a : A)
| Err (e : E).
Arguments Ok {A E} a.
Arguments Err {A E} e.

Declare Scope runvane_scope.
Delimit Scope runvane_scope with rv.
Global Open Scope runvane_scope.

Definition rbind {A B E} (c : result A E) (k : A → result B E) : result B E :=
  match c with Ok a => k a | Err e => Err e end.

Definition map_err {A E F} (f : E → F) (c : result A E) : result A F :=
  match c with Ok a => Ok a | Err e => Err (f e) end.

Definition is_ok {A E} (c : result A E) : bool :=
  match c with Ok _ => true | Err _ => false end.

(** [Result::ok] *)
Definition result_ok {A E} (c : result A E) : option A :=
  match c with Ok a => Some a | Err _ => None end.

Definition ok_or {A E} (o : option A) (e : E) : result A E :=
  match o with Some a => Ok a | None => Err e end.

Notation "'let?' x ':=' c 'in' k" := (rbind c (fun x => k))
  (at level 10, x pattern, c at level 100, k at level 200) : runvane_scope.

(** [for x in l { step(x)?; }]: the first error stops the loop. *)
Fixpoint for_each {A E} (step : A → result unit E) (l : list A) : result unit E :=
  match l with
  | [] => Ok tt
  | x :: rest => let? _ := step x in for_each step rest
  end.

(** [collect::<Result<Vec<_>, _>>()]: the first error stops the collection. *)
Fixpoint try_map {A B E} (f : A → result B E) (l : list A) : result (list B) E :=
  match l with
  | [] => Ok []
  | x :: rest => let? y := f x in let? ys := try_map f rest in Ok (y :: ys)
  end.

(** ** Machine integers

    Integers are [Z]; every operation of the source that can leave the range of
    its type is written with the function below that says what happens there.
    Plain [+] wraps, as in the release profile of Cargo.toml, which does not
    enable overflow checks. *)

Definition u8_max : Z := 255.
Definition u32_max : Z := 4294967295.
Definition u64_max : Z := 18446744073709551615.
Definition i64_min : Z := -9223372036854775808.
Definition i64_max : Z := 9223372036854775807.

Definition wrap_u32 (z : Z) : Z := (z mod 4294967296)%Z.
Definition wrap_u64 (z : Z) : Z := (z mod 18446744073709551616)%Z.
Definition wrap_i64 (z : Z) : Z :=
  ((z + 9223372036854775808) mod 18446744073709551616 - 9223372036854775808)%Z.

Definition sat_u64 (z : Z) : Z := Z.max 0 (Z.min u64_max z).
Definition sat_i64 (z : Z) : Z := Z.max i64_min (Z.min i64_max z).

Definition in_u32 (z : Z) : Prop := (0 ≤ z ≤ u32_max)%Z.
Definition in_u64 (z : Z) : Prop := (0 ≤ z ≤ u64_max)%Z.
Definition in_i64 (z : Z) : Prop := (i64_min ≤ z ≤ i64_max)%Z.

(** ** Stable sorting

    [slice::sort], [sort_by] and [sort_by_key] are stable; so is this sort. *)

Section Sorting.
Context {A : Type} (le : A → A → bool).

Fixpoint insert_sorted (x : A) (l : list A) : list A :=
  match l with
  | [] => [x]
  | y :: ys => if le x y then x :: y :: ys else y :: insert_sorted x ys
  end.

Definition sort_by (l : list A) : list A := foldr insert_sorted [] l.
End Sorting.

(** ** Ordered and hashed containers

    A [BTreeMap<String, V>] is a [gmap string V] iterated in key order (the
    order of Rust strings is the byte order of [String.leb]); a [HashMap] is a
    [gmap] iterated in an order the program may not rely on, which [HashIter]
    leaves open. *)

Definition bt_iter {V} (m : gmap string V) : list (string * V) :=
  sort_by (fun a b => String.leb a.1 b.1) (map_to_list m).

Definition bt_keys {V} (m : gmap string V) : list string := (bt_iter m).*1.

Definition bt_elems (s : gset string) : list string := sort_by String.leb (elements s).

Class HashIter := {
  hash_iter : ∀ {K V : Type} `{Countable K}, gmap K V → list (K * V);
  hash_iter_perm : ∀ {K V : Type} `{Countable K} (m : gmap K V),
    hash_iter m ≡ₚ map_to_list m
}.

Definition hash_values `{HashIter} {K V} `{Countable K} (m : gmap K V) : list V :=
  (hash_iter m).*2.

#[export] Instance hash_iter_trie : HashIter := {|
  hash_iter := fun K V _ _ m => map_to_list m;
  hash_iter_perm := fun K V _ _ m => Permutation_refl (map_to_list m)
|}.

(** ** Automation *)

Create HintDb runvane discriminated.

(** Case analysis on the scrutinee of a [match] or [if] of the goal or of a
    hypothesis, keeping its equation. *)
Ltac case_step :=
  match goal with
  | |- context [match ?x with _ => _ end] => destruct x eqn:?
  | H : context [match ?x with _ => _ end] |- _ => destruct x eqn:?
  end.

(** Opens the [?] chains of a hypothesis that says a computation returned. *)
Ltac inv_result :=
  repeat match goal with
  | H : Ok _ = Ok _ |- _ => injection H as H; subst
  | H : Err _ = Err _ |- _ => injection H as H; subst
  | H : Ok _ = Err _ |- _ => discriminate H
  | H : Err _ = Ok _ |- _ => discriminate H
  | H : rbind ?c _ = _ |- _ => destruct c eqn:?; cbn [rbind] in H
  end.

(** Turns the boolean comparisons of a context into propositions. *)
Ltac to_prop :=
  repeat match goal with
  | H : (_ && _)%bool = true |- _ => apply andb_true_iff in H; destruct H
  | H : (_ || _)%bool = false |- _ => apply orb_false_iff in H; destruct H
  | H : negb _ = true |- _ => apply negb_true_iff in H
  | H : negb _ = false |- _ => apply negb_false_iff in H
  | H : (_ <? _)%Z = true |- _ => apply Z.ltb_lt in H
  | H : (_ <? _)%Z = false |- _ => apply Z.ltb_ge in H
  | H : (_ <=? _)%Z = true |- _ => apply Z.leb_le in H
  | H : (_ <=? _)%Z = false |- _ => apply Z.leb_gt in H
  | H : (_ >? _)%Z = _ |- _ => rewrite Z.gtb_ltb in H
  | H : (_ >=? _)%Z = _ |- _ => rewrite Z.geb_leb in H
  | H : (_ =? _)%Z = true |- _ => apply Z.eqb_eq in H
  | H : (_ =? _)%Z = false |- _ => apply Z.eqb_neq in H
  | H : bool_decide _ = true |- _ => apply bool_decide_eq_true in H
  | H : bool_decide _ = false |- _ => apply bool_decide_eq_false in H
  end.

(** ** Generic lemmas *)

Lemma for_each_ok {A E} (step : A → result unit E) l :
  for_each step l = Ok tt ↔ Forall (fun x => step x = Ok tt) l.
Proof.
  induction l as [|x l IH]; cbn; [by split|].
  rewrite Forall_cons, <-IH. destruct (step x) as [[]|e]; cbn; [tauto|].
  split; [discriminate | intros [? _]; discriminate].
Qed.

Lemma for_each_err {A E} (step : A → result unit E) l e :
  for_each step l = Err e ↔
  ∃ l1 x l2, l = l1 ++ x :: l2 ∧ Forall (fun y => step y = Ok tt) l1 ∧ step x = Err e.
Proof.
  induction l as [|x l IH]; cbn.
  { split; [discriminate | intros ([]&?&?&?&_); discriminate]. }
  destruct (step x) as [[]|e'] eqn:Hx; cbn; [rewrite IH|]; split.
  - intros (l1&y&l2&->&?&?). exists (x :: l1), y, l2. by rewrite Forall_cons.
  - intros ([|z l1]&y&l2&Heq&Hl1&Hy); simplify_list_eq; [congruence|].
    apply Forall_cons in Hl1 as [_ ?]. by exists l1, y, l2.
  - intros [= ->]. by exists [], x, l.
  - intros ([|z l1]&y&l2&Heq&Hl1&Hy); simplify_list_eq; [congruence|].
    apply Forall_cons in Hl1 as [? _]; congruence.
Qed.

Lemma result_ok_map_err {A E F} (f : E → F) (c : result A E) : result_ok (map_err f c) = result_ok c.
Proof. by destruct c. Qed.

Lemma result_ok_bind {A B E} (c : result A E) (k : A → result B E) :
  result_ok (rbind c k) = result_ok c ≫= fun a => result_ok (k a).
Proof. by destruct c. Qed.

Lemma result_ok_try_map {A B E} (f : A → result B E) l : result_ok (try_map f l) = mapM (fun x => result_ok (f x)) l.
Proof.
  induction l as [|x l IH]; [done|]. cbn [try_map mapM]. rewrite result_ok_bind. destruct (f x); [|done]. cbn.
  rewrite result_ok_bind, IH. by destruct (mapM _ l).
Qed.

Lemma try_map_ok {A B E} (f : A → result B E) l ys :
  try_map f l = Ok ys ↔ Forall2 (fun x y => f x = Ok y) l ys.
Proof.
  revert ys. induction l as [|x l IH]; intros ys; cbn [try_map].
  { split; [by intros [= <-]|by intros ->%Forall2_nil_inv_l]. }
  split.
  - intros H. inv_result. constructor; [done|]. by apply IH.
  - intros (y&ys'&Hy&Hys&->)%Forall2_cons_inv_l. apply IH in Hys. by rewrite Hy, Hys.
Qed.

Lemma wrap_u32_id z : in_u32 z → wrap_u32 z = z.
Proof. unfold in_u32, u32_max, wrap_u32. intros. apply Z.mod_small. lia. Qed.

Lemma wrap_u64_id z : in_u64 z → wrap_u64 z = z.
Proof. unfold in_u64, u64_max, wrap_u64. intros. apply Z.mod_small. lia. Qed.

Lemma wrap_i64_id z : in_i64 z → wrap_i64 z = z.
Proof.
  unfold in_i64, i64_min, i64_max, wrap_i64. intros. rewrite Z.mod_small; lia.
Qed.

Lemma wrap_u64_range z : in_u64 (wrap_u64 z).
Proof.
  unfold in_u64, wrap_u64, u64_max.
  pose proof (Z.mod_pos_bound z 18446744073709551616). lia.
Qed.

Lemma wrap_i64_range z : in_i64 (wrap_i64 z).
Proof.
  unfold in_i64, wrap_i64, i64_min, i64_max.
  pose proof (Z.mod_pos_bound (z + 9223372036854775808) 18446744073709551616). lia.
Qed.

Lemma wrap_u32_range z : in_u32 (wrap_u32 z).
Proof.
  unfold in_u32, wrap_u32, u32_max.
  pose proof (Z.mod_pos_bound z 4294967296). lia.
Qed.

Lemma sat_u64_range z : in_u64 (sat_u64 z).
Proof. unfold in_u64, sat_u64, u64_max. lia. Qed.

Lemma sat_i64_range z : in_i64 (sat_i64 z).
Proof. unfold in_i64, sat_i64, i64_min, i64_max. lia. Qed.

#[export] Hint Resolve wrap_u32_range wrap_u64_range wrap_i64_range
  sat_u64_range sat_i64_range : runvane.

Lemma StronglySorted_take {A} (R : relation A) n l :
  StronglySorted R l → StronglySorted R (take n l).
Proof. rewrite <-(take_drop n l) at 1. apply StronglySorted_app_1_l. Qed.

Lemma StronglySorted_drop {A} (R : relation A) n l :
  StronglySorted R l → StronglySorted R (drop n l).
Proof. rewrite <-(take_drop n l) at 1. apply StronglySorted_app_1_r. Qed.

Lemma StronglySorted_impl {A} (R1 R2 : relation A) l :
  (∀ x y, R1 x y → R2 x y) → StronglySorted R1 l → StronglySorted R2 l.
Proof.
  intros HR. induction 1 as [|x l _ IH Hx]; constructor; [done|].
  eapply Forall_impl; [exact Hx|cbn; auto].
Qed.

Lemma StronglySorted_lookup {A} (R : relation A) l i j x y : StronglySorted R l →
  l !! i = Some x → l !! j = Some y → (i < j)%nat → R x y.
Proof.
  intros Hs. revert i j. induction Hs as [|a l Hs IH Ha]; intros i j Hi Hj Hij; [done|].
  destruct j as [|j]; [lia|]. destruct i as [|i]; cbn in *; simplify_eq.
  - rewrite Forall_lookup in Ha. eauto.
  - eapply IH; eauto. lia.
Qed.

Section SortingLemmas.
Context {A : Type} (le : A → A → bool).

Lemma insert_sorted_perm x l : insert_sorted le x l ≡ₚ x :: l.
Proof.
  induction l as [|y l IH]; cbn; [done|].
  destruct (le x y); [done|]. rewrite IH. apply Permutation_swap.
Qed.

Lemma sort_by_perm l : sort_by le l ≡ₚ l.
Proof.
  induction l as [|x l IH]; [done|]. cbn. fold (sort_by le l).
  by rewrite insert_sorted_perm, IH.
Qed.

Lemma sort_by_elem x l : x ∈ sort_by le l ↔ x ∈ l.
Proof. by rewrite sort_by_perm. Qed.

Lemma sort_by_length l : length (sort_by le l) = length l.
Proof. by rewrite sort_by_perm. Qed.

Lemma sort_by_NoDup l : NoDup (sort_by le l) ↔ NoDup l.
Proof. by rewrite sort_by_perm. Qed.

Context `{Htr : !Transitive (fun a b => Is_true (le a b))}.
Context `{Htot : !Total (fun a b => Is_true (le a b))}.

Lemma insert_sorted_sorted x l :
  StronglySorted (fun a b => Is_true (le a b)) l →
  StronglySorted (fun a b => Is_true (le a b)) (insert_sorted le x l).
Proof.
  induction 1 as [|y l Hl IH Hy]; cbn; [by repeat constructor|].
  destruct (le x y) eqn:Hxy.
  - constructor; [by constructor|]. apply Is_true_eq_left in Hxy.
    constructor; [done|]. eapply Forall_impl; [exact Hy|]. cbn. intros z ?.
    by apply (Htr x y z).
  - constructor; [done|]. rewrite insert_sorted_perm. constructor; [|done].
    destruct (Htot y x) as [?|H]; [done|]. by rewrite Hxy in H.
Qed.

Lemma sort_by_sorted l : StronglySorted (fun a b => Is_true (le a b)) (sort_by le l).
Proof.
  induction l as [|x l IH]; [constructor|]. by apply insert_sorted_sorted.
Qed.

(** Two sorted lists with the same elements agree when the order is
    antisymmetric on them. *)
Lemma sort_by_unique `{!AntiSymm (=) (fun a b => Is_true (le a b))} l1 l2 :
  l1 ≡ₚ l2 → sort_by le l1 = sort_by le l2.
Proof.
  intros HP. apply (StronglySorted_unique (fun a b => Is_true (le a b)));
    [apply sort_by_sorted..|]. by rewrite !sort_by_perm.
Qed.

(** Stability: the elements a stable predicate selects keep their order. *)
Lemma insert_sorted_filter (P : A → bool) x l :
  (∀ y, P x → P y → Is_true (le x y)) →
  List.filter P (insert_sorted le x l) = List.filter P (x :: l).
Proof.
  intros HP. induction l as [|y l IH]; [done|]. cbn in *.
  destruct (le x y) eqn:Hxy; [done|]. cbn. rewrite IH.
  destruct (P x) eqn:Px, (P y) eqn:Py; try done.
  specialize (HP y I). rewrite Hxy, Py in HP. by destruct (HP I).
Qed.

Lemma sort_by_stable (P : A → bool) l :
  (∀ x y, P x → P y → Is_true (le x y)) →
  List.filter P (sort_by le l) = List.filter P l.
Proof.
  intros HP. induction l as [|x l IH]; [done|]. cbn. fold (sort_by le l).
  rewrite insert_sorted_filter by auto. cbn. by rewrite IH.
Qed.
End SortingLemmas.

#[export] Instance leb_trans : Transitive (fun a b => Is_true (String.leb a b)).
Proof. intros a b c. apply (transitivity (R := String.le)). Qed.

#[export] Instance leb_total_inst : Total (fun a b => Is_true (String.leb a b)).
Proof. intros a b. apply (total String.le). Qed.

#[export] Instance leb_antisymm : AntiSymm (=) (fun a b => Is_true (String.leb a b)).
Proof. intros a b. apply (anti_symm String.le). Qed.

(** Related rows stay related when both lists are filtered or sorted alike. *)
Lemma Forall2_list_filter {A B} (R : A → B → Prop) (p : A → bool) (q : B → bool) l l' :
  (∀ x y, R x y → p x = q y) → Forall2 R l l' → Forall2 R (List.filter p l) (List.filter q l').
Proof.
  intros Hpq. induction 1 as [|x y l l' Hxy _ IH]; cbn; [constructor|].
  rewrite (Hpq x y Hxy). destruct (q y); [by constructor|done].
Qed.

Lemma Forall2_sort_by {A B} (R : A → B → Prop) (le : A → A → bool) (le' : B → B → bool) l l' :
  (∀ x y x' y', R x x' → R y y' → le x y = le' x' y') → Forall2 R l l' →
  Forall2 R (sort_by le l) (sort_by le' l').
Proof.
  intros Hle. assert (Hins : ∀ x y s s', R x y → Forall2 R s s' →
    Forall2 R (insert_sorted le x s) (insert_sorted le' y s')).
  { intros x y s s' Hxy. induction 1 as [|z z' s s' Hz Hs IH]; cbn [insert_sorted]; [by repeat constructor|].
    rewrite (Hle x z y z') by done. destruct (le' y z'); auto. }
  induction 1; cbn; auto.
Qed.

(** Rows of related tables can be listed in step, in any order of the first. *)
Lemma map_Forall2_rows {K A B} `{Countable K} (R : K → A → B → Prop) (m1 : gmap K A) (m2 : gmap K B) l :
  map_Forall2 R m1 m2 → l ≡ₚ map_to_list m1 →
  ∃ l', l' ≡ₚ map_to_list m2 ∧ Forall2 (fun x y => x.1 = y.1 ∧ R x.1 x.2 y.2) l l'.
Proof.
  intros Hm Hl. exists (omap (fun x => (fun b => (x.1, b)) <$> m2 !! x.1) l). split.
  - rewrite Hl. clear l Hl. revert m2 Hm.
    induction m1 as [|i x m1 Hi IH] using map_ind; intros m2 Hm.
    { apply map_Forall2_empty_inv_l in Hm as ->. by rewrite !map_to_list_empty. }
    apply map_Forall2_insert_inv_l in Hm as (y&m2'&->&Hi2&_&Hm); [|done].
    rewrite !map_to_list_insert by done. cbn. rewrite lookup_insert_eq. cbn. f_equiv.
    rewrite <-(IH m2' Hm). apply reflexive_eq, list_omap_ext, Forall_Forall2_diag, Forall_forall.
    intros [j z] Hj%elem_of_map_to_list. cbn. rewrite lookup_insert_ne by congruence. done.
  - assert (Hin : ∀ x, x ∈ l → m1 !! x.1 = Some x.2).
    { intros [k a]. rewrite Hl. by rewrite elem_of_map_to_list. }
    clear Hl. induction l as [|[k a] l IH]; cbn; [constructor|].
    pose proof (Hm k) as Hk. rewrite (Hin (k, a) ltac:(set_solver) : m1 !! k = Some a) in Hk.
    destruct (m2 !! k) as [b|]; [|by inv Hk]. cbn. constructor; [split; [done|by inv Hk]|].
    apply IH. intros x Hx. apply Hin. set_solver.
Qed.

Lemma leb_refl s : String.leb s s = true.
Proof. apply Is_true_eq_true. change (String.le s s). reflexivity. Qed.

#[export] Instance list_filter_perm {A} (p : A → bool) :
  Proper (Permutation ==> Permutation) (List.filter p).
Proof.
  induction 1 as [|x l1 l2 _ IH|x y l|l1 l2 l3 _ IH1 _ IH2]; cbn; [done| | |by rewrite IH1].
  - destruct (p x); by rewrite IH.
  - destruct (p x), (p y); try done. apply Permutation_swap.
Qed.

(** ** Iteration of ordered containers *)

Lemma bt_elems_elem (s : gset string) x : x ∈ bt_elems s ↔ x ∈ s.
Proof. unfold bt_elems. by rewrite sort_by_elem, elem_of_elements. Qed.

Lemma bt_elems_NoDup (s : gset string) : NoDup (bt_elems s).
Proof. apply sort_by_NoDup, NoDup_elements. Qed.

Lemma bt_elems_sorted (s : gset string) : StronglySorted String.le (bt_elems s).
Proof. apply sort_by_sorted; apply _. Qed.

Lemma bt_iter_perm {V} (m : gmap string V) : bt_iter m ≡ₚ map_to_list m.
Proof. apply sort_by_perm. Qed.

Lemma bt_iter_elem {V} (m : gmap string V) k v : (k, v) ∈ bt_iter m ↔ m !! k = Some v.
Proof. by rewrite bt_iter_perm, elem_of_map_to_list. Qed.

Lemma bt_keys_elem {V} (m : gmap string V) k : k ∈ bt_keys m ↔ is_Some (m !! k).
Proof.
  unfold bt_keys. rewrite list_elem_of_fmap. split.
  - intros ([k' v]&->&?%bt_iter_elem). by exists v.
  - intros [v ?%bt_iter_elem]. by exists (k, v).
Qed.

Lemma bt_keys_NoDup {V} (m : gmap string V) : NoDup (bt_keys m).
Proof. unfold bt_keys. rewrite bt_iter_perm. apply NoDup_fst_map_to_list. Qed.

Lemma bt_keys_sorted {V} (m : gmap string V) : StronglySorted String.le (bt_keys m).
Proof.
  unfold bt_keys.
  eapply (StronglySorted_fmap fst (fun a b => Is_true (String.leb a.1 b.1))).
  - intros x y H. exact H.
  - apply sort_by_sorted.
    + intros a b c. apply (transitivity (R := String.le)).
    + intros a b. apply (total String.le).
Qed.

Lemma hash_values_elem `{HashIter} {K V} `{Countable K} (m : gmap K V) v :
  v ∈ hash_values m ↔ ∃ k, m !! k = Some v.
Proof.
  unfold hash_values. rewrite list_elem_of_fmap. split.
  - intros ([k v']&->&Hin). rewrite hash_iter_perm in Hin.
    apply elem_of_map_to_list in Hin. by exists k.
  - intros [k Hk]. exists (k, v). split; [done|].
    by rewrite hash_iter_perm, elem_of_map_to_list.
Qed.
