(* ===== verification/RustStrings.v ===== *)
(** * Rust strings

    A [String]/[&str] of the source is a [string] of its UTF-8 bytes: lengths
    and slices count bytes, [chars()] groups a leading byte with the
    continuation bytes after it, and a byte is a [Z] between 0 and 255. *)
From S2P Require Import Prelude.
Local Open Scope Z_scope.

Definition byte_of (c : ascii) : Z := Z.of_N (N_of_ascii c).
Definition ascii_of (b : Z) : ascii := ascii_of_N (Z.to_N b).

(** [str::as_bytes] *)
Fixpoint as_bytes (s : string) : list Z :=
  match s with
  | EmptyString => []
  | String c rest => byte_of c :: as_bytes rest
  end.

Fixpoint of_bytes (l : list Z) : string :=
  match l with
  | [] => EmptyString
  | b :: rest => String (ascii_of b) (of_bytes rest)
  end.

(** A quotation mark. *)
Definition dq : string := of_bytes [34].

Definition is_u8 (b : Z) : Prop := 0 ≤ b < 256.

(** [str::len]: bytes, not characters. *)
Definition str_len (s : string) : Z := Z.of_nat (String.length s).

Definition is_empty (s : string) : bool := bool_decide (s = EmptyString).

Definition is_ascii_lowercase (b : Z) : bool := (97 <=? b) && (b <=? 122).
Definition is_ascii_uppercase (b : Z) : bool := (65 <=? b) && (b <=? 90).
Definition is_ascii_digit (b : Z) : bool := (48 <=? b) && (b <=? 57).
Definition is_ascii_alphanumeric (b : Z) : bool :=
  is_ascii_lowercase b || is_ascii_uppercase b || is_ascii_digit b.

(** Continuation bytes of UTF-8 are [10xxxxxx]. *)
Definition is_continuation (c : ascii) : bool :=
  (128 <=? byte_of c) && (byte_of c <? 192).

(** [str::chars]: every character as the string of its bytes. *)
Fixpoint chars_from (cur : string) (s : string) : list string :=
  match s with
  | EmptyString => [cur]
  | String c rest =>
      if is_continuation c then chars_from (cur +:+ String c EmptyString) rest
      else cur :: chars_from (String c EmptyString) rest
  end.

Definition chars (s : string) : list string :=
  match s with
  | EmptyString => []
  | String c rest => chars_from (String c EmptyString) rest
  end.

(** [chars().count()] *)
Definition char_count (s : string) : Z := Z.of_nat (length (chars s)).

(** [&s[n..]] for an index on a character boundary. *)
Fixpoint str_drop (n : nat) (s : string) : string :=
  match n, s with
  | O, _ => s
  | S n, EmptyString => EmptyString
  | S n, String _ rest => str_drop n rest
  end.

(** [str::starts_with] *)
Definition starts_with (p s : string) : bool := String.prefix p s.

(** [str::strip_prefix] *)
Definition strip_prefix (p s : string) : option string :=
  if starts_with p s then Some (str_drop (String.length p) s) else None.

(** [str::contains] for a one-byte character. *)
Definition contains_byte (b : Z) (s : string) : bool :=
  existsb (Z.eqb b) (as_bytes s).

(** [str::split] on a one-byte character: always at least one piece. *)
Fixpoint split_on (sep : ascii) (s : string) : list string :=
  match s with
  | EmptyString => [EmptyString]
  | String c rest =>
      if bool_decide (c = sep) then EmptyString :: split_on sep rest
      else match split_on sep rest with
           | [] => [String c EmptyString]
           | p :: ps => String c p :: ps
           end
  end.

(** ** Lemmas *)

Lemma byte_of_range c : is_u8 (byte_of c).
Proof. unfold byte_of, is_u8. pose proof (N_ascii_bounded c). lia. Qed.

Lemma byte_of_ascii_of b : is_u8 b → byte_of (ascii_of b) = b.
Proof.
  unfold is_u8, byte_of, ascii_of. intros. rewrite N_ascii_embedding; lia.
Qed.

Lemma ascii_of_byte_of c : ascii_of (byte_of c) = c.
Proof. unfold byte_of, ascii_of. by rewrite N2Z.id, ascii_N_embedding. Qed.

Lemma as_bytes_of_bytes l : Forall is_u8 l → as_bytes (of_bytes l) = l.
Proof. induction 1 as [|b l Hb _ IH]; cbn; [done|]. by rewrite byte_of_ascii_of, IH. Qed.

Lemma of_bytes_as_bytes s : of_bytes (as_bytes s) = s.
Proof. induction s as [|c s IH]; cbn; [done|]. by rewrite ascii_of_byte_of, IH. Qed.

Lemma as_bytes_u8 s : Forall is_u8 (as_bytes s).
Proof. induction s; cbn; constructor; auto using byte_of_range. Qed.

Lemma as_bytes_app s t : as_bytes (s +:+ t) = as_bytes s ++ as_bytes t.
Proof. induction s as [|c s IH]; cbn; [done|]. by rewrite <-IH. Qed.

Lemma as_bytes_inj s t : as_bytes s = as_bytes t → s = t.
Proof. intros H. by rewrite <-(of_bytes_as_bytes s), H, of_bytes_as_bytes. Qed.

Lemma length_as_bytes s : length (as_bytes s) = String.length s.
Proof. induction s; cbn; auto. Qed.

Lemma str_len_app s t : str_len (s +:+ t) = str_len s + str_len t.
Proof.
  unfold str_len. rewrite <-!length_as_bytes, as_bytes_app, length_app. lia.
Qed.

Lemma starts_with_app p s : starts_with p (p +:+ s) = true.
Proof.
  unfold starts_with. induction p as [|c p IH]; [by destruct s|].
  change (String c p +:+ s) with (String c (p +:+ s)). cbn.
  destruct (ascii_dec c c); [exact IH | done].
Qed.

Lemma str_drop_app p s : str_drop (String.length p) (p +:+ s) = s.
Proof. by induction p. Qed.

Lemma starts_with_spec p s :
  starts_with p s = true ↔ ∃ t, s = p +:+ t.
Proof.
  split; [|intros [t ->]; apply starts_with_app].
  unfold starts_with. revert s. induction p as [|c p IH]; intros s H; [by exists s|].
  destruct s as [|d s]; cbn in H; [discriminate|].
  destruct (ascii_dec c d) as [->|]; [|discriminate].
  destruct (IH s H) as [t ->]. by exists t.
Qed.

Lemma split_on_cons sep s : ∃ p ps, split_on sep s = p :: ps.
Proof.
  induction s as [|c s (p&ps&IH)]; cbn; [by eexists _, _|].
  rewrite IH. case_bool_decide; by eexists _, _.
Qed.

#[export] Hint Resolve byte_of_range as_bytes_u8 : runvane.
