(* ===== verification/Clock.v ===== *)
(** * The clock (src/src/clock/mod.rs)

    The trait [Clock] as a class of sources of the current time, the wall clock over
    what the operating system reports, and the manual clock the tests drive. The other
    files take a clock as the sequence of its readings; [readings] gives the sequence of
    a manual clock that is driven by a script. *)
From S2P Require Import Prelude.
Local Open Scope Z_scope.

(** [Clock::now_ms] *)
Class Clock (C : Type) := now : C → Z.

(** [SystemClock]: what [SystemTime::now().duration_since(UNIX_EPOCH)] gives, in whole
    milliseconds ([as_millis] is a [u128]); [None] when the time is before the epoch. *)
Record SystemClock := { since_epoch_millis : option N }.

#[export] Instance system_clock : Clock SystemClock := fun c =>
  wrap_i64 (Z.of_N (default 0%N (since_epoch_millis c))).

Record ManualClock := { inner : Z }.

#[export] Instance manual_clock : Clock ManualClock := fun c => inner c.

Definition clock_at (start_ms : Z) : ManualClock := {| inner := start_ms |}.
Definition clock_epoch : ManualClock := clock_at 0.
Definition clock_set (now_ms : Z) (c : ManualClock) : ManualClock := {| inner := now_ms |}.

(** [None]: the assertion on the delta. *)
Definition clock_advance (delta_ms : Z) (c : ManualClock) : option ManualClock :=
  if delta_ms <? 0 then None else Some {| inner := wrap_i64 (inner c + delta_ms) |}.

Definition clock_value (c : ManualClock) : Z := inner c.

(** The readings while a script of advances runs, one before each; [None] when an
    assertion fails on the way. *)
Fixpoint readings (deltas : list Z) (c : ManualClock) : option (list Z) :=
  match deltas with
  | [] => Some [now c]
  | d :: rest =>
      c' ← clock_advance d c;
      (cons (now c)) <$> readings rest c'
  end.

(** ** Properties *)

(** Until the year 292277026 the wall clock reads what the system reports, and never
    a negative number. *)
Lemma system_clock_reads c : Z.of_N (default 0%N (since_epoch_millis c)) ≤ i64_max →
  now c = Z.of_N (default 0%N (since_epoch_millis c)) ∧ 0 ≤ now c.
Proof.
  intros Hr. assert (Hn : now c = Z.of_N (default 0%N (since_epoch_millis c))).
  { apply wrap_i64_id. unfold in_i64, i64_min, i64_max in *. lia. }
  rewrite Hn. lia.
Qed.

(** Time on a manual clock only moves forward: a script of advances runs exactly when
    no delta is negative ([readings_refused]), and while the sum stays in range its
    readings are the start plus the partial sums of the deltas. *)
Lemma readings_sums deltas : ∀ c,
  0 ≤ inner c → inner c + foldr Z.add 0 deltas ≤ i64_max → Forall (Z.le 0) deltas →
  readings deltas c = Some (imap (fun i _ => inner c + foldr Z.add 0 (take i deltas)) (0 :: deltas)).
Proof.
  induction deltas as [|d deltas IH]; intros c Hc Hs Hd.
  { cbn. by rewrite Z.add_0_r. }
  apply Forall_cons in Hd as [Hd Hds]. cbn [foldr] in Hs.
  assert (0 ≤ foldr Z.add 0 deltas) by (clear -Hds; induction Hds; cbn; lia).
  cbn [readings]. unfold clock_advance. destruct (Z.ltb_spec d 0); [lia|]. cbn [mbind option_bind].
  rewrite wrap_i64_id by (unfold in_i64, i64_min, i64_max in *; lia).
  rewrite IH; cbn [inner]; try lia; [|done]. cbn [fmap option_fmap option_map imap].
  f_equal. f_equal; [unfold now, manual_clock; cbn; lia|]. f_equal; [cbn; lia|].
  apply imap_ext. intros i x _. cbn. lia.
Qed.

Lemma readings_refused deltas : ∀ c, readings deltas c = None ↔ ¬ Forall (Z.le 0) deltas.
Proof.
  induction deltas as [|d deltas IH]; intros c.
  { cbn. split; [done|]. intros Hn. by destruct Hn. }
  cbn [readings]. unfold clock_advance. rewrite Forall_cons.
  destruct (Z.ltb_spec d 0); cbn [mbind option_bind]; [split; [lia|done]|].
  rewrite fmap_None, IH. split; [naive_solver|]. intros Hn Hf. apply Hn. split; [lia|done].
Qed.
