(* ===== verification/Text.v ===== *)
(** * Text utilities of the standard library

    White space, trimming, splitting, searching and integer parsing of [&str],
    as the cron parser, the expression language and the dry-run analysis use
    them. *)
From stdpp Require Import pretty.
From S2P Require Import Prelude RustStrings.
Local Open Scope Z_scope.

(** The characters of [char::is_whitespace] (Unicode [White_Space]), as the
    strings of their UTF-8 bytes. *)
Definition whitespace_chars : list string :=
  of_bytes <$> [[9]; [10]; [11]; [12]; [13]; [32]; [194; 133]; [194; 160]; [225; 154; 128];
    [226; 128; 128]; [226; 128; 129]; [226; 128; 130]; [226; 128; 131]; [226; 128; 132];
    [226; 128; 133]; [226; 128; 134]; [226; 128; 135]; [226; 128; 136]; [226; 128; 137];
    [226; 128; 138]; [226; 128; 168]; [226; 128; 169]; [226; 128; 175]; [226; 129; 159];
    [227; 128; 128]].

Definition is_whitespace (c : string) : bool := bool_decide (c ∈ whitespace_chars).

Fixpoint drop_while {A} (p : A → bool) (l : list A) : list A :=
  match l with
  | [] => []
  | x :: rest => if p x then drop_while p rest else l
  end.

(** A string from its characters. *)
Definition collect (cs : list string) : string := foldr String.app EmptyString cs.

(** [str::trim] *)
Definition trim (s : string) : string :=
  collect (rev (drop_while is_whitespace (rev (drop_while is_whitespace (chars s))))).

(** The maximal runs of characters between white space, empty ones included. *)
Fixpoint words_from (cur : string) (cs : list string) : list string :=
  match cs with
  | [] => [cur]
  | c :: rest =>
      if is_whitespace c then cur :: words_from EmptyString rest
      else words_from (cur +:+ c) rest
  end.

(** [str::split_whitespace] *)
Definition split_whitespace (s : string) : list string :=
  List.filter (fun w => negb (is_empty w)) (words_from EmptyString (chars s)).

(** [slice::join] *)
Fixpoint join (sep : string) (l : list string) : string :=
  match l with
  | [] => EmptyString
  | [s] => s
  | s :: rest => s +:+ sep +:+ join sep rest
  end.

(** [str::find]: the byte offset of the first occurrence. *)
Fixpoint find (p s : string) : option nat :=
  if starts_with p s then Some 0%nat
  else match s with
       | EmptyString => None
       | String _ rest => S <$> find p rest
       end.

(** [&s[..n]] *)
Fixpoint str_take (n : nat) (s : string) : string :=
  match n, s with
  | O, _ => EmptyString
  | S n, EmptyString => EmptyString
  | S n, String c rest => String c (str_take n rest)
  end.

(** [str::ends_with] *)
Definition ends_with (p s : string) : bool :=
  (String.length p <=? String.length s)%nat &&
  bool_decide (str_drop (String.length s - String.length p) s = p).

(** [std::num::ParseIntError], with its [Display] texts. *)
Inductive ParseIntError := PieEmpty | PieInvalidDigit | PiePosOverflow | PieNegOverflow.

Definition parse_int_error_text (e : ParseIntError) : string :=
  match e with
  | PieEmpty => "cannot parse integer from empty string"
  | PieInvalidDigit => "invalid digit found in string"
  | PiePosOverflow => "number too large to fit in target type"
  | PieNegOverflow => "number too small to fit in target type"
  end.

(** The digit loop of [from_str_radix(_, 10)] for an unsigned type. *)
Fixpoint parse_digits (max acc : Z) (l : list Z) : result Z ParseIntError :=
  match l with
  | [] => Ok acc
  | b :: rest =>
      if negb (is_ascii_digit b) then Err PieInvalidDigit
      else if acc * 10 >? max then Err PiePosOverflow
      else if acc * 10 + (b - 48) >? max then Err PiePosOverflow
      else parse_digits max (acc * 10 + (b - 48)) rest
  end.

(** [str::parse] for an unsigned type with the given maximum: an optional plus
    sign, then decimal digits. *)
Definition parse_uint (max : Z) (s : string) : result Z ParseIntError :=
  match as_bytes s with
  | [] => Err PieEmpty
  | b :: rest =>
      if b =? 43 then match rest with [] => Err PieInvalidDigit | _ => parse_digits max 0 rest end
      else parse_digits max 0 (b :: rest)
  end.

Definition parse_u32 : string → result Z ParseIntError := parse_uint u32_max.
Definition parse_u16 : string → result Z ParseIntError := parse_uint 65535.
Definition parse_u64 : string → result Z ParseIntError := parse_uint u64_max.

(** [str::parse::<i64>]: a minus sign negates the digits after it. *)
Definition parse_i64 (s : string) : result Z ParseIntError :=
  match as_bytes s with
  | b :: rest =>
      if b =? 45 then
        match rest with
        | [] => Err PieInvalidDigit
        | _ => let? n := map_err (fun e => match e with PiePosOverflow => PieNegOverflow | e => e end)
                           (parse_digits (i64_max + 1) 0 rest) in Ok (- n)
        end
      else parse_uint i64_max s
  | [] => Err PieEmpty
  end.

(** The range of the second byte of a UTF-8 sequence and the number of bytes
    after it, by its first byte. *)
Definition utf8_second (b : Z) : option (Z * Z * nat) :=
  if (194 <=? b) && (b <=? 223) then Some (128, 191, 0%nat)
  else if b =? 224 then Some (160, 191, 1%nat)
  else if b =? 237 then Some (128, 159, 1%nat)
  else if (225 <=? b) && (b <=? 239) then Some (128, 191, 1%nat)
  else if b =? 240 then Some (144, 191, 2%nat)
  else if (241 <=? b) && (b <=? 243) then Some (128, 191, 2%nat)
  else if b =? 244 then Some (128, 143, 2%nat)
  else None.

Definition within (lo hi b : Z) : bool := (lo <=? b) && (b <=? hi).

(** U+FFFD *)
Definition replacement : list Z := [239; 191; 189].

(** The bytes of [String::from_utf8_lossy]: each maximal invalid piece becomes one
    replacement character. *)
Fixpoint lossy_bytes (l : list Z) : list Z :=
  match l with
  | [] => []
  | b :: l1 =>
      if b <? 128 then b :: lossy_bytes l1
      else match utf8_second b, l1 with
      | None, _ => replacement ++ lossy_bytes l1
      | Some _, [] => replacement
      | Some (lo, hi, more), c :: l2 =>
          if negb (within lo hi c) then replacement ++ lossy_bytes l1
          else match more, l2 with
          | O, _ => b :: c :: lossy_bytes l2
          | S _, [] => replacement
          | S more, d :: l3 =>
              if negb (within 128 191 d) then replacement ++ lossy_bytes l2
              else match more, l3 with
              | O, _ => b :: c :: d :: lossy_bytes l3
              | S _, [] => replacement
              | S _, e :: l4 =>
                  if negb (within 128 191 e) then replacement ++ lossy_bytes l3
                  else b :: c :: d :: e :: lossy_bytes l4
              end
          end
      end
  end.

Definition from_utf8_lossy (l : list Z) : string := of_bytes (lossy_bytes l).

(** [str::from_utf8] accepts the bytes: nothing in them has to be replaced. *)
Definition valid_utf8 (s : string) : bool := bool_decide (from_utf8_lossy (as_bytes s) = s).

Definition lf : ascii := ascii_of 10.
Definition lf_text : string := String lf EmptyString.

(** [VecDeque::pop_back] and the like. *)
Definition pop_back {A} (l : list A) : list A := take (length l - 1) l.

(** [strip_suffix] of a carriage return, as the line iterators do. *)
Definition strip_cr (s : string) : string :=
  if ends_with (of_bytes [13]) s then str_take (String.length s - 1) s else s.

(** [str::lines] and [BufRead::lines]: a final empty piece is no line. *)
Definition lines (text : string) : list string :=
  let pieces := split_on lf text in
  map strip_cr (match last pieces with
                | Some EmptyString => pop_back pieces
                | _ => pieces
                end).

(** A template: pieces of text, each followed by a placeholder, and a tail. *)
Definition render (pieces : list (string * string)) (tail : string) : string :=
  foldr (fun p acc => p.1 +:+ "${" +:+ p.2 +:+ "}" +:+ acc) tail pieces.

(** A string that can follow another: it does not start inside a character. *)
Definition on_boundary (s : string) : bool :=
  match s with EmptyString => true | String c _ => negb (is_continuation c) end.

(** ** Lemmas *)

Lemma parse_digits_range max acc l n : 0 ≤ acc ≤ max → parse_digits max acc l = Ok n → 0 ≤ n ≤ max.
Proof.
  revert acc. induction l as [|b l IH]; intros acc Hacc H; cbn in H; [by inv_result|].
  repeat case_match; to_prop; try done. unfold is_ascii_digit in *. to_prop.
  eapply IH, H. lia.
Qed.

Lemma parse_u32_range s n : parse_u32 s = Ok n → in_u32 n.
Proof.
  unfold parse_u32, parse_uint, in_u32. intros H. assert (0 ≤ 0 ≤ u32_max) by (unfold u32_max; lia).
  repeat case_match; try done; eauto using parse_digits_range.
Qed.

Lemma parse_digits_digits max acc l n : parse_digits max acc l = Ok n →
  Forall (fun b => is_ascii_digit b = true) l.
Proof.
  revert acc. induction l as [|b l IH]; intros acc H; cbn in H; [done|].
  repeat case_match; to_prop; try done. constructor; eauto.
Qed.

(** Only a plus sign and digits are accepted. *)
Lemma parse_u32_bytes s n b : parse_u32 s = Ok n → b ∈ as_bytes s →
  b = 43 ∨ is_ascii_digit b = true.
Proof.
  unfold parse_u32, parse_uint. intros H Hb. destruct (as_bytes s) as [|c l]; [done|].
  destruct (Z.eqb_spec c 43) as [->|].
  - destruct l as [|d l]; [done|]. apply parse_digits_digits in H.
    apply elem_of_cons in Hb as [->|Hb]; [by left|]. right.
    by eapply Forall_forall in H.
  - apply parse_digits_digits in H. right. by eapply Forall_forall in H.
Qed.

Lemma contains_byte_spec b s : contains_byte b s = true ↔ b ∈ as_bytes s.
Proof.
  unfold contains_byte. rewrite existsb_exists. setoid_rewrite <- list_elem_of_In.
  setoid_rewrite Z.eqb_eq. naive_solver.
Qed.

(** ** Characters *)

Lemma str_app_assoc (a b c : string) : (a +:+ b) +:+ c = a +:+ b +:+ c.
Proof. induction a as [|x a IH]; [done|]. change (String x ((a +:+ b) +:+ c) = String x (a +:+ b +:+ c)). by f_equal. Qed.

Lemma str_app_nil (a : string) : a +:+ "" = a.
Proof. induction a as [|x a IH]; [done|]. change (String x (a +:+ "") = String x a). by f_equal. Qed.

Lemma collect_app l1 l2 : collect (l1 ++ l2) = collect l1 +:+ collect l2.
Proof. induction l1 as [|s l1 IH]; cbn [collect foldr app]; [done|]. fold (collect (l1 ++ l2)). fold (collect l1). by rewrite IH, str_app_assoc. Qed.

Lemma collect_chars_from cur s : collect (chars_from cur s) = cur +:+ s.
Proof.
  revert cur. induction s as [|c s IH]; intros cur; cbn [chars_from].
  - cbn. by rewrite str_app_nil.
  - case_match.
    + by rewrite IH, str_app_assoc.
    + cbn [collect foldr]. fold (collect (chars_from (String c "") s)). by rewrite IH.
Qed.

(** A string is the concatenation of its characters. *)
Lemma collect_chars s : collect (chars s) = s.
Proof. destruct s as [|c s]; [done|]. cbn [chars]. by rewrite collect_chars_from. Qed.

Lemma chars_from_app cur s t : on_boundary t = true →
  chars_from cur (s +:+ t) = chars_from cur s ++ chars t.
Proof.
  intros Ht. revert cur. induction s as [|c s IH]; intros cur.
  - destruct t as [|d t]; [done|]. cbn in Ht. change ("" +:+ String d t) with (String d t).
    cbn [chars_from chars app]. by destruct (is_continuation d).
  - change (String c s +:+ t) with (String c (s +:+ t)). cbn [chars_from].
    destruct (is_continuation c); [apply IH|]. cbn. by rewrite IH.
Qed.

Lemma chars_app s t : on_boundary t = true → chars (s +:+ t) = chars s ++ chars t.
Proof.
  intros Ht. destruct s as [|c s]; [done|].
  change (String c s +:+ t) with (String c (s +:+ t)). cbn [chars]. by apply chars_from_app.
Qed.

Lemma collect_elem_bytes cs c b : c ∈ cs → b ∈ as_bytes c → b ∈ as_bytes (collect cs).
Proof.
  induction cs as [|x cs IH]; intros Hc Hb; [by apply elem_of_nil in Hc|].
  cbn [collect foldr]. fold (collect cs). rewrite as_bytes_app, elem_of_app.
  apply elem_of_cons in Hc as [->|Hc]; [by left|right; by apply IH].
Qed.

(** A one-byte character of a string is one of its bytes. *)
Lemma chars_elem_byte s x : String x EmptyString ∈ chars s → byte_of x ∈ as_bytes s.
Proof.
  intros Hx. rewrite <- (collect_chars s). eapply collect_elem_bytes; [done|left].
Qed.

(** ** Bytes a text does not contain *)

Definition lacks (b : Z) (s : string) : Prop := b ∉ as_bytes s.

Lemma lacks_app b s t : lacks b (s +:+ t) ↔ lacks b s ∧ lacks b t.
Proof. unfold lacks. rewrite as_bytes_app, not_elem_of_app. done. Qed.

Lemma lacks_nil b : lacks b EmptyString.
Proof. apply not_elem_of_nil. Qed.

(** Numbers are printed with digits and a sign. *)
Lemma lacks_digits b n s : ¬ (48 ≤ b ≤ 57) → lacks b s → lacks b (pretty_N_go n s).
Proof.
  intros Hb. revert s. induction (N.lt_wf_0 n) as [n _ IH]. intros s Hs. destruct (decide (n = 0)%N) as [->|Hn]; [done|].
  rewrite pretty_N_go_step by lia. apply IH; [apply N.div_lt; lia|].
  unfold lacks in *. cbn [as_bytes]. apply not_elem_of_cons. split; [|done].
  assert (Hd : (n `mod` 10 < 10)%N) by (apply N.mod_lt; lia). unfold pretty_N_char. clear -Hd Hb.
  destruct (n `mod` 10)%N as [|p]; [intros Heq; vm_compute in Heq; lia|].
  repeat (destruct p as [p|p|]; try lia; try (intros Heq; vm_compute in Heq; lia)).
Qed.

Lemma lacks_pretty_N b (n : N) : ¬ (48 ≤ b ≤ 57) → lacks b (pretty n).
Proof.
  intros Hb. unfold pretty, pretty_N. case_decide.
  - unfold lacks. intros [Heq|[]%elem_of_nil]%elem_of_cons. vm_compute in Heq. lia.
  - apply lacks_digits; [done|apply lacks_nil].
Qed.

Lemma lacks_pretty b (z : Z) : b ≠ 45 → ¬ (48 ≤ b ≤ 57) → lacks b (pretty z).
Proof.
  intros Hm Hb. destruct z as [|p|p]; [apply (lacks_pretty_N b 0%N Hb)|apply (lacks_pretty_N b (Npos p) Hb)|].
  change (pretty (Z.neg p)) with ("-" +:+ pretty (Npos p)). apply lacks_app. split; [|by apply lacks_pretty_N].
  unfold lacks. intros [Heq|[]%elem_of_nil]%elem_of_cons. vm_compute in Heq. done.
Qed.
