(* ===== verification/Ids.v ===== *)
(** * Typed identifiers (src/src/domain/ids.rs)

    The base32hex codec with its [u64] bit buffer, the parsers of the
    generated ids (one macro of the source, [parse_id] with the prefix, payload
    limit and kind of each id type), and the validators of tenant and handler
    names. An id is the string it wraps. [generate_id] takes the 16 bytes of the
    random UUID as an argument. *)
From S2P Require Import Prelude RustStrings.
Local Open Scope Z_scope.

Abbreviation WorkflowId := string (only parsing).
Abbreviation RunId := string (only parsing).
Abbreviation TaskRunId := string (only parsing).
Abbreviation HandlerId := string (only parsing).
Abbreviation TenantId := string (only parsing).

Inductive IdError :=
| WrongPrefix (id prefix : string)
| Malformed (kind id reason : string)
| TooLong (id : string) (limit : Z).

Definition MAX_ID_LEN : Z := 96.
Definition MAX_HANDLER_LEN : Z := 80.

Definition B32HEX : list Z := as_bytes "0123456789abcdefghijklmnopqrstuv".

(** ** Encoding

    [while bits >= 5 { bits -= 5; out.push(B32HEX[(buffer >> bits) & 0x1f]) }]:
    [bits] is at most 12 there, so three rounds are enough ([drain_done]). *)

Definition b32_digit (v : Z) : Z := nth (Z.to_nat v) B32HEX 0.

Fixpoint drain (fuel : nat) (buffer bits : Z) : list Z * Z :=
  match fuel with
  | O => ([], bits)
  | S fuel =>
      if 5 <=? bits then
        let bits := bits - 5 in
        let '(out, rest) := drain fuel buffer bits in
        (b32_digit (Z.land (Z.shiftr buffer bits) 31) :: out, rest)
      else ([], bits)
  end.

Definition push_byte (buffer byte : Z) : Z :=
  Z.lor (wrap_u64 (Z.shiftl buffer 8)) byte.

Fixpoint encode_loop (src : list Z) (buffer bits : Z) : list Z :=
  match src with
  | [] => if 0 <? bits then [b32_digit (Z.land (wrap_u64 (Z.shiftl buffer (5 - bits))) 31)]
          else []
  | byte :: rest =>
      let buffer := push_byte buffer byte in
      let '(out, bits) := drain 3 buffer (bits + 8) in
      out ++ encode_loop rest buffer bits
  end.

Definition encode_base32hex (src : list Z) : string := of_bytes (encode_loop src 0 0).

(** ** Decoding *)

(** A one-byte character. *)
Definition digit_char (b : Z) : string := String (ascii_of b) EmptyString.

Definition b32_value (ch : string) : option Z :=
  match as_bytes ch with
  | [b] => if (48 <=? b) && (b <=? 57) then Some (b - 48)
           else if (97 <=? b) && (b <=? 118) then Some (b - 97 + 10)
           else None
  | _ => None
  end.

Fixpoint decode_loop (input : list string) (buffer bits : Z) : result (list Z) string :=
  match input with
  | [] => Ok []
  | ch :: rest =>
      match b32_value ch with
      | None => Err ch
      | Some value =>
          let buffer := Z.lor (wrap_u64 (Z.shiftl buffer 5)) value in
          let bits := bits + 5 in
          if 8 <=? bits then
            let bits := bits - 8 in
            let? out := decode_loop rest buffer bits in
            Ok (Z.land (Z.shiftr buffer bits) 255 :: out)
          else decode_loop rest buffer bits
      end
  end.

(** [char_debug] renders [{ch:?}] in the message of an invalid character. *)
Definition decode_base32hex (char_debug : string → string) (input : string) (max_bytes : Z)
    : result (list Z) IdError :=
  if is_empty input then Err (Malformed "entity" input "empty id body")
  else
    let? out := map_err
      (fun ch => Malformed "entity" input ("invalid base32hex character " +:+ char_debug ch))
      (decode_loop (chars input) 0 0) in
    if max_bytes <? Z.of_nat (length out) then Err (TooLong input max_bytes) else Ok out.

(** ** Parsing *)

Record IdKind := { id_prefix : string; id_max_payload : Z; id_kind : string }.

Definition WorkflowId_kind := {| id_prefix := "wf_"; id_max_payload := 24; id_kind := "wf" |}.
Definition RunId_kind := {| id_prefix := "rn_"; id_max_payload := 26; id_kind := "run" |}.
Definition TaskRunId_kind := {| id_prefix := "tr_"; id_max_payload := 26; id_kind := "task" |}.
Definition HookId_kind := {| id_prefix := "hx_"; id_max_payload := 24; id_kind := "hook" |}.
Definition TokenId_kind := {| id_prefix := "tk_"; id_max_payload := 24; id_kind := "token" |}.
Definition CompactId_kind := {| id_prefix := "cs_"; id_max_payload := 24; id_kind := "compact" |}.
Definition AuditRecordId_kind := {| id_prefix := "au_"; id_max_payload := 26; id_kind := "audit" |}.

Definition id_kinds : list IdKind :=
  [WorkflowId_kind; RunId_kind; TaskRunId_kind; HookId_kind; TokenId_kind;
   CompactId_kind; AuditRecordId_kind].

Definition parse_id (k : IdKind) (char_debug : string → string) (value : string)
    : result string IdError :=
  if negb (starts_with (id_prefix k) value) then Err (WrongPrefix value (id_prefix k))
  else
    let body := str_drop (String.length (id_prefix k)) value in
    if MAX_ID_LEN <? str_len value then Err (TooLong value MAX_ID_LEN)
    else if is_empty body then Err (Malformed (id_kind k) value "missing id body")
    else
      let? _ := decode_base32hex char_debug body (id_max_payload k) in
      Ok value.

Definition generate_id (uuid : list Z) (prefix : string) : string :=
  prefix +:+ encode_base32hex uuid.

Definition validate_tenant_id (value : string) : result unit IdError :=
  if is_empty value || (48 <? str_len value) then
    Err (Malformed "tenant" value "tenant id must be 1..=48 characters")
  else
    let bytes := as_bytes value in
    if negb (is_ascii_lowercase (nth 0 bytes 0)) then
      Err (Malformed "tenant" value "tenant id must start with a lowercase letter")
    else if existsb (fun b => negb (is_ascii_lowercase b || is_ascii_digit b || (b =? 45))) bytes then
      Err (Malformed "tenant" value "tenant id may only contain [a-z0-9-]")
    else Ok tt.

Definition TenantId_parse (value : string) : result string IdError :=
  let? _ := validate_tenant_id value in Ok value.

(** The loop of [HandlerId::parse] over the bytes, with its [prev_dot] flag. *)
Fixpoint handler_scan (value : string) (bytes : list Z) (prev_dot : bool) : result bool IdError :=
  match bytes with
  | [] => Ok prev_dot
  | b :: rest =>
      if is_ascii_lowercase b || is_ascii_digit b || (b =? 45) then handler_scan value rest false
      else if b =? 46 then
        if prev_dot then
          Err (Malformed "handler" value "handler id may not contain empty dot segments")
        else handler_scan value rest true
      else Err (Malformed "handler" value "handler id may only contain [a-z0-9.-]")
  end.

Definition HandlerId_parse (value : string) : result string IdError :=
  if is_empty value || (MAX_HANDLER_LEN <? str_len value) then
    Err (Malformed "handler" value "handler id must be 1..=80 characters")
  else
    let bytes := as_bytes value in
    if negb (is_ascii_lowercase (nth 0 bytes 0)) then
      Err (Malformed "handler" value "handler id must start with a lowercase letter")
    else
      let? prev_dot := handler_scan value bytes false in
      if prev_dot : bool then Err (Malformed "handler" value "handler id may not end with a dot")
      else Ok value.

(** ** The bit buffer *)

Lemma lor_push b k x :
  0 ≤ k ≤ 64 → 0 ≤ x < 2 ^ k →
  Z.lor (wrap_u64 (Z.shiftl b k)) x = wrap_u64 (b * 2 ^ k) + x.
Proof.
  intros Hk Hx. rewrite Z.shiftl_mul_pow2 by lia.
  rewrite <-Z.add_lor_land. enough (Z.land (wrap_u64 (b * 2 ^ k)) x = 0) by lia.
  change (wrap_u64 (b * 2 ^ k)) with ((b * 2 ^ k) mod 2 ^ 64).
  apply Z.bits_inj'. intros i Hi. rewrite Z.land_spec, Z.bits_0.
  destruct (Z.lt_ge_cases i k).
  - rewrite Z.mod_pow2_bits_low, Z.mul_pow2_bits_low by lia. done.
  - rewrite <-(Z.mod_small x (2 ^ k)) by lia.
    rewrite (Z.mod_pow2_bits_high x) by lia. apply andb_false_r.
Qed.

(** Bits [j .. j+m) of the buffer after [k] fresh bits were shifted in. *)
Lemma field_push b k x j m :
  0 ≤ k ≤ 64 → 0 ≤ x < 2 ^ k → 0 ≤ j → 0 ≤ m → j + m ≤ 64 →
  Z.land (Z.shiftr (Z.lor (wrap_u64 (Z.shiftl b k)) x) j) (Z.ones m)
  = ((b * 2 ^ k + x) / 2 ^ j) mod 2 ^ m.
Proof.
  intros. rewrite lor_push, Z.land_ones, Z.shiftr_div_pow2 by lia.
  set (y := b * 2 ^ k). unfold wrap_u64.
  rewrite <-!(Z.land_ones _ m), <-!Z.shiftr_div_pow2 by lia.
  apply Z.bits_inj'. intros i Hi. rewrite !Z.land_spec.
  destruct (Z.lt_ge_cases i m) as [Him|Him];
    [|by rewrite Z.ones_spec_high, !andb_false_r by lia].
  f_equal. rewrite !Z.shiftr_spec by lia.
  rewrite <-(Z.mod_pow2_bits_low (y mod _ + x) 64) by lia.
  rewrite <-(Z.mod_pow2_bits_low (y + x) 64) by lia. f_equal.
  change (2 ^ 64) with 18446744073709551616. by rewrite Zplus_mod_idemp_l.
Qed.

Lemma low_push b k x j :
  0 ≤ k ≤ 64 → 0 ≤ x < 2 ^ k → 0 ≤ j ≤ 64 →
  Z.lor (wrap_u64 (Z.shiftl b k)) x mod 2 ^ j = (b * 2 ^ k + x) mod 2 ^ j.
Proof.
  intros. rewrite <-!Z.land_ones by lia.
  rewrite <-(Z.shiftr_0_r (Z.lor _ _)), field_push by lia.
  by rewrite Z.pow_0_r, Z.div_1_r, Z.land_ones by lia.
Qed.

(** ** Digits *)

Lemma b32_digit_spec v :
  0 ≤ v < 32 → b32_value (digit_char (b32_digit v)) = Some v ∧ 0 ≤ b32_digit v < 128.
Proof.
  intros Hv.
  assert (Hall : forallb (fun n => bool_decide
    (b32_value (digit_char (b32_digit (Z.of_nat n))) = Some (Z.of_nat n) ∧
     0 ≤ b32_digit (Z.of_nat n) < 128)) (List.seq 0 32) = true) by by vm_compute.
  rewrite forallb_forall in Hall. specialize (Hall (Z.to_nat v)).
  rewrite in_seq, bool_decide_eq_true, Z2Nat.id in Hall by lia. apply Hall. lia.
Qed.

Lemma decode_digit v rest db dbits :
  0 ≤ v < 32 →
  decode_loop (digit_char (b32_digit v) :: rest) db dbits =
  let buffer := Z.lor (wrap_u64 (Z.shiftl db 5)) v in
  if 8 <=? dbits + 5 then
    let? out := decode_loop rest buffer (dbits + 5 - 8) in
    Ok (Z.land (Z.shiftr buffer (dbits + 5 - 8)) 255 :: out)
  else decode_loop rest buffer (dbits + 5).
Proof. intros Hv. cbn [decode_loop]. by rewrite (proj1 (b32_digit_spec v Hv)). Qed.

Lemma chars_of_ascii l : Forall (fun b => 0 ≤ b < 128) l →
  chars (of_bytes l) = map digit_char l.
Proof.
  assert (Hfrom : ∀ l cur, Forall (fun b => 0 ≤ b < 128) l →
    chars_from cur (of_bytes l) = cur :: map digit_char l).
  { clear. intros l cur Hl. revert cur. induction Hl as [|b l Hb _ IH]; intros cur; [done|].
    cbn [of_bytes chars_from map]. unfold is_continuation.
    rewrite byte_of_ascii_of by (unfold is_u8; lia).
    destruct (Z.leb_spec 128 b); [lia|]. cbn. by rewrite IH. }
  destruct 1 as [|b l Hb Hl]; [done|]. cbn. by rewrite Hfrom.
Qed.

(** ** The codec round trip *)

(** The decoder lags the encoder by the byte [p] of which the encoder still
    holds the low [e] bits and the decoder the high [8 - e]. *)
Definition in_flight (e p eb db : Z) : Prop :=
  is_u8 p ∧ eb mod 2 ^ e = p mod 2 ^ e ∧ db mod 2 ^ (8 - e) = p / 2 ^ e.

Lemma field31 b x j : is_u8 x → 0 ≤ j ≤ 59 →
  Z.land (Z.shiftr (push_byte b x) j) 31 = ((b * 256 + x) / 2 ^ j) mod 32.
Proof.
  intros Hx Hj. unfold push_byte. change 31 with (Z.ones 5).
  by rewrite (field_push b 8 x j 5) by (unfold is_u8 in Hx; lia).
Qed.

Lemma field255 b v j : 0 ≤ v < 32 → 0 ≤ j ≤ 56 →
  Z.land (Z.shiftr (Z.lor (wrap_u64 (Z.shiftl b 5)) v) j) 255 = ((b * 32 + v) / 2 ^ j) mod 256.
Proof.
  intros. change 255 with (Z.ones 8). by rewrite (field_push b 5 v j 8) by lia.
Qed.

Lemma low_push5 b v j : 0 ≤ v < 32 → 0 ≤ j ≤ 64 →
  Z.lor (wrap_u64 (Z.shiftl b 5)) v mod 2 ^ j = (b * 32 + v) mod 2 ^ j.
Proof. intros. by rewrite (low_push b 5 v j) by lia. Qed.

Lemma low_push5_twice b v w j : 0 ≤ v < 32 → 0 ≤ w < 32 → 0 ≤ j ≤ 64 →
  (Z.lor (wrap_u64 (Z.shiftl b 5)) v * 32 + w) mod 2 ^ j = ((b * 32 + v) * 32 + w) mod 2 ^ j.
Proof.
  intros. rewrite <-(Zplus_mod_idemp_l (_ * 32)), <-(Zmult_mod_idemp_l (Z.lor _ _)).
  rewrite low_push5 by lia. by rewrite Zmult_mod_idemp_l, Zplus_mod_idemp_l.
Qed.

Lemma low_push8 b x j : is_u8 x → 0 ≤ j ≤ 64 →
  push_byte b x mod 2 ^ j = (b * 256 + x) mod 2 ^ j.
Proof. unfold is_u8, push_byte. intros. by rewrite (low_push b 8 x j) by lia. Qed.

(** A digit that does not complete a byte. *)
Lemma decode_open v rest db d : 0 ≤ v < 32 → 0 ≤ d < 3 →
  decode_loop (digit_char (b32_digit v) :: rest) db d
  = decode_loop rest (Z.lor (wrap_u64 (Z.shiftl db 5)) v) (d + 5).
Proof. intros Hv Hd. rewrite decode_digit by done. destruct (Z.leb_spec 8 (d + 5)); [lia|done]. Qed.

(** A digit that completes the byte [p]. *)
Lemma decode_close v rest db d p : 0 ≤ v < 32 → 3 ≤ d < 8 →
  ((db * 32 + v) / 2 ^ (d - 3)) mod 256 = p →
  decode_loop (digit_char (b32_digit v) :: rest) db d
  = let? out := decode_loop rest (Z.lor (wrap_u64 (Z.shiftl db 5)) v) (d - 3) in Ok (p :: out).
Proof.
  intros Hv Hd <-. rewrite decode_digit by done. destruct (Z.leb_spec 8 (d + 5)); [|lia].
  cbn zeta. replace (d + 5 - 8) with (d - 3) by lia. by rewrite field255 by lia.
Qed.

Lemma encode_step1 e x src eb : is_u8 x → 0 ≤ e < 2 →
  encode_loop (x :: src) eb e
  = b32_digit (((eb * 256 + x) / 2 ^ (e + 3)) mod 32) :: encode_loop src (push_byte eb x) (e + 3).
Proof.
  intros Hx He. rewrite <-field31 by (done || lia).
  assert (e = 0 ∨ e = 1) as [-> | ->] by lia; done.
Qed.

Lemma encode_step2 e x src eb : is_u8 x → 2 ≤ e < 5 →
  encode_loop (x :: src) eb e
  = b32_digit (((eb * 256 + x) / 2 ^ (e + 3)) mod 32)
    :: b32_digit (((eb * 256 + x) / 2 ^ (e - 2)) mod 32) :: encode_loop src (push_byte eb x) (e - 2).
Proof.
  intros Hx He. rewrite <-!field31 by (done || lia).
  assert (e = 2 ∨ e = 3 ∨ e = 4) as [-> | [-> | ->]] by lia; done.
Qed.

(** Arithmetic on divisions and remainders by constant powers of two. *)
Ltac pow2_arith :=
  unfold in_flight, is_u8 in *;
  repeat match goal with
  | H : context [2 ^ ?k] |- _ => let v := eval vm_compute in (2 ^ k) in change (2 ^ k) with v in H
  | |- context [2 ^ ?k] => let v := eval vm_compute in (2 ^ k) in change (2 ^ k) with v
  end;
  Z.to_euclidean_division_equations; lia.

Lemma encode_decode src : Forall is_u8 src →
  (∀ eb db, decode_loop (map digit_char (encode_loop src eb 0)) db 0 = Ok src) ∧
  (∀ e p eb db, 0 < e < 5 → in_flight e p eb db →
     decode_loop (map digit_char (encode_loop src eb e)) db (8 - e) = Ok (p :: src)).
Proof.
  assert (Hm : ∀ a, 0 ≤ a mod 32 < 32) by (intros; apply Z.mod_pos_bound; lia).
  induction 1 as [|x src Hx _ [IH0 IH]]; (split; [intros eb db|intros e p eb db He Hp]).
  - done.
  - cbn [encode_loop]. destruct (Z.ltb_spec 0 e); [|lia]. cbn [map].
    change 31 with (Z.ones 5). rewrite Z.land_ones by lia. change (2 ^ 5) with 32.
    rewrite (decode_close _ _ _ _ p); [done|apply Hm|lia|].
    rewrite Z.shiftl_mul_pow2 by lia. unfold wrap_u64.
    assert (e = 1 ∨ e = 2 ∨ e = 3 ∨ e = 4) as [-> | [-> | [-> | ->]]] by lia; pow2_arith.
  - rewrite encode_step1 by (done || lia). cbn [map]. rewrite decode_open by (apply Hm || lia).
    apply (IH 3); [lia|]. split; [done|]. rewrite low_push8, low_push5 by (apply Hm || lia || done).
    pow2_arith.
  - assert (e = 1 ∨ e = 2 ∨ e = 3 ∨ e = 4) as [-> | [-> | [-> | ->]]] by lia.
    + rewrite encode_step1 by (done || lia). cbn [map].
      rewrite (decode_close _ _ _ _ p); [|apply Hm|lia|pow2_arith].
      change (8 - 1 - 3) with (8 - 4). change (1 + 3) with 4. rewrite (IH 4 x); [done|lia|].
      split; [done|]. rewrite low_push8, low_push5 by (apply Hm || lia || done). pow2_arith.
    + rewrite encode_step2 by (done || lia). cbn [map].
      rewrite (decode_close _ _ _ _ p); [|apply Hm|lia|pow2_arith].
      rewrite (decode_close _ _ _ _ x); [|apply Hm|lia|].
      * by rewrite IH0.
      * change (2 ^ (8 - 2 - 3 - 3)) with 1. rewrite Z.div_1_r. change 256 with (2 ^ 8).
        rewrite low_push5_twice by (apply Hm || lia). pow2_arith.
    + rewrite encode_step2 by (done || lia). cbn [map].
      rewrite (decode_close _ _ _ _ p); [|apply Hm|lia|pow2_arith].
      rewrite decode_open by (apply Hm || lia).
      change (8 - 3 - 3 + 5) with (8 - 1). change (3 - 2) with 1. rewrite (IH 1 x); [done|lia|].
      split; [done|].
      rewrite low_push8, low_push5, low_push5_twice by (apply Hm || lia || done). pow2_arith.
    + rewrite encode_step2 by (done || lia). cbn [map].
      rewrite (decode_close _ _ _ _ p); [|apply Hm|lia|pow2_arith].
      rewrite decode_open by (apply Hm || lia).
      change (8 - 4 - 3 + 5) with (8 - 2). change (4 - 2) with 2. rewrite (IH 2 x); [done|lia|].
      split; [done|].
      rewrite low_push8, low_push5, low_push5_twice by (apply Hm || lia || done). pow2_arith.
Qed.

(** Every digit the encoder emits is one of the 32 of the alphabet. *)
Lemma encode_ascii src eb e : Forall is_u8 src → 0 ≤ e < 5 →
  Forall (fun b => 0 ≤ b < 128) (encode_loop src eb e).
Proof.
  assert (Hd : ∀ a, 0 ≤ b32_digit (a mod 32) < 128)
    by (intros; apply b32_digit_spec, Z.mod_pos_bound; lia).
  intros Hs. revert eb e. induction Hs as [|x src Hx _ IH]; intros eb e He.
  - cbn. destruct (0 <? e); constructor; [|constructor].
    change 31 with (Z.ones 5). rewrite Z.land_ones by lia. apply Hd.
  - destruct (Z.lt_ge_cases e 2).
    + rewrite encode_step1 by (done || lia). constructor; [apply Hd|]. apply IH; lia.
    + rewrite encode_step2 by (done || lia). do 2 (constructor; [apply Hd|]). apply IH; lia.
Qed.

(** Number of digits: [ceil (8 n / 5)]. *)
Lemma encode_length src eb e : Forall is_u8 src → 0 ≤ e < 5 →
  Z.of_nat (length (encode_loop src eb e)) = (8 * Z.of_nat (length src) + e + 4) / 5.
Proof.
  intros Hs. revert eb e. induction Hs as [|x src Hx _ IH]; intros eb e He.
  - cbn [encode_loop]. destruct (Z.ltb_spec 0 e); cbn [length]; Z.to_euclidean_division_equations; lia.
  - destruct (Z.lt_ge_cases e 2).
    + rewrite encode_step1 by (done || lia). cbn [length]. rewrite Nat2Z.inj_succ, IH by lia.
      Z.to_euclidean_division_equations; lia.
    + rewrite encode_step2 by (done || lia). cbn [length]. rewrite !Nat2Z.inj_succ, IH by lia.
      Z.to_euclidean_division_equations; lia.
Qed.

Lemma is_empty_spec s : is_empty s = true ↔ s = EmptyString.
Proof. apply bool_decide_eq_true. Qed.

Lemma is_empty_false s : is_empty s = false ↔ s ≠ EmptyString.
Proof. apply bool_decide_eq_false. Qed.

Lemma length_of_bytes l : String.length (of_bytes l) = length l.
Proof. induction l; cbn; auto. Qed.

Lemma encode_nonempty src : Forall is_u8 src → src ≠ [] → encode_base32hex src ≠ EmptyString.
Proof.
  intros Hs Hne H. apply (f_equal String.length) in H.
  unfold encode_base32hex in H. rewrite length_of_bytes in H. cbn in H.
  pose proof (encode_length src 0 0 Hs ltac:(lia)) as Hl. rewrite H in Hl.
  destruct src; [done|]. cbn [length] in Hl. Z.to_euclidean_division_equations; lia.
Qed.

Lemma decode_encode_loop src : Forall is_u8 src →
  decode_loop (chars (encode_base32hex src)) 0 0 = Ok src.
Proof.
  intros Hs. unfold encode_base32hex. rewrite chars_of_ascii by (apply encode_ascii; [done|lia]).
  apply (encode_decode src Hs).
Qed.

Lemma encode_base32hex_inj src1 src2 : Forall is_u8 src1 → Forall is_u8 src2 →
  encode_base32hex src1 = encode_base32hex src2 → src1 = src2.
Proof.
  intros H1%decode_encode_loop H2%decode_encode_loop Heq. rewrite Heq in H1. congruence.
Qed.

(** The decoder consumes five bits a character and emits whole bytes. *)
Lemma decode_loop_ok cs db d : 0 ≤ d < 8 →
  match decode_loop cs db d with
  | Ok out => Forall (fun c => is_Some (b32_value c)) cs ∧
      Z.of_nat (length out) = (5 * Z.of_nat (length cs) + d) / 8
  | Err c => c ∈ cs ∧ b32_value c = None
  end.
Proof.
  revert db d. induction cs as [|c cs IH]; intros db d Hd; cbn [decode_loop].
  - split; [constructor|]. cbn. Z.to_euclidean_division_equations; lia.
  - destruct (b32_value c) as [v|] eqn:Hv; [|by split; [constructor|]].
    destruct (Z.leb_spec 8 (d + 5)).
    + specialize (IH (Z.lor (wrap_u64 (Z.shiftl db 5)) v) (d + 5 - 8) ltac:(lia)).
      destruct (decode_loop cs _ _) as [out|c']; cbn [rbind].
      * destruct IH as [Hf Hl]. split; [by constructor|]. cbn [length].
        rewrite !Nat2Z.inj_succ, Hl. Z.to_euclidean_division_equations; lia.
      * split; [apply list_elem_of_further|]; apply IH.
    + specialize (IH (Z.lor (wrap_u64 (Z.shiftl db 5)) v) (d + 5) ltac:(lia)).
      destruct (decode_loop cs _ _) as [out|c'].
      * destruct IH as [Hf Hl]. split; [by constructor|]. cbn [length].
        rewrite !Nat2Z.inj_succ, Hl. Z.to_euclidean_division_equations; lia.
      * split; [apply list_elem_of_further|]; apply IH.
Qed.

Lemma decode_base32hex_ok dbg body max :
  is_ok (decode_base32hex dbg body max) = true ↔
  body ≠ EmptyString ∧ Forall (fun c => is_Some (b32_value c)) (chars body) ∧
  5 * Z.of_nat (length (chars body)) / 8 ≤ max.
Proof.
  unfold decode_base32hex. destruct (is_empty body) eqn:He.
  { apply is_empty_spec in He. split; [done|tauto]. }
  apply is_empty_false in He. pose proof (decode_loop_ok (chars body) 0 0 ltac:(lia)) as H.
  destruct (decode_loop _ _ _) as [out|c]; cbn [map_err rbind].
  - destruct H as [Hf Hl]. rewrite Z.add_0_r in Hl. rewrite Hl.
    destruct (Z.ltb_spec max (5 * Z.of_nat (length (chars body)) / 8)); cbn; [|tauto].
    split; [done|lia].
  - split; [done|]. intros (_&Hf&_). rewrite Forall_forall in Hf.
    destruct H as [Hc Hn]. destruct (Hf c Hc); congruence.
Qed.

Lemma parse_id_ok k dbg body :
  str_len (id_prefix k +:+ body) ≤ MAX_ID_LEN →
  is_ok (decode_base32hex dbg body (id_max_payload k)) = true →
  parse_id k dbg (id_prefix k +:+ body) = Ok (id_prefix k +:+ body).
Proof.
  intros Hl Hd. unfold parse_id. rewrite starts_with_app, str_drop_app. cbn [negb].
  destruct (Z.ltb_spec MAX_ID_LEN (str_len (id_prefix k +:+ body))); [lia|].
  destruct (is_empty body) eqn:He.
  - apply is_empty_spec in He. by apply decode_base32hex_ok in Hd as [? _].
  - by destruct (decode_base32hex _ _ _).
Qed.

(** ** Handler names *)

Definition name_byte (b : Z) : Prop :=
  is_ascii_lowercase b || is_ascii_digit b || (b =? 45) = true.

Definition segment_ok (seg : string) : Prop :=
  seg ≠ EmptyString ∧ Forall name_byte (as_bytes seg).

Lemma segment_ok_cons c p :
  segment_ok (String c p) ↔ name_byte (byte_of c) ∧ Forall name_byte (as_bytes p).
Proof. unfold segment_ok. cbn [as_bytes]. rewrite Forall_cons. naive_solver. Qed.

(** The scan accepts exactly dot-separated non-empty segments; [prev_dot] says
    whether the current segment is still empty. *)
Lemma handler_scan_spec value s p ps : split_on "." s = p :: ps →
  (handler_scan value (as_bytes s) true = Ok false ↔ Forall segment_ok (p :: ps)) ∧
  (handler_scan value (as_bytes s) false = Ok false ↔
   Forall name_byte (as_bytes p) ∧ Forall segment_ok ps).
Proof.
  revert p ps. induction s as [|c s IH]; intros p ps Hsplit.
  { cbn in Hsplit. simplify_eq. cbn. rewrite Forall_singleton. unfold segment_ok.
    split; [naive_solver|]. by repeat split; constructor. }
  destruct (split_on_cons "." s) as (q&qs&Hq). destruct (IH q qs Hq) as [IHt IHf].
  cbn [split_on] in Hsplit. rewrite Hq in Hsplit. cbn [as_bytes handler_scan].
  destruct (is_ascii_lowercase (byte_of c) || is_ascii_digit (byte_of c) || (byte_of c =? 45)) eqn:Hb.
  - case_bool_decide as Hdot; [by subst c|]. simplify_eq.
    rewrite Forall_cons, segment_ok_cons, IHf. cbn [as_bytes]. rewrite Forall_cons. unfold name_byte at 1 3. tauto.
  - case_bool_decide as Hdot.
    + subst c. simplify_eq. cbn [byte_of Z.eqb]. change (byte_of "." =? 46) with true. cbv iota.
      rewrite IHt, Forall_cons. unfold segment_ok at 1. cbn.
      split; [split; [done|naive_solver]|]. rewrite Forall_nil. tauto.
    + simplify_eq. destruct (Z.eqb_spec (byte_of c) 46) as [He|_].
      { destruct Hdot. rewrite <-(ascii_of_byte_of c), He. reflexivity. }
      rewrite Forall_cons, segment_ok_cons. cbn [as_bytes]. rewrite Forall_cons.
      unfold name_byte at 1 3. rewrite Hb. naive_solver.
Qed.

(** ** Properties *)

(** Decoding an encoded byte string gives the bytes back, for every
    non-empty payload within the caller's limit: the 64-bit shift buffer of
    either loop never loses a pending bit. *)
Theorem base32hex_roundtrip dbg src max :
  Forall is_u8 src → src ≠ [] → Z.of_nat (length src) ≤ max →
  decode_base32hex dbg (encode_base32hex src) max = Ok src.
Proof.
  intros Hs Hne Hmax. unfold decode_base32hex.
  destruct (is_empty (encode_base32hex src)) eqn:He.
  { apply is_empty_spec in He. by destruct (encode_nonempty src Hs Hne). }
  rewrite decode_encode_loop by done. cbn [map_err rbind].
  destruct (Z.ltb_spec max (Z.of_nat (length src))); [lia|done].
Qed.

Lemma base32hex_roundtrip_witness :
  decode_base32hex id (encode_base32hex [255; 0; 17; 128; 9; 66; 7]) 24 = Ok [255; 0; 17; 128; 9; 66; 7].
Proof.
  apply base32hex_roundtrip; [repeat (constructor; [unfold is_u8; lia|]); constructor|done|cbn; lia].
Defined.

Lemma generated_id_ok k dbg uuid :
  k ∈ id_kinds → Forall is_u8 uuid → length uuid = 16%nat →
  parse_id k dbg (generate_id uuid (id_prefix k)) = Ok (generate_id uuid (id_prefix k)).
Proof.
  intros Hk Hu Hl. unfold generate_id.
  pose proof (encode_length uuid 0 0 Hu ltac:(lia)) as Hel. rewrite Hl in Hel.
  assert (Hp : str_len (id_prefix k) = 3 ∧ 24 ≤ id_max_payload k)
    by (apply list_elem_of_In in Hk; cbn in Hk; destruct_or? Hk; by subst).
  apply parse_id_ok.
  - rewrite str_len_app. unfold encode_base32hex, MAX_ID_LEN.
    unfold str_len at 2. rewrite length_of_bytes. change ((8 * Z.of_nat 16 + 0 + 4) / 5) with 26 in Hel. lia.
  - apply decode_base32hex_ok. split.
    { apply encode_nonempty; [done|]. by intros ->. }
    pose proof (decode_loop_ok (chars (encode_base32hex uuid)) 0 0 ltac:(lia)) as H.
    rewrite decode_encode_loop in H by done. rewrite Hl in H. split; [apply H|].
    rewrite Z.add_0_r in H. lia.
Qed.

(** An id generated from any 16 UUID bytes is accepted by the parser of
    every id type of the platform: 26 digits fit the 96-byte id limit, and the
    16 decoded bytes fit each type's payload limit. *)
Theorem generate_id_parses k dbg uuid :
  k ∈ id_kinds → Forall is_u8 uuid → length uuid = 16%nat →
  parse_id k dbg (generate_id uuid (id_prefix k)) = Ok (generate_id uuid (id_prefix k)).
Proof. apply generated_id_ok. Qed.

Lemma generate_id_parses_witness :
  parse_id RunId_kind id (generate_id (replicate 16 200) "rn_")
  = Ok (generate_id (replicate 16 200) "rn_").
Proof.
  apply (generate_id_parses RunId_kind).
  - unfold id_kinds. set_solver.
  - apply Forall_replicate. unfold is_u8. lia.
  - reflexivity.
Defined.

(** The parsers of the generated ids accept exactly a value with the type's
    prefix, at most 96 bytes, whose non-empty body consists of base32hex
    digits that decode to at most the type's payload limit; an accepted id is
    the value itself. *)
Theorem parse_id_iff k dbg value w :
  parse_id k dbg value = Ok w ↔
  w = value ∧ ∃ body, value = id_prefix k +:+ body ∧ body ≠ EmptyString ∧
    str_len value ≤ MAX_ID_LEN ∧
    Forall (fun c => is_Some (b32_value c)) (chars body) ∧
    5 * Z.of_nat (length (chars body)) / 8 ≤ id_max_payload k.
Proof.
  split.
  - intros H. unfold parse_id in H.
    destruct (starts_with (id_prefix k) value) eqn:Hp; cbn [negb] in H; [|discriminate].
    apply starts_with_spec in Hp as [body ->]. rewrite str_drop_app in H.
    destruct (Z.ltb_spec MAX_ID_LEN (str_len (id_prefix k +:+ body))); [discriminate|].
    destruct (is_empty body) eqn:He; [discriminate|]. inv_result.
    split; [done|]. exists body. repeat split; try done;
      apply (decode_base32hex_ok dbg body (id_max_payload k)); by rewrite Heqr.
  - intros (->&body&->&Hne&Hl&Hc&Hm). apply parse_id_ok; [done|].
    by apply decode_base32hex_ok.
Qed.

(** Distinct ids can decode to the same payload: the decoder drops the
    trailing bits of the last digit without looking at them, so the parser
    accepts both spellings. *)
Theorem parse_id_alias dbg :
  parse_id RunId_kind dbg "rn_00" = Ok "rn_00" ∧
  parse_id RunId_kind dbg "rn_01" = Ok "rn_01" ∧
  decode_base32hex dbg "00" 26 = decode_base32hex dbg "01" 26.
Proof. repeat split. Qed.

(** A handler id is accepted exactly when it has 1 to 80 bytes, starts with
    a lowercase letter, and splits at its dots into non-empty segments of
    lowercase letters, digits and dashes. *)
Theorem HandlerId_parse_iff value w :
  HandlerId_parse value = Ok w ↔
  w = value ∧ 1 ≤ str_len value ≤ MAX_HANDLER_LEN ∧
  is_ascii_lowercase (nth 0 (as_bytes value) 0) = true ∧
  Forall segment_ok (split_on "." value).
Proof.
  unfold HandlerId_parse. destruct value as [|c s].
  { split; [discriminate|]. intros (_&[H _]&_). by destruct H. }
  assert (Hlen : 1 ≤ str_len (String c s)) by (unfold str_len; cbn; lia).
  change (is_empty (String c s)) with false. cbn [orb].
  destruct (Z.ltb_spec MAX_HANDLER_LEN (str_len (String c s))); [split; [done|lia]|].
  destruct (is_ascii_lowercase (nth 0 (as_bytes (String c s)) 0)) eqn:Hlow; cbn [negb];
    [|naive_solver].
  destruct (split_on_cons "." (String c s)) as (p&ps&Hsplit).
  destruct (handler_scan_spec (String c s) _ p ps Hsplit) as [_ Hs]. rewrite Hsplit, Forall_cons.
  assert (Hp : segment_ok p ↔ Forall name_byte (as_bytes p)).
  { unfold segment_ok. cbn [split_on] in Hsplit.
    case_bool_decide as Hd; [subst c; by vm_compute in Hlow|].
    destruct (split_on_cons "." s) as (q&qs&Hq). rewrite Hq in Hsplit. simplify_eq. naive_solver. }
  rewrite Hp. destruct (handler_scan _ _ _) as [[]|e]; cbn [rbind]; naive_solver.
Qed.

(** A tenant id is accepted exactly when it has 1 to 48 bytes, starts with a
    lowercase letter and contains only lowercase letters, digits and dashes. *)
Theorem validate_tenant_id_iff value :
  validate_tenant_id value = Ok tt ↔
  1 ≤ str_len value ≤ 48 ∧ is_ascii_lowercase (nth 0 (as_bytes value) 0) = true ∧
  Forall name_byte (as_bytes value).
Proof.
  unfold validate_tenant_id. destruct value as [|c s].
  { split; [discriminate|]. intros ([H _]&_). by destruct H. }
  assert (Hlen : 1 ≤ str_len (String c s)) by (unfold str_len; cbn; lia).
  change (is_empty (String c s)) with false. cbn [orb].
  destruct (Z.ltb_spec 48 (str_len (String c s))); [split; [done|lia]|].
  destruct (is_ascii_lowercase (nth 0 (as_bytes (String c s)) 0)); cbn [negb]; [|naive_solver].
  destruct (existsb _ _) eqn:Hex.
  - apply existsb_exists in Hex as (b&Hin&Hb). apply negb_true_iff in Hb.
    split; [done|]. intros (_&_&Hf). rewrite Forall_forall in Hf.
    specialize (Hf b (proj2 (list_elem_of_In _ _) Hin)). unfold name_byte in Hf. congruence.
  - split; [|done]. intros _. split; [done|]. split; [done|]. apply Forall_forall.
    intros b Hb%list_elem_of_In. unfold name_byte. apply negb_false_iff, not_true_iff_false.
    intros Hn. apply not_true_iff_false in Hex. apply Hex, existsb_exists. by exists b.
Qed.
