(* ===== verification/Status.v ===== *)
(** * Status enumerations (src/src/domain/status.rs)

    The enums of the source, each in a module of its own so that the
    constructors keep their names ([RunStatus.Queued], [TaskStatus.Running]),
    their classification methods, and the order of [Priority]. *)
From S2P Require Import Prelude.

Module RunStatus.
Inductive RunStatus :=
| Queued | Running | Succeeded | Failed | Cancelled | TimedOut.
End RunStatus.

Module TaskStatus.
Inductive TaskStatus :=
| Pending | Running | Succeeded | Failed | Skipped.
End TaskStatus.

Module FailureKind.
Inductive FailureKind :=
| InvalidInput | Rejected | TransientFailure | Timeout | HandlerCrash
| Cancelled | Exhausted.
End FailureKind.

Module Priority.
Inductive Priority := High | Normal | Low.
End Priority.

Abbreviation RunStatus := RunStatus.RunStatus.
Abbreviation TaskStatus := TaskStatus.TaskStatus.
Abbreviation FailureKind := FailureKind.FailureKind.
Abbreviation Priority := Priority.Priority.

#[export] Instance RunStatus_eq_dec : EqDecision RunStatus.
Proof. solve_decision. Defined.
#[export] Instance TaskStatus_eq_dec : EqDecision TaskStatus.
Proof. solve_decision. Defined.
#[export] Instance FailureKind_eq_dec : EqDecision FailureKind.
Proof. solve_decision. Defined.
#[export] Instance Priority_eq_dec : EqDecision Priority.
Proof. solve_decision. Defined.

(** ** [impl RunStatus] *)

Definition run_is_terminal (s : RunStatus) : bool :=
  match s with
  | RunStatus.Succeeded | RunStatus.Failed | RunStatus.Cancelled
  | RunStatus.TimedOut => true
  | _ => false
  end.

Definition run_is_active (s : RunStatus) : bool :=
  match s with RunStatus.Queued | RunStatus.Running => true | _ => false end.

Definition run_label (s : RunStatus) : string :=
  match s with
  | RunStatus.Queued => "queued"
  | RunStatus.Running => "running"
  | RunStatus.Succeeded => "succeeded"
  | RunStatus.Failed => "failed"
  | RunStatus.Cancelled => "cancelled"
  | RunStatus.TimedOut => "timed out"
  end.

(** The derived [Display] (strum, lowercase) and [Debug] names. *)
Definition run_display (s : RunStatus) : string :=
  match s with
  | RunStatus.Queued => "queued"
  | RunStatus.Running => "running"
  | RunStatus.Succeeded => "succeeded"
  | RunStatus.Failed => "failed"
  | RunStatus.Cancelled => "cancelled"
  | RunStatus.TimedOut => "timedout"
  end.

Definition run_debug (s : RunStatus) : string :=
  match s with
  | RunStatus.Queued => "Queued"
  | RunStatus.Running => "Running"
  | RunStatus.Succeeded => "Succeeded"
  | RunStatus.Failed => "Failed"
  | RunStatus.Cancelled => "Cancelled"
  | RunStatus.TimedOut => "TimedOut"
  end.

(** The derived [FromStr]. *)
Definition run_from_str (s : string) : option RunStatus :=
  List.find (fun st => bool_decide (s = run_display st))
    [RunStatus.Queued; RunStatus.Running; RunStatus.Succeeded; RunStatus.Failed; RunStatus.Cancelled;
     RunStatus.TimedOut].

(** ** [impl TaskStatus] *)

Definition task_is_terminal (s : TaskStatus) : bool :=
  match s with
  | TaskStatus.Succeeded | TaskStatus.Failed | TaskStatus.Skipped => true
  | _ => false
  end.

Definition task_is_active (s : TaskStatus) : bool :=
  match s with TaskStatus.Pending | TaskStatus.Running => true | _ => false end.

Definition task_display (s : TaskStatus) : string :=
  match s with
  | TaskStatus.Pending => "pending"
  | TaskStatus.Running => "running"
  | TaskStatus.Succeeded => "succeeded"
  | TaskStatus.Failed => "failed"
  | TaskStatus.Skipped => "skipped"
  end.

Definition task_debug (s : TaskStatus) : string :=
  match s with
  | TaskStatus.Pending => "Pending"
  | TaskStatus.Running => "Running"
  | TaskStatus.Succeeded => "Succeeded"
  | TaskStatus.Failed => "Failed"
  | TaskStatus.Skipped => "Skipped"
  end.

(** ** [impl FailureKind] *)

Definition retryable (k : FailureKind) : bool :=
  match k with
  | FailureKind.TransientFailure | FailureKind.Timeout
  | FailureKind.HandlerCrash => true
  | _ => false
  end.

Definition failure_code (k : FailureKind) : string :=
  match k with
  | FailureKind.InvalidInput => "invalid_input"
  | FailureKind.Rejected => "rejected"
  | FailureKind.TransientFailure => "transient"
  | FailureKind.Timeout => "timeout"
  | FailureKind.HandlerCrash => "handler_crash"
  | FailureKind.Cancelled => "cancelled"
  | FailureKind.Exhausted => "exhausted"
  end.

(** ** [Priority]: discriminants, default, and the derived order *)

Definition priority_value (p : Priority) : Z :=
  match p with Priority.High => 2 | Priority.Normal => 1 | Priority.Low => 0 end.

Definition priority_default : Priority := Priority.Normal.

Definition priority_from_str (s : string) : option Priority :=
  if bool_decide (s = "high"%string) then Some Priority.High
  else if bool_decide (s = "normal"%string) then Some Priority.Normal
  else if bool_decide (s = "low"%string) then Some Priority.Low
  else None.

(** ** Lemmas *)

Lemma run_from_str_display s : run_from_str (run_display s) = Some s.
Proof. by destruct s. Qed.

Lemma run_active_terminal s : run_is_active s = negb (run_is_terminal s).
Proof. by destruct s. Qed.

Lemma task_active_terminal s : task_is_active s = negb (task_is_terminal s).
Proof. by destruct s. Qed.

Lemma priority_value_inj : Inj (=) (=) priority_value.
Proof. by intros [] []. Qed.
