(* ===== verification/Errors.v ===== *)
(** * Error types (src/src/domain/error.rs, src/src/error.rs)

    The error enums with the source's constructors, and the classification
    methods the HTTP and gRPC layers map responses with. *)
From S2P Require Import Prelude Status Ids.
Local Open Scope Z_scope.

Module DomainError.
Inductive DomainError :=
| IllegalTransition (from to : RunStatus)
| IllegalTaskTransition (from to : TaskStatus)
| InvalidDefinition (message : string)
| UnknownDependency (dep task : string)
| CycleDetected
| DuplicateTaskName (name : string)
| InvalidName (name : string)
| EmptyTasks
| TooManyTasks
| InputTooLarge (size cap : Z)
| InputTooDeep (depth limit : Z)
| UnknownHandler (handler : HandlerId)
| InvalidPolicy (message : string)
| ZeroTimeout
| DescriptionTooLong
| TemplateError (message : string)
| TerminalState
| NotFound (entity id : string).
End DomainError.
Abbreviation DomainError := DomainError.DomainError.

Module StorageError.
Inductive StorageError :=
| Conflict (message : string)
| NotFound (message : string)
| ConcurrentModification (message : string)
| Schema (message : string)
| Backend (message : string)
| ClaimLost (run : string).
End StorageError.
Abbreviation StorageError := StorageError.StorageError.

Module RunvaneError.
Inductive RunvaneError :=
| Domain (e : DomainError)
| Id (e : IdError)
| Storage (e : StorageError)
| Scheduler (message : string)
| Config (message : string)
| Server (message : string)
| Handler (message : string)
| Internal (message : string).
End RunvaneError.
Abbreviation RunvaneError := RunvaneError.RunvaneError.

Definition domain_category (e : DomainError) : string :=
  match e with
  | DomainError.IllegalTransition _ _ | DomainError.IllegalTaskTransition _ _ => "state_machine"
  | DomainError.InvalidDefinition _ | DomainError.UnknownDependency _ _
  | DomainError.CycleDetected | DomainError.DuplicateTaskName _
  | DomainError.InvalidName _ | DomainError.EmptyTasks | DomainError.TooManyTasks
  | DomainError.InputTooLarge _ _ | DomainError.InputTooDeep _ _
  | DomainError.InvalidPolicy _ | DomainError.ZeroTimeout
  | DomainError.DescriptionTooLong | DomainError.TemplateError _ => "validation"
  | DomainError.UnknownHandler _ => "handler"
  | DomainError.TerminalState => "state_machine"
  | DomainError.NotFound _ _ => "not_found"
  end.

Definition domain_http_status (e : DomainError) : Z :=
  match e with
  | DomainError.NotFound _ _ => 404
  | DomainError.IllegalTransition _ _ | DomainError.IllegalTaskTransition _ _ => 409
  | DomainError.TerminalState => 409
  | _ => 400
  end.

Definition storage_is_not_found (e : StorageError) : bool :=
  match e with StorageError.NotFound _ => true | _ => false end.

Definition http_status (e : RunvaneError) : Z :=
  match e with
  | RunvaneError.Domain e => domain_http_status e
  | RunvaneError.Storage e =>
      match e with
      | StorageError.NotFound _ => 404
      | StorageError.Conflict _ | StorageError.ConcurrentModification _ => 409
      | _ => 500
      end
  | RunvaneError.Id _ | RunvaneError.Config _ => 400
  | RunvaneError.Handler _ => 502
  | RunvaneError.Scheduler _ | RunvaneError.Server _ | RunvaneError.Internal _ => 500
  end.

Definition category (e : RunvaneError) : string :=
  match e with
  | RunvaneError.Domain e => domain_category e
  | RunvaneError.Id _ => "validation"
  | RunvaneError.Storage e =>
      match e with
      | StorageError.NotFound _ => "not_found"
      | StorageError.Conflict _ | StorageError.ConcurrentModification _ => "conflict"
      | _ => "storage"
      end
  | RunvaneError.Scheduler _ => "scheduler"
  | RunvaneError.Config _ => "config"
  | RunvaneError.Server _ => "server"
  | RunvaneError.Handler _ => "handler"
  | RunvaneError.Internal _ => "internal"
  end.

Definition is_not_found (e : RunvaneError) : bool :=
  match e with
  | RunvaneError.Domain (DomainError.NotFound _ _) => true
  | RunvaneError.Storage e => storage_is_not_found e
  | _ => false
  end.

Definition not_found (entity id : string) : RunvaneError :=
  RunvaneError.Domain (DomainError.NotFound entity id).

(** ** Properties *)

(** The three classifications of an error agree: it is a not-found error
    exactly when its category is [not_found] and exactly when its status is 404;
    only conflicts and state-machine violations are answered with 409, and only
    validation, id, configuration and unknown-handler errors with 400. *)
Theorem error_classification e :
  (is_not_found e = true ↔ http_status e = 404) ∧
  (is_not_found e = true ↔ category e = "not_found"%string) ∧
  (http_status e = 409 ↔ category e = "conflict"%string ∨ category e = "state_machine"%string) ∧
  (http_status e = 400 ↔
   category e = "validation"%string ∨ category e = "config"%string ∨
   ∃ h, e = RunvaneError.Domain (DomainError.UnknownHandler h)).
Proof.
  destruct e as [[]| |[]| | | | |]; cbn; repeat split; intros; try naive_solver; try lia.
Qed.
