(* ===== verification/StateMachine.v ===== *)
(** * State machines (src/src/state/)

    [Machine]: the generic transition table of machine.rs, parametric in the
    label type. [RunFsm] and [TaskFsm]: the concrete tables of run_fsm.rs and
    task_fsm.rs. [Invariants]: the cross-entity check of invariant.rs. The
    step relation of a table and its reflexive transitive closure give the
    reachability results. *)
From S2P Require Import Prelude Status Errors.
Local Open Scope Z_scope.

Module Machine.
Record TransitionTable (L : Type) := { legal : L → L → bool; all : list L }.
Arguments legal {L}.
Arguments all {L}.

Record Transition (L : Type) := { from : L; to : L; at_ms : Z }.
Arguments from {L}.
Arguments to {L}.
Arguments at_ms {L}.
Arguments Build_Transition {L}.

Inductive ApplyResult (L : Type) :=
| Applied (t : Transition L)
| Illegal (t : Transition L).
Arguments Applied {L} t.
Arguments Illegal {L} t.

Section Table.
Context {L : Type} (table : TransitionTable L).

Definition len_labels : nat := length (all table).

Definition is_empty_table : bool := match all table with [] => true | _ => false end.

Definition is_legal_edge (f t : L) : bool := legal table f t.

Definition all_labels : list L := all table.

Definition allowed_from (f : L) : list L := List.filter (fun t => is_legal_edge f t) all_labels.

(** The nested loops push [(from, to)] in row-major order. *)
Definition legal_edges : list (L * L) :=
  flat_map (fun f => flat_map (fun t => if is_legal_edge f t then [(f, t)] else []) all_labels)
    all_labels.

Definition illegal_edges : list (L * L) :=
  flat_map (fun f => flat_map (fun t => if negb (is_legal_edge f t) then [(f, t)] else []) all_labels)
    all_labels.

Definition record_transition (f t : L) (at_ms : Z) : Transition L := Build_Transition f t at_ms.

Definition apply (f t : L) (at_ms : Z) : ApplyResult L :=
  let attempt := record_transition f t at_ms in
  if is_legal_edge f t then Applied attempt else Illegal attempt.

Definition state_count : nat := len_labels.

(** One step of the machine, and a log of applied transitions that forms a path. *)
Definition step (f t : L) : Prop := is_legal_edge f t = true.

Inductive path : L → list (Transition L) → L → Prop :=
| path_nil s : path s [] s
| path_cons s t u at_ms log :
    apply s t at_ms = Applied (record_transition s t at_ms) →
    path t log u → path s (record_transition s t at_ms :: log) u.
End Table.
End Machine.

Module RunFsm.
Import RunStatus.

Definition all_run : list RunStatus := [Queued; Running; Succeeded; Failed; Cancelled; TimedOut].

Definition run_can_transition (from to : RunStatus) : bool :=
  match from, to with
  | Queued, Running | Queued, Cancelled | Running, Succeeded | Running, Failed
  | Running, Cancelled | Running, TimedOut | Failed, Queued | Failed, Cancelled => true
  | _, _ => false
  end.

Definition RUN_TABLE : Machine.TransitionTable RunStatus :=
  {| Machine.legal := run_can_transition; Machine.all := all_run |}.

Definition run_is_legal (from to : RunStatus) : bool := Machine.is_legal_edge RUN_TABLE from to.

Definition run_validate (from to : RunStatus) : result unit RunvaneError :=
  if run_is_legal from to then Ok tt
  else Err (RunvaneError.Domain (DomainError.IllegalTransition from to)).

Definition run_legal_transitions : list (RunStatus * RunStatus) := Machine.legal_edges RUN_TABLE.

Definition run_allowed_targets (from : RunStatus) : list RunStatus :=
  Machine.allowed_from RUN_TABLE from.

Definition run_record (from to : RunStatus) (at_ms : Z)
    : result (Machine.Transition RunStatus) RunvaneError :=
  match Machine.apply RUN_TABLE from to at_ms with
  | Machine.Applied t => Ok t
  | Machine.Illegal _ => Err (RunvaneError.Domain (DomainError.IllegalTransition from to))
  end.
(** Transitions of a log that enter a given status. *)
Definition entries (s : RunStatus) (log : list (Machine.Transition RunStatus)) : nat :=
  length (List.filter (fun t => bool_decide (Machine.to t = s)) log).

(** A run that fails once, is retried and then reaches [last]. *)
Definition sample_log (last : RunStatus) : list (Machine.Transition RunStatus) :=
  [Machine.record_transition Queued Running 1; Machine.record_transition Running Failed 2;
   Machine.record_transition Failed Queued 3; Machine.record_transition Queued Running 4;
   Machine.record_transition Running last 5].
End RunFsm.

Module TaskFsm.
Import TaskStatus.

Definition all_task : list TaskStatus := [Pending; Running; Succeeded; Failed; Skipped].

Definition task_can_transition (from to : TaskStatus) : bool :=
  match from, to with
  | Pending, Running | Pending, Failed | Pending, Skipped | Running, Succeeded
  | Running, Failed | Failed, Running => true
  | _, _ => false
  end.

Definition TASK_TABLE : Machine.TransitionTable TaskStatus :=
  {| Machine.legal := task_can_transition; Machine.all := all_task |}.

Definition task_is_legal (from to : TaskStatus) : bool := Machine.is_legal_edge TASK_TABLE from to.

Definition task_validate (from to : TaskStatus) : result unit RunvaneError :=
  if task_is_legal from to then Ok tt
  else Err (RunvaneError.Domain (DomainError.IllegalTaskTransition from to)).

Definition task_legal_transitions : list (TaskStatus * TaskStatus) := Machine.legal_edges TASK_TABLE.

Definition task_allowed_targets (from : TaskStatus) : list TaskStatus :=
  Machine.allowed_from TASK_TABLE from.

Definition task_record (from to : TaskStatus) (at_ms : Z)
    : result (Machine.Transition TaskStatus) RunvaneError :=
  match Machine.apply TASK_TABLE from to at_ms with
  | Machine.Applied t => Ok t
  | Machine.Illegal _ => Err (RunvaneError.Domain (DomainError.IllegalTaskTransition from to))
  end.
End TaskFsm.

Module Invariants.
Inductive InvariantError :=
| SucceededWithNonTerminalTask (task : string)
| TerminalWithRunningTask (task : string)
| RunBlocked
| ActiveWithNoTasks
| SkippedWithoutFailedDependency (task : string).

(** [tasks.iter().find(p).unwrap().0]; every call of the source is guarded by a
    test that such a task exists. *)
Definition find_name (p : TaskStatus → bool) (tasks : list (string * TaskStatus)) : string :=
  match List.find (fun t => p t.2) tasks with Some t => t.1 | None => EmptyString end.

Definition check_run_consistency (run : RunStatus) (tasks : list (string * TaskStatus))
    : result unit InvariantError :=
  let all_terminal := forallb (fun t => task_is_terminal t.2) tasks in
  let any_running := existsb (fun t => bool_decide (t.2 = TaskStatus.Running)) tasks in
  if (bool_decide (run = RunStatus.Failed) || bool_decide (run = RunStatus.TimedOut)) && any_running
  then Err (TerminalWithRunningTask (find_name (fun s => bool_decide (s = TaskStatus.Running)) tasks))
  else if bool_decide (run = RunStatus.Succeeded) then
    if negb all_terminal
    then Err (SucceededWithNonTerminalTask (find_name (fun s => negb (task_is_terminal s)) tasks))
    else Ok tt
  else if bool_decide (run = RunStatus.Running) && bool_decide (tasks = []) then Err ActiveWithNoTasks
  else if bool_decide (run = RunStatus.Running) && all_terminal then Err RunBlocked
  else
    let needs_failed_dep := bool_decide (run = RunStatus.Failed)
      || bool_decide (run = RunStatus.TimedOut) || bool_decide (run = RunStatus.Succeeded) in
    if needs_failed_dep then
      let has_failed := existsb (fun t => bool_decide (t.2 = TaskStatus.Failed)) tasks in
      match List.find (fun t => bool_decide (t.2 = TaskStatus.Skipped)) tasks with
      | Some (name, _) => if negb has_failed then Err (SkippedWithoutFailedDependency name) else Ok tt
      | None => Ok tt
      end
    else Ok tt.
End Invariants.

(** ** Generic machine lemmas *)

Lemma elem_of_flat_map {A B} (f : A → list B) l y :
  y ∈ flat_map f l ↔ ∃ x, x ∈ l ∧ y ∈ f x.
Proof.
  rewrite list_elem_of_In, in_flat_map. setoid_rewrite <-list_elem_of_In. done.
Qed.

Lemma elem_of_guarded {A} (b : bool) (x y : A) : y ∈ (if b then [x] else []) ↔ b = true ∧ y = x.
Proof. destruct b; set_solver. Qed.

Section MachineLemmas.
Context {L : Type} (table : Machine.TransitionTable L).

Lemma legal_edges_elem f t :
  (f, t) ∈ Machine.legal_edges table ↔
  f ∈ Machine.all table ∧ t ∈ Machine.all table ∧ Machine.is_legal_edge table f t = true.
Proof.
  unfold Machine.legal_edges, Machine.all_labels. rewrite elem_of_flat_map.
  setoid_rewrite elem_of_flat_map. setoid_rewrite elem_of_guarded.
  split; [intros (?&?&?&?&?&[= -> ->])|intros (?&?&?)]; eauto 8.
Qed.

Lemma illegal_edges_elem f t :
  (f, t) ∈ Machine.illegal_edges table ↔
  f ∈ Machine.all table ∧ t ∈ Machine.all table ∧ Machine.is_legal_edge table f t = false.
Proof.
  unfold Machine.illegal_edges, Machine.all_labels. rewrite elem_of_flat_map.
  setoid_rewrite elem_of_flat_map. setoid_rewrite elem_of_guarded.
  setoid_rewrite negb_true_iff.
  split; [intros (?&?&?&?&?&[= -> ->])|intros (?&?&?)]; eauto 8.
Qed.

Lemma path_step s t at_ms : Machine.is_legal_edge table s t = true →
  Machine.apply table s t at_ms = Machine.Applied (Machine.record_transition s t at_ms).
Proof. unfold Machine.apply. by intros ->. Qed.

Lemma apply_legal s t at_ms : Machine.apply table s t at_ms
  = Machine.Applied (Machine.record_transition s t at_ms) → Machine.is_legal_edge table s t = true.
Proof. unfold Machine.apply. by destruct (Machine.is_legal_edge table s t). Qed.
End MachineLemmas.

(** Splitting the pairs of two lists by a predicate loses none. *)
Lemma guarded_product {A} (p : A → A → bool) rows cols :
  flat_map (fun f => flat_map (fun t => if p f t then [(f, t)] else []) cols) rows ++
  flat_map (fun f => flat_map (fun t => if negb (p f t) then [(f, t)] else []) cols) rows
  ≡ₚ list_prod rows cols.
Proof.
  assert (Hrow : ∀ f, flat_map (fun t => if p f t then [(f, t)] else []) cols ++
    flat_map (fun t => if negb (p f t) then [(f, t)] else []) cols ≡ₚ map (fun t => (f, t)) cols).
  { intros f. induction cols as [|t cols IH]; [done|]. cbn [flat_map map]. rewrite <-IH.
    destruct (p f t); cbn; [done|]. by rewrite Permutation_middle. }
  induction rows as [|f rows IH]; [done|]. cbn [flat_map list_prod].
  rewrite <-IH, <-(Hrow f), <-!(assoc_L (++)). f_equiv.
  by rewrite Permutation_app_swap_app.
Qed.

Lemma entries_cons s t log :
  RunFsm.entries s (t :: log) = ((if decide (Machine.to t = s) then 1 else 0) + RunFsm.entries s log)%nat.
Proof.
  unfold RunFsm.entries. cbn [List.filter]. case_bool_decide; by case_decide.
Qed.

Lemma existsb_status (tasks : list (string * TaskStatus)) st :
  existsb (fun t => bool_decide (t.2 = st)) tasks = true ↔ ∃ t, t ∈ tasks ∧ t.2 = st.
Proof.
  rewrite existsb_exists. setoid_rewrite <-list_elem_of_In.
  by setoid_rewrite bool_decide_eq_true.
Qed.

Lemma find_status (tasks : list (string * TaskStatus)) st :
  match List.find (fun t => bool_decide (t.2 = st)) tasks with
  | Some t => t ∈ tasks ∧ t.2 = st
  | None => ∀ t, t ∈ tasks → t.2 ≠ st
  end.
Proof.
  destruct (List.find _ _) eqn:Hf.
  - apply find_some in Hf as [Hin Ht]. by rewrite <-list_elem_of_In, bool_decide_eq_true in *.
  - intros t Ht Hst. apply list_elem_of_In in Ht. pose proof (find_none _ _ Hf t Ht) as Hn.
    cbn in Hn. by apply bool_decide_eq_false in Hn.
Qed.

Lemma forallb_terminal (tasks : list (string * TaskStatus)) :
  forallb (fun t => task_is_terminal t.2) tasks = true ↔
  ∀ t, t ∈ tasks → task_is_terminal t.2 = true.
Proof. rewrite forallb_forall. by setoid_rewrite <-list_elem_of_In. Qed.

Lemma forallb_terminal_false (tasks : list (string * TaskStatus)) :
  forallb (fun t => task_is_terminal t.2) tasks = false ↔
  ∃ t, t ∈ tasks ∧ task_is_terminal t.2 = false.
Proof.
  induction tasks as [|t tasks IH]; cbn; [set_solver|].
  rewrite andb_false_iff, IH. setoid_rewrite elem_of_cons. naive_solver.
Qed.

(** Decides the closed status comparisons of a goal. *)
Ltac eval_status :=
  repeat match goal with
  | |- context [bool_decide (?a = ?b)] =>
      first [change (bool_decide (a = b)) with false | change (bool_decide (a = b)) with true]
  end.

(** The two clauses of the check that concern failed and timed-out runs. *)
Lemma failed_run_ok tasks :
  (if existsb (fun t => bool_decide (t.2 = TaskStatus.Running)) tasks
   then Err (Invariants.TerminalWithRunningTask
     (Invariants.find_name (fun s => bool_decide (s = TaskStatus.Running)) tasks))
   else match List.find (fun t => bool_decide (t.2 = TaskStatus.Skipped)) tasks with
        | Some (name, _) =>
            if negb (existsb (fun t => bool_decide (t.2 = TaskStatus.Failed)) tasks)
            then Err (Invariants.SkippedWithoutFailedDependency name) else Ok tt
        | None => Ok tt
        end) = Ok tt ↔
  (∀ t, t ∈ tasks → t.2 ≠ TaskStatus.Running) ∧
  ((∃ t, t ∈ tasks ∧ t.2 = TaskStatus.Skipped) → ∃ t, t ∈ tasks ∧ t.2 = TaskStatus.Failed).
Proof.
  pose proof (existsb_status tasks TaskStatus.Running) as HR.
  pose proof (existsb_status tasks TaskStatus.Failed) as HF.
  pose proof (find_status tasks TaskStatus.Skipped) as HS.
  destruct (existsb _ _).
  { destruct (proj1 HR eq_refl) as (t&Ht&Hst). split; [done|]. intros [H _]. by destruct (H t Ht). }
  assert (Hnr : ∀ t, t ∈ tasks → t.2 ≠ TaskStatus.Running)
    by (intros t Ht Hst; by discriminate (proj2 HR (ex_intro _ t (conj Ht Hst)))).
  destruct (List.find _ _) as [[name st]|];
    [|split; [intros _; split; [done|intros (t&Ht&Hs); by destruct (HS t Ht)]|done]].
  destruct (existsb _ _); cbn [negb].
  - split; [|done]. intros _. split; [done|]. intros _. by apply HF.
  - split; [done|]. intros [_ H]. discriminate (proj2 HF (H (ex_intro _ _ HS))).
Qed.

Lemma path_cancelled log u :
  Machine.path RunFsm.RUN_TABLE RunStatus.Cancelled log u → u = RunStatus.Cancelled.
Proof.
  inversion 1 as [|? t ? ? ? Ha%apply_legal]; [done|]. by destruct t.
Qed.

(** ** Properties *)

(** [legal_edges] and [illegal_edges] split the full product of the label
    set: together they are a permutation of all pairs, and an edge is listed
    as legal exactly when the table's predicate holds. *)
Theorem edges_partition {L} (table : Machine.TransitionTable L) :
  Machine.legal_edges table ++ Machine.illegal_edges table
    ≡ₚ list_prod (Machine.all table) (Machine.all table) ∧
  ∀ f t, f ∈ Machine.all table → t ∈ Machine.all table →
    ((f, t) ∈ Machine.legal_edges table ↔ Machine.apply table f t 0 =
      Machine.Applied (Machine.record_transition f t 0)).
Proof.
  split.
  - apply guarded_product.
  - intros f t Hf Ht. rewrite legal_edges_elem. split; [|eauto using apply_legal].
    intros (_&_&?). by apply path_step.
Qed.

(** Reachability in the run machine: [Succeeded], [Cancelled] and [TimedOut]
    are absorbing, and from each of [Queued], [Running] and [Failed] every
    status can be reached. *)
Theorem run_reachable s t :
  rtc (Machine.step RunFsm.RUN_TABLE) s t ↔
  s = t ∨ s = RunStatus.Queued ∨ s = RunStatus.Running ∨ s = RunStatus.Failed.
Proof.
  split.
  - intros H. apply rtc_inv in H as [?|(u&Hu&_)]; [by left|].
    destruct s; try (by tauto); by destruct u.
  - assert (HQR : Machine.step RunFsm.RUN_TABLE RunStatus.Queued RunStatus.Running) by done.
    assert (HRF : Machine.step RunFsm.RUN_TABLE RunStatus.Running RunStatus.Failed) by done.
    assert (HFQ : Machine.step RunFsm.RUN_TABLE RunStatus.Failed RunStatus.Queued) by done.
    assert (HR : ∀ t, rtc (Machine.step RunFsm.RUN_TABLE) RunStatus.Running t).
    { intros []; try (by apply rtc_once); [|reflexivity]. eauto using rtc_l, rtc_refl. }
    intros [->|[->|[->| ->]]]; [reflexivity|eauto using rtc_l..].
Qed.

(** Along any path of applied transitions from [Queued] to a status a
    worker leaves the run in, the run was dispatched exactly once more than it
    was re-queued by the retry edge. *)
Theorem run_dispatch_count log u :
  Machine.path RunFsm.RUN_TABLE RunStatus.Queued log u →
  u = RunStatus.Running ∨ u = RunStatus.Succeeded ∨ u = RunStatus.Failed ∨ u = RunStatus.TimedOut →
  RunFsm.entries RunStatus.Running log = S (RunFsm.entries RunStatus.Queued log).
Proof.
  intros Hp Hu.
  set (owed s := match s with RunStatus.Queued => 1%nat | _ => 0%nat end).
  enough (Hgen : ∀ s, Machine.path RunFsm.RUN_TABLE s log u →
    RunFsm.entries RunStatus.Running log = (owed s + RunFsm.entries RunStatus.Queued log)%nat)
    by apply (Hgen _ Hp).
  clear Hp. intros s Hp. induction Hp as [s|s t u at_ms log Ha Hp IH].
  - by destruct Hu as [->|[->|[->| ->]]].
  - specialize (IH Hu). apply apply_legal in Ha.
    destruct (decide (t = RunStatus.Cancelled)) as [->|Hc].
    { apply path_cancelled in Hp. subst u. by destruct Hu as [|[|[|]]]. }
    rewrite !entries_cons. destruct s, t; try discriminate Ha; try done; unfold owed in *; cbn in *; rewrite IH; repeat case_decide; try congruence; lia.
Qed.

Lemma run_dispatch_count_witness :
  RunFsm.entries RunStatus.Running (RunFsm.sample_log RunStatus.Succeeded)
  = S (RunFsm.entries RunStatus.Queued (RunFsm.sample_log RunStatus.Succeeded)).
Proof.
  apply (run_dispatch_count _ RunStatus.Succeeded); [|tauto].
  unfold RunFsm.sample_log. repeat (apply Machine.path_cons; [reflexivity|]). apply Machine.path_nil.
Defined.

(** Reachability in the task machine: [Pending] is never re-entered,
    [Succeeded] and [Skipped] are absorbing, a skipped task was pending before,
    and a failed task can only run again. *)
Theorem task_reachable s t :
  rtc (Machine.step TaskFsm.TASK_TABLE) s t ↔
  s = t ∨ s = TaskStatus.Pending ∨
  ((s = TaskStatus.Running ∨ s = TaskStatus.Failed) ∧
   (t = TaskStatus.Running ∨ t = TaskStatus.Succeeded ∨ t = TaskStatus.Failed)).
Proof.
  assert (HPR : Machine.step TaskFsm.TASK_TABLE TaskStatus.Pending TaskStatus.Running) by done.
  assert (HFR : Machine.step TaskFsm.TASK_TABLE TaskStatus.Failed TaskStatus.Running) by done.
  split.
  - induction 1 as [s|s u t Hs _ IH]; [by left|]. destruct s, u; try discriminate Hs; naive_solver.
  - intros [->|[->|[[-> | ->] [->|[->| ->]]]]]; [reflexivity| |eauto using rtc_l, rtc_once, rtc_refl..].
    destruct t; eauto using rtc_l, rtc_once, rtc_refl.
Qed.

(** The consistency check accepts a run and its task statuses exactly when:
    a succeeded run has only terminal tasks; a running run has a task that can
    still progress; a failed or timed-out run has no running task and has a
    failed task if any was skipped. Queued and cancelled runs always pass. *)
Theorem check_run_consistency_iff run tasks :
  Invariants.check_run_consistency run tasks = Ok tt ↔
  match run with
  | RunStatus.Succeeded => ∀ t, t ∈ tasks → task_is_terminal t.2 = true
  | RunStatus.Running => ∃ t, t ∈ tasks ∧ task_is_terminal t.2 = false
  | RunStatus.Failed | RunStatus.TimedOut =>
      (∀ t, t ∈ tasks → t.2 ≠ TaskStatus.Running) ∧
      ((∃ t, t ∈ tasks ∧ t.2 = TaskStatus.Skipped) → ∃ t, t ∈ tasks ∧ t.2 = TaskStatus.Failed)
  | RunStatus.Queued | RunStatus.Cancelled => True
  end.
Proof.
  pose proof (forallb_terminal tasks) as HT.
  pose proof (forallb_terminal_false tasks) as HT'.
  unfold Invariants.check_run_consistency.
  destruct run; eval_status; cbn [andb orb negb].
  - done.
  - case_bool_decide as He; [subst tasks; split; [done|set_solver]|].
    destruct (forallb _ _); [|tauto]. split; [done|]. intros (t&Ht&Hf).
    by rewrite (proj1 HT eq_refl t Ht) in Hf.
  - destruct (forallb _ _); cbn [negb]; [tauto|]. split; [done|]. intros Ht. by apply HT in Ht.
  - by apply (failed_run_ok tasks).
  - done.
  - by apply (failed_run_ok tasks).
Qed.

(** The dependency clause of the check is dead for succeeded runs: a
    succeeded run whose only task was skipped, with no failure anywhere, is
    reported consistent, although the code lists [Succeeded] among the
    statuses that need a failed dependency. *)
Theorem succeeded_skipped_consistent name :
  Invariants.check_run_consistency RunStatus.Succeeded [(name, TaskStatus.Skipped)] = Ok tt.
Proof. reflexivity. Qed.
