(* ===== verification/Float64.v ===== *)
(** * Binary64 arithmetic

    The [f64] of the source as the executable IEEE 754 specification floats of
    the Standard Library at precision 53 and maximal exponent 1024, with the
    conversions to and from machine integers that Rust's [as] performs. *)
From S2P Require Import Prelude.
From Stdlib Require Export Floats.SpecFloat.
Local Open Scope Z_scope.

Abbreviation f64 := spec_float (only parsing).

Definition f64_add (a b : f64) : f64 := SFadd 53 1024 a b.
Definition f64_sub (a b : f64) : f64 := SFsub 53 1024 a b.
Definition f64_mul (a b : f64) : f64 := SFmul 53 1024 a b.
Definition f64_div (a b : f64) : f64 := SFdiv 53 1024 a b.

(** [<=], [<] and [==]: false when an operand is NaN. *)
Definition f64_leb (a b : f64) : bool := SFleb a b.
Definition f64_ltb (a b : f64) : bool := SFltb a b.
Definition f64_eqb (a b : f64) : bool := SFeqb a b.

(** [n as f64] for an integer: round to nearest, ties to even. *)
Definition f64_of_Z (z : Z) : f64 := binary_normalize 53 1024 z 0 false.

Definition f64_one : f64 := f64_of_Z 1.
Definition f64_zero : f64 := S754_zero false.

Definition is_finite (x : f64) : bool :=
  match x with S754_zero _ | S754_finite _ _ _ => true | _ => false end.

(** Truncation toward zero of a finite float. *)
Definition f64_trunc (x : f64) : Z :=
  match x with
  | S754_finite s m e =>
      let a := if 0 <=? e then Z.pos m * 2 ^ e else Z.pos m / 2 ^ (- e) in
      if s : bool then - a else a
  | _ => 0
  end.

(** [x as u64]: truncates, saturates at the bounds, and maps NaN to zero. *)
Definition f64_to_u64 (x : f64) : Z :=
  match x with
  | S754_infinity false => u64_max
  | S754_infinity true | S754_nan => 0
  | _ => sat_u64 (f64_trunc x)
  end.

Lemma f64_to_u64_range x : in_u64 (f64_to_u64 x).
Proof.
  destruct x as [|[]| |]; cbn [f64_to_u64]; auto with runvane; unfold in_u64, u64_max; lia.
Qed.

#[export] Hint Resolve f64_to_u64_range : runvane.

(** [f64::round]: halves away from zero. *)
Definition f64_round (x : f64) : f64 :=
  match x with
  | S754_finite s m e =>
      if 0 <=? e then x
      else
        let a := (2 * Z.pos m + 2 ^ (- e)) / (2 * 2 ^ (- e)) in
        if a =? 0 then S754_zero s else f64_of_Z (if s : bool then - a else a)
  | _ => x
  end.

(** [f64::max]: the other operand when one is NaN. *)
Definition f64_max (a b : f64) : f64 :=
  match a, b with
  | S754_nan, _ => b
  | _, S754_nan => a
  | _, _ => if f64_ltb a b then b else a
  end.
