(* ===== verification/FloatOrder.v ===== *)
(** * Order and rounding of binary64

    Multiplication of doubles rounds to nearest, ties to even, and is therefore monotone
    in each argument; so are the conversions from and to integers. The rounding function
    of the specification floats is first brought into a closed form ([binary_round_pos]):
    divide the integer significand by a power of two, round the quotient, and carry when
    it reaches 2{^53}. *)
From S2P Require Import Prelude Float64.
Local Open Scope Z_scope.

(** ** Rounding a quotient by a power of two *)

(** [m / 2^k] rounded to nearest, ties to even. *)
Definition rne (m k : Z) : Z :=
  let q := m / 2 ^ k in
  let r := m mod 2 ^ k in
  if 2 * r <? 2 ^ k then q
  else if 2 ^ k <? 2 * r then q + 1
  else if Z.even q then q else q + 1.

Lemma rne_between m k : 0 ≤ k → m / 2 ^ k ≤ rne m k ≤ m / 2 ^ k + 1.
Proof. intros Hk. unfold rne. repeat case_match; lia. Qed.

Lemma rne_mono m1 m2 k : 0 ≤ k → m1 ≤ m2 → rne m1 k ≤ rne m2 k.
Proof.
  intros Hk Hm. pose proof (Z.pow_pos_nonneg 2 k ltac:(lia) Hk) as Hp.
  destruct (Z.eq_dec (m1 / 2 ^ k) (m2 / 2 ^ k)) as [Heq|Hne].
  - unfold rne. rewrite Heq. pose proof (Z.div_mod m1 (2 ^ k) ltac:(lia)). pose proof (Z.div_mod m2 (2 ^ k) ltac:(lia)).
    rewrite Heq in *. repeat case_match; to_prop; try lia.
  - pose proof (Z.div_le_mono m1 m2 (2 ^ k) Hp Hm). pose proof (rne_between m1 k Hk). pose proof (rne_between m2 k Hk). lia.
Qed.

(** The result depends on the value only, not on how it is scaled. *)
Lemma rne_scale m j k : 0 ≤ j → 0 ≤ k → rne (m * 2 ^ j) (k + j) = rne m k.
Proof.
  intros Hj Hk. pose proof (Z.pow_pos_nonneg 2 j ltac:(lia) Hj) as Hpj. pose proof (Z.pow_pos_nonneg 2 k ltac:(lia) Hk) as Hpk.
  unfold rne. rewrite Z.pow_add_r by lia. rewrite Z.div_mul_cancel_r, Zmult_mod_distr_r by lia.
  replace (2 * (m mod 2 ^ k * 2 ^ j) <? 2 ^ k * 2 ^ j) with (2 * (m mod 2 ^ k) <? 2 ^ k);
    [replace (2 ^ k * 2 ^ j <? 2 * (m mod 2 ^ k * 2 ^ j)) with (2 ^ k <? 2 * (m mod 2 ^ k)); [done|]|];
    (apply Bool.eq_iff_eq_true; rewrite !Z.ltb_lt; nia).
Qed.

Lemma rne_exact q k : 0 ≤ k → rne (q * 2 ^ k) k = q.
Proof.
  intros Hk. pose proof (Z.pow_pos_nonneg 2 k ltac:(lia) Hk). unfold rne.
  rewrite Z.div_mul, Z.mod_mul by lia. by destruct (Z.ltb_spec (2 * 0) (2 ^ k)); [|lia].
Qed.

(** A power of two bounds the result where it bounds the value. *)
Lemma rne_upper m k n : 0 ≤ k → 0 ≤ n → m ≤ 2 ^ (n + k) → rne m k ≤ 2 ^ n.
Proof. intros Hk Hn Hm. rewrite <-(rne_exact (2 ^ n) k Hk). apply rne_mono; [done|]. by rewrite <-Z.pow_add_r. Qed.

Lemma rne_lower m k n : 0 ≤ k → 0 ≤ n → 2 ^ (n + k) ≤ m → 2 ^ n ≤ rne m k.
Proof. intros Hk Hn Hm. rewrite <-(rne_exact (2 ^ n) k Hk). apply rne_mono; [done|]. by rewrite <-Z.pow_add_r. Qed.

Lemma rne_small m k : 0 ≤ k → 0 ≤ m → 2 * m < 2 ^ k → rne m k = 0.
Proof.
  intros Hk Hm Hs. unfold rne. rewrite Z.mod_small, Z.div_small by lia.
  by destruct (Z.ltb_spec (2 * m) (2 ^ k)); [|lia].
Qed.

(** ** Shifting right, bit by bit *)

Lemma iter_pos_comm {A} (f : A → A) p : ∀ x, iter_pos f p (f x) = f (iter_pos f p x).
Proof. induction p as [p IH|p IH|]; intros x; cbn; by rewrite ?IH. Qed.

Lemma iter_pos_succ {A} (f : A → A) p : ∀ x, iter_pos f (Pos.succ p) x = f (iter_pos f p x).
Proof.
  induction p as [p IH|p IH|]; intros x.
  - change (Pos.succ p~1) with (Pos.succ p)~0%positive. cbn [iter_pos]. by rewrite !IH, !iter_pos_comm.
  - change (Pos.succ p~0) with p~1%positive. cbn [iter_pos]. by rewrite !iter_pos_comm.
  - done.
Qed.

(** The state after [k] shifts: the quotient, the bit below it, and whether any bit lower
    still is set. *)
Definition shifted (m k : Z) : shr_record :=
  let t := 2 * (m mod 2 ^ k) in
  {| shr_m := m / 2 ^ k; shr_r := 2 ^ k <=? t; shr_s := negb (t mod 2 ^ k =? 0) |}.

Lemma shr_1_half m r s : 0 ≤ m →
  shr_1 {| shr_m := m; shr_r := r; shr_s := s |} = {| shr_m := m / 2; shr_r := Z.odd m; shr_s := r || s |}.
Proof.
  intros Hm. destruct m as [|[p|p|]|p]; [done| | |done|lia]; cbn [shr_1 Z.odd]; f_equal;
    Z.to_euclidean_division_equations; lia.
Qed.

Lemma shr_1_shifted m k : 0 ≤ m → 0 ≤ k → shr_1 (shifted m k) = shifted m (k + 1).
Proof.
  intros Hm Hk. pose proof (Z.pow_pos_nonneg 2 k ltac:(lia) Hk) as Hp.
  pose proof (Z.div_mod m (2 ^ k) ltac:(lia)) as Hdm. pose proof (Z.mod_pos_bound m (2 ^ k) Hp) as Hr.
  assert (Hq0 : 0 ≤ m / 2 ^ k) by (apply Z.div_pos; lia).
  unfold shifted at 2. rewrite Z.pow_add_r, Z.pow_1_r by lia.
  set (q := m / 2 ^ k) in *. set (r := m mod 2 ^ k) in *. set (P := 2 ^ k) in *.
  assert (Hdiv : m / (P * 2) = q / 2) by (unfold q; rewrite Z.div_div by lia; done).
  assert (Hmod : m mod (P * 2) = (q mod 2) * P + r).
  { symmetry. apply (Z.mod_unique _ _ (q / 2)); Z.to_euclidean_division_equations; nia. }
  rewrite Hdiv, Hmod. assert (Hs : (P <=? 2 * r) || negb (2 * r mod P =? 0) = negb (r =? 0)).
  { destruct (Z.eqb_spec r 0) as [->|Hr0]; cbn [negb].
    - rewrite Z.mod_0_l by lia. destruct (Z.leb_spec P (2 * 0)); [lia|done].
    - destruct (Z.leb_spec P (2 * r)); [done|]. rewrite Z.mod_small by lia. by destruct (Z.eqb_spec (2 * r) 0); [lia|]. }
  assert (Hs' : negb (2 * (q mod 2 * P + r) mod (P * 2) =? 0) = negb (r =? 0)).
  { replace (2 * (q mod 2 * P + r)) with (2 * r + (q mod 2) * (P * 2)) by ring. rewrite Z.mod_add, Z.mod_small by lia.
    f_equal. apply Bool.eq_iff_eq_true. rewrite !Z.eqb_eq. lia. }
  rewrite Hs'. unfold shifted. fold P q r. rewrite shr_1_half, Hs by done. f_equal.
  rewrite Zmod_odd. destruct (Z.odd q); symmetry; [apply Z.leb_le|apply Z.leb_gt]; lia.
Qed.

Lemma shifted_0 m : shifted m 0 = {| shr_m := m; shr_r := false; shr_s := false |}.
Proof. unfold shifted. by rewrite Z.pow_0_r, Z.div_1_r, Z.mod_1_r. Qed.

Lemma shr_shifted m p : 0 ≤ m → iter_pos shr_1 p {| shr_m := m; shr_r := false; shr_s := false |} = shifted m (Z.pos p).
Proof.
  intros Hm. rewrite <-shifted_0. induction p as [|p IH] using Pos.peano_ind.
  - cbn [iter_pos]. by rewrite shr_1_shifted.
  - rewrite iter_pos_succ, IH, shr_1_shifted by lia. f_equal. lia.
Qed.

Lemma round_shifted m k : 0 ≤ k → round_nearest_even (shr_m (shifted m k)) (loc_of_shr_record (shifted m k)) = rne m k.
Proof.
  intros Hk. pose proof (Z.pow_pos_nonneg 2 k ltac:(lia) Hk) as Hp. pose proof (Z.mod_pos_bound m (2 ^ k) Hp) as Hr.
  unfold shifted, rne. cbn [shr_m loc_of_shr_record]. set (q := m / 2 ^ k). set (r := m mod 2 ^ k) in *.
  destruct (Z.leb_spec (2 ^ k) (2 * r)).
  - destruct (Z.ltb_spec (2 * r) (2 ^ k)); [lia|].
    replace (2 * r mod 2 ^ k) with (2 * r - 2 ^ k) by (apply (Z.mod_unique _ _ 1); lia).
    destruct (Z.eqb_spec (2 * r - 2 ^ k) 0), (Z.ltb_spec (2 ^ k) (2 * r)); cbn; try lia; done.
  - destruct (Z.ltb_spec (2 * r) (2 ^ k)); [|lia]. by destruct (negb _).
Qed.

(** ** Rounding to 53 bits *)

(** The exponent of the last bit that is kept of [m * 2^e]. *)
Definition cexp (m e : Z) : Z := Z.max (Z.log2 m + 1 + e - 53) (-1074).

(** The significand and exponent [m * 2^e] is rounded to. *)
Definition round_pos (m e : Z) : Z * Z :=
  let c := cexp m e in
  let q := rne m (c - e) in
  if q =? 2 ^ 53 then (2 ^ 52, c + 1) else (q, c).

Definition of_pair (s : bool) (qc : Z * Z) : f64 :=
  match qc.1 with
  | Z.pos p => if qc.2 <=? 971 then S754_finite s p qc.2 else S754_infinity s
  | _ => S754_zero s
  end.

Lemma of_pair_number s qc : of_pair s qc ≠ S754_nan.
Proof. unfold of_pair. destruct qc.1; [done| |done]. by destruct (qc.2 <=? 971). Qed.

Lemma digits_log2 m : 0 < m → Zdigits2 m = Z.log2 m + 1.
Proof.
  intros Hm. destruct m as [|p|]; [lia| |lia]. cbn [Zdigits2].
  assert (Hs : ∀ p, digits2_pos p = Pos.size p) by (intros p'; induction p' as [p' IH|p' IH|]; cbn; by rewrite ?IH).
  rewrite Hs. destruct p; cbn; lia.
Qed.

Lemma fexp_cexp m e : 0 < m → fexp 53 1024 (Zdigits2 m + e) = cexp m e.
Proof. intros Hm. rewrite digits_log2 by done. unfold fexp, emin, cexp. lia. Qed.

Lemma shr_fexp_shifted m e : 0 < m → e ≤ cexp m e → shr_fexp 53 1024 m e loc_Exact = (shifted m (cexp m e - e), cexp m e).
Proof.
  intros Hm Hc. unfold shr_fexp. rewrite fexp_cexp by done. cbn [shr_record_of_loc].
  destruct (cexp m e - e) as [|p|] eqn:Hk; [|..]; cbn [shr].
  - rewrite shifted_0. f_equal. lia.
  - rewrite shr_shifted by lia. f_equal. lia.
  - lia.
Qed.

Lemma log2_bounds m : 0 < m → 2 ^ Z.log2 m ≤ m < 2 ^ (Z.log2 m + 1).
Proof. intros Hm. pose proof (Z.log2_spec m Hm). by rewrite Z.add_1_r. Qed.

Lemma rounded_max m e : 0 < m → e ≤ cexp m e → 0 ≤ rne m (cexp m e - e) ≤ 2 ^ 53.
Proof.
  intros Hm Hc. pose proof (log2_bounds m Hm) as Hl. split.
  - etransitivity; [|apply rne_between; lia]. apply Z.div_pos; [lia|]. apply Z.pow_pos_nonneg; lia.
  - apply rne_upper; [lia..|]. etransitivity; [apply Z.lt_le_incl, Hl|]. apply Z.pow_le_mono_r; [lia|].
    unfold cexp. lia.
Qed.

Lemma binary_round_pos s m e : 0 < m → e ≤ cexp m e →
  binary_round_aux 53 1024 s m e loc_Exact = of_pair s (round_pos m e).
Proof.
  intros Hm Hc. unfold binary_round_aux. rewrite shr_fexp_shifted by done. rewrite round_shifted by lia.
  pose proof (rounded_max m e Hm Hc) as Hq. unfold round_pos. set (q := rne m (cexp m e - e)) in *.
  assert (Hmin : -1074 ≤ cexp m e) by (unfold cexp; lia). set (c := cexp m e) in *. clearbody q c. cbn zeta.
  destruct (Z.eqb_spec q (2 ^ 53)) as [->|Hne].
  - rewrite shr_fexp_shifted by (unfold cexp; change (Z.log2 (2 ^ 53)) with 53; lia).
    unfold cexp. change (Z.log2 (2 ^ 53)) with 53. rewrite Z.max_l by lia.
    replace (53 + 1 + c - 53) with (c + 1) by ring. replace (c + 1 - c) with 1 by ring.
    change (shr_m (shifted (2 ^ 53) 1)) with (2 ^ 52). done.
  - destruct (Z.eq_dec q 0) as [->|Hq0].
    + unfold shr_fexp. cbn [shr_record_of_loc]. destruct (fexp 53 1024 (Zdigits2 0 + c) - c); cbn [shr]; [done| |done].
      rewrite shr_shifted by done. unfold shifted. by rewrite Z.div_0_l by (apply Z.pow_nonzero; lia).
    + assert (Hle : cexp q c ≤ c).
      { unfold cexp. enough (Z.log2 q < 53) by lia. apply Z.log2_lt_pow2; lia. }
      unfold shr_fexp. rewrite fexp_cexp by lia. cbn [shr_record_of_loc].
      destruct (cexp q c - c) eqn:Hk; [| lia |]; cbn [shr shr_m]; (destruct q; [lia|done|lia]).
Qed.

(** The rounded pair depends on the value only. *)
Lemma round_pos_scale m e j : 0 < m → 0 ≤ j → e ≤ cexp m e → round_pos (m * 2 ^ j) (e - j) = round_pos m e.
Proof.
  intros Hm Hj Hc. unfold round_pos. assert (Hcexp : cexp (m * 2 ^ j) (e - j) = cexp m e).
  { unfold cexp. rewrite Z.log2_mul_pow2 by lia. f_equal. lia. }
  rewrite Hcexp. replace (cexp m e - (e - j)) with (cexp m e - e + j) by ring. by rewrite rne_scale by lia.
Qed.

(** A significand and exponent in the canonical form. *)
Definition canonical (qc : Z * Z) : Prop :=
  0 ≤ qc.1 < 2 ^ 53 ∧ -1074 ≤ qc.2 ∧ (-1074 < qc.2 → 2 ^ 52 ≤ qc.1).

Definition lex_le (a b : Z * Z) : Prop := a.2 < b.2 ∨ (a.2 = b.2 ∧ a.1 ≤ b.1).

Lemma rounded_min m e : 0 < m → e ≤ cexp m e → -1074 < cexp m e → 2 ^ 52 ≤ rne m (cexp m e - e).
Proof.
  intros Hm Hc Hn. pose proof (log2_bounds m Hm) as Hl. apply rne_lower; [lia..|].
  etransitivity; [|apply Hl]. apply Z.pow_le_mono_r; [lia|]. unfold cexp in *. lia.
Qed.

Lemma round_pos_canonical m e : 0 < m → e ≤ cexp m e → canonical (round_pos m e).
Proof.
  intros Hm Hc. pose proof (rounded_max m e Hm Hc). pose proof (rounded_min m e Hm Hc).
  assert (-1074 ≤ cexp m e) by (unfold cexp; lia). unfold round_pos, canonical.
  destruct (Z.eqb_spec (rne m (cexp m e - e)) (2 ^ 53)); cbn [fst snd]; lia.
Qed.

Lemma round_pos_mono_same m1 m2 e : 0 < m1 ≤ m2 → e ≤ cexp m1 e → lex_le (round_pos m1 e) (round_pos m2 e).
Proof.
  intros [Hm1 Hm] Hc1. pose proof (Z.log2_le_mono m1 m2 Hm) as Hlog.
  assert (Hcc : cexp m1 e ≤ cexp m2 e) by (unfold cexp; lia). assert (Hmin : -1074 ≤ cexp m1 e) by (unfold cexp; lia).
  pose proof (rounded_max m1 e ltac:(lia) Hc1). pose proof (rounded_max m2 e ltac:(lia) ltac:(lia)).
  pose proof (rounded_min m2 e ltac:(lia) ltac:(lia)). unfold round_pos, lex_le.
  destruct (Z.eq_dec (cexp m1 e) (cexp m2 e)) as [Heq|Hne].
  - pose proof (rne_mono m1 m2 (cexp m1 e - e) ltac:(lia) Hm). rewrite <-Heq in *.
    destruct (Z.eqb_spec (rne m1 (cexp m1 e - e)) (2 ^ 53)), (Z.eqb_spec (rne m2 (cexp m1 e - e)) (2 ^ 53)); cbn [fst snd]; lia.
  - destruct (Z.eqb_spec (rne m1 (cexp m1 e - e)) (2 ^ 53)), (Z.eqb_spec (rne m2 (cexp m2 e - e)) (2 ^ 53)); cbn [fst snd]; lia.
Qed.

(** Rounding is monotone. *)
Lemma round_pos_mono m1 e1 m2 e2 : 0 < m1 → 0 < m2 → e1 ≤ cexp m1 e1 → e2 ≤ cexp m2 e2 →
  m1 * 2 ^ (e1 - Z.min e1 e2) ≤ m2 * 2 ^ (e2 - Z.min e1 e2) → lex_le (round_pos m1 e1) (round_pos m2 e2).
Proof.
  intros Hm1 Hm2 Hc1 Hc2 Hv.
  rewrite <-(round_pos_scale m1 e1 (e1 - Z.min e1 e2)), <-(round_pos_scale m2 e2 (e2 - Z.min e1 e2)) by lia.
  replace (e1 - (e1 - Z.min e1 e2)) with (Z.min e1 e2) by lia. replace (e2 - (e2 - Z.min e1 e2)) with (Z.min e1 e2) by lia.
  pose proof (Z.pow_pos_nonneg 2 (e1 - Z.min e1 e2) ltac:(lia) ltac:(lia)).
  apply round_pos_mono_same; [split; [nia|done]|]. unfold cexp in *. rewrite Z.log2_mul_pow2 by lia. lia.
Qed.

(** ** Doubles *)

Abbreviation valid x := (valid_binary 53 1024 x = true) (only parsing).

Lemma valid_finite s m e : valid (S754_finite s m e) ↔ cexp (Z.pos m) e = e ∧ e ≤ 971.
Proof.
  cbn [valid_binary]. unfold bounded, canonical_mantissa. rewrite andb_true_iff, Z.eqb_eq, Z.leb_le.
  change (Z.pos (digits2_pos m)) with (Zdigits2 (Z.pos m)). by rewrite fexp_cexp by lia.
Qed.

Lemma cexp_canonical m e : 0 < m → cexp m e = e ↔ canonical (m, e).
Proof.
  intros Hm. unfold cexp, canonical. cbn [fst snd]. pose proof (log2_bounds m Hm) as Hl.
  pose proof (Z.log2_nonneg m). split.
  - intros He. assert (Hle : Z.log2 m ≤ 52) by lia. split; [|split; [lia|]].
    + split; [lia|]. eapply Z.lt_le_trans; [apply Hl|]. apply Z.pow_le_mono_r; lia.
    + intros Hlt. replace 52 with (Z.log2 m) by lia. apply Hl.
  - intros ([_ Hmax]&Hmin&Hn). assert (Z.log2 m < 53) by (apply Z.log2_lt_pow2; lia).
    destruct (Z.eq_dec e (-1074)); [lia|]. enough (52 ≤ Z.log2 m) by lia. apply Z.log2_le_pow2; lia.
Qed.

Lemma of_pair_valid s qc : canonical qc → valid (of_pair s qc).
Proof.
  destruct qc as [[|p|p] c]; intros Hc; [done| |done]. unfold of_pair. cbn [fst snd].
  destruct (Z.leb_spec c 971); [|done]. apply valid_finite. split; [|done]. by apply cexp_canonical.
Qed.

(** The order of doubles that are not negative. *)
Lemma leb_finite m1 e1 m2 e2 : f64_leb (S754_finite false m1 e1) (S754_finite false m2 e2) = true ↔
  lex_le (Z.pos m1, e1) (Z.pos m2, e2).
Proof.
  unfold f64_leb, SFleb, SFcompare, lex_le. cbn [fst snd]. change (Pos.compare_cont Eq m1 m2) with (m1 ?= m2)%positive.
  destruct (Z.compare_spec e1 e2); [|naive_solver lia..]. destruct (Pos.compare_spec m1 m2); split; try done; lia.
Qed.

Lemma of_pair_leb a b : canonical a → canonical b → lex_le a b → f64_leb (of_pair false a) (of_pair false b) = true.
Proof.
  destruct a as [q1 c1], b as [q2 c2]. intros (H1&H2&H3) (H4&H5&H6) Hl. unfold lex_le in Hl. cbn [fst snd] in *.
  unfold of_pair. cbn [fst snd]. destruct q1 as [|p1|]; [|destruct q2 as [|p2|]; try lia|lia].
  - destruct q2 as [|p2|]; [done| |lia]. by destruct (c2 <=? 971).
  - destruct (Z.leb_spec c1 971), (Z.leb_spec c2 971); [by apply leb_finite|done|lia|done].
Qed.

(** The values of two canonical pairs are ordered as the pairs are. *)
Lemma lex_le_value m1 e1 m2 e2 E : canonical (m1, e1) → canonical (m2, e2) → E ≤ e1 → E ≤ e2 →
  lex_le (m1, e1) (m2, e2) → m1 * 2 ^ (e1 - E) ≤ m2 * 2 ^ (e2 - E).
Proof.
  unfold canonical, lex_le. cbn [fst snd]. intros (H1&H2&_) (H3&H4&H5) He1 He2 [Hlt|[-> Hle]].
  - replace (e2 - E) with ((e2 - e1 - 1) + 1 + (e1 - E)) by ring. rewrite !Z.pow_add_r, Z.pow_1_r by lia.
    pose proof (Z.pow_pos_nonneg 2 (e2 - e1 - 1) ltac:(lia) ltac:(lia)).
    pose proof (Z.pow_pos_nonneg 2 (e1 - E) ltac:(lia) ltac:(lia)).
    specialize (H5 ltac:(lia)). rewrite !Z.mul_assoc. apply Z.mul_le_mono_nonneg_r; [lia|].
    change (2 ^ 53) with (2 ^ 52 * 2) in *. nia.
  - pose proof (Z.pow_pos_nonneg 2 (e2 - E) ltac:(lia) ltac:(lia)). nia.
Qed.

(** ** Multiplication *)

Lemma product_aligned m1 e1 m2 e2 : cexp (Z.pos m1) e1 = e1 → cexp (Z.pos m2) e2 = e2 →
  e1 + e2 ≤ cexp (Z.pos (m1 * m2)) (e1 + e2).
Proof.
  unfold cexp. intros H1 H2. rewrite Pos2Z.inj_mul.
  pose proof (Z.log2_mul_below (Z.pos m1) (Z.pos m2) ltac:(lia) ltac:(lia)).
  pose proof (Z.log2_nonneg (Z.pos m1)). pose proof (Z.log2_nonneg (Z.pos m2)). lia.
Qed.

Lemma mul_finite s1 m1 e1 s2 m2 e2 : valid (S754_finite s1 m1 e1) → valid (S754_finite s2 m2 e2) →
  f64_mul (S754_finite s1 m1 e1) (S754_finite s2 m2 e2) = of_pair (xorb s1 s2) (round_pos (Z.pos (m1 * m2)) (e1 + e2)) ∧
  canonical (round_pos (Z.pos (m1 * m2)) (e1 + e2)).
Proof.
  intros [H1 _]%valid_finite [H2 _]%valid_finite. pose proof (product_aligned m1 e1 m2 e2 H1 H2). split.
  - by apply binary_round_pos.
  - by apply round_pos_canonical.
Qed.

Lemma f64_mul_valid a b : valid a → valid b → valid (f64_mul a b).
Proof.
  intros Ha Hb. destruct a as [sa|sa| |sa ma ea], b as [sb|sb| |sb mb eb]; try done.
  destruct (mul_finite sa ma ea sb mb eb Ha Hb) as [-> Hc]. by apply of_pair_valid.
Qed.

Lemma leb_zero_of_pair s q : f64_leb (S754_zero s) (of_pair false q) = true.
Proof. unfold of_pair. destruct q as [[|p|p] c]; cbn [fst snd]; [done| |done]. by destruct (c <=? 971). Qed.

(** Multiplying with a number that is not negative keeps the order of such numbers, unless
    a product of zero and infinity is involved. *)
Lemma f64_mul_mono a b c : valid a → valid b → valid c →
  f64_leb f64_zero a = true → f64_leb f64_zero b = true → f64_leb b c = true →
  f64_mul a b ≠ S754_nan → f64_mul a c ≠ S754_nan → f64_leb (f64_mul a b) (f64_mul a c) = true.
Proof.
  intros Ha Hb Hc Hza Hzb Hbc Hn1 Hn2.
  destruct a as [sa|[]| |[] ma ea], b as [sb|[]| |[] mb eb], c as [sc|[]| |[] mc ec]; try done.
  - destruct (mul_finite false ma ea false mc ec Ha Hc) as [-> _]. apply leb_zero_of_pair.
  - destruct (mul_finite false ma ea false mb eb Ha Hb) as [-> _]. cbn [xorb f64_mul SFmul]. unfold of_pair.
    destruct (round_pos _ _).1; [done| |done]. by destruct (_ <=? 971).
  - destruct (mul_finite false ma ea false mb eb Ha Hb) as [-> H1], (mul_finite false ma ea false mc ec Ha Hc) as [-> H2].
    apply of_pair_leb; [done..|]. apply leb_finite in Hbc. apply valid_finite in Ha as [Ha _], Hb as [Hb _], Hc as [Hc _].
    apply round_pos_mono; [lia..| | |]; [by apply product_aligned..|].
    apply cexp_canonical in Hb, Hc; [|lia..].
    replace (ea + eb - Z.min (ea + eb) (ea + ec)) with (eb - Z.min eb ec) by lia.
    replace (ea + ec - Z.min (ea + eb) (ea + ec)) with (ec - Z.min eb ec) by lia.
    pose proof (lex_le_value _ _ _ _ (Z.min eb ec) Hb Hc ltac:(lia) ltac:(lia) Hbc). rewrite !Pos2Z.inj_mul. nia.
Qed.

(** ** Integers *)

Lemma pos_iter_xO m d : Z.pos (Pos.iter xO m d) = Z.pos m * 2 ^ Z.pos d.
Proof.
  induction d as [|d IH] using Pos.peano_ind; [cbn; lia|]. rewrite Pos.iter_succ.
  change (Z.pos (Pos.iter xO m d)~0) with (2 * Z.pos (Pos.iter xO m d)). rewrite IH, Pos2Z.inj_succ, Z.pow_succ_r by lia. ring.
Qed.

(** Aligning to the left makes the significand long enough and keeps the value. *)
Lemma binary_round_scaled s m e : ∃ j, 0 ≤ j ∧ e - j ≤ cexp (Z.pos m * 2 ^ j) (e - j) ∧
  binary_round 53 1024 s m e = of_pair s (round_pos (Z.pos m * 2 ^ j) (e - j)).
Proof.
  unfold binary_round, shl_align. change (Z.pos (digits2_pos m)) with (Zdigits2 (Z.pos m)). rewrite fexp_cexp by lia.
  assert (Hscale : ∀ j, 0 ≤ j → cexp (Z.pos m * 2 ^ j) (e - j) = cexp (Z.pos m) e).
  { intros j Hj. unfold cexp. rewrite Z.log2_mul_pow2 by lia. f_equal. lia. }
  destruct (cexp (Z.pos m) e - e) as [|d|d] eqn:Hd.
  1,2: exists 0; rewrite Z.pow_0_r, Z.mul_1_r, Z.sub_0_r; split; [lia|]; split; [lia|]; apply binary_round_pos; lia.
  exists (Z.pos d). replace (cexp (Z.pos m) e) with (e - Z.pos d) in * by lia.
  assert (Hal : e - Z.pos d ≤ cexp (Z.pos m * 2 ^ Z.pos d) (e - Z.pos d)) by (rewrite Hscale by lia; lia).
  split; [lia|]. split; [done|]. rewrite pos_iter_xO. apply binary_round_pos; [|done]. by rewrite <-pos_iter_xO.
Qed.

Lemma binary_round_valid s m e : valid (binary_round 53 1024 s m e).
Proof.
  destruct (binary_round_scaled s m e) as (j&Hj&Hal&->). apply of_pair_valid, round_pos_canonical; [|done].
  pose proof (Z.pow_pos_nonneg 2 j ltac:(lia) Hj). nia.
Qed.

Lemma binary_normalize_valid m e s : valid (binary_normalize 53 1024 m e s).
Proof. destruct m as [|m|m]; [done|apply binary_round_valid..]. Qed.

Lemma f64_of_Z_valid z : valid (f64_of_Z z).
Proof. apply binary_normalize_valid. Qed.

Lemma f64_sub_valid a b : valid a → valid b → valid (f64_sub a b).
Proof.
  intros Ha Hb. destruct a as [sa|sa| |sa ma ea], b as [sb|sb| |sb mb eb]; try done; try (by destruct sa, sb).
  apply binary_normalize_valid.
Qed.

Lemma f64_of_Z_mono i j : 0 ≤ i ≤ j → f64_leb (f64_of_Z i) (f64_of_Z j) = true.
Proof.
  intros [Hi Hij]. unfold f64_of_Z. destruct i as [|i|]; [|destruct j as [|j|]; [lia| |lia]|lia].
  - destruct j as [|j|]; [done| |lia]. cbn [binary_normalize]. destruct (binary_round_scaled false j 0) as (d&_&_&->).
    apply leb_zero_of_pair.
  - cbn [binary_normalize]. destruct (binary_round_scaled false i 0) as (d1&Hd1&Hal1&->), (binary_round_scaled false j 0) as (d2&Hd2&Hal2&->).
    pose proof (Z.pow_pos_nonneg 2 d1 ltac:(lia) Hd1). pose proof (Z.pow_pos_nonneg 2 d2 ltac:(lia) Hd2).
    apply of_pair_leb; [apply round_pos_canonical; [nia|done]..|]. apply round_pos_mono; [nia..|done|done|].
    rewrite <-!Z.mul_assoc, <-!Z.pow_add_r by lia.
    replace (d1 + (0 - d1 - Z.min (0 - d1) (0 - d2))) with (Z.max d1 d2) by lia.
    replace (d2 + (0 - d2 - Z.min (0 - d1) (0 - d2))) with (Z.max d1 d2) by lia.
    apply Z.mul_le_mono_nonneg_r; [apply Z.pow_nonneg; lia|lia].
Qed.

Lemma f64_of_Z_nonneg i : 0 ≤ i → f64_leb f64_zero (f64_of_Z i) = true.
Proof. intros Hi. by apply (f64_of_Z_mono 0 i). Qed.

(** Truncation as a division at a common exponent. *)
Lemma trunc_scaled m e E : E ≤ e → E ≤ 0 → f64_trunc (S754_finite false m e) = (Z.pos m * 2 ^ (e - E)) / 2 ^ (- E).
Proof.
  intros He HE. pose proof (Z.pow_pos_nonneg 2 (- E) ltac:(lia) ltac:(lia)). cbn [f64_trunc]. destruct (Z.leb_spec 0 e).
  - replace (e - E) with (e + - E) by ring. rewrite Z.pow_add_r, Z.mul_assoc, Z.div_mul by lia. done.
  - replace (- E) with (- e + (e - E)) by ring. rewrite (Z.pow_add_r 2 (- e)) by lia.
    rewrite Z.div_mul_cancel_r; [done|apply Z.pow_nonzero; lia..].
Qed.

(** [as u64] keeps the order. *)
Lemma f64_to_u64_mono a b : valid a → valid b → f64_leb f64_zero a = true → f64_leb a b = true → f64_to_u64 a ≤ f64_to_u64 b.
Proof.
  intros Ha Hb Hza Hab. pose proof (f64_to_u64_range b) as Hr. unfold in_u64 in Hr.
  destruct a as [sa|[]| |[] ma ea]; try done; [apply Hr|by destruct b as [|[]| |[]]|].
  destruct b as [sb|[]| |[] mb eb]; try done; [cbn [f64_to_u64]; unfold sat_u64; lia|]. apply leb_finite in Hab.
  apply valid_finite in Ha as [Ha _], Hb as [Hb _]. apply cexp_canonical in Ha, Hb; [|lia..].
  set (E := Z.min (Z.min ea eb) 0). pose proof (Z.pow_pos_nonneg 2 (- E) ltac:(lia) ltac:(lia)).
  unfold f64_to_u64. rewrite (trunc_scaled ma ea E), (trunc_scaled mb eb E) by lia.
  pose proof (lex_le_value _ _ _ _ E Ha Hb ltac:(lia) ltac:(lia) Hab) as Hv.
  pose proof (Z.div_le_mono _ _ (2 ^ (- E)) ltac:(lia) Hv). unfold sat_u64. lia.
Qed.

(** A product that stays finite bounds the products with smaller factors. *)
Lemma f64_mul_below a b c : valid a → valid b → valid c →
  f64_leb f64_zero a = true → f64_leb f64_zero b = true → f64_leb b c = true → is_finite (f64_mul a c) = true →
  is_finite (f64_mul a b) = true ∧ f64_leb f64_zero (f64_mul a b) = true ∧ f64_to_u64 (f64_mul a b) ≤ f64_to_u64 (f64_mul a c).
Proof.
  intros Ha Hb Hc Hza Hzb Hbc Hfin.
  assert (Hnan : f64_mul a b ≠ S754_nan).
  { destruct a as [sa|[]| |[] ma ea], b as [sb|[]| |[] mb eb], c as [sc|[]| |[] mc ec]; try done.
    all: destruct (mul_finite false ma ea false mb eb Ha Hb) as [-> _]; apply of_pair_number. }
  assert (Hz : f64_leb f64_zero (f64_mul a b) = true).
  { assert (Hz0 : ∃ s, f64_mul a f64_zero = S754_zero s).
    { destruct a as [sa|[]| |[] ma ea]; try done; [by eexists..| |by eexists]. by destruct c as [|[]| |[]]. }
    destruct Hz0 as [s Hs].
    pose proof (f64_mul_mono a f64_zero b Ha eq_refl Hb Hza eq_refl Hzb ltac:(by rewrite Hs) Hnan) as Hm. by rewrite Hs in Hm. }
  pose proof (f64_mul_mono a b c Ha Hb Hc Hza Hzb Hbc Hnan ltac:(by intros E; rewrite E in Hfin)) as Hle.
  split; [|split; [done|]].
  - destruct (f64_mul a b) as [|[]| |[]], (f64_mul a c) as [|[]| |[]]; done.
  - by apply f64_to_u64_mono; [apply f64_mul_valid..| |].
Qed.

(** ** Subtraction *)

Lemma shl_align_value m e ez : ez ≤ e → Z.pos (shl_align m e ez).1 = Z.pos m * 2 ^ (e - ez).
Proof.
  intros He. unfold shl_align. destruct (ez - e) as [|d|d] eqn:Hd; [| lia |]; cbn [fst].
  - replace (e - ez) with 0 by lia. lia.
  - rewrite pos_iter_xO. do 2 f_equal. lia.
Qed.

Lemma f64_sub_nonneg a b : valid a → valid b → is_finite b = true → f64_leb f64_zero b = true → f64_leb b a = true →
  f64_leb f64_zero (f64_sub a b) = true.
Proof.
  intros Ha Hb Hfb Hzb Hba. destruct a as [sa|[]| |[] ma ea], b as [sb|[]| |[] mb eb]; try done; [by destruct sa, sb|].
  unfold f64_sub, SFsub. cbn [cond_Zopp]. apply leb_finite in Hba. apply valid_finite in Ha as [Ha _], Hb as [Hb _].
  apply cexp_canonical in Ha, Hb; [|lia..]. rewrite !shl_align_value by lia.
  pose proof (lex_le_value _ _ _ _ (Z.min ea eb) Hb Ha ltac:(lia) ltac:(lia) Hba).
  destruct (Z.pos ma * 2 ^ (ea - Z.min ea eb) - Z.pos mb * 2 ^ (eb - Z.min ea eb)) as [|p|p] eqn:Hd; [done| |lia].
  cbn [binary_normalize]. destruct (binary_round_scaled false p (Z.min ea eb)) as (j&_&_&->). apply leb_zero_of_pair.
Qed.

(** Of two numbers one is at most the other. *)
Lemma f64_leb_total a b : a ≠ S754_nan → b ≠ S754_nan → f64_leb a b = false → f64_leb b a = true.
Proof.
  unfold f64_leb, SFleb. destruct a as [sa|[]| |[] ma ea], b as [sb|[]| |[] mb eb]; try done; cbn [SFcompare];
    change (Pos.compare_cont Eq ma mb) with (ma ?= mb)%positive; change (Pos.compare_cont Eq mb ma) with (mb ?= ma)%positive;
    rewrite (Z.compare_antisym ea eb), (Pos.compare_antisym ma mb); destruct (ea ?= eb), (ma ?= mb)%positive; done.
Qed.

Lemma f64_leb_refl x : x ≠ S754_nan → f64_leb x x = true.
Proof. intros Hx. destruct (f64_leb x x) eqn:E; [done|]. rewrite <-E. by apply f64_leb_total. Qed.

Lemma f64_of_Z_number z : f64_of_Z z ≠ S754_nan.
Proof.
  unfold f64_of_Z. destruct z as [|m|m]; [done|..]; cbn [binary_normalize].
  - destruct (binary_round_scaled false m 0) as (j&_&_&->). apply of_pair_number.
  - destruct (binary_round_scaled true m 0) as (j&_&_&->). apply of_pair_number.
Qed.
