(* ===== verification/FloatText.v ===== *)
(** * Printing binary64 numbers

    [Display] of [f64]: the shortest decimal that reads back as the same number
    and the closest such decimal, written without an exponent; and the format with one
    decimal. *)
From stdpp Require Import pretty.
From S2P Require Import Prelude Float64.
Local Open Scope Z_scope.

(** The reals that round to [m * 2^e], scaled to integers over a common
    denominator: the number, its distances to the interval's ends, the unit. *)
Record Interval := {
  iv_num : Z;
  iv_low : Z;
  iv_high : Z;
  iv_den : Z;
  iv_closed : bool
}.

Definition rounding_interval (m e : Z) : Interval :=
  let scale := 2 ^ Z.max e 0 in
  {| iv_num := 4 * m * scale;
     iv_low := (if (m =? 2 ^ 52) && (-1074 <? e) then 1 else 2) * scale;
     iv_high := 2 * scale;
     iv_den := 4 * 2 ^ Z.max (- e) 0;
     iv_closed := Z.even m |}.

(** [d * 10^q] lies in the interval. *)
Definition in_interval (iv : Interval) (d q : Z) : bool :=
  let s := 10 ^ Z.max (- q) 0 in
  let x := d * 10 ^ Z.max q 0 * iv_den iv in
  let lo := (iv_num iv - iv_low iv) * s in
  let hi := (iv_num iv + iv_high iv) * s in
  (0 <? d) && (if iv_closed iv then (lo <=? x) && (x <=? hi) else (lo <? x) && (x <? hi)).

(** The multiple of [10^q] closest to the number, if it or its neighbour on the
    other side is in the interval. *)
Definition closest (iv : Interval) (q : Z) : option Z :=
  let num := iv_num iv * 10 ^ Z.max (- q) 0 in
  let unit := 10 ^ Z.max q 0 * iv_den iv in
  let d := num / unit in
  let r := num mod unit in
  let up := (unit <? 2 * r) || ((unit =? 2 * r) && Z.odd d) in
  let first := if up then d + 1 else d in
  let second := if up then d else d + 1 in
  if in_interval iv first q then Some first
  else if in_interval iv second q then Some second
  else None.

(** Largest exponent first: fewest digits. *)
Fixpoint shortest (fuel : nat) (iv : Interval) (q : Z) : Z * Z :=
  match fuel with
  | O => (0, 0)
  | S fuel =>
      match closest iv q with
      | Some d => (d, q)
      | None => shortest fuel iv (q - 1)
      end
  end.

Definition zeros (n : Z) : string := String.concat "" (replicate (Z.to_nat n) "0").

(** [d * 10^q] without an exponent. *)
Definition positional (d q : Z) : string :=
  let s : string := pretty d in
  let len := Z.of_nat (String.length s) in
  if 0 <=? q then s +:+ zeros q
  else if - q <? len then
    String.substring 0 (Z.to_nat (len + q)) s +:+ "." +:+
    String.substring (Z.to_nat (len + q)) (Z.to_nat (- q)) s
  else "0." +:+ zeros (- q - len) +:+ s.

(** Exponents from 309 (the largest number has 309 digits) down to -1074
    (the smallest has its last digit there). *)
Definition f64_digits (m : positive) (e : Z) : string :=
  let '(d, q) := shortest 1400 (rounding_interval (Zpos m) e) 309 in positional d q.

Definition display_f64 (x : f64) : string :=
  let sign (s : bool) := if s then "-" else "" in
  match x with
  | S754_nan => "NaN"
  | S754_infinity s => sign s +:+ "inf"
  | S754_zero s => sign s +:+ "0"
  | S754_finite s m e => sign s +:+ f64_digits m e
  end.

(** The [{:.1}] format: the exact value rounded to one decimal, ties to even. *)
Definition display_tenths (x : f64) : string :=
  let sign (s : bool) := if s then "-" else "" in
  match x with
  | S754_nan => "NaN"
  | S754_infinity s => sign s +:+ "inf"
  | S754_zero s => sign s +:+ "0.0"
  | S754_finite s m e =>
      let num := 10 * Z.pos m * 2 ^ Z.max e 0 in
      let den := 2 ^ Z.max (- e) 0 in
      let d := num / den in
      let r := num mod den in
      let d := if (den <? 2 * r) || ((den =? 2 * r) && Z.odd d) then d + 1 else d in
      sign s +:+ pretty (d / 10) +:+ "." +:+ pretty (d mod 10)
  end.

(** ** The search ends with a decimal of the rounding interval *)

Lemma closest_in iv q d : closest iv q = Some d → in_interval iv d q = true.
Proof. unfold closest. cbv zeta. repeat case_match; congruence. Qed.

(** An exact decimal is found at its exponent. *)
Lemma closest_exact iv q d : 0 < d → 0 < iv_den iv → 0 < iv_low iv → 0 < iv_high iv →
  iv_num iv * 10 ^ Z.max (- q) 0 = d * (10 ^ Z.max q 0 * iv_den iv) → closest iv q = Some d.
Proof.
  intros Hd Hden Hlow Hhigh E. unfold closest. cbv zeta. rewrite E.
  assert (0 < 10 ^ Z.max q 0) by (apply Z.pow_pos_nonneg; lia).
  assert (0 < 10 ^ Z.max (- q) 0) by (apply Z.pow_pos_nonneg; lia).
  rewrite Z.div_mul, Z_mod_mult by nia.
  set (unit := 10 ^ Z.max q 0 * iv_den iv). assert (0 < unit) by (unfold unit; nia).
  replace (unit <? 2 * 0) with false by lia. replace (unit =? 2 * 0) with false by lia.
  cbn [orb andb].
  assert (in_interval iv d q = true) as ->; [|done].
  unfold in_interval. cbv zeta.
  replace (d * 10 ^ Z.max q 0 * iv_den iv) with (iv_num iv * 10 ^ Z.max (- q) 0) by lia.
  destruct (iv_closed iv); nia.
Qed.

Lemma shortest_in fuel iv q k : (k < fuel)%nat → is_Some (closest iv (q - Z.of_nat k)) →
  let r := shortest fuel iv q in in_interval iv r.1 r.2 = true.
Proof.
  revert q k. induction fuel as [|fuel IH]; intros q k Hk Hc; [lia|]. cbn [shortest].
  destruct (closest iv q) as [d|] eqn:E; [by apply closest_in|].
  destruct k as [|k]; [rewrite Z.sub_0_r, E in Hc; by destruct Hc|].
  apply (IH _ k); [lia|]. by replace (q - 1 - Z.of_nat k) with (q - Z.of_nat (S k)) by lia.
Qed.

(** The digits printed for a finite number denote a decimal that rounds back to
    it: the search never runs out of exponents. *)
Lemma f64_digits_sound m e : -1074 ≤ e ≤ 971 →
  let r := shortest 1400 (rounding_interval (Zpos m) e) 309 in
  in_interval (rounding_interval (Zpos m) e) r.1 r.2 = true.
Proof.
  intros He.
  assert (0 < 2 ^ Z.max e 0) by (apply Z.pow_pos_nonneg; lia).
  assert (0 < 2 ^ Z.max (- e) 0) by (apply Z.pow_pos_nonneg; lia).
  apply (shortest_in _ _ _ (Z.to_nat (309 - Z.min e 0))); [lia|].
  replace (309 - Z.of_nat (Z.to_nat (309 - Z.min e 0))) with (Z.min e 0) by lia.
  exists (Zpos m * 2 ^ Z.max e 0 * 5 ^ Z.max (- e) 0).
  assert (0 < 5 ^ Z.max (- e) 0) by (apply Z.pow_pos_nonneg; lia).
  apply closest_exact; cbn [rounding_interval iv_den iv_low iv_high iv_num]; [nia|lia| |lia|].
  - case_match; lia.
  - replace (Z.max (- Z.min e 0) 0) with (Z.max (- e) 0) by lia.
    replace (Z.max (Z.min e 0) 0) with 0 by lia.
    change 10 with (2 * 5). rewrite Z.pow_mul_l. lia.
Qed.
