(* ===== verification/Json.v ===== *)
(** * JSON documents

    [serde_json::Value]: numbers are unsigned, signed or binary64, and an object
    lists its entries in key order, since the crate's map is a [BTreeMap] in
    this build. *)
From S2P Require Import Prelude Float64.
Local Open Scope Z_scope.

Inductive Number :=
| PosInt (n : Z)
| NegInt (n : Z)
| Float (x : f64).

Unset Elimination Schemes.
Inductive Json :=
| JNull
| JBool (b : bool)
| JNumber (n : Number)
| JString (s : string)
| JArray (items : list Json)
| JObject (fields : list (string * Json)).
Set Elimination Schemes.

(** [Map::get] *)
Fixpoint field_get (k : string) (fields : list (string * Json)) : option Json :=
  match fields with
  | [] => None
  | (k', v) :: rest => if bool_decide (k = k') then Some v else field_get k rest
  end.

(** [Map::insert]: keeps the entries sorted, replacing an equal key. *)
Fixpoint field_insert (k : string) (v : Json) (fields : list (string * Json))
    : list (string * Json) :=
  match fields with
  | [] => [(k, v)]
  | (k', v') :: rest =>
      if bool_decide (k = k') then (k, v) :: rest
      else if String.leb k k' then (k, v) :: (k', v') :: rest
      else (k', v') :: field_insert k v rest
  end.

(** An object built from a list of entries, as [json!({ ... })] does. *)
Definition json_object (fields : list (string * Json)) : Json :=
  JObject (foldl (fun acc kv => field_insert kv.1 kv.2 acc) [] fields).

(** [Json::as_object] and friends. *)
Definition as_str (j : Json) : option string :=
  match j with JString s => Some s | _ => None end.

Definition as_u64 (j : Json) : option Z :=
  match j with JNumber (PosInt n) => Some n | _ => None end.

Definition as_array (j : Json) : option (list Json) :=
  match j with JArray items => Some items | _ => None end.

Definition as_object (j : Json) : option (list (string * Json)) :=
  match j with JObject fields => Some fields | _ => None end.

(** [Value::get] with a string index *)
Definition json_get (k : string) (j : Json) : option Json :=
  match j with JObject fields => field_get k fields | _ => None end.

(** Objects keep their keys strictly increasing. *)
Fixpoint json_wf (j : Json) : Prop :=
  match j with
  | JArray items => fold_right (fun x P => json_wf x ∧ P) True items
  | JObject fields =>
      StronglySorted (fun a b => String.le a b ∧ a ≠ b) fields.*1 ∧
      fold_right (fun kv P => json_wf kv.2 ∧ P) True fields
  | _ => True
  end.

(** Induction through the nested lists. *)
Section JsonInd.
Context (P : Json → Prop).
Context (Hnull : P JNull) (Hbool : ∀ b, P (JBool b)) (Hnum : ∀ n, P (JNumber n)).
Context (Hstr : ∀ s, P (JString s)).
Context (Harr : ∀ items, Forall P items → P (JArray items)).
Context (Hobj : ∀ fields, Forall (fun kv => P kv.2) fields → P (JObject fields)).

Fixpoint json_ind (j : Json) : P j :=
  match j with
  | JNull => Hnull
  | JBool b => Hbool b
  | JNumber n => Hnum n
  | JString s => Hstr s
  | JArray items =>
      Harr items ((fix go (l : list Json) : Forall P l :=
        match l with
        | [] => Forall_nil_2 P
        | x :: xs => Forall_cons_2 P x xs (json_ind x) (go xs)
        end) items)
  | JObject fields =>
      Hobj fields ((fix go (l : list (string * Json)) : Forall (fun kv => P kv.2) l :=
        match l with
        | [] => Forall_nil_2 _
        | kv :: xs => Forall_cons_2 (fun kv => P kv.2) kv xs (json_ind kv.2) (go xs)
        end) fields)
  end.
End JsonInd.

Lemma field_get_insert k v fields k' :
  field_get k' (field_insert k v fields) = if bool_decide (k' = k) then Some v else field_get k' fields.
Proof.
  induction fields as [|[k0 v0] rest IH]; cbn; [done|].
  repeat case_bool_decide; subst; cbn; repeat case_bool_decide; try congruence;
    destruct (String.leb _ _); cbn; repeat case_bool_decide; subst; try congruence.
Qed.
