(* ===== verification/Expr.v ===== *)
(** * Expressions and templates (src/src/engine/expr.rs)

    Dynamic values, path resolution against a context, the depth-bounded
    evaluator and the interpolation of [${...}] placeholders into strings and
    JSON documents. A [BTreeMap] inside a value is the list of its entries in
    key order, as for [Json]. *)
From stdpp Require Import pretty.
From S2P Require Import Prelude RustStrings Text Float64 FloatText Json.
Local Open Scope Z_scope.

Inductive ExprError :=
| Syntax (s : string)
| UndefinedVariable (s : string)
| TypeMismatch (s : string)
| NestingLimitExceeded
| FunctionError (name message : string).

Definition expr_error_text (e : ExprError) : string :=
  match e with
  | Syntax s => "expression syntax error: " +:+ s
  | UndefinedVariable s => "undefined variable '" +:+ s +:+ "'"
  | TypeMismatch s => "type mismatch: " +:+ s
  | NestingLimitExceeded => "maximum expression nesting depth exceeded"
  | FunctionError name message => "function '" +:+ name +:+ "' error: " +:+ message
  end.

Unset Elimination Schemes.
Inductive ExprValue :=
| VNull
| VBool (b : bool)
| VNumber (n : f64)
| VString (s : string)
| VArray (items : list ExprValue)
| VObject (fields : list (string * ExprValue)).
Set Elimination Schemes.

(** [BTreeMap::insert] on the entries in key order. *)
Fixpoint entry_insert (k : string) (v : ExprValue) (fields : list (string * ExprValue))
    : list (string * ExprValue) :=
  match fields with
  | [] => [(k, v)]
  | (k', v') :: rest =>
      if bool_decide (k = k') then (k, v) :: rest
      else if String.leb k k' then (k, v) :: (k', v') :: rest
      else (k', v') :: entry_insert k v rest
  end.

(** [Number::as_f64] *)
Definition as_f64 (n : Number) : f64 :=
  match n with PosInt n | NegInt n => f64_of_Z n | Float x => x end.

(** [for (k, v) in obj { map.insert(k, f(v)); }] *)
Definition insert_all {A B} (ins : string → B → list (string * B) → list (string * B)) (f : A → B)
    : list (string * B) → list (string * A) → list (string * B) :=
  fix go acc obj :=
    match obj with
    | [] => acc
    | (k, v) :: rest => go (ins k (f v) acc) rest
    end.

(** [impl From<Json> for ExprValue] *)
Fixpoint value_of_json (json : Json) : ExprValue :=
  match json with
  | JNull => VNull
  | JBool b => VBool b
  | JNumber n => VNumber (as_f64 n)
  | JString s => VString s
  | JArray arr => VArray (map value_of_json arr)
  | JObject obj => VObject (insert_all entry_insert value_of_json [] obj)
  end.

(** [Number::from_f64]: finite numbers only. *)
Definition from_f64 (x : f64) : option Number :=
  if is_finite x then Some (Float x) else None.

(** [impl From<ExprValue> for Json] *)
Fixpoint json_of_value (val : ExprValue) : Json :=
  match val with
  | VNull => JNull
  | VBool b => JBool b
  | VNumber n => match from_f64 n with Some n => JNumber n | None => JNull end
  | VString s => JString s
  | VArray arr => JArray (map json_of_value arr)
  | VObject obj => JObject (insert_all field_insert json_of_value [] obj)
  end.

Definition dquote : string := of_bytes [34].

(** [impl Display for ExprValue] *)
Fixpoint display_value (v : ExprValue) : string :=
  match v with
  | VNull => "null"
  | VBool b => if b then "true" else "false"
  | VNumber n => display_f64 n
  | VString s => s
  | VArray arr => "[" +:+ join ", " (map display_value arr) +:+ "]"
  | VObject obj =>
      "{" +:+ join ", " (map (fun kv => dquote +:+ kv.1 +:+ dquote +:+ ": " +:+ display_value kv.2) obj)
      +:+ "}"
  end.

(** The derived [PartialEq]: numbers compare as IEEE numbers. *)
Fixpoint value_eqb (a b : ExprValue) : bool :=
  match a, b with
  | VNull, VNull => true
  | VBool a, VBool b => Bool.eqb a b
  | VNumber a, VNumber b => f64_eqb a b
  | VString a, VString b => String.eqb a b
  | VArray a, VArray b =>
      (fix all (a b : list ExprValue) : bool :=
         match a, b with
         | [], [] => true
         | x :: a, y :: b => value_eqb x y && all a b
         | _, _ => false
         end) a b
  | VObject a, VObject b =>
      (fix all (a b : list (string * ExprValue)) : bool :=
         match a, b with
         | [], [] => true
         | (k, x) :: a, (k', y) :: b => String.eqb k k' && value_eqb x y && all a b
         | _, _ => false
         end) a b
  | _, _ => false
  end.

(** ** Contexts and paths *)

Record ExprContext := {
  run_input : Json;
  task_outputs : gmap string Json;
  cx_meta : gmap string string
}.

Definition context_new : ExprContext := {| run_input := JNull; task_outputs := ∅; cx_meta := ∅ |}.

Definition with_run_input (ctx : ExprContext) (input : Json) : ExprContext :=
  {| run_input := input; task_outputs := task_outputs ctx; cx_meta := cx_meta ctx |}.

Definition with_task_output (ctx : ExprContext) (task_name : string) (output : Json) : ExprContext :=
  {| run_input := run_input ctx; task_outputs := <[task_name := output]> (task_outputs ctx);
     cx_meta := cx_meta ctx |}.

Definition with_meta (ctx : ExprContext) (key value : string) : ExprContext :=
  {| run_input := run_input ctx; task_outputs := task_outputs ctx;
     cx_meta := <[key := value]> (cx_meta ctx) |}.

(** The [for &segment in ...] loops: a missing field is null, and a segment
    below a value that is not an object ends the walk with null. *)
Fixpoint walk (curr : Json) (segments : list string) : ExprValue :=
  match segments with
  | [] => value_of_json curr
  | segment :: rest =>
      match curr with
      | JObject fields => walk (default JNull (field_get segment fields)) rest
      | _ => VNull
      end
  end.

Definition resolve_path (ctx : ExprContext) (path : list string) : result ExprValue ExprError :=
  let full := join "." path in
  match path with
  | [] => Err (Syntax "empty variable path")
  | root :: rest =>
      if bool_decide (root = "run") then
        match rest with
        | second :: segments =>
            if bool_decide (second = "input") then Ok (walk (run_input ctx) segments)
            else Err (UndefinedVariable full)
        | [] => Err (UndefinedVariable full)
        end
      else if bool_decide (root = "tasks") then
        match rest with
        | [] => Err (Syntax "incomplete tasks path")
        | task_name :: more =>
            match task_outputs ctx !! task_name with
            | None => Err (UndefinedVariable full)
            | Some task_out =>
                let segments := match more with
                                | third :: tail => if bool_decide (third = "output") then tail else more
                                | [] => more
                                end in
                Ok (walk task_out segments)
            end
        end
      else if bool_decide (root = "meta") then
        match rest with
        | [key] => Ok (match cx_meta ctx !! key with Some v => VString v | None => VNull end)
        | _ => Err (UndefinedVariable full)
        end
      else Err (UndefinedVariable ("unknown root domain '" +:+ root +:+ "' in '" +:+ full +:+ "'"))
  end.

(** ** Evaluation *)

Inductive Expr :=
| Literal (v : ExprValue)
| Variable_ (path : list string)
| Eq (l r : Expr)
| Ne (l r : Expr)
| Lt_ (l r : Expr)
| Gt_ (l r : Expr)
| And (l r : Expr)
| Or (l r : Expr)
| Not (e : Expr).

(** The comparison of [<] and, with the operands swapped, of [>]. *)
Definition less_than (op : string) (l r : ExprValue) : result ExprValue ExprError :=
  match l, r with
  | VNumber a, VNumber b => Ok (VBool (f64_ltb a b))
  | VString a, VString b => Ok (VBool (String.ltb a b))
  | _, _ => Err (TypeMismatch (op +:+ " requires comparable operands"))
  end.

Fixpoint eval_depth (ctx : ExprContext) (depth : nat) (e : Expr) : result ExprValue ExprError :=
  if (32 <? depth)%nat then Err NestingLimitExceeded
  else match e with
  | Literal val => Ok val
  | Variable_ path => resolve_path ctx path
  | Eq l r =>
      let? l := eval_depth ctx (S depth) l in
      let? r := eval_depth ctx (S depth) r in
      Ok (VBool (value_eqb l r))
  | Ne l r =>
      let? l := eval_depth ctx (S depth) l in
      let? r := eval_depth ctx (S depth) r in
      Ok (VBool (negb (value_eqb l r)))
  | Lt_ l r =>
      let? l := eval_depth ctx (S depth) l in
      let? r := eval_depth ctx (S depth) r in
      less_than "<" l r
  | Gt_ l r =>
      let? l := eval_depth ctx (S depth) l in
      let? r := eval_depth ctx (S depth) r in
      less_than ">" r l
  | And l r =>
      let? l := eval_depth ctx (S depth) l in
      match l with
      | VBool false => Ok (VBool false)
      | VBool true =>
          let? r := eval_depth ctx (S depth) r in
          match r with
          | VBool b => Ok (VBool b)
          | _ => Err (TypeMismatch "&& requires boolean operands")
          end
      | _ => Err (TypeMismatch "&& requires boolean operands")
      end
  | Or l r =>
      let? l := eval_depth ctx (S depth) l in
      match l with
      | VBool true => Ok (VBool true)
      | VBool false =>
          let? r := eval_depth ctx (S depth) r in
          match r with
          | VBool b => Ok (VBool b)
          | _ => Err (TypeMismatch "|| requires boolean operands")
          end
      | _ => Err (TypeMismatch "|| requires boolean operands")
      end
  | Not inner =>
      let? val := eval_depth ctx (S depth) inner in
      match val with
      | VBool b => Ok (VBool (negb b))
      | _ => Err (TypeMismatch "! requires boolean operand")
      end
  end.

Definition eval (ctx : ExprContext) (e : Expr) : result ExprValue ExprError := eval_depth ctx 0 e.

(** ** Interpolation *)

(** The inner [for] loop: the characters up to the closing brace and what is
    left of the iterator. *)
Fixpoint take_close (cs : list string) : option (string * list string) :=
  match cs with
  | [] => None
  | c :: rest =>
      if bool_decide (c = "}") then Some (EmptyString, rest)
      else match take_close rest with
           | Some (inner, rest') => Some (c +:+ inner, rest')
           | None => None
           end
  end.

(** The value of a placeholder's content. *)
Definition resolve_name (ctx : ExprContext) (content : string) : result ExprValue ExprError :=
  resolve_path ctx (split_on "." (trim content)).

(** The [while let Some((i, ch)) = chars.next()] loop: one round takes at least
    one character, so the number of characters is fuel enough. *)
Fixpoint interpolate_chars (fuel : nat) (ctx : ExprContext) (i : Z) (cs : list string) (out : string)
    : result string ExprError :=
  match fuel, cs with
  | S fuel, ch :: rest =>
      if bool_decide (ch = "$") && bool_decide (head rest = Some "{") then
        let start := i + 2 in
        match take_close (tail rest) with
        | None =>
            Err (Syntax ("unclosed '${' expression starting at index " +:+ pretty start))
        | Some (content, rest') =>
            let? val := resolve_name ctx content in
            interpolate_chars fuel ctx (start + str_len content + 1) rest' (out +:+ display_value val)
        end
      else interpolate_chars fuel ctx (i + str_len ch) rest (out +:+ ch)
  | _, _ => Ok out
  end.

Definition interpolate_string (template : string) (ctx : ExprContext) : result string ExprError :=
  interpolate_chars (length (chars template)) ctx 0 (chars template) EmptyString.

(** [&s[2..s.len() - 1]] *)
Definition between (s : string) : string := str_drop 2 (str_take (String.length s - 1) s).

Definition is_exact (trimmed : string) : bool :=
  starts_with "${" trimmed && ends_with "}" trimmed && bool_decide (find "${" (between trimmed) = None).

(** The fallible loops over an array's items and an object's entries. *)
Definition try_items (f : Json → result Json ExprError) : list Json → result (list Json) ExprError :=
  fix go arr :=
    match arr with
    | [] => Ok []
    | item :: rest => let? item := f item in let? rest := go rest in Ok (item :: rest)
    end.

Definition try_fields (f : Json → result Json ExprError)
    : list (string * Json) → list (string * Json) → result (list (string * Json)) ExprError :=
  fix go acc obj :=
    match obj with
    | [] => Ok acc
    | (k, v) :: rest => let? v := f v in go (field_insert k v acc) rest
    end.

Fixpoint interpolate_json (value : Json) (ctx : ExprContext) : result Json ExprError :=
  match value with
  | JString s =>
      let trimmed := trim s in
      if is_exact trimmed then
        let? val := resolve_name ctx (between trimmed) in Ok (json_of_value val)
      else
        let? interpolated := interpolate_string s ctx in Ok (JString interpolated)
  | JArray arr =>
      let? out := try_items (fun item => interpolate_json item ctx) arr in Ok (JArray out)
  | JObject map =>
      let? out := try_fields (fun v => interpolate_json v ctx) [] map in Ok (JObject out)
  | other => Ok other
  end.
