(* ===== verification/ExprSpec.v ===== *)
(** * What expressions and templates mean

    The depth-bounded evaluator against the plain semantics of the connectives,
    interpolation against filling a template piece by piece, and the conversion
    of JSON documents to values and back. *)
From stdpp Require Import pretty.
From S2P Require Import Prelude RustStrings Text Float64 FloatText Json Expr.
Local Open Scope Z_scope.

(** ** Reference semantics *)

Definition boolean (op : string) (v : ExprValue) : result bool ExprError :=
  match v with VBool b => Ok b | _ => Err (TypeMismatch op) end.

(** The value of an expression with no bound on nesting. *)
Fixpoint denote (ctx : ExprContext) (e : Expr) : result ExprValue ExprError :=
  match e with
  | Literal v => Ok v
  | Variable_ path => resolve_path ctx path
  | Eq l r => let? x := denote ctx l in let? y := denote ctx r in Ok (VBool (value_eqb x y))
  | Ne l r => let? x := denote ctx l in let? y := denote ctx r in Ok (VBool (negb (value_eqb x y)))
  | Lt_ l r => let? x := denote ctx l in let? y := denote ctx r in less_than "<" x y
  | Gt_ l r => let? x := denote ctx l in let? y := denote ctx r in less_than ">" y x
  | And l r =>
      let? x := denote ctx l in
      let? a := boolean "&& requires boolean operands" x in
      if a then let? y := denote ctx r in
                let? b := boolean "&& requires boolean operands" y in Ok (VBool b)
      else Ok (VBool false)
  | Or l r =>
      let? x := denote ctx l in
      let? a := boolean "|| requires boolean operands" x in
      if a then Ok (VBool true)
      else let? y := denote ctx r in
           let? b := boolean "|| requires boolean operands" y in Ok (VBool b)
  | Not inner =>
      let? x := denote ctx inner in
      let? a := boolean "! requires boolean operand" x in Ok (VBool (negb a))
  end.

Fixpoint height (e : Expr) : nat :=
  match e with
  | Literal _ | Variable_ _ => 0
  | Eq l r | Ne l r | Lt_ l r | Gt_ l r | And l r | Or l r => S (Nat.max (height l) (height r))
  | Not inner => S (height inner)
  end.

Definition is_leaf (e : Expr) : bool :=
  match e with Literal _ | Variable_ _ => true | _ => false end.

(** ** Evaluation *)

Lemma resolve_path_limit ctx path : resolve_path ctx path ≠ Err NestingLimitExceeded.
Proof. unfold resolve_path. repeat case_match; discriminate. Qed.

(** Deep enough or not, the bounded evaluator is the reference unless it
    reports the limit, which it does only below the bound. *)
Lemma eval_depth_cases ctx e depth :
  eval_depth ctx depth e = denote ctx e ∨
  (eval_depth ctx depth e = Err NestingLimitExceeded ∧ (32 < depth + height e)%nat).
Proof.
  revert depth.
  induction e as [v|path|l IHl r IHr|l IHl r IHr|l IHl r IHr|l IHl r IHr|l IHl r IHr|l IHl r IHr|e IH];
    intros depth; cbn [eval_depth denote height]; destruct (Nat.ltb_spec 32 depth);
    try (right; split; [done|lia]); try (by left).
  all: try (destruct (IHl (S depth)) as [->|[-> ?]]; [|right; split; [done|lia]]).
  all: try (destruct (IH (S depth)) as [->|[-> ?]]; [|right; split; [done|lia]]).
  all: try (destruct (denote ctx l) as [x|err]; cbn [rbind]; [|by left]).
  all: try (destruct x as [|[]| | | |]; cbn [boolean rbind]; try (by left)).
  all: try (destruct (IHr (S depth)) as [->|[-> ?]]; [|right; split; [done|lia]]).
  all: try (destruct (denote ctx r) as [y|err]; cbn [rbind]; [|by left]; by destruct y; left).
  all: try (by left).
  destruct (denote ctx e) as [x|err]; cbn [rbind]; [by destruct x; left|by left].
Qed.

Lemma denote_boolean ctx e v : denote ctx e = Ok v → is_leaf e = false → ∃ b, v = VBool b.
Proof.
  intros H Hl. destruct e; try discriminate Hl; cbn [denote] in H; inv_result;
    repeat match goal with
    | H : less_than _ ?a ?b = Ok _ |- _ => destruct a, b; cbn in H; inv_result
    | H : (if ?a then _ else _) = Ok _ |- _ => destruct a; inv_result
    end; eauto.
Qed.

(** ** Templates *)

(** A template filled piece by piece, left to right. *)
Fixpoint fill (ctx : ExprContext) (pieces : list (string * string)) (tail : string)
    : result string ExprError :=
  match pieces with
  | [] => Ok tail
  | (pre, name) :: rest =>
      let? val := resolve_name ctx name in
      let? more := fill ctx rest tail in
      Ok (pre +:+ display_value val +:+ more)
  end.

(** Pieces that render unambiguously: no dollar sign in the text, no closing
    brace in a name, and every piece starts on a character boundary. *)
Definition clean_text (s : string) : bool := on_boundary s && negb (contains_byte 36 s).
Definition clean_name (s : string) : bool := on_boundary s && negb (contains_byte 125 s).
Definition clean (pieces : list (string * string)) (tail : string) : bool :=
  forallb (fun p => clean_text p.1 && clean_name p.2) pieces && clean_text tail.

Lemma clean_no_byte s (x : ascii) : contains_byte (byte_of x) s = false →
  String x EmptyString ∉ chars s.
Proof. intros Hc Hx%chars_elem_byte%contains_byte_spec. congruence. Qed.

(** Text without a dollar sign is copied. *)
Lemma interpolate_text fuel ctx i cs rest out : "$" ∉ cs → (length cs ≤ fuel)%nat →
  interpolate_chars fuel ctx i (cs ++ rest) out =
  interpolate_chars (fuel - length cs) ctx (i + str_len (collect cs)) rest (out +:+ collect cs).
Proof.
  revert fuel i out. induction cs as [|c cs IH]; intros fuel i out Hd Hf; cbn [app length].
  { cbn [collect foldr]. rewrite str_app_nil, Nat.sub_0_r. f_equal. unfold str_len. cbn. lia. }
  destruct fuel as [|fuel]; [cbn in Hf; lia|]. cbn [interpolate_chars].
  rewrite bool_decide_eq_false_2 by set_solver. cbn [andb].
  rewrite IH by (set_solver || (cbn in Hf; lia)). cbn [Nat.sub]. f_equal.
  - cbn [collect foldr]. fold (collect cs). rewrite str_len_app. lia.
  - cbn [collect foldr]. fold (collect cs). by rewrite str_app_assoc.
Qed.

Lemma take_close_app cs rest : "}" ∉ cs → take_close (cs ++ "}" :: rest) = Some (collect cs, rest).
Proof.
  induction cs as [|c cs IH]; intros Hc; cbn [app take_close].
  - by rewrite bool_decide_eq_true_2.
  - rewrite bool_decide_eq_false_2 by set_solver. rewrite IH by set_solver. done.
Qed.

Lemma on_boundary_app s t : on_boundary s = true → on_boundary t = true → on_boundary (s +:+ t) = true.
Proof. by destruct s. Qed.

Lemma render_boundary pieces tail : clean pieces tail = true → on_boundary (render pieces tail) = true.
Proof.
  unfold clean, clean_text. intros [Hp [Ht _]%andb_true_iff]%andb_true_iff.
  destruct pieces as [|[pre name] pieces]; [done|]. cbn [render foldr fst snd].
  cbn [forallb fst snd] in Hp. to_prop. by apply on_boundary_app.
Qed.

Lemma chars_render pre name pieces tail : clean_name name = true → clean pieces tail = true →
  chars (render ((pre, name) :: pieces) tail) =
  chars pre ++ "$" :: "{" :: chars name ++ "}" :: chars (render pieces tail).
Proof.
  intros [Hname _]%andb_true_iff Hc. apply render_boundary in Hc.
  cbn [render foldr fst snd]. fold (render pieces tail).
  rewrite (chars_app pre) by done.
  rewrite (chars_app "${") by by apply on_boundary_app.
  rewrite (chars_app name) by done. by rewrite (chars_app "}") by done.
Qed.

Lemma interpolate_render fuel ctx pieces tail i out : clean pieces tail = true →
  (length (chars (render pieces tail)) ≤ fuel)%nat →
  interpolate_chars fuel ctx i (chars (render pieces tail)) out =
  let? s := fill ctx pieces tail in Ok (out +:+ s).
Proof.
  revert fuel i out. induction pieces as [|[pre name] pieces IH]; intros fuel i out Hc Hf.
  { unfold clean, clean_text in Hc. cbn [forallb andb] in Hc. to_prop.
    cbn [render foldr fill rbind] in *.
    rewrite <- (app_nil_r (chars tail)), interpolate_text by (done || by apply clean_no_byte).
    rewrite collect_chars. by destruct (fuel - _)%nat. }
  unfold clean in Hc. cbn [forallb fst snd] in Hc. to_prop.
  assert (clean pieces tail = true) as Hc by (unfold clean; by apply andb_true_iff).
  rewrite chars_render in * by done. rewrite length_app in Hf. cbn [length] in Hf.
  unfold clean_text, clean_name in *. to_prop.
  rewrite interpolate_text by (lia || by apply clean_no_byte). rewrite collect_chars.
  destruct (fuel - length (chars pre))%nat as [|fuel'] eqn:Hfuel; [lia|].
  cbn [interpolate_chars head tl]. rewrite !bool_decide_eq_true_2 by done. cbn [andb].
  rewrite take_close_app by (by apply clean_no_byte). rewrite collect_chars. cbn [fill].
  destruct (resolve_name ctx name) as [val|err]; cbn [rbind]; [|done].
  rewrite length_app in Hf. cbn [length] in Hf. rewrite IH by (done || lia).
  destruct (fill ctx pieces tail) as [more|err]; cbn [rbind]; [|done].
  by rewrite !str_app_assoc.
Qed.

(** ** JSON *)

(** Every string of a document, keys excluded. *)
Fixpoint json_strings (j : Json) : list string :=
  match j with
  | JString s => [s]
  | JArray items => flat_map json_strings items
  | JObject fields => flat_map (fun kv => json_strings kv.2) fields
  | _ => []
  end.

(** The numbers of a document as binary64 numbers, null when not finite. *)
Fixpoint float_numbers (j : Json) : Json :=
  match j with
  | JNumber n => match from_f64 (as_f64 n) with Some n => JNumber n | None => JNull end
  | JArray items => JArray (map float_numbers items)
  | JObject fields => JObject (map (fun kv => (kv.1, float_numbers kv.2)) fields)
  | _ => j
  end.

Definition key_lt (a b : string) : Prop := String.le a b ∧ a ≠ b.

(** Inserting above every key appends. *)
Lemma field_insert_snoc k v fields : Forall (fun k' => key_lt k' k) fields.*1 →
  field_insert k v fields = fields ++ [(k, v)].
Proof.
  induction fields as [|[k' v'] rest IH]; [done|]. cbn [fmap list_fmap fst].
  intros [[Hle Hne] Hrest]%Forall_cons. cbn [field_insert app].
  rewrite bool_decide_eq_false_2 by congruence.
  destruct (String.leb k k') eqn:E; [|by rewrite IH].
  destruct Hne. apply (anti_symm (fun a b => Is_true (String.leb a b))); [exact Hle|by rewrite E].
Qed.

Lemma entry_insert_snoc k v fields : Forall (fun k' => key_lt k' k) fields.*1 →
  entry_insert k v fields = fields ++ [(k, v)].
Proof.
  induction fields as [|[k' v'] rest IH]; [done|]. cbn [fmap list_fmap fst].
  intros [[Hle Hne] Hrest]%Forall_cons. cbn [entry_insert app].
  rewrite bool_decide_eq_false_2 by congruence.
  destruct (String.leb k k') eqn:E; [|by rewrite IH].
  destruct Hne. apply (anti_symm (fun a b => Is_true (String.leb a b))); [exact Hle|by rewrite E].
Qed.

(** A sorted object is rebuilt entry by entry. *)
Lemma insert_all_snoc {A B} (ins : string → B → list (string * B) → list (string * B)) (f : A → B) acc obj :
  (∀ k v fields, Forall (fun k' => key_lt k' k) fields.*1 → ins k v fields = fields ++ [(k, v)]) →
  StronglySorted key_lt (acc.*1 ++ obj.*1) →
  insert_all ins f acc obj = acc ++ map (fun kv => (kv.1, f kv.2)) obj.
Proof.
  intros Hins. revert acc. induction obj as [|[k v] obj IH]; intros acc Hs; cbn [map].
  { by rewrite app_nil_r. }
  assert (insert_all ins f acc ((k, v) :: obj) = insert_all ins f (ins k (f v) acc) obj) as -> by done.
  cbn [fmap list_fmap fst snd] in *.
  assert (Forall (fun k' => key_lt k' k) acc.*1) as Hacc.
  { apply Forall_forall. intros k' Hk'. eapply (StronglySorted_app_1_elem_of _ _ _ _ _ Hs); [done|left]. }
  rewrite (Hins k (f v) acc Hacc), IH; [by rewrite <- app_assoc|].
  rewrite fmap_app, <- app_assoc. exact Hs.
Qed.

Lemma json_wf_fields fields : json_wf (JObject fields) →
  StronglySorted key_lt fields.*1 ∧ Forall (fun kv => json_wf kv.2) fields.
Proof.
  cbn [json_wf]. intros [Hs Hf]. split; [done|]. clear Hs.
  induction fields as [|kv fields IH]; [constructor|]. cbn in Hf. destruct Hf. constructor; auto.
Qed.

Lemma json_wf_items items : json_wf (JArray items) → Forall json_wf items.
Proof.
  cbn [json_wf]. induction items as [|j items IH]; [constructor|]. cbn. intros [? ?]. constructor; auto.
Qed.

Lemma map_keys {A B} (f : A → B) (l : list (string * A)) :
  (map (fun kv => (kv.1, f kv.2)) l).*1 = l.*1.
Proof. induction l as [|[k v] l IH]; cbn; [done|]. by f_equal. Qed.

(** Through the value type and back, a document keeps its shape, keys, strings
    and booleans; its numbers become binary64 numbers. *)
Lemma json_values j : json_wf j → json_of_value (value_of_json j) = float_numbers j.
Proof.
  induction j as [|b|n|s|items IH|fields IH] using json_ind; intros Hwf; try done.
  - cbn [value_of_json json_of_value float_numbers]. f_equal. rewrite map_map.
    apply json_wf_items in Hwf. induction IH as [|j items Hj _ IH]; [done|].
    apply Forall_cons in Hwf as [? ?]. cbn [map]. f_equal; auto.
  - apply json_wf_fields in Hwf as [Hs Hf]. cbn [value_of_json json_of_value float_numbers]. f_equal.
    rewrite (insert_all_snoc _ _ [] fields); [|apply entry_insert_snoc|done].
    rewrite (insert_all_snoc _ _ []); [|apply field_insert_snoc|by cbn; rewrite map_keys].
    cbn [app]. rewrite map_map. clear Hs. induction IH as [|[k v] fields Hj _ IH]; [done|].
    apply Forall_cons in Hf as [? ?]. cbn [map fst snd] in *. f_equal; [|by apply IH].
    f_equal. by apply Hj.
Qed.

(** Documents without a dollar sign are left as they are. *)
Lemma interpolate_plain_string ctx s : contains_byte 36 s = false → interpolate_string s ctx = Ok s.
Proof.
  intros Hs. unfold interpolate_string.
  rewrite <- (app_nil_r (chars s)) at 2. rewrite interpolate_text by (done || by apply clean_no_byte).
  rewrite Nat.sub_diag, collect_chars. done.
Qed.

Lemma collect_bytes cs b : b ∈ as_bytes (collect cs) → ∃ c, c ∈ cs ∧ b ∈ as_bytes c.
Proof.
  induction cs as [|c cs IH]; [by intros ?%elem_of_nil|].
  cbn [collect foldr]. fold (collect cs). rewrite as_bytes_app, elem_of_app.
  intros [?|(c' & ? & ?)%IH]; [exists c; split; [left|done]|exists c'; split; [by right|done]].
Qed.

Lemma drop_while_elem {A} (p : A → bool) l x : x ∈ drop_while p l → x ∈ l.
Proof.
  induction l as [|y l IH]; cbn; [done|]. case_match; [intros ?; right; auto|done].
Qed.

Lemma trim_bytes s b : b ∈ as_bytes (trim s) → b ∈ as_bytes s.
Proof.
  unfold trim. intros (c & Hc & Hb)%collect_bytes. rewrite <- (collect_chars s).
  eapply collect_elem_bytes, Hb. apply list_elem_of_In, in_rev, list_elem_of_In in Hc.
  apply drop_while_elem in Hc. apply list_elem_of_In, in_rev, list_elem_of_In in Hc.
  by apply drop_while_elem in Hc.
Qed.

Lemma plain_not_exact s : contains_byte 36 s = false → is_exact (trim s) = false.
Proof.
  intros Hs. unfold is_exact. destruct (starts_with "${" (trim s)) eqn:E; [|done].
  apply starts_with_spec in E as [t Ht]. apply not_true_iff_false in Hs. destruct Hs.
  apply contains_byte_spec, trim_bytes. rewrite Ht. left.
Qed.

Lemma interpolate_json_same ctx j : json_wf j →
  Forall (fun s => contains_byte 36 s = false) (json_strings j) → interpolate_json j ctx = Ok j.
Proof.
  induction j as [|b|n|s|items IH|fields IH] using json_ind; intros Hwf Hs; try done.
  - cbn [json_strings] in Hs. apply Forall_cons in Hs as [Hs _]. cbn [interpolate_json].
    by rewrite plain_not_exact, interpolate_plain_string by done.
  - apply json_wf_items in Hwf. cbn [interpolate_json json_strings] in *.
    assert (try_items (fun item => interpolate_json item ctx) items = Ok items) as ->; [|done].
    induction IH as [|j items Hj _ IH]; [done|]. apply Forall_cons in Hwf as [? ?].
    cbn [flat_map] in Hs. apply Forall_app in Hs as [? ?].
    change (try_items ?f (j :: items)) with
      (let? item := f j in let? rest := try_items f items in Ok (item :: rest)).
    cbv beta. rewrite Hj by done. cbn [rbind]. by rewrite IH.
  - apply json_wf_fields in Hwf as [Hsort Hwf]. cbn [interpolate_json json_strings] in *.
    assert (∀ acc, StronglySorted key_lt (acc.*1 ++ fields.*1) →
      try_fields (fun v => interpolate_json v ctx) acc fields = Ok (acc ++ fields)) as Hall.
    { clear Hsort. induction IH as [|[k v] fields Hj _ IH]; intros acc Hsort.
      { by rewrite app_nil_r. }
      apply Forall_cons in Hwf as [? ?]. cbn [flat_map snd fst] in *. apply Forall_app in Hs as [? ?].
      cbn [fmap list_fmap fst] in Hsort.
      change (try_fields ?f acc ((k, v) :: fields)) with
        (let? v := f v in try_fields f (field_insert k v acc) fields).
      cbv beta. rewrite Hj by done. cbn [rbind]. rewrite field_insert_snoc.
      - rewrite IH; [by rewrite <- app_assoc|done..|]. rewrite fmap_app, <- app_assoc. exact Hsort.
      - apply Forall_forall. intros k' Hk'.
        eapply (StronglySorted_app_1_elem_of _ _ _ _ _ Hsort); [done|left]. }
    by rewrite (Hall [] Hsort).
Qed.

(** ** Properties *)

(** The evaluator is the reference semantics up to its nesting bound: an
    expression of height at most 32 evaluates to its denotation (short-circuit
    [&&] and [||] included), a deeper one either does too or reports the limit,
    and a comparison or connective never yields anything but a boolean. *)
Theorem eval_bounded ctx e :
  (eval ctx e = denote ctx e ∨ (eval ctx e = Err NestingLimitExceeded ∧ (32 < height e)%nat)) ∧
  (∀ v, eval ctx e = Ok v → is_leaf e = false → ∃ b, v = VBool b).
Proof.
  pose proof (eval_depth_cases ctx e 0) as Hc. fold (eval ctx e) in Hc. split; [done|].
  intros v Hv Hl. destruct Hc as [Hc|[Hc _]]; [|congruence].
  apply (denote_boolean ctx e); congruence.
Qed.

(** C28. Interpolating a template is filling it: the text pieces come out
    unchanged around the displayed values of the placeholders, resolved from left
    to right, and the first placeholder that does not resolve is the error. *)
Theorem interpolate_rendered ctx pieces tail : clean pieces tail = true →
  interpolate_string (render pieces tail) ctx = fill ctx pieces tail.
Proof.
  intros Hc. unfold interpolate_string. rewrite interpolate_render by done.
  by destruct (fill ctx pieces tail).
Qed.

Definition staging : ExprContext :=
  with_task_output (with_run_input context_new (JObject [("env", JString "staging")]))
    "fetch" (JObject [("count", JNumber (PosInt 7))]).

Lemma interpolate_rendered_witness :
  interpolate_string (render [("to ", "run.input.env"); (" x", "tasks.fetch.output.count")] "!") staging =
  Ok "to staging x7!".
Proof.
  rewrite (interpolate_rendered staging [("to ", "run.input.env"); (" x", "tasks.fetch.output.count")] "!");
    vm_compute; reflexivity.
Defined.

(** A document whose strings have no dollar sign is interpolated to itself,
    and passing any document through the value type keeps everything but its
    numbers, which become binary64 numbers (null when not finite). *)
Theorem interpolate_json_plain ctx j : json_wf j →
  (Forall (fun s => contains_byte 36 s = false) (json_strings j) → interpolate_json j ctx = Ok j) ∧
  json_of_value (value_of_json j) = float_numbers j.
Proof. intros Hwf. split; [by apply interpolate_json_same|by apply json_values]. Qed.

Lemma interpolate_json_plain_witness :
  interpolate_json (JObject [("a", JArray [JString "x"; JNull]); ("b", JBool true)]) staging =
  Ok (JObject [("a", JArray [JString "x"; JNull]); ("b", JBool true)]).
Proof.
  refine (proj1 (interpolate_json_plain staging (JObject [("a", JArray [JString "x"; JNull]); ("b", JBool true)]) _) _).
  - cbn. repeat split; repeat constructor; done.
  - repeat constructor.
Defined.

(** A string that starts with a placeholder and ends with any closing brace
    is taken for one placeholder: here the text after the first placeholder is
    swallowed into the path and the document gets null, where string
    interpolation fills the placeholder in. *)
Theorem trailing_brace_swallowed : ∃ ctx,
  interpolate_string "${run.input.env} {x}" ctx = Ok "staging {x}" ∧
  interpolate_json (JString "${run.input.env} {x}") ctx = Ok JNull.
Proof. exists staging. split; vm_compute; reflexivity. Qed.

(** A placeholder that names an integer above 2^53 is replaced by a rounded
    number. *)
Theorem large_integer_rounded : ∃ ctx,
  field_get "id" (match run_input ctx with JObject f => f | _ => [] end) =
    Some (JNumber (PosInt 9007199254740993)) ∧
  interpolate_json (JString "${run.input.id}") ctx = Ok (JNumber (Float (f64_of_Z 9007199254740992))).
Proof.
  exists (with_run_input context_new (JObject [("id", JNumber (PosInt 9007199254740993))])).
  split; vm_compute; reflexivity.
Qed.
