(* ===== verification/RetryPolicy.v ===== *)
(** * Retry policies and backoff (src/src/domain/retry_policy.rs, src/src/retry/)

    The policy record and its validation, the delay curve in binary64 arithmetic,
    jitter, and the planner. [powf] and the random generator are code outside
    the sources: they are arguments, [powf growth n] and [gen_range upper] for
    [rng.gen_range(0..=upper)] of a freshly seeded generator. [u64::clamp]
    panics when its bounds are out of order, so [raw_delay] is partial. *)
From S2P Require Import Prelude Float64 Status.
From stdpp Require Import pretty.
Local Open Scope Z_scope.

Definition MAX_ATTEMPTS : Z := 100.
Definition MAX_BACKOFF_MS : Z := 86400000.

Inductive BackoffKind := Fixed | Linear | Exponential.

Module JitterKind.
Inductive JitterKind := None | Full | Equal.
End JitterKind.
Abbreviation JitterKind := JitterKind.JitterKind.

Record RetryPolicy := {
  max_attempts : Z;
  base_delay_ms : Z;
  max_delay_ms : Z;
  multiplier : f64;
  backoff : BackoffKind;
  jitter : JitterKind;
  retryable_only : bool
}.

Definition retry_default : RetryPolicy := {|
  max_attempts := 3; base_delay_ms := 1000; max_delay_ms := 60000;
  multiplier := f64_of_Z 2; backoff := Exponential; jitter := JitterKind.Full;
  retryable_only := false
|}.

Definition retry_fixed (attempts delay_ms : Z) : RetryPolicy := {|
  max_attempts := attempts; base_delay_ms := delay_ms; max_delay_ms := delay_ms;
  multiplier := f64_one; backoff := Fixed; jitter := JitterKind.None;
  retryable_only := false
|}.

Definition retry_exponential (attempts base max : Z) : RetryPolicy := {|
  max_attempts := attempts; base_delay_ms := base; max_delay_ms := max;
  multiplier := f64_of_Z 2; backoff := Exponential; jitter := JitterKind.Full;
  retryable_only := false
|}.

Inductive PolicyError :=
| BadAttempts (attempts : Z)
| ZeroBaseDelay (base : Z)
| MaxBelowBase (max base : Z)
| BadMultiplier (multiplier : f64)
| DelayOverCeiling (max : Z).

(** The [Display] text of the error; [float_text] renders an [f64]. *)
Definition policy_error_text (float_text : f64 → string) (e : PolicyError) : string :=
  match e with
  | BadAttempts n => "max_attempts must be within 1..=100, got " +:+ pretty n
  | ZeroBaseDelay n => "base_delay_ms must be positive, got " +:+ pretty n
  | MaxBelowBase max base => "max_delay_ms (" +:+ pretty max +:+ ") must be >= base_delay_ms ("
      +:+ pretty base +:+ ")"
  | BadMultiplier m => "multiplier must be finite and >= 1.0, got " +:+ float_text m
  | DelayOverCeiling max => "max_delay_ms " +:+ pretty max +:+ " exceeds ceiling 86400000"
  end.

Definition policy_validate (p : RetryPolicy) : result unit PolicyError :=
  if (max_attempts p =? 0) || (MAX_ATTEMPTS <? max_attempts p) then Err (BadAttempts (max_attempts p))
  else if base_delay_ms p =? 0 then Err (ZeroBaseDelay (base_delay_ms p))
  else if max_delay_ms p <? base_delay_ms p then Err (MaxBelowBase (max_delay_ms p) (base_delay_ms p))
  else if MAX_BACKOFF_MS <? max_delay_ms p then Err (DelayOverCeiling (max_delay_ms p))
  else if negb (is_finite (multiplier p)) || f64_ltb (multiplier p) f64_one
  then Err (BadMultiplier (multiplier p))
  else Ok tt.

Definition allows_attempt (p : RetryPolicy) (attempts_consumed : Z) : bool :=
  attempts_consumed <? max_attempts p.

(** The fields of a policy are machine integers. *)
Definition policy_typed (p : RetryPolicy) : Prop :=
  in_u32 (max_attempts p) ∧ in_u64 (base_delay_ms p) ∧ in_u64 (max_delay_ms p).

(** [u64::clamp] panics ([None]) when [min > max]. *)
Definition clamp_u64 (v min max : Z) : option Z :=
  if max <? min then None
  else Some (if v <? min then min else if max <? v then max else v).

Section Backoff.
Context (powf : f64 → f64 → f64).

Definition effective_max (p : RetryPolicy) : Z := Z.min (max_delay_ms p) MAX_BACKOFF_MS.

(** The delay before it is clamped. *)
Definition curve (p : RetryPolicy) (attempt_index : Z) : Z :=
  let base := base_delay_ms p in
  let max := effective_max p in
  match backoff p with
  | Fixed => base
  | Linear =>
      let growth := multiplier p in
      if f64_leb growth f64_one then base
      else
        let step := f64_mul (f64_mul (f64_of_Z base) (f64_sub growth f64_one)) (f64_of_Z attempt_index) in
        if is_finite step && f64_leb f64_zero step then sat_u64 (base + f64_to_u64 step) else max
  | Exponential =>
      let growth := multiplier p in
      if f64_leb growth f64_one then base
      else
        let val := f64_mul (f64_of_Z base) (powf growth (f64_of_Z attempt_index)) in
        if is_finite val && f64_leb f64_zero val then Z.min (f64_to_u64 val) max else max
  end.

Definition raw_delay (p : RetryPolicy) (attempt_index : Z) : option Z :=
  clamp_u64 (curve p attempt_index) (base_delay_ms p) (effective_max p).

Context (gen_range : Z → Z).

Definition next_delay (p : RetryPolicy) (attempt_index : Z) : option Z :=
  match raw_delay p attempt_index with
  | None => None
  | Some raw =>
      match jitter p with
      | JitterKind.None => Some raw
      | JitterKind.Full => Some (gen_range (Z.max raw 1))
      | JitterKind.Equal => let half := raw / 2 in Some (wrap_u64 (half + gen_range (Z.max half 1)))
      end
  end.
End Backoff.

Definition should_retry (p : RetryPolicy) (attempts : Z) (failure_retryable : bool) : bool :=
  allows_attempt p attempts && (negb (retryable_only p) || failure_retryable).

(** [delay as i64] *)
Definition u64_as_i64 (z : Z) : Z := if z <? 9223372036854775808 then z else z - 18446744073709551616.

(** Outer option: the panic of [clamp]; inner option: the result. [rng seed] is
    the [gen_range] of [ChaCha8Rng::seed_from_u64(seed)]. *)
Definition next_attempt_at_ms (powf : f64 → f64 → f64) (rng : Z → Z → Z) (p : RetryPolicy)
    (attempts : Z) (failure_retryable : bool) (now_ms seed : Z) : option (option Z) :=
  if negb (should_retry p attempts failure_retryable) then Some None
  else match next_delay powf (rng seed) p (Z.max 0 (attempts - 1)) with
       | None => None
       | Some delay => Some (Some (sat_i64 (now_ms + u64_as_i64 delay)))
       end.

Inductive RetryPlan := GiveUp | RetryNow | RetryAt (at_ms : Z).

(** [RetryPlanner::plan] with the planner's policy, the clock's reading and seed. *)
Definition plan (powf : f64 → f64 → f64) (rng : Z → Z → Z) (p : RetryPolicy)
    (now seed attempts : Z) (kind : FailureKind) : option RetryPlan :=
  match next_attempt_at_ms powf rng p attempts (retryable kind) now seed with
  | None => None
  | Some None => Some GiveUp
  | Some (Some t) => Some (if t <=? now then RetryNow else RetryAt t)
  end.

(** ** Lemmas *)

Lemma clamp_u64_spec v lo hi : lo ≤ hi → ∃ r, clamp_u64 v lo hi = Some r ∧ lo ≤ r ≤ hi.
Proof.
  intros. unfold clamp_u64. destruct (Z.ltb_spec hi lo); [lia|]. eexists; split; [done|].
  destruct (Z.ltb_spec v lo), (Z.ltb_spec hi v); lia.
Qed.

(** The conditions [policy_validate] checks. *)
Definition policy_valid (p : RetryPolicy) : Prop :=
  1 ≤ max_attempts p ≤ MAX_ATTEMPTS ∧ 1 ≤ base_delay_ms p ≤ max_delay_ms p ∧
  max_delay_ms p ≤ MAX_BACKOFF_MS ∧
  is_finite (multiplier p) = true ∧ f64_ltb (multiplier p) f64_one = false.

Lemma policy_validate_valid p : policy_typed p → policy_validate p = Ok tt ↔ policy_valid p.
Proof.
  intros (Ha&Hb&Hm). unfold in_u32, in_u64 in *. unfold policy_validate, policy_valid.
  destruct (Z.eqb_spec (max_attempts p) 0); cbn [orb]; [split; [done|lia]|].
  destruct (Z.ltb_spec MAX_ATTEMPTS (max_attempts p)); [split; [done|lia]|].
  destruct (Z.eqb_spec (base_delay_ms p) 0); [split; [done|lia]|].
  destruct (Z.ltb_spec (max_delay_ms p) (base_delay_ms p)); [split; [done|lia]|].
  destruct (Z.ltb_spec MAX_BACKOFF_MS (max_delay_ms p)); [split; [done|lia]|].
  destruct (is_finite (multiplier p)), (f64_ltb (multiplier p) f64_one); cbn;
    (split; [try done; intros _; repeat split; lia || done|]); intuition done.
Qed.

Lemma raw_delay_bounds powf p i : base_delay_ms p ≤ max_delay_ms p → max_delay_ms p ≤ MAX_BACKOFF_MS →
  ∃ raw, raw_delay powf p i = Some raw ∧ base_delay_ms p ≤ raw ≤ max_delay_ms p.
Proof.
  intros Hb Hm. unfold raw_delay, effective_max. rewrite Z.min_l by done.
  by apply clamp_u64_spec.
Qed.

(** What [rand] documents of [gen_range(0..=upper)]. *)
Definition in_range (gen_range : Z → Z) : Prop := ∀ upper, 0 ≤ upper → 0 ≤ gen_range upper ≤ upper.

Lemma next_delay_bounds powf gen_range p i : in_range gen_range → policy_valid p →
  ∃ d raw, next_delay powf gen_range p i = Some d ∧ raw_delay powf p i = Some raw ∧
    base_delay_ms p ≤ raw ≤ max_delay_ms p ∧ 0 ≤ d ≤ raw ∧
    (jitter p = JitterKind.None → d = raw) ∧ (jitter p = JitterKind.Equal → raw / 2 ≤ d).
Proof.
  intros Hg (_&[Hb Hbm]&Hm&_). destruct (raw_delay_bounds powf p i Hbm Hm) as (raw&Hraw&Hr).
  unfold MAX_BACKOFF_MS in Hm. unfold next_delay. rewrite Hraw.
  destruct (jitter p).
  - exists raw, raw. repeat split; try done; lia.
  - pose proof (Hg (Z.max raw 1) ltac:(lia)).
    eexists _, raw. repeat split; try done; lia.
  - pose proof (Hg (Z.max (raw / 2) 1) ltac:(lia)).
    rewrite wrap_u64_id by (unfold in_u64, u64_max; Z.to_euclidean_division_equations; lia).
    eexists _, raw. repeat split; try done; Z.to_euclidean_division_equations; lia.
Qed.

(** ** Properties *)

(** A policy of machine-width fields passes validation exactly when it asks
    for 1 to 100 attempts, its delays satisfy 1 <= base <= max <= 24h, and
    its multiplier is finite and at least 1.0. *)
Theorem policy_validate_iff p : policy_typed p →
  policy_validate p = Ok tt ↔
  1 ≤ max_attempts p ≤ MAX_ATTEMPTS ∧ 1 ≤ base_delay_ms p ≤ max_delay_ms p ∧
  max_delay_ms p ≤ MAX_BACKOFF_MS ∧
  is_finite (multiplier p) = true ∧ f64_ltb (multiplier p) f64_one = false.
Proof. apply policy_validate_valid. Qed.

Lemma policy_validate_iff_witness :
  policy_validate retry_default = Ok tt ∧ 1 ≤ max_attempts retry_default ≤ MAX_ATTEMPTS.
Proof.
  split; [reflexivity|]. refine (proj1 (proj1 (policy_validate_iff retry_default _) eq_refl)).
  repeat split; cbn; unfold u32_max, u64_max; lia.
Defined.

(** For a validated policy the backoff never panics, whatever [powf]
    returns: the delay lies between 0 and the un-jittered delay, which lies
    between the base and the maximal delay; without jitter it is exactly that
    delay, and equal jitter keeps at least half of it. *)
Theorem backoff_bounds powf gen_range p i :
  policy_typed p → policy_validate p = Ok tt → in_range gen_range →
  ∃ d raw, next_delay powf gen_range p i = Some d ∧ raw_delay powf p i = Some raw ∧
    base_delay_ms p ≤ raw ≤ max_delay_ms p ∧ 0 ≤ d ≤ raw ∧
    (jitter p = JitterKind.None → d = raw) ∧ (jitter p = JitterKind.Equal → raw / 2 ≤ d).
Proof. intros Ht Hv%policy_validate_valid Hg; [|done]. by apply next_delay_bounds. Qed.

Lemma backoff_bounds_witness :
  ∃ d raw, next_delay (fun g _ => g) (fun u => u / 3) retry_default 4 = Some d ∧
    raw_delay (fun g _ => g) retry_default 4 = Some raw ∧ 1000 ≤ raw ≤ 60000 ∧ 0 ≤ d ≤ raw.
Proof.
  destruct (backoff_bounds (fun g _ => g) (fun u => u / 3) retry_default 4) as (d&raw&H1&H2&H3&H4&_).
  - repeat split; cbn; unfold u32_max, u64_max; lia.
  - reflexivity.
  - intros u Hu. Z.to_euclidean_division_equations; lia.
  - exists d, raw. exact (conj H1 (conj H2 (conj H3 H4))).
Defined.

(** After [attempts] consumed attempts, a validated policy gives up exactly
    when its attempts are exhausted or it retries only retryable failures and
    this one is not; otherwise the next dispatch is between now and the
    maximal delay from now. *)
Theorem next_attempt_bounds powf rng p attempts retry now seed :
  policy_typed p → policy_validate p = Ok tt → in_range (rng seed) →
  i64_min ≤ now ≤ i64_max - MAX_BACKOFF_MS →
  match next_attempt_at_ms powf rng p attempts retry now seed with
  | None => False
  | Some None => max_attempts p ≤ attempts ∨ (retryable_only p = true ∧ retry = false)
  | Some (Some t) => attempts < max_attempts p ∧ (retryable_only p = true → retry = true) ∧
      now ≤ t ≤ now + max_delay_ms p
  end.
Proof.
  intros Ht Hv%policy_validate_valid Hg Hnow; [|done]. unfold next_attempt_at_ms, should_retry, allows_attempt.
  destruct (Z.ltb_spec attempts (max_attempts p)); cbn [andb negb]; [|by left].
  destruct (retryable_only p) eqn:Hro, retry; cbn [orb negb]; try (by right).
  all: destruct (next_delay_bounds powf (rng seed) p (Z.max 0 (attempts - 1)) Hg Hv)
      as (d&raw&->&_&Hr&Hd&_); destruct Hv as (_&_&Hm&_).
  all: unfold u64_as_i64, sat_i64, MAX_BACKOFF_MS, i64_min, i64_max in *.
  all: destruct (Z.ltb_spec d 9223372036854775808); [|lia].
  all: split; [done|split; [done|lia]].
Qed.

Lemma next_attempt_bounds_witness :
  match next_attempt_at_ms (fun g _ => g) (fun _ u => u) retry_default 1 false 5000 7 with
  | Some (Some t) => 5000 ≤ t ≤ 5000 + 60000
  | _ => False
  end.
Proof.
  assert (Hg : in_range (fun u => u)) by (intros u Hu; lia).
  assert (Ht : policy_typed retry_default) by (repeat split; cbn; unfold u32_max, u64_max; lia).
  pose proof (next_attempt_bounds (fun g _ => g) (fun _ u => u) retry_default 1 false 5000 7
    Ht eq_refl Hg ltac:(unfold i64_min, i64_max, MAX_BACKOFF_MS; lia)) as H.
  vm_compute in H |- *. destruct H as (_&_&H). exact H.
Defined.
