(* ===== verification/Workflow.v ===== *)
(** * Workflow definitions and run records
    (src/src/domain/workflow.rs, src/src/domain/run.rs, src/src/state/snapshots.rs)

    The records the platform stores, with a prefix for each record's fields, and
    the functions defined on them. Field updates of the source ([run.status = s])
    are the [set_] functions. *)
From S2P Require Import Prelude RustStrings Ids Status Errors Json RetryPolicy.
From stdpp Require Import pretty.
Local Open Scope Z_scope.

Definition SPEC_VERSION : Z := 1.
Definition MAX_TASK_NAME_LEN : Z := 64.
Definition MAX_TASKS : Z := 256.
Definition MAX_INPUT_BYTES : Z := 256 * 1024.

Record TaskSpec := {
  ts_name : string;
  ts_handler : HandlerId;
  ts_input : Json;
  ts_depends_on : list string;
  ts_timeout_ms : option Z;
  ts_retry : option RetryPolicy;
  ts_meta : gmap string Json
}.

Definition effective_retry (t : TaskSpec) (workflow_default : RetryPolicy) : RetryPolicy :=
  default workflow_default (ts_retry t).

Definition effective_timeout_ms (t : TaskSpec) (workflow_default_ms : Z) : Z :=
  default workflow_default_ms (ts_timeout_ms t).

Record HookSpec := {
  webhook_url : option string;
  event_filter : option string;
  headers : gmap string string
}.

Record Hooks := {
  on_start : list HookSpec;
  on_success : list HookSpec;
  on_failure : list HookSpec;
  on_cancel : list HookSpec
}.

Definition hooks_default : Hooks :=
  {| on_start := []; on_success := []; on_failure := []; on_cancel := [] |}.

Definition all_hooks (h : Hooks) : list HookSpec :=
  on_start h ++ on_success h ++ on_failure h ++ on_cancel h.

Record WorkflowDef := {
  wd_id : WorkflowId;
  wd_tenant : string;
  wd_name : string;
  wd_version : Z;
  wd_description : string;
  wd_tasks : list TaskSpec;
  wd_timeout_ms : Z;
  wd_retry : RetryPolicy;
  wd_default_priority : Priority;
  wd_hooks : Hooks;
  wd_tags : gmap string string;
  wd_spec_version : Z;
  wd_created_at_ms : Z;
  wd_updated_at_ms : Z
}.

Definition workflow_default : WorkflowDef := {|
  wd_id := "wf_default"; wd_tenant := ""; wd_name := ""; wd_version := 1;
  wd_description := ""; wd_tasks := []; wd_timeout_ms := 3600000;
  wd_retry := retry_default; wd_default_priority := priority_default;
  wd_hooks := hooks_default; wd_tags := ∅; wd_spec_version := SPEC_VERSION;
  wd_created_at_ms := 0; wd_updated_at_ms := 0
|}.

Definition is_minimally_valid (d : WorkflowDef) : bool :=
  negb (is_empty (wd_name d)) && negb (bool_decide (length (wd_tasks d) = 0%nat))
  && (Z.of_nat (length (wd_tasks d)) <=? MAX_TASKS).

Definition sanitize_description (description : string) : result unit DomainError :=
  if 512 <? char_count description then Err DomainError.DescriptionTooLong else Ok tt.

(** ** Runs *)

Record RunError := {
  re_message : string;
  re_kind : FailureKind;
  re_task : option string;
  re_depth : Z;
  re_attempts : Z
}.

Definition to_log_line (e : RunError) : string :=
  match re_task e with
  | Some task => "[" +:+ failure_code (re_kind e) +:+ "] " +:+ task +:+ ": " +:+ re_message e
      +:+ " (attempt " +:+ pretty (re_attempts e) +:+ ")"
  | None => "[" +:+ failure_code (re_kind e) +:+ "] " +:+ re_message e
      +:+ " (attempt " +:+ pretty (re_attempts e) +:+ ")"
  end.

Record Run := {
  rn_id : RunId;
  rn_tenant : string;
  rn_def_name : string;
  rn_def_version : Z;
  rn_input : Json;
  rn_status : RunStatus;
  rn_attempts : Z;
  rn_next_attempt_at_ms : option Z;
  rn_deadline_at_ms : option Z;
  rn_started_at_ms : option Z;
  rn_finished_at_ms : option Z;
  rn_error : option RunError;
  rn_output : option Json;
  rn_tags : gmap string string;
  rn_created_at_ms : Z;
  rn_run_number : Z
}.

Definition Run_is_terminal (r : Run) : bool := run_is_terminal (rn_status r).

(** Assignments to the mutable fields of a run. *)
Definition run_set_status (v : RunStatus) (r : Run) : Run :=
  {| rn_id := rn_id r; rn_tenant := rn_tenant r; rn_def_name := rn_def_name r;
     rn_def_version := rn_def_version r; rn_input := rn_input r; rn_status := v;
     rn_attempts := rn_attempts r; rn_next_attempt_at_ms := rn_next_attempt_at_ms r;
     rn_deadline_at_ms := rn_deadline_at_ms r; rn_started_at_ms := rn_started_at_ms r;
     rn_finished_at_ms := rn_finished_at_ms r; rn_error := rn_error r; rn_output := rn_output r;
     rn_tags := rn_tags r; rn_created_at_ms := rn_created_at_ms r;
     rn_run_number := rn_run_number r |}.

Definition run_set_attempts (v : Z) (r : Run) : Run :=
  {| rn_id := rn_id r; rn_tenant := rn_tenant r; rn_def_name := rn_def_name r;
     rn_def_version := rn_def_version r; rn_input := rn_input r; rn_status := rn_status r;
     rn_attempts := v; rn_next_attempt_at_ms := rn_next_attempt_at_ms r;
     rn_deadline_at_ms := rn_deadline_at_ms r; rn_started_at_ms := rn_started_at_ms r;
     rn_finished_at_ms := rn_finished_at_ms r; rn_error := rn_error r; rn_output := rn_output r;
     rn_tags := rn_tags r; rn_created_at_ms := rn_created_at_ms r;
     rn_run_number := rn_run_number r |}.

Definition run_set_next_attempt_at_ms (v : option Z) (r : Run) : Run :=
  {| rn_id := rn_id r; rn_tenant := rn_tenant r; rn_def_name := rn_def_name r;
     rn_def_version := rn_def_version r; rn_input := rn_input r; rn_status := rn_status r;
     rn_attempts := rn_attempts r; rn_next_attempt_at_ms := v;
     rn_deadline_at_ms := rn_deadline_at_ms r; rn_started_at_ms := rn_started_at_ms r;
     rn_finished_at_ms := rn_finished_at_ms r; rn_error := rn_error r; rn_output := rn_output r;
     rn_tags := rn_tags r; rn_created_at_ms := rn_created_at_ms r;
     rn_run_number := rn_run_number r |}.

Definition run_set_started_at_ms (v : option Z) (r : Run) : Run :=
  {| rn_id := rn_id r; rn_tenant := rn_tenant r; rn_def_name := rn_def_name r;
     rn_def_version := rn_def_version r; rn_input := rn_input r; rn_status := rn_status r;
     rn_attempts := rn_attempts r; rn_next_attempt_at_ms := rn_next_attempt_at_ms r;
     rn_deadline_at_ms := rn_deadline_at_ms r; rn_started_at_ms := v;
     rn_finished_at_ms := rn_finished_at_ms r; rn_error := rn_error r; rn_output := rn_output r;
     rn_tags := rn_tags r; rn_created_at_ms := rn_created_at_ms r;
     rn_run_number := rn_run_number r |}.

Definition run_set_finished_at_ms (v : option Z) (r : Run) : Run :=
  {| rn_id := rn_id r; rn_tenant := rn_tenant r; rn_def_name := rn_def_name r;
     rn_def_version := rn_def_version r; rn_input := rn_input r; rn_status := rn_status r;
     rn_attempts := rn_attempts r; rn_next_attempt_at_ms := rn_next_attempt_at_ms r;
     rn_deadline_at_ms := rn_deadline_at_ms r; rn_started_at_ms := rn_started_at_ms r;
     rn_finished_at_ms := v; rn_error := rn_error r; rn_output := rn_output r;
     rn_tags := rn_tags r; rn_created_at_ms := rn_created_at_ms r;
     rn_run_number := rn_run_number r |}.

Definition run_set_error (v : option RunError) (r : Run) : Run :=
  {| rn_id := rn_id r; rn_tenant := rn_tenant r; rn_def_name := rn_def_name r;
     rn_def_version := rn_def_version r; rn_input := rn_input r; rn_status := rn_status r;
     rn_attempts := rn_attempts r; rn_next_attempt_at_ms := rn_next_attempt_at_ms r;
     rn_deadline_at_ms := rn_deadline_at_ms r; rn_started_at_ms := rn_started_at_ms r;
     rn_finished_at_ms := rn_finished_at_ms r; rn_error := v; rn_output := rn_output r;
     rn_tags := rn_tags r; rn_created_at_ms := rn_created_at_ms r;
     rn_run_number := rn_run_number r |}.

Definition run_set_output (v : option Json) (r : Run) : Run :=
  {| rn_id := rn_id r; rn_tenant := rn_tenant r; rn_def_name := rn_def_name r;
     rn_def_version := rn_def_version r; rn_input := rn_input r; rn_status := rn_status r;
     rn_attempts := rn_attempts r; rn_next_attempt_at_ms := rn_next_attempt_at_ms r;
     rn_deadline_at_ms := rn_deadline_at_ms r; rn_started_at_ms := rn_started_at_ms r;
     rn_finished_at_ms := rn_finished_at_ms r; rn_error := rn_error r; rn_output := v;
     rn_tags := rn_tags r; rn_created_at_ms := rn_created_at_ms r;
     rn_run_number := rn_run_number r |}.

Record TaskRun := {
  tr_id : TaskRunId;
  tr_run_id : RunId;
  tr_task_name : string;
  tr_status : TaskStatus;
  tr_attempts : Z;
  tr_last_error : option string;
  tr_started_at_ms : option Z;
  tr_finished_at_ms : option Z;
  tr_output : option Json
}.

Definition TaskRun_is_terminal (t : TaskRun) : bool := task_is_terminal (tr_status t).

(** Assignments to the mutable fields of a task run. *)
Definition task_set_status (v : TaskStatus) (r : TaskRun) : TaskRun :=
  {| tr_id := tr_id r; tr_run_id := tr_run_id r; tr_task_name := tr_task_name r; tr_status := v;
     tr_attempts := tr_attempts r; tr_last_error := tr_last_error r;
     tr_started_at_ms := tr_started_at_ms r; tr_finished_at_ms := tr_finished_at_ms r;
     tr_output := tr_output r |}.

Definition task_set_attempts (v : Z) (r : TaskRun) : TaskRun :=
  {| tr_id := tr_id r; tr_run_id := tr_run_id r; tr_task_name := tr_task_name r;
     tr_status := tr_status r; tr_attempts := v; tr_last_error := tr_last_error r;
     tr_started_at_ms := tr_started_at_ms r; tr_finished_at_ms := tr_finished_at_ms r;
     tr_output := tr_output r |}.

Definition task_set_last_error (v : option string) (r : TaskRun) : TaskRun :=
  {| tr_id := tr_id r; tr_run_id := tr_run_id r; tr_task_name := tr_task_name r;
     tr_status := tr_status r; tr_attempts := tr_attempts r; tr_last_error := v;
     tr_started_at_ms := tr_started_at_ms r; tr_finished_at_ms := tr_finished_at_ms r;
     tr_output := tr_output r |}.

Definition task_set_started_at_ms (v : option Z) (r : TaskRun) : TaskRun :=
  {| tr_id := tr_id r; tr_run_id := tr_run_id r; tr_task_name := tr_task_name r;
     tr_status := tr_status r; tr_attempts := tr_attempts r; tr_last_error := tr_last_error r;
     tr_started_at_ms := v; tr_finished_at_ms := tr_finished_at_ms r; tr_output := tr_output r |}.

Definition task_set_finished_at_ms (v : option Z) (r : TaskRun) : TaskRun :=
  {| tr_id := tr_id r; tr_run_id := tr_run_id r; tr_task_name := tr_task_name r;
     tr_status := tr_status r; tr_attempts := tr_attempts r; tr_last_error := tr_last_error r;
     tr_started_at_ms := tr_started_at_ms r; tr_finished_at_ms := v; tr_output := tr_output r |}.

Definition task_set_output (v : option Json) (r : TaskRun) : TaskRun :=
  {| tr_id := tr_id r; tr_run_id := tr_run_id r; tr_task_name := tr_task_name r;
     tr_status := tr_status r; tr_attempts := tr_attempts r; tr_last_error := tr_last_error r;
     tr_started_at_ms := tr_started_at_ms r; tr_finished_at_ms := tr_finished_at_ms r;
     tr_output := v |}.

(** A freshly submitted run, for concrete instances. *)
Definition sample_run : Run := {|
  rn_id := "rn_0"; rn_tenant := "acme"; rn_def_name := "etl"; rn_def_version := 1;
  rn_input := JNull; rn_status := RunStatus.Queued; rn_attempts := 0;
  rn_next_attempt_at_ms := None; rn_deadline_at_ms := None; rn_started_at_ms := None;
  rn_finished_at_ms := None; rn_error := None; rn_output := None; rn_tags := ∅;
  rn_created_at_ms := 0; rn_run_number := 1
|}.

(** ** Snapshots *)

Record SnapshotTask := {
  st_name : string;
  st_status : TaskStatus;
  st_attempts : Z;
  st_last_error : option string
}.

Record RunSnapshot := { sn_run : Run; sn_tasks : list SnapshotTask }.

Definition snapshot_capture (run : Run) (task_runs : list TaskRun) : RunSnapshot := {|
  sn_run := run;
  sn_tasks := map (fun tr => {| st_name := tr_task_name tr; st_status := tr_status tr;
    st_attempts := tr_attempts tr; st_last_error := tr_last_error tr |}) task_runs
|}.

Definition snapshot_run_status (s : RunSnapshot) : RunStatus := rn_status (sn_run s).

Definition attempted_tasks (s : RunSnapshot) : nat :=
  length (List.filter (fun t => 0 <? st_attempts t) (sn_tasks s)).
