(* ===== verification/Fixtures.v ===== *)
(** * The shared test fixtures (src/src/persistence/fixtures.rs)

    The builders of runs and task runs that the repository's tests share, for the replays
    of those tests. *)
From S2P Require Import Prelude RustStrings Ids Status Json Workflow.
Local Open Scope Z_scope.

(** [fixtures::run] *)
Definition frun (id tenant def_name : string) (status : RunStatus) (at_ms : Z) : Run := {|
  rn_id := id; rn_tenant := tenant; rn_def_name := def_name; rn_def_version := 1;
  rn_input := JObject [("probe"%string, JBool true)]; rn_status := status;
  rn_attempts := if bool_decide (status = RunStatus.Queued) then 0 else 1;
  rn_next_attempt_at_ms := None; rn_deadline_at_ms := None; rn_started_at_ms := None;
  rn_finished_at_ms := None; rn_error := None; rn_output := None;
  rn_tags := {["env"%string := "test"%string]}; rn_created_at_ms := at_ms; rn_run_number := 1
|}.

(** [fixtures::task] *)
Definition ftask (run_id : RunId) (name : string) (status : TaskStatus) : TaskRun :=
  let run_body := default EmptyString (strip_prefix "rn_" run_id) in {|
  tr_id := "tr_" +:+ run_body +:+ name; tr_run_id := run_id; tr_task_name := name;
  tr_status := status; tr_attempts := if bool_decide (status = TaskStatus.Pending) then 0 else 1;
  tr_last_error := None; tr_started_at_ms := None; tr_finished_at_ms := None; tr_output := None
|}.

Definition ftask_id_parses (run_id : RunId) (name : string) : bool :=
  is_ok (parse_id TaskRunId_kind (fun c => c) (tr_id (ftask run_id name TaskStatus.Pending))).

(** The ids of the tasks the tests name are accepted by the parser; a task name with a
    letter past [v] gives an id that is not. *)
Lemma ftask_ids :
  forallb (ftask_id_parses "rn_t") ["fetch"; "build"; "a"]%string = true ∧
  ftask_id_parses "rn_t" "notify" = false.
Proof. by vm_compute. Qed.
