(* ===== verification/Versioning.v ===== *)
(** * Definition versions

    Models [domain/versioning.rs]: aliases, canary routing by sample and by key hash,
    and the compatibility analysis of two versions of a definition. The [{:?}]
    rendering of a list of names is the parameter [debug_names]. *)
From S2P Require Import Prelude RustStrings Ids Errors Json RetryPolicy Workflow.
From stdpp Require Import pretty.
Local Open Scope Z_scope.

Record WorkflowAlias := {
  wa_name : string;
  wa_tenant : string;
  wa_workflow_name : string;
  wa_target_version : Z;
  wa_updated_at_ms : Z
}.

Definition alias_new (name tenant workflow_name : string) (target_version updated_at_ms : Z) : WorkflowAlias :=
  {| wa_name := name; wa_tenant := tenant; wa_workflow_name := workflow_name;
     wa_target_version := target_version; wa_updated_at_ms := updated_at_ms |}.

Record CanaryRoutingPolicy := {
  cr_baseline_version : Z;
  cr_canary_version : Z;
  cr_canary_weight_pct : Z
}.

Definition canary_new (baseline canary weight : Z) : CanaryRoutingPolicy :=
  {| cr_baseline_version := baseline; cr_canary_version := canary; cr_canary_weight_pct := Z.min weight 100 |}.

Definition select_version_by_sample (p : CanaryRoutingPolicy) (sample : Z) : Z :=
  if sample <? cr_canary_weight_pct p then cr_canary_version p else cr_baseline_version p.

(** The FNV-1a hash of the key, in [u64]. *)
Definition fnv_offset : Z := 14695981039346656037.
Definition fnv_prime : Z := 1099511628211.

Definition fnv1a (key : string) : Z :=
  foldl (fun hash byte => wrap_u64 (Z.lxor hash byte * fnv_prime)) fnv_offset (as_bytes key).

Definition select_version_by_key (p : CanaryRoutingPolicy) (key : string) : Z :=
  if cr_canary_weight_pct p =? 0 then cr_baseline_version p
  else if 100 <=? cr_canary_weight_pct p then cr_canary_version p
  else select_version_by_sample p (fnv1a key mod 100).

Inductive CompatibilitySeverity := Info | Warning | Breaking.

#[export] Instance severity_eq_dec : EqDecision CompatibilitySeverity.
Proof. solve_decision. Defined.

Record CompatibilityIssue := {
  ci_severity : CompatibilitySeverity;
  ci_task_name : option string;
  ci_message : string
}.

Definition breaking (task_name : option string) (message : string) : CompatibilityIssue :=
  {| ci_severity := Breaking; ci_task_name := task_name; ci_message := message |}.

Definition warning (task_name : option string) (message : string) : CompatibilityIssue :=
  {| ci_severity := Warning; ci_task_name := task_name; ci_message := message |}.

Record CompatibilityReport := { is_backward_compatible : bool; issues : list CompatibilityIssue }.

(** The tasks by name; a later task with the same name replaces an earlier one. *)
Definition tasks_by_name (def : WorkflowDef) : gmap string TaskSpec :=
  foldl (fun m t => <[ts_name t := t]> m) ∅ (wd_tasks def).

Section Analyze.
Context (debug_names : list string → string).

Definition removed_issues (old_tasks new_tasks : gmap string TaskSpec) (new_version : Z) : list CompatibilityIssue :=
  flat_map (fun name => match new_tasks !! name with
    | None => [breaking (Some name) ("Task '" +:+ name +:+ "' was removed in version " +:+ pretty new_version)]
    | Some _ => []
    end) (bt_keys old_tasks).

Definition changed_issues (old_tasks : gmap string TaskSpec) (entry : string * TaskSpec) : list CompatibilityIssue :=
  let '(name, new_spec) := entry in
  match old_tasks !! name with
  | None => []
  | Some old_spec =>
      (if bool_decide (ts_handler old_spec = ts_handler new_spec) then []
       else [breaking (Some name) ("Task '" +:+ name +:+ "' changed handler from '" +:+ ts_handler old_spec
         +:+ "' to '" +:+ ts_handler new_spec +:+ "'")]) ++
      (let added := bt_elems (list_to_set (ts_depends_on new_spec) ∖ list_to_set (ts_depends_on old_spec)) in
       match added with
       | [] => []
       | _ => [warning (Some name) ("Task '" +:+ name +:+ "' added new dependencies: " +:+ debug_names added)]
       end)
  end.

Definition timeout_issues (old_def new_def : WorkflowDef) : list CompatibilityIssue :=
  if wd_timeout_ms new_def <? wd_timeout_ms old_def then
    [warning None ("Overall workflow timeout decreased from " +:+ pretty (wd_timeout_ms old_def)
      +:+ "ms to " +:+ pretty (wd_timeout_ms new_def) +:+ "ms")]
  else [].

Definition is_breaking (i : CompatibilityIssue) : bool := bool_decide (ci_severity i = Breaking).

Definition analyze (old_def new_def : WorkflowDef) : CompatibilityReport :=
  let old_tasks := tasks_by_name old_def in
  let new_tasks := tasks_by_name new_def in
  let issues := removed_issues old_tasks new_tasks (wd_version new_def)
    ++ flat_map (changed_issues old_tasks) (bt_iter new_tasks)
    ++ timeout_issues old_def new_def in
  {| is_backward_compatible := negb (existsb is_breaking issues); issues := issues |}.
End Analyze.

Definition report_text (r : CompatibilityReport) : string :=
  if is_backward_compatible r then
    "COMPATIBLE: " +:+ pretty (Z.of_nat (length (issues r))) +:+ " non-breaking observations"
  else "INCOMPATIBLE: " +:+ pretty (Z.of_nat (length (List.filter is_breaking (issues r)))) +:+ " breaking change(s)".

(** ** Lemmas *)

Lemma fold_named (l : list TaskSpec) : ∀ (m : gmap string TaskSpec) n,
  NoDup (map ts_name l) →
  foldl (fun m t => <[ts_name t := t]> m) m l !! n =
  match List.find (fun t => bool_decide (ts_name t = n)) l with Some t => Some t | None => m !! n end.
Proof.
  induction l as [|t l IH]; intros m n Hnd; [done|]. cbn [foldl map] in *. apply NoDup_cons in Hnd as [Ht Hnd].
  rewrite IH by done. cbn [List.find]. case_bool_decide as Hn.
  - destruct (List.find _ l) as [t'|] eqn:Hf; [|subst; by rewrite lookup_insert_eq].
    apply find_some in Hf as [Hin Hn']. apply bool_decide_eq_true in Hn'. destruct Ht.
    rewrite Hn, <-Hn'. apply list_elem_of_In, in_map, Hin.
  - destruct (List.find _ l); [done|]. by rewrite lookup_insert_ne.
Qed.

Lemma tasks_by_name_Some def n t : NoDup (map ts_name (wd_tasks def)) →
  tasks_by_name def !! n = Some t ↔ t ∈ wd_tasks def ∧ ts_name t = n.
Proof.
  intros Hnd. unfold tasks_by_name. rewrite fold_named by done.
  destruct (List.find _ _) as [t'|] eqn:Hf.
  - apply find_some in Hf as [Hin Hn]. apply list_elem_of_In in Hin. apply bool_decide_eq_true in Hn.
    split; [by intros [= <-]|]. intros [Ht Hnt]. f_equal.
    assert (Hinj : ∀ l : list TaskSpec, NoDup (map ts_name l) → t ∈ l → t' ∈ l → ts_name t = ts_name t' → t' = t).
    { clear. intros l. induction l as [|x l IH]; intros Hnd H1 H2 Hn; [by apply elem_of_nil in H1|].
      cbn in Hnd. apply NoDup_cons in Hnd as [Hx Hnd].
      assert (Hin : ∀ y, y ∈ l → ts_name y ≠ ts_name x).
      { intros y Hy Hyx. apply Hx. rewrite <-Hyx. apply list_elem_of_In, in_map, list_elem_of_In, Hy. }
      apply elem_of_cons in H1 as [->|H1], H2 as [->|H2]; [done|by destruct (Hin t')|by destruct (Hin t)|auto]. }
    apply (Hinj (wd_tasks def)); [done..|congruence].
  - rewrite lookup_empty. split; [done|]. intros [Ht Hn]. apply list_elem_of_In in Ht.
    pose proof (find_none _ _ Hf t Ht) as Hx. by apply bool_decide_eq_false in Hx.
Qed.

Lemma existsb_flat_map {A} (p : CompatibilityIssue → bool) (f : A → list CompatibilityIssue) l :
  existsb p (flat_map f l) = true ↔ ∃ x, x ∈ l ∧ existsb p (f x) = true.
Proof.
  rewrite existsb_exists. setoid_rewrite in_flat_map. setoid_rewrite existsb_exists.
  setoid_rewrite list_elem_of_In. naive_solver.
Qed.

(** ** Properties *)

(** A new version is backward compatible exactly when every task of the old one
    is still there under its name with the same handler; dependencies, timeouts,
    retries and inputs may change freely. *)
Theorem analyze_compatible_iff debug_names old_def new_def :
  NoDup (map ts_name (wd_tasks old_def)) → NoDup (map ts_name (wd_tasks new_def)) →
  is_backward_compatible (analyze debug_names old_def new_def) = true ↔
  ∀ t, t ∈ wd_tasks old_def →
    ∃ t', t' ∈ wd_tasks new_def ∧ ts_name t' = ts_name t ∧ ts_handler t' = ts_handler t.
Proof.
  intros Hold Hnew. unfold analyze. cbn [is_backward_compatible].
  rewrite negb_true_iff, <-not_true_iff_false, !existsb_app, !orb_true_iff.
  assert (Ht : existsb is_breaking (timeout_issues old_def new_def) = true ↔ False)
    by (unfold timeout_issues; destruct (_ <? _); cbn; by split).
  rewrite Ht. unfold removed_issues. rewrite !existsb_flat_map. split.
  - intros Hno t Hin. destruct (tasks_by_name new_def !! ts_name t) as [t'|] eqn:Hn.
    + apply tasks_by_name_Some in Hn as [Hin' Hn']; [|done]. exists t'. split; [done|]. split; [done|].
      destruct (decide (ts_handler t = ts_handler t')) as [|Hh]; [done|]. destruct Hno. right. left.
      exists (ts_name t, t'). split; [apply bt_iter_elem, tasks_by_name_Some; [done|by rewrite Hn']|].
      cbn. rewrite (proj2 (tasks_by_name_Some old_def (ts_name t) t Hold)) by done.
      by rewrite bool_decide_false by done.
    + destruct Hno. left. exists (ts_name t). rewrite Hn. split; [|done].
      apply bt_keys_elem. exists t. by apply tasks_by_name_Some.
  - intros Hall [(n&Hn&Hb)|[((n&t')&Hn&Hb)|[]]].
    + apply bt_keys_elem in Hn as [t Hn]. apply tasks_by_name_Some in Hn as [Hin <-]; [|done].
      destruct (Hall t Hin) as (t'&Hin'&Hn'&_).
      by rewrite (proj2 (tasks_by_name_Some new_def (ts_name t) t' Hnew)) in Hb.
    + apply bt_iter_elem, tasks_by_name_Some in Hn as [Hin' Hn']; [|done]. cbn in Hb.
      destruct (tasks_by_name old_def !! n) as [t|] eqn:Ho; [|done].
      apply tasks_by_name_Some in Ho as [Hin Hnt]; [|done]. destruct (Hall t Hin) as (t2&Hin2&Hn2&Hh).
      assert (t2 = t') as ->.
      { assert (H2 : tasks_by_name new_def !! n = Some t2) by (apply tasks_by_name_Some; [done|]; split; congruence).
        assert (H3 : tasks_by_name new_def !! n = Some t') by (apply tasks_by_name_Some; done). congruence. }
      rewrite bool_decide_true in Hb by done. by destruct (bt_elems _).
Qed.

(** A definition, and one where a task is renamed. *)
Definition two_tasks (second : string) : WorkflowDef := {|
  wd_id := "wf_0"; wd_tenant := "acme"; wd_name := "etl"; wd_version := 1; wd_description := "";
  wd_tasks := [{| ts_name := "a"; ts_handler := "runvane.noop"; ts_input := JNull; ts_depends_on := [];
                  ts_timeout_ms := None; ts_retry := None; ts_meta := ∅ |};
               {| ts_name := second; ts_handler := "runvane.noop"; ts_input := JNull; ts_depends_on := ["a"%string];
                  ts_timeout_ms := None; ts_retry := None; ts_meta := ∅ |}];
  wd_timeout_ms := 1; wd_retry := retry_default; wd_default_priority := Status.priority_default;
  wd_hooks := hooks_default; wd_tags := ∅; wd_spec_version := SPEC_VERSION; wd_created_at_ms := 0;
  wd_updated_at_ms := 0 |}.

Lemma analyze_compatible_iff_witness :
  is_backward_compatible (analyze (fun _ => EmptyString) (two_tasks "b") (two_tasks "b")) = true.
Proof.
  apply (analyze_compatible_iff (fun _ => EmptyString) (two_tasks "b") (two_tasks "b")).
  - apply (bool_decide_unpack _). vm_compute. exact I.
  - apply (bool_decide_unpack _). vm_compute. exact I.
  - intros t Ht. exists t. split; [exact Ht|]. split; reflexivity.
Defined.

(** Canary routing by key is sticky and monotone: a key always gets the baseline
    or the canary version; at weight zero no key and from weight 100 every key is
    canaried; and raising the weight never moves a key back to the baseline. *)
Theorem canary_key_monotone base canary w w' key : 0 ≤ w ≤ w' → base ≠ canary →
  let pick w := select_version_by_key (canary_new base canary w) key in
  (pick w = base ∨ pick w = canary) ∧ pick 0 = base ∧ (100 ≤ w → pick w = canary) ∧
  (pick w = canary → pick w' = canary).
Proof.
  intros Hw Hne. cbn zeta. unfold select_version_by_key, select_version_by_sample, canary_new.
  cbn [cr_canary_weight_pct cr_baseline_version cr_canary_version].
  pose proof (Z.mod_pos_bound (fnv1a key) 100 ltac:(lia)).
  split; [|split; [|split]].
  - destruct (Z.eqb_spec (Z.min w 100) 0), (Z.leb_spec 100 (Z.min w 100)),
      (Z.ltb_spec (fnv1a key mod 100) (Z.min w 100)); auto.
  - done.
  - intros. rewrite Z.min_r by lia. done.
  - destruct (Z.eqb_spec (Z.min w 100) 0), (Z.leb_spec 100 (Z.min w 100)),
      (Z.ltb_spec (fnv1a key mod 100) (Z.min w 100)), (Z.eqb_spec (Z.min w' 100) 0), (Z.leb_spec 100 (Z.min w' 100)),
      (Z.ltb_spec (fnv1a key mod 100) (Z.min w' 100)); intros; try done; lia.
Qed.

Lemma canary_key_monotone_witness :
  select_version_by_key (canary_new 1 2 100) "acme" = 2.
Proof. destruct (canary_key_monotone 1 2 100 100 "acme" ltac:(lia) ltac:(lia)) as (_&_&H&_). apply H. lia. Defined.
