(* ===== verification/Dag.v ===== *)
(** * The task graph (src/src/domain/dag.rs)

    [topo_order] is Kahn's algorithm over ordered maps with a lexicographic
    frontier. The [while let] loop runs on fuel one larger than the number of
    tasks; [kahn_exhausts] shows the frontier is empty before the fuel is. *)
From S2P Require Import Prelude Errors Json RetryPolicy Workflow.
From stdpp Require Import finite.

(** [deps.entry(name).or_default()], then one [insert] for every dependency. *)
Definition add_task (deps : gmap string (gset string)) (task : TaskSpec)
    : gmap string (gset string) :=
  let deps := match deps !! ts_name task with
              | Some _ => deps
              | None => <[ts_name task := ∅]> deps
              end in
  foldl (fun deps dep => alter (fun d => {[dep]} ∪ d) (ts_name task) deps)
    deps (ts_depends_on task).

Definition build_deps (tasks : list TaskSpec) : gmap string (gset string) :=
  foldl add_task ∅ tasks.

(** The guard loops: the first unknown dependency in iteration order. *)
Definition check_known (deps : gmap string (gset string)) : result unit DomainError :=
  for_each (fun '(name, deps_of_name) =>
    for_each (fun dep =>
      if bool_decide (is_Some (deps !! dep)) then Ok tt
      else Err (DomainError.UnknownDependency dep name)) (bt_elems deps_of_name)) (bt_iter deps).

Record KahnState := {
  ready : gset string;
  remaining : gmap string (gset string);
  emitted : gset string;
  order : list string
}.

Definition initial_ready (deps : gmap string (gset string)) : gset string :=
  list_to_set (map fst (List.filter (fun kv => bool_decide (kv.2 = ∅)) (bt_iter deps))).

(** [remaining.iter_mut().filter_map(...)]: the sets that lose their last element. *)
Definition draining (next : string) (remaining : gmap string (gset string)) : list string :=
  omap (fun '(name, d) =>
    if bool_decide (next ∈ d) && bool_decide (d ∖ {[next]} = ∅) then Some name else None)
    (bt_iter remaining).

(** One iteration of the loop body. *)
Definition kahn_step (next : string) (s : KahnState) : KahnState :=
  let emitted' := {[next]} ∪ emitted s in
  {| ready := foldl (fun ready name => if bool_decide (name ∈ emitted') then ready else {[name]} ∪ ready)
       (ready s ∖ {[next]}) (draining next (remaining s));
     remaining := ((fun d => d ∖ {[next]}) <$> remaining s);
     emitted := emitted';
     order := order s ++ [next] |}.

Fixpoint kahn (fuel : nat) (s : KahnState) : KahnState :=
  match fuel with
  | O => s
  | S fuel =>
      match bt_elems (ready s) with
      | [] => s
      | next :: _ => kahn fuel (kahn_step next s)
      end
  end.

Definition kahn_init (deps : gmap string (gset string)) : KahnState :=
  {| ready := initial_ready deps; remaining := deps; emitted := ∅; order := [] |}.

Definition topo_order (tasks : list TaskSpec) : result (list string) DomainError :=
  let deps := build_deps tasks in
  let? _ := check_known deps in
  let s := kahn (S (size deps)) (kahn_init deps) in
  if bool_decide (length (order s) = size (remaining s)) then Ok (order s)
  else Err DomainError.CycleDetected.

Definition is_acyclic (tasks : list TaskSpec) : bool := is_ok (topo_order tasks).

Definition validate_edges (tasks : list TaskSpec) : result unit DomainError :=
  let? _ := topo_order tasks in Ok tt.

(** ** Specification vocabulary *)

(** [dep] is listed by a task called [name]. *)
Definition depends (tasks : list TaskSpec) (name dep : string) : Prop :=
  ∃ t, t ∈ tasks ∧ ts_name t = name ∧ dep ∈ ts_depends_on t.

Definition named (tasks : list TaskSpec) (name : string) : Prop :=
  ∃ t, t ∈ tasks ∧ ts_name t = name.

Definition all_known (tasks : list TaskSpec) : Prop :=
  ∀ name dep, depends tasks name dep → named tasks dep.

(** [x] stands before [y] in [l]. *)
Definition precedes {A} (l : list A) (x y : A) : Prop :=
  ∃ i j : nat, i < j ∧ l !! i = Some x ∧ l !! j = Some y.

(** The final state of the loop on a task list. *)
Definition final_state (tasks : list TaskSpec) : KahnState :=
  kahn (S (size (build_deps tasks))) (kahn_init (build_deps tasks)).

(** A task with a name and dependencies, other fields at neutral values. *)
Definition bare_task (name : string) (deps : list string) : TaskSpec :=
  {| ts_name := name; ts_handler := "runvane.noop"; ts_input := JNull; ts_depends_on := deps;
     ts_timeout_ms := None; ts_retry := None; ts_meta := ∅ |}.

(** A diamond listed out of order. *)
Definition diamond : list TaskSpec :=
  [bare_task "join" ["right"; "left"]; bare_task "right" ["fetch"]; bare_task "fetch" [];
   bare_task "left" ["fetch"]].

(** ** Building the dependency map *)

Lemma alter_union_fold name (l : list string) (m : gmap string (gset string)) k :
  foldl (fun deps dep => alter (fun d => {[dep]} ∪ d) name deps) m l !! k
  = (if decide (k = name) then (fun d => list_to_set l ∪ d) <$> m !! k else m !! k).
Proof.
  revert m. induction l as [|dep l IH]; intros m; cbn [foldl].
  - case_decide; [|done]. destruct (m !! k); cbn; f_equal; set_solver.
  - rewrite IH. case_decide as Hk.
    + subst k. rewrite lookup_alter_eq. destruct (m !! name); cbn; f_equal; set_solver.
    + by rewrite lookup_alter_ne.
Qed.

Lemma add_task_lookup m task k :
  add_task m task !! k =
  (if decide (k = ts_name task)
   then Some (list_to_set (ts_depends_on task) ∪ default ∅ (m !! k)) else m !! k).
Proof.
  unfold add_task. rewrite alter_union_fold. case_decide as Hk.
  - subst k. destruct (m !! ts_name task) eqn:Hm; rewrite ?Hm, ?lookup_insert_eq; done.
  - destruct (m !! ts_name task); [done|]. by rewrite lookup_insert_ne.
Qed.

Lemma build_deps_lookup tasks k :
  match build_deps tasks !! k with
  | Some d => named tasks k ∧ ∀ dep, dep ∈ d ↔ depends tasks k dep
  | None => ¬ named tasks k
  end.
Proof.
  unfold build_deps. induction tasks as [|task tasks IH] using rev_ind.
  - cbn. rewrite lookup_empty. intros (t&Ht&_). set_solver.
  - rewrite foldl_app. cbn [foldl]. rewrite add_task_lookup.
    assert (Hnamed : named (tasks ++ [task]) k ↔ named tasks k ∨ k = ts_name task)
      by (unfold named; set_solver).
    assert (Hdep : ∀ dep, depends (tasks ++ [task]) k dep ↔
      depends tasks k dep ∨ (k = ts_name task ∧ dep ∈ ts_depends_on task))
      by (unfold depends; set_solver).
    case_decide as Hk.
    + split; [tauto|]. intros dep. rewrite Hdep.
      destruct (foldl add_task ∅ tasks !! k) as [d|]; cbn [default].
      * destruct IH as [_ IH]. specialize (IH dep). set_solver.
      * assert (¬ depends tasks k dep) by (intros (t&?&?&_); apply IH; by exists t). set_solver.
    + destruct (foldl add_task ∅ tasks !! k) as [d|]; [|tauto].
      destruct IH as [IHn IH]. split; [tauto|]. intros dep. rewrite IH, Hdep. tauto.
Qed.

(** ** The loop invariant *)

Section Kahn.
Context (deps : gmap string (gset string)).

(** All dependencies of [n] are among [done]. *)
Definition satisfied (done : gset string) (n : string) : Prop :=
  ∃ d, deps !! n = Some d ∧ d ⊆ done.

Record kahn_inv (s : KahnState) : Prop := {
  inv_emitted : emitted s = list_to_set (order s);
  inv_nodup : NoDup (order s);
  inv_remaining : remaining s = ((fun d => d ∖ emitted s) <$> deps);
  inv_ready : ∀ n, n ∈ ready s ↔ (n ∉ emitted s) ∧ satisfied (emitted s) n;
  inv_order : ∀ i n, order s !! i = Some n →
    satisfied (list_to_set (take i (order s))) n ∧
    ∀ m, m ∉ take i (order s) → satisfied (list_to_set (take i (order s))) m → String.le n m
}.

Lemma kahn_init_inv : kahn_inv (kahn_init deps).
Proof.
  constructor; cbn; [done|constructor| | |done].
  - rewrite <-(map_fmap_id deps) at 1. apply map_fmap_ext. intros k d _. set_solver.
  - intros n. unfold initial_ready, satisfied. rewrite elem_of_list_to_set, list_elem_of_In, in_map_iff.
    split.
    + intros ([k d]&<-&Hin). apply filter_In in Hin as [Hin Hd].
      apply list_elem_of_In, bt_iter_elem in Hin. apply bool_decide_eq_true in Hd. cbn in *.
      split; [set_solver|]. exists d. set_solver.
    + intros (_&d&Hd&Hsub). exists (n, d). split; [done|]. apply filter_In. split.
      * by apply list_elem_of_In, bt_iter_elem.
      * apply bool_decide_eq_true. cbn. set_solver.
Qed.

Lemma draining_elem next m n :
  n ∈ draining next m ↔ ∃ d, m !! n = Some d ∧ next ∈ d ∧ d ∖ {[next]} = ∅.
Proof.
  unfold draining. rewrite list_elem_of_omap. split.
  - intros ([k d]&Hin&Hk). apply bt_iter_elem in Hin.
    destruct (bool_decide (next ∈ d)) eqn:H1, (bool_decide (d ∖ {[next]} = ∅)) eqn:H2; cbn in Hk; try done.
    to_prop. simplify_eq. by exists d.
  - intros (d&Hd&H1&H2). exists (n, d). split; [by apply bt_iter_elem|].
    by rewrite !bool_decide_eq_true_2.
Qed.

Lemma fold_ready (stop : gset string) (l : list string) (r : gset string) n :
  n ∈ foldl (fun ready name => if bool_decide (name ∈ stop) then ready else {[name]} ∪ ready) r l
  ↔ n ∈ r ∨ (n ∈ l ∧ n ∉ stop).
Proof.
  revert r. induction l as [|x l IH]; intros r; cbn [foldl]; [set_solver|].
  rewrite IH. case_bool_decide; set_solver.
Qed.

Lemma bt_elems_head s next rest : bt_elems s = next :: rest →
  next ∈ s ∧ ∀ m, m ∈ s → String.le next m.
Proof.
  intros He. pose proof (bt_elems_sorted s) as Hs. rewrite He in Hs.
  apply StronglySorted_inv in Hs as [_ Hf]. rewrite Forall_forall in Hf. split.
  - apply bt_elems_elem. rewrite He. apply list_elem_of_here.
  - intros m Hm%bt_elems_elem. rewrite He in Hm. apply elem_of_cons in Hm as [->|Hm]; [reflexivity|auto].
Qed.

Lemma bt_elems_nil s : bt_elems s = [] ↔ s = ∅.
Proof.
  split.
  - intros He. apply set_eq. intros x. rewrite <-bt_elems_elem, He. set_solver.
  - intros ->. reflexivity.
Qed.

Lemma satisfied_mono X Y n : X ⊆ Y → satisfied X n → satisfied Y n.
Proof. intros HXY (d&Hd&Hsub). exists d. set_solver. Qed.

Lemma kahn_step_ready s next n : kahn_inv s → next ∈ ready s →
  n ∈ ready (kahn_step next s) ↔
  (n ∉ emitted (kahn_step next s)) ∧ satisfied (emitted (kahn_step next s)) n.
Proof.
  intros [_ _ Hrem Hready _] Hnext. cbn. rewrite fold_ready, elem_of_difference, Hready, draining_elem.
  rewrite Hrem. setoid_rewrite lookup_fmap. split.
  - intros [[[Hn Hs] Hne]|[(d&Hd&Hin&Hemp) Hn]].
    + split; [set_solver|]. eapply satisfied_mono; [|done]. set_solver.
    + split; [done|]. destruct (deps !! n) as [d0|] eqn:Hd0; [|done]. cbn in Hd. simplify_eq.
      exists d0. split; [done|]. intros x Hx.
      destruct (decide (x = next)) as [->|]; [set_solver|].
      destruct (decide (x ∈ emitted s)); [set_solver|].
      assert (x ∈ d0 ∖ emitted s ∖ {[next]}) by set_solver. set_solver.
  - intros [Hn (d&Hd&Hsub)]. destruct (decide (d ⊆ emitted s)) as [Hall|Hnot].
    + left. split; [split; [set_solver|by exists d]|set_solver].
    + right. split; [|done]. exists (d ∖ emitted s). rewrite Hd. split; [done|].
      assert (next ∈ d ∖ emitted s).
      { destruct (decide (next ∈ d ∖ emitted s)) as [|Hx]; [done|]. destruct Hnot.
        intros x Hx'. specialize (Hsub x Hx'). set_solver. }
      split; [done|]. set_solver.
Qed.

Lemma kahn_step_inv s next rest : kahn_inv s → bt_elems (ready s) = next :: rest →
  kahn_inv (kahn_step next s).
Proof.
  intros Hinv Hb. apply bt_elems_head in Hb as [Hnext Hmin].
  pose proof (fun n => kahn_step_ready s next n Hinv Hnext) as Hready'.
  destruct Hinv as [Hem Hnd Hrem Hready Hord].
  assert (Hnew : next ∉ order s) by (apply Hready in Hnext; set_solver).
  constructor; [| | |exact Hready'|]; cbn.
  - rewrite Hem. set_solver.
  - apply NoDup_app. split; [done|]. split; [set_solver|apply NoDup_singleton].
  - rewrite Hrem, <-map_fmap_compose. apply map_fmap_ext. intros k d _. cbn. set_solver.
  - intros i n Hi. apply lookup_snoc_Some in Hi as [[Hlt Hi]|[-> <-]].
    + rewrite take_app_le by lia. by apply Hord.
    + rewrite take_app_length, <-Hem. apply Hready in Hnext as Hn. split; [apply Hn|].
      intros m Hm Hs. apply Hmin, Hready. split; [set_solver|done].
Qed.
End Kahn.

Section KahnRun.
Context (deps : gmap string (gset string)).

Lemma kahn_preserves fuel s : kahn_inv deps s → kahn_inv deps (kahn fuel s).
Proof.
  revert s. induction fuel as [|fuel IH]; intros s Hs; cbn [kahn]; [done|].
  destruct (bt_elems (ready s)) eqn:He; [done|]. eauto using kahn_step_inv.
Qed.

Lemma inv_order_dom s n : kahn_inv deps s → n ∈ order s → n ∈ dom deps.
Proof.
  intros [_ _ _ _ Hord] [i Hi]%list_elem_of_lookup. destruct (Hord i n Hi) as [(d&Hd&_) _].
  apply elem_of_dom. by exists d.
Qed.

Lemma inv_length s : kahn_inv deps s → length (order s) ≤ size deps.
Proof.
  intros Hinv. rewrite <-size_dom, <-(size_list_to_set (C := gset string) (order s)) by apply Hinv.
  apply subseteq_size. intros n Hn%elem_of_list_to_set. by apply (inv_order_dom s).
Qed.

(** The fuel of [topo_order] is enough: the loop stops at an empty frontier. *)
Lemma kahn_exhausts fuel s : kahn_inv deps s → size deps < length (order s) + fuel →
  ready (kahn fuel s) = ∅.
Proof.
  revert s. induction fuel as [|fuel IH]; intros s Hs Hf; cbn [kahn].
  - pose proof (inv_length s Hs). lia.
  - destruct (bt_elems (ready s)) as [|next rest] eqn:He; [by apply bt_elems_nil|].
    apply IH; [by eapply kahn_step_inv|]. cbn. rewrite length_app. cbn. lia.
Qed.
End KahnRun.

(** ** Cycles in finite graphs *)

Section Cycles.
Context (R : string → string → Prop).

Definition chain (l : list string) : Prop :=
  ∀ i x y, l !! i = Some x → l !! S i = Some y → R x y.

Lemma chain_tc l i j x y : chain l → i < j → l !! i = Some x → l !! j = Some y → tc R x y.
Proof.
  intros Hl Hij. revert y. induction Hij as [|j Hij IH]; intros y Hx Hy.
  - apply tc_once. by apply (Hl i).
  - destruct (lookup_lt_is_Some_2 l j) as [z Hz].
    { apply lookup_lt_Some in Hy. lia. }
    eapply tc_r; [by apply IH|]. by apply (Hl j).
Qed.

Lemma chain_exists (U : gset string) n x : (∀ x, x ∈ U → ∃ y, y ∈ U ∧ R x y) → x ∈ U →
  ∃ l, length l = S n ∧ l !! 0 = Some x ∧ (∀ y, y ∈ l → y ∈ U) ∧ chain l.
Proof.
  intros HU. revert x. induction n as [|n IH]; intros x Hx.
  - exists [x]. repeat split; [set_solver|]. by intros [] ? ?.
  - destruct (HU x Hx) as (y&Hy&Hxy). destruct (IH y Hy) as (l&Hlen&H0&Hin&Hl).
    exists (x :: l). repeat split; [cbn; by f_equal|set_solver|].
    intros [|i] a b Ha Hb; [|by apply (Hl i)].
    change (Some x = Some a) in Ha. change (l !! 0 = Some b) in Hb. congruence.
Qed.

(** A non-empty finite set in which every element has a successor has a cycle. *)
Lemma finite_cycle (U : gset string) x : (∀ x, x ∈ U → ∃ y, y ∈ U ∧ R x y) → x ∈ U →
  ∃ y, tc R y y.
Proof.
  intros HU Hx. destruct (chain_exists U (size U) x HU Hx) as (l&Hlen&_&Hin&Hl).
  destruct (list_pigeonhole l (elements U)) as (i&j&y&Hij&Hi&Hj).
  - intros y Hy. by apply elem_of_elements, Hin.
  - change (length (elements U)) with (size U). lia.
  - exists y. by apply (chain_tc l i j).
Qed.
End Cycles.

Lemma precedes_trans {A} (l : list A) x y z : NoDup l →
  precedes l x y → precedes l y z → precedes l x z.
Proof.
  intros Hnd (i&j&Hij&Hi&Hj) (j'&k&Hjk&Hj'&Hk).
  pose proof (NoDup_lookup l j j' y Hnd Hj Hj'). exists i, k. split; [lia|done].
Qed.

Lemma precedes_irrefl {A} (l : list A) x : NoDup l → ¬ precedes l x x.
Proof. intros Hnd (i&j&Hij&Hi&Hj). pose proof (NoDup_lookup l i j x Hnd Hi Hj). lia. Qed.

(** A list that respects [R] has no cycle. *)
Lemma precedes_acyclic {A} (l : list A) (R : A → A → Prop) : NoDup l →
  (∀ x y, R x y → precedes l y x) → ∀ x, ¬ tc R x x.
Proof.
  intros Hnd HR x Hx. enough (∀ x y, tc R x y → precedes l y x) as H
    by by eapply precedes_irrefl, H.
  clear x Hx. induction 1 as [x y Hxy|x y z Hxy _ IH]; [by apply HR|].
  eapply precedes_trans; [done|apply IH|by apply HR].
Qed.

(** ** The algorithm against the graph *)

Lemma named_dom tasks n : named tasks n ↔ is_Some (build_deps tasks !! n).
Proof.
  pose proof (build_deps_lookup tasks n) as H. destruct (build_deps tasks !! n).
  - split; [by eexists|]. intros _. apply H.
  - split; [done|]. by intros [].
Qed.

Lemma depends_named tasks n d : depends tasks n d → named tasks n.
Proof. intros (t&?&?&_). by exists t. Qed.

Lemma check_known_cases tasks :
  match check_known (build_deps tasks) with
  | Ok _ => all_known tasks
  | Err e => ∃ dep name, e = DomainError.UnknownDependency dep name ∧
      depends tasks name dep ∧ ¬ named tasks dep
  end.
Proof.
  assert (Hin : ∀ name d dep, (name, d) ∈ bt_iter (build_deps tasks) →
    dep ∈ bt_elems d ↔ depends tasks name dep).
  { intros name d dep Hd%bt_iter_elem. rewrite bt_elems_elem.
    pose proof (build_deps_lookup tasks name) as H. rewrite Hd in H. apply H. }
  destruct (check_known (build_deps tasks)) as [[]|e] eqn:Hc.
  - intros name dep Hdep. unfold check_known in Hc. rewrite for_each_ok, Forall_forall in Hc.
    pose proof (depends_named _ _ _ Hdep) as Hn. apply named_dom in Hn as [d Hd].
    apply bt_iter_elem in Hd. specialize (Hc _ Hd). cbn in Hc.
    rewrite for_each_ok, Forall_forall in Hc. apply (Hin name d dep Hd) in Hdep.
    specialize (Hc dep Hdep). case_bool_decide; [by apply named_dom|done].
  - unfold check_known in Hc. rewrite for_each_err in Hc. destruct Hc as (l1&[name d]&l2&Hl&_&Hc).
    apply for_each_err in Hc as (m1&dep&m2&Hm&_&Hc). case_bool_decide as Hb; simplify_eq.
    exists dep, name. split; [done|]. rewrite named_dom. split; [|done].
    apply (Hin name d); [rewrite Hl|rewrite Hm]; set_solver.
Qed.

Lemma final_inv tasks : kahn_inv (build_deps tasks) (final_state tasks).
Proof. apply kahn_preserves, kahn_init_inv. Qed.

Lemma final_ready tasks : ready (final_state tasks) = ∅.
Proof. apply (kahn_exhausts (build_deps tasks)); [apply kahn_init_inv|]. cbn. lia. Qed.

Lemma final_remaining_size tasks : size (remaining (final_state tasks)) = size (build_deps tasks).
Proof. rewrite (inv_remaining _ _ (final_inv tasks)). apply map_size_fmap. Qed.

(** When the lengths agree every task was emitted. *)
Lemma final_complete tasks : length (order (final_state tasks)) = size (build_deps tasks) →
  ∀ n, n ∈ order (final_state tasks) ↔ named tasks n.
Proof.
  intros Hlen n. pose proof (final_inv tasks) as Hinv. rewrite named_dom, <-elem_of_dom.
  split; [by apply inv_order_dom|].
  assert (list_to_set (order (final_state tasks)) = dom (build_deps tasks)) as Heq.
  { apply set_subseteq_size_eq.
    - intros m Hm%elem_of_list_to_set. by eapply inv_order_dom.
    - rewrite size_dom, size_list_to_set by apply Hinv. lia. }
  rewrite <-Heq. apply elem_of_list_to_set.
Qed.

Lemma final_precedes tasks n d : n ∈ order (final_state tasks) → depends tasks n d →
  precedes (order (final_state tasks)) d n.
Proof.
  intros [j Hj]%list_elem_of_lookup Hdep. pose proof (final_inv tasks) as Hinv.
  destruct (inv_order _ _ Hinv j n Hj) as [(ds&Hds&Hsub) _].
  pose proof (build_deps_lookup tasks n) as H. rewrite Hds in H. apply H, Hsub in Hdep.
  apply elem_of_list_to_set, list_elem_of_lookup in Hdep as [i Hi].
  apply lookup_take_Some in Hi as [Hi Hij]. by exists i, j.
Qed.

(** When some task was not emitted the unemitted ones contain a cycle. *)
Lemma final_cycle tasks : all_known tasks →
  length (order (final_state tasks)) ≠ size (build_deps tasks) → ∃ n, tc (depends tasks) n n.
Proof.
  intros Hknown Hlen. pose proof (final_inv tasks) as Hinv.
  set (U := dom (build_deps tasks) ∖ list_to_set (order (final_state tasks))).
  assert (HU : ∀ x, x ∈ U → ∃ y, y ∈ U ∧ depends tasks x y).
  { intros x [Hx Hnx]%elem_of_difference. apply elem_of_dom in Hx as [d Hd].
    pose proof (build_deps_lookup tasks x) as Hl. rewrite Hd in Hl. destruct Hl as [_ Hl].
    assert (¬ d ⊆ emitted (final_state tasks)) as Hnot.
    { intros Hsub. assert (x ∈ ready (final_state tasks)) as Hr.
      { apply (inv_ready _ _ Hinv). rewrite (inv_emitted _ _ Hinv) in *. split; [done|by exists d]. }
      rewrite final_ready in Hr. set_solver. }
    destruct (set_choose_or_empty (d ∖ emitted (final_state tasks))) as [[y Hy]|He].
    - exists y. apply elem_of_difference in Hy as [Hy Hne]. apply Hl in Hy. split; [|done].
      rewrite (inv_emitted _ _ Hinv) in Hne. apply elem_of_difference. split; [|done].
      apply elem_of_dom, named_dom. by apply (Hknown x).
    - destruct Hnot. set_solver. }
  destruct (set_choose_or_empty U) as [[x Hx]|He]; [by eapply finite_cycle|].
  destruct Hlen. assert (dom (build_deps tasks) ⊆ list_to_set (order (final_state tasks))) as Hs by set_solver.
  apply subseteq_size in Hs. rewrite size_dom, size_list_to_set in Hs by apply Hinv.
  pose proof (inv_length _ _ Hinv). lia.
Qed.

Lemma topo_order_cases tasks :
  match topo_order tasks with
  | Ok l => all_known tasks ∧ l = order (final_state tasks) ∧ length l = size (build_deps tasks)
  | Err e => (∃ dep name, e = DomainError.UnknownDependency dep name ∧
               depends tasks name dep ∧ ¬ named tasks dep) ∨
             (e = DomainError.CycleDetected ∧ all_known tasks ∧
               length (order (final_state tasks)) ≠ size (build_deps tasks))
  end.
Proof.
  pose proof (check_known_cases tasks) as Hc. unfold topo_order. fold (final_state tasks).
  destruct (check_known (build_deps tasks)) as [[]|e]; cbn [rbind]; [|by left].
  rewrite final_remaining_size. case_bool_decide as Hl; [done|by right].
Qed.

Lemma build_deps_ext tasks1 tasks2 :
  (∀ n, named tasks1 n ↔ named tasks2 n) →
  (∀ n d, depends tasks1 n d ↔ depends tasks2 n d) → build_deps tasks1 = build_deps tasks2.
Proof.
  intros Hn Hd. apply map_eq. intros k.
  pose proof (build_deps_lookup tasks1 k) as H1. pose proof (build_deps_lookup tasks2 k) as H2.
  destruct (build_deps tasks1 !! k) as [d1|], (build_deps tasks2 !! k) as [d2|].
  - f_equal. apply set_eq. intros x. destruct H1 as [_ H1], H2 as [_ H2]. by rewrite H1, H2.
  - destruct H2. apply Hn, H1.
  - destruct H1. apply Hn, H2.
  - done.
Qed.

Lemma is_acyclic_spec tasks :
  is_acyclic tasks = true ↔ all_known tasks ∧ ∀ n, ¬ tc (depends tasks) n n.
Proof.
  unfold is_acyclic. pose proof (topo_order_cases tasks) as Hc.
  destruct (topo_order tasks) as [l|e]; cbn.
  - split; [|done]. intros _. destruct Hc as (Hk&->&Hlen). split; [done|].
    apply (precedes_acyclic (order (final_state tasks))); [apply (final_inv tasks)|].
    intros x y Hxy. apply final_precedes; [|done].
    apply final_complete; [done|]. by eapply depends_named.
  - split; [done|]. intros [Hk Hac]. destruct Hc as [(dep&name&_&Hd&Hn)|(_&_&Hlen)].
    + by destruct Hn; apply (Hk name).
    + destruct (final_cycle tasks Hk Hlen) as [n Hn]. by destruct (Hac n).
Qed.

Lemma topo_order_spec tasks l : topo_order tasks = Ok l →
  NoDup l ∧ (∀ n, n ∈ l ↔ named tasks n) ∧
  ∀ n d, depends tasks n d → precedes l d n.
Proof.
  intros H. pose proof (topo_order_cases tasks) as Hc. rewrite H in Hc.
  destruct Hc as (_&->&Hlen). pose proof (final_complete tasks Hlen) as Hall.
  split; [apply (final_inv tasks)|]. split; [done|]. intros n d Hd.
  apply final_precedes; [|done]. apply Hall. by eapply depends_named.
Qed.

(** ** Properties *)

(** C21. A returned order is a dependency-first enumeration of the tasks: no name
    twice, exactly the declared names, and each dependency strictly before the
    task that lists it. *)
Theorem topo_order_sound tasks l : topo_order tasks = Ok l →
  NoDup l ∧ (∀ n, n ∈ l ↔ named tasks n) ∧
  ∀ n d, depends tasks n d → precedes l d n.
Proof. apply topo_order_spec. Qed.

Lemma topo_order_sound_witness :
  NoDup ["fetch"; "left"; "right"; "join"]%string ∧
  precedes ["fetch"; "left"; "right"; "join"]%string "left"%string "join"%string.
Proof.
  destruct (topo_order_sound diamond ["fetch"; "left"; "right"; "join"]) as (H1&_&H2);
    [vm_compute; reflexivity|].
  split; [exact H1|]. apply H2. exists (bare_task "join" ["right"; "left"]).
  split; [apply list_elem_of_here|]. split; [reflexivity|].
  apply list_elem_of_further, list_elem_of_here.
Defined.

(** C22. [topo_order] succeeds exactly on the graphs that have a topological
    order: every dependency names a task and no task depends on itself through
    any chain. *)
Theorem topo_order_ok_iff tasks :
  is_acyclic tasks = true ↔ all_known tasks ∧ ∀ n, ¬ tc (depends tasks) n n.
Proof. apply is_acyclic_spec. Qed.

(** The two errors mean what they say: [UnknownDependency dep name] names a
    dependency that task [name] lists and no task defines, [CycleDetected] is
    returned exactly for a fully resolved graph with a cycle, and no other
    error is possible. *)
Theorem topo_order_errors tasks e : topo_order tasks = Err e →
  (∃ dep name, e = DomainError.UnknownDependency dep name ∧
     depends tasks name dep ∧ ¬ named tasks dep) ∨
  (e = DomainError.CycleDetected ∧ all_known tasks ∧ ∃ n, tc (depends tasks) n n).
Proof.
  intros H. pose proof (topo_order_cases tasks) as Hc. rewrite H in Hc.
  destruct Hc as [?|(?&?&?)]; [by left|]. right. auto using final_cycle.
Qed.

Lemma topo_order_errors_witness :
  ∃ n, tc (depends [bare_task "a" ["b"]; bare_task "b" ["a"]]) n n.
Proof.
  destruct (topo_order_errors [bare_task "a" ["b"]; bare_task "b" ["a"]] DomainError.CycleDetected)
    as [(dep&name&He&_)|(_&_&Hn)]; [vm_compute; reflexivity|discriminate He|exact Hn].
Defined.

(** Ties are broken lexicographically: every emitted name is the least, in
    byte order, of the names whose dependencies were all emitted before it. *)
Theorem topo_order_least tasks l i n m : topo_order tasks = Ok l →
  l !! i = Some n → named tasks m → m ∉ take i l →
  (∀ d, depends tasks m d → d ∈ take i l) → String.le n m.
Proof.
  intros H Hi Hm Hni Hd. pose proof (topo_order_cases tasks) as Hc. rewrite H in Hc.
  destruct Hc as (_&->&_). apply (inv_order _ _ (final_inv tasks) i n Hi); [done|].
  pose proof (build_deps_lookup tasks m) as Hl. apply named_dom in Hm as [ds Hds].
  rewrite Hds in Hl. exists ds. split; [done|]. intros d Hin. apply elem_of_list_to_set, Hd.
  by apply Hl.
Qed.

Lemma topo_order_least_witness : String.le "left" "right".
Proof.
  apply (topo_order_least diamond ["fetch"; "left"; "right"; "join"]%string 1).
  - vm_compute. reflexivity.
  - reflexivity.
  - exists (bare_task "right" ["fetch"]). split; [|reflexivity].
    apply list_elem_of_further, list_elem_of_here.
  - cbn. set_solver.
  - intros d (t&Ht&Hn&Hd). unfold diamond in Ht. apply list_elem_of_In in Ht.
    destruct Ht as [<-|[<-|[<-|[<-|[]]]]]; try discriminate Hn. exact Hd.
Defined.

(** The plan depends only on the graph: two task lists with the same names
    and dependency edges, in whatever order and with whatever repetitions, give
    the same order or the same error. *)
Theorem topo_order_deterministic tasks1 tasks2 :
  (∀ n, named tasks1 n ↔ named tasks2 n) →
  (∀ n d, depends tasks1 n d ↔ depends tasks2 n d) → topo_order tasks1 = topo_order tasks2.
Proof. intros Hn Hd. unfold topo_order. by rewrite (build_deps_ext tasks1 tasks2). Qed.

Lemma topo_order_deterministic_witness :
  topo_order diamond = topo_order (rev diamond).
Proof.
  apply topo_order_deterministic.
  - intros n. split; intros (t&Ht&Hn); exists t; (split; [|exact Hn]);
      apply list_elem_of_In; apply list_elem_of_In in Ht.
    + by apply in_rev in Ht.
    + by apply in_rev.
  - intros n d. split; intros (t&Ht&Hn); exists t; (split; [|exact Hn]);
      apply list_elem_of_In; apply list_elem_of_In in Ht.
    + by apply in_rev in Ht.
    + by apply in_rev.
Defined.
