(* ===== verification/DryRun.v ===== *)
(** * Dry-run analysis (src/src/engine/dry_run.rs)

    [simulate_workflow] decomposes a task graph into waves, finds a critical
    path and checks the placeholders of the task inputs against the dependency
    chains. Its [while] loops run on fuel: one more round than there are tasks
    for the waves, one step per entry of the predecessor map for the path, one
    pop per listed dependency for the reachability search. *)
From stdpp Require Import pretty.
From S2P Require Import Prelude RustStrings Text Errors Json RetryPolicy Workflow Dag.

Record DryRunStage := {
  stage_index : nat;
  stage_tasks : list string
}.

Record DryRunReport := {
  rp_tenant : string;
  rp_workflow_name : string;
  rp_version : Z;
  rp_total_tasks : nat;
  rp_max_parallelism : nat;
  rp_stages : list DryRunStage;
  rp_critical_path : list string;
  rp_variable_references : list string;
  rp_warnings : list string
}.

(** ** The report as text *)

Definition newline : string := of_bytes [10%Z].

(** [{:02}] *)
Definition pad2 (n : nat) : string :=
  let s : string := pretty n in if (String.length s <? 2) then "0" +:+ s else s.

Definition stage_line (st : DryRunStage) : string :=
  "  Stage " +:+ pad2 (stage_index st) +:+ " (parallel): [" +:+ join ", " (stage_tasks st) +:+ "]" +:+
  newline.

Definition format_text (r : DryRunReport) : string :=
  "=== Workflow Dry-Run Report: " +:+ rp_tenant r +:+ "/" +:+ rp_workflow_name r +:+ " (v" +:+
    pretty (rp_version r) +:+ ") ===" +:+ newline +:+
  "Tasks: " +:+ pretty (rp_total_tasks r) +:+ " | Max Parallelism: " +:+
    pretty (rp_max_parallelism r) +:+ " | Stages: " +:+ pretty (length (rp_stages r)) +:+ newline +:+
  newline +:+ "Execution Stages (Topological Waves):" +:+ newline +:+
  collect (stage_line <$> rp_stages r) +:+
  newline +:+ "Critical Path: " +:+ join " -> " (rp_critical_path r) +:+ newline +:+
  match rp_variable_references r with
  | [] => ""
  | refs => newline +:+ "Referenced Variables: [" +:+ join ", " refs +:+ "]" +:+ newline
  end +:+
  match rp_warnings r with
  | [] => ""
  | ws => newline +:+ "Warnings:" +:+ newline +:+
          collect ((fun w => "  - [WARN] " +:+ w +:+ newline) <$> ws)
  end.

(** ** The graph maps *)

Record Graph := {
  task_map : gmap string TaskSpec;
  in_degree : gmap string nat;
  dependents : gmap string (list string)
}.

(** [entry(dep).or_default().push(name)] *)
Definition push_dependent (name : string) (m : gmap string (list string)) (dep : string)
    : gmap string (list string) :=
  <[dep := default [] (m !! dep) ++ [name]]> m.

Definition graph_add (g : Graph) (task : TaskSpec) : Graph :=
  let name := ts_name task in
  {| task_map := <[name := task]> (task_map g);
     in_degree := <[name := length (ts_depends_on task)]> (in_degree g);
     dependents := foldl (push_dependent name)
       (<[name := default [] (dependents g !! name)]> (dependents g)) (ts_depends_on task) |}.

Definition build_graph (tasks : list TaskSpec) : Graph :=
  foldl graph_add {| task_map := ∅; in_degree := ∅; dependents := ∅ |} tasks.

(** ** Waves *)

(** The innermost body: one child loses one pending dependency. *)
Definition release_child (acc : gmap string nat * list string) (child : string)
    : gmap string nat * list string :=
  match acc.1 !! child with
  | Some deg =>
      let deg := deg - 1 in
      (<[child := deg]> acc.1, if deg =? 0 then acc.2 ++ [child] else acc.2)
  | None => acc
  end.

Definition release_task (deps : gmap string (list string))
    (acc : gmap string nat * list string) (task_name : string) : gmap string nat * list string :=
  match deps !! task_name with
  | Some children => foldl release_child acc children
  | None => acc
  end.

(** [while !ready.is_empty() { ... }] *)
Fixpoint waves (fuel : nat) (deps : gmap string (list string)) (remaining : gmap string nat)
    (ready : list string) (stage_idx : nat) : list DryRunStage :=
  match fuel with
  | O => []
  | S fuel =>
      match ready with
      | [] => []
      | _ =>
          let acc := foldl (release_task deps) (remaining, []) ready in
          {| stage_index := stage_idx; stage_tasks := ready |} ::
          waves fuel deps acc.1 (sort_by String.leb acc.2) (S stage_idx)
      end
  end.

Definition first_ready (degrees : gmap string nat) : list string :=
  sort_by String.leb (List.filter (fun kv => kv.2 =? 0) (bt_iter degrees)).*1.

Definition compute_stages (tasks : list TaskSpec) : list DryRunStage :=
  let g := build_graph tasks in
  waves (S (length tasks)) (dependents g) (in_degree g) (first_ready (in_degree g)) 0.

Definition max_width (stages : list DryRunStage) : nat :=
  foldr (fun st acc => Nat.max (length (stage_tasks st)) acc) 0 stages.

(** ** The critical path *)

Definition Paths : Type := gmap string nat * gmap string (option string).

(** [dist.get_mut(child).unwrap()]: [None] is the panic. *)
Definition relax_child (task_name : string) (current_dist : nat) (st : option Paths)
    (child : string) : option Paths :=
  match st with
  | None => None
  | Some (dist, prev) =>
      match dist !! child with
      | None => None
      | Some child_dist =>
          if child_dist <? current_dist + 1
          then Some (<[child := current_dist + 1]> dist, <[child := Some task_name]> prev)
          else Some (dist, prev)
      end
  end.

Definition relax_task (deps : gmap string (list string)) (st : option Paths) (task_name : string)
    : option Paths :=
  match st with
  | None => None
  | Some (dist, prev) =>
      match deps !! task_name with
      | Some children =>
          foldl (relax_child task_name (default 1 (dist !! task_name))) (Some (dist, prev)) children
      | None => Some (dist, prev)
      end
  end.

Definition initial_paths (tasks : list TaskSpec) : Paths :=
  foldl (fun st task => (<[ts_name task := 1]> st.1, <[ts_name task := None]> st.2)) (∅, ∅) tasks.

Definition relax_all (tasks : list TaskSpec) (stages : list DryRunStage) : option Paths :=
  foldl (fun st stage => foldl (relax_task (dependents (build_graph tasks))) st (stage_tasks stage))
    (Some (initial_paths tasks)) stages.

(** The first name in key order with the largest distance. *)
Definition find_end (tasks : list TaskSpec) (dist : gmap string nat) : string :=
  (foldl (fun best kv => if best.2 <? kv.2 then kv else best)
     (match tasks with [] => EmptyString | t :: _ => ts_name t end, 0) (bt_iter dist)).1.

(** [while let Some(node) = curr] *)
Fixpoint trace_back (fuel : nat) (prev : gmap string (option string)) (node : string)
    : list string :=
  match fuel with
  | O => []
  | S fuel =>
      node :: match prev !! node with
              | Some (Some p) => trace_back fuel prev p
              | _ => []
              end
  end.

Definition critical_path (tasks : list TaskSpec) (p : Paths) : list string :=
  rev (trace_back (S (size p.2)) p.2 (find_end tasks p.1)).

(** ** Placeholders *)

(** The [while let Some(start) = s[cursor..].find("${")] loop, on the rest of
    the string from the cursor. *)
Fixpoint scan_placeholders (fuel : nat) (s : string) : list string :=
  match fuel with
  | O => []
  | S fuel =>
      match find "${" s with
      | None => []
      | Some start =>
          let from := str_drop start s in
          match find "}" from with
          | None => []
          | Some stop =>
              let placeholder := trim (str_drop 2 (str_take stop from)) in
              (if is_empty placeholder then [] else [placeholder]) ++
              scan_placeholders fuel (str_drop (S stop) from)
          end
      end
  end.

Fixpoint extract_placeholders (val : Json) : list string :=
  match val with
  | JString s => scan_placeholders (S (String.length s)) s
  | JArray items => flat_map extract_placeholders items
  | JObject fields => flat_map (fun kv => extract_placeholders kv.2) fields
  | _ => []
  end.

(** ** Reachability *)

(** The [for dep in &spec.depends_on] loop: [None] when the target is met. *)
Fixpoint visit_deps (target : string) (deps : list string) (visited : gset string)
    (queue : list string) : option (gset string * list string) :=
  match deps with
  | [] => Some (visited, queue)
  | dep :: rest =>
      if bool_decide (dep = target) then None
      else if bool_decide (dep ∈ visited) then visit_deps target rest visited queue
      else visit_deps target rest ({[dep]} ∪ visited) (dep :: queue)
  end.

(** The stack is kept with its top first. *)
Fixpoint reach (fuel : nat) (target : string) (tasks : gmap string TaskSpec) (visited : gset string)
    (queue : list string) : bool :=
  match fuel, queue with
  | S fuel, current :: queue =>
      match tasks !! current with
      | Some spec =>
          match visit_deps target (ts_depends_on spec) visited queue with
          | None => true
          | Some (visited, queue) => reach fuel target tasks visited queue
          end
      | None => reach fuel target tasks visited queue
      end
  | _, _ => false
  end.

(** Names some task lists: no more can be pushed. *)
Definition listed (tasks : gmap string TaskSpec) : gset string :=
  list_to_set (flat_map (fun kv => ts_depends_on kv.2) (map_to_list tasks)).

Definition is_transitive_dependency (target from_task : string) (tasks : gmap string TaskSpec)
    : bool :=
  reach (S (size (listed tasks))) target tasks ∅ [from_task].

(** ** The analysis *)

(** What one placeholder of a task adds to the warnings. *)
Definition check_reference (tasks : gmap string TaskSpec) (task : TaskSpec) (var : string)
    : list string :=
  if starts_with "tasks." var then
    match split_on "." var with
    | _ :: ref_task :: _ =>
        if bool_decide (ref_task = ts_name task) then
          ["task '" +:+ ts_name task +:+ "' references its own output via '${" +:+ var +:+ "}'"]
        else if negb (is_transitive_dependency ref_task (ts_name task) tasks) then
          ["task '" +:+ ts_name task +:+ "' references '${" +:+ var +:+ "}' but '" +:+ ref_task +:+
           "' is not in its dependency chain"]
        else []
    | _ => []
    end
  else [].

(** [None]: the [unwrap] of the path computation panicked. *)
Definition simulate_workflow (def : WorkflowDef) : option (result DryRunReport DomainError) :=
  let tasks := wd_tasks def in
  match topo_order tasks with
  | Err e => Some (Err e)
  | Ok _ =>
      let stages := compute_stages tasks in
      match relax_all tasks stages with
      | None => None
      | Some paths =>
          Some (Ok {| rp_tenant := wd_tenant def; rp_workflow_name := wd_name def;
            rp_version := wd_version def; rp_total_tasks := length tasks;
            rp_max_parallelism := max_width stages; rp_stages := stages;
            rp_critical_path := critical_path tasks paths;
            rp_variable_references :=
              bt_elems (list_to_set (flat_map (fun t => extract_placeholders (ts_input t)) tasks));
            rp_warnings :=
              flat_map (fun t =>
                flat_map (check_reference (task_map (build_graph tasks)) t)
                  (extract_placeholders (ts_input t))) tasks |})
      end
  end.

(** ** Specification vocabulary *)

(** Everything the tasks called [n] list. *)
Definition deps_of (tasks : list TaskSpec) (n : string) : list string :=
  flat_map (fun t => if bool_decide (ts_name t = n) then ts_depends_on t else []) tasks.

Local Notation cnt l x := (count_occ String.string_dec l x).

(** The names of wave [j]. *)
Definition level (stages : list DryRunStage) (j : nat) : list string :=
  (stage_tasks <$> stages) !!! j.

(** A decomposition in which a wave is exactly the set of tasks that the waves
    before it (and [done]) make ready, until no task is left. *)
Inductive layered (tasks : list TaskSpec) : gset string → list (list string) → Prop :=
| layered_nil done : (∀ n, named tasks n → n ∈ done) → layered tasks done []
| layered_cons done ready rest : ready ≠ [] → NoDup ready → StronglySorted String.le ready →
    (∀ n, n ∈ ready ↔ named tasks n ∧ (n ∉ done) ∧ ∀ d, depends tasks n d → d ∈ done) →
    layered tasks (done ∪ list_to_set ready) rest → layered tasks done (ready :: rest).

(** ** The graph maps *)

Lemma deps_of_elem tasks n d : d ∈ deps_of tasks n ↔ depends tasks n d.
Proof.
  unfold deps_of, depends. rewrite list_elem_of_In, in_flat_map.
  setoid_rewrite <- list_elem_of_In. split.
  - intros (t & Ht & Hd). case_bool_decide; [eauto|by apply elem_of_nil in Hd].
  - intros (t & Ht & Hn & Hd). exists t. split; [done|]. by rewrite bool_decide_eq_true_2.
Qed.

Lemma deps_of_task tasks t : NoDup (ts_name <$> tasks) → t ∈ tasks →
  deps_of tasks (ts_name t) = ts_depends_on t.
Proof.
  induction tasks as [|u tasks IH]; intros Hnd Ht; [by apply elem_of_nil in Ht|].
  cbn in Hnd. apply NoDup_cons in Hnd as [Hu Hnd]. cbn [deps_of flat_map].
  assert (∀ v, v ∈ tasks → ts_name v ≠ ts_name u) as Hne.
  { intros v Hv E. apply Hu. rewrite <- E. by apply list_elem_of_fmap_2. }
  apply elem_of_cons in Ht as [->|Ht].
  - rewrite bool_decide_eq_true_2 by done. rewrite <- (app_nil_r (ts_depends_on u)) at 2. f_equal.
    clear -Hne. induction tasks as [|v tasks IH]; cbn; [done|].
    rewrite bool_decide_eq_false_2; [apply IH; set_solver|]. apply Hne. set_solver.
  - rewrite bool_decide_eq_false_2 by (intros E; by apply (Hne t)). by apply IH.
Qed.

Lemma push_dependents_cnt name deps m d n :
  cnt (default [] (foldl (push_dependent name) m deps !! d)) n =
  cnt (default [] (m !! d)) n + (if bool_decide (name = n) then cnt deps d else 0).
Proof.
  revert m. induction deps as [|e deps IH]; intros m; cbn [foldl].
  { case_bool_decide; cbn; lia. }
  rewrite IH. unfold push_dependent at 1. cbn [count_occ].
  destruct (String.string_dec e d) as [->|Hne].
  - rewrite lookup_insert_eq. cbn [from_option id]. rewrite count_occ_app. cbn [count_occ].
    case_bool_decide; destruct (String.string_dec name n); try done; lia.
  - rewrite lookup_insert_ne by done. done.
Qed.

Lemma build_graph_app tasks t : build_graph (tasks ++ [t]) = graph_add (build_graph tasks) t.
Proof. unfold build_graph. by rewrite foldl_app. Qed.

Lemma dependents_cnt tasks d n :
  cnt (default [] (dependents (build_graph tasks) !! d)) n = cnt (deps_of tasks n) d.
Proof.
  induction tasks as [|t tasks IH] using rev_ind; [done|].
  rewrite build_graph_app. unfold graph_add. cbn [dependents].
  rewrite push_dependents_cnt.
  replace (default [] (<[ts_name t := default [] (dependents (build_graph tasks) !! ts_name t)]>
    (dependents (build_graph tasks)) !! d)) with (default [] (dependents (build_graph tasks) !! d)).
  2: { destruct (decide (ts_name t = d)) as [<-|]; [by rewrite lookup_insert_eq|].
       by rewrite lookup_insert_ne. }
  rewrite IH. unfold deps_of. rewrite flat_map_app, count_occ_app. cbn [flat_map].
  rewrite app_nil_r. by case_bool_decide.
Qed.

Lemma dependents_elem tasks d n :
  n ∈ default [] (dependents (build_graph tasks) !! d) ↔ depends tasks n d.
Proof.
  rewrite <- deps_of_elem, !list_elem_of_In, !(count_occ_In String.string_dec).
  by rewrite dependents_cnt.
Qed.

Lemma in_degree_lookup tasks n : NoDup (ts_name <$> tasks) →
  in_degree (build_graph tasks) !! n =
  if bool_decide (n ∈ ts_name <$> tasks) then Some (length (deps_of tasks n)) else None.
Proof.
  induction tasks as [|t tasks IH] using rev_ind; intros Hnd.
  { by rewrite bool_decide_eq_false_2 by set_solver. }
  rewrite fmap_app in Hnd. apply NoDup_app in Hnd as (Hnd & Hdis & _). cbn in Hdis.
  rewrite build_graph_app. unfold graph_add. cbn [in_degree].
  assert (deps_of (tasks ++ [t]) n =
    deps_of tasks n ++ if bool_decide (ts_name t = n) then ts_depends_on t else []) as ->.
  { unfold deps_of. rewrite flat_map_app. cbn. by rewrite app_nil_r. }
  destruct (decide (ts_name t = n)) as [<-|Hne].
  - rewrite lookup_insert_eq, !bool_decide_eq_true_2 by set_solver.
    assert (deps_of tasks (ts_name t) = []) as ->; [|done].
    apply elem_of_nil_inv. intros d (u & Hu & Hn & _)%deps_of_elem.
    apply (Hdis (ts_name t)); [|by left]. rewrite <- Hn. by apply list_elem_of_fmap_2.
  - rewrite lookup_insert_ne, IH by done. rewrite (bool_decide_eq_false_2 (ts_name t = n)), app_nil_r by done.
    destruct (decide (n ∈ ts_name <$> tasks)).
    + by rewrite !bool_decide_eq_true_2 by set_solver.
    + by rewrite !bool_decide_eq_false_2 by set_solver.
Qed.

Lemma task_map_lookup tasks n t : NoDup (ts_name <$> tasks) →
  task_map (build_graph tasks) !! n = Some t ↔ t ∈ tasks ∧ ts_name t = n.
Proof.
  induction tasks as [|u tasks IH] using rev_ind; intros Hnd.
  { cbn. rewrite lookup_empty, elem_of_nil. naive_solver. }
  rewrite fmap_app in Hnd. apply NoDup_app in Hnd as (Hnd & Hdis & _). cbn in Hdis.
  rewrite build_graph_app. unfold graph_add. cbn [task_map].
  rewrite elem_of_app, list_elem_of_singleton.
  destruct (decide (ts_name u = n)) as [<-|Hne].
  - rewrite lookup_insert_eq. split; [intros [= <-]; auto|].
    intros [[Ht| ->] E]; [|done]. destruct (Hdis (ts_name t)); [by apply list_elem_of_fmap_2|].
    rewrite E. by left.
  - rewrite lookup_insert_ne, IH by done. naive_solver.
Qed.

(** ** Waves *)

Lemma release_children cs rem next :
  (∀ x, x ∈ cs → ∃ k, rem !! x = Some k ∧ cnt cs x ≤ k) →
  let acc := foldl release_child (rem, next) cs in
  (∀ x, acc.1 !! x = (fun k => k - cnt cs x) <$> rem !! x) ∧
  ∃ new, acc.2 = next ++ new ∧ NoDup new ∧ ∀ x, x ∈ new ↔ x ∈ cs ∧ rem !! x = Some (cnt cs x).
Proof.
  revert rem next. induction cs as [|c cs IH]; intros rem next Hle; cbn [foldl].
  { cbn. split; [intros x; destruct (rem !! x) as [k|]; cbn; [f_equal; lia|done]|].
    exists []. split_and!; [by rewrite app_nil_r|constructor|]. set_solver. }
  destruct (Hle c) as (k & Hk & Hck); [by left|]. cbn [count_occ] in Hck.
  destruct (String.string_dec c c) as [_|]; [|done].
  set (next' := if k - 1 =? 0 then next ++ [c] else next).
  assert (release_child (rem, next) c = (<[c := k - 1]> rem, next')) as ->.
  { unfold release_child. cbn [fst snd]. by rewrite Hk. }
  assert (∀ x, x ∈ cs → ∃ k', <[c := k - 1]> rem !! x = Some k' ∧ cnt cs x ≤ k') as Hle'.
  { intros x Hx. destruct (decide (c = x)) as [<-|Hne].
    - rewrite lookup_insert_eq. eexists. split; [done|lia].
    - rewrite lookup_insert_ne by done. destruct (Hle x) as (k' & ? & Hc); [by right|].
      exists k'. split; [done|]. cbn [count_occ] in Hc.
      destruct (String.string_dec c x); [done|lia]. }
  destruct (IH (<[c := k - 1]> rem) next' Hle') as (H1 & new & H2 & Hnd & H3).
  split.
  { intros x. rewrite H1. cbn [count_occ]. destruct (String.string_dec c x) as [<-|Hne].
    - rewrite lookup_insert_eq, Hk. cbn. f_equal. lia.
    - by rewrite lookup_insert_ne. }
  assert (∀ x, c ≠ x → x ∈ new ↔ x ∈ c :: cs ∧ rem !! x = Some (cnt (c :: cs) x)) as Hother.
  { intros x Hne. rewrite H3, lookup_insert_ne, elem_of_cons by done. cbn [count_occ].
    destruct (String.string_dec c x); [done|]. naive_solver. }
  assert (cnt (c :: cs) c = S (cnt cs c)) as Hcc.
  { cbn [count_occ]. by destruct (String.string_dec c c). }
  assert (c ∈ new ↔ c ∈ cs ∧ k = S (cnt cs c)) as Hc.
  { rewrite H3, lookup_insert_eq. split; intros [? E]; (split; [done|]); [injection E; lia|f_equal; lia]. }
  assert (c ∈ cs ↔ 0 < cnt cs c) as Hin.
  { rewrite list_elem_of_In. apply count_occ_In. }
  rewrite H2. unfold next'. clear H2. destruct (Nat.eqb_spec (k - 1) 0).
  - exists (c :: new). rewrite <- app_assoc. split_and!; [done| |].
    + constructor; [|done]. rewrite Hc, Hin. lia.
    + intros x. rewrite elem_of_cons. destruct (decide (c = x)) as [<-|Hne].
      * rewrite Hcc, Hk. split; [|by left]. intros _. split; [by left|]. f_equal. lia.
      * rewrite <- (Hother x Hne). naive_solver.
  - exists new. split_and!; [done..|]. intros x. destruct (decide (c = x)) as [<-|Hne]; [|by apply Hother].
    rewrite Hc, Hcc, Hk, Hin. split; [intros [? ->]; split; [by left|done]|].
    intros [_ [= E]]. lia.
Qed.

(** The children of a wave, one after the other. *)
Lemma release_tasks deps acc ts :
  foldl (release_task deps) acc ts =
  foldl release_child acc (flat_map (fun t => default [] (deps !! t)) ts).
Proof.
  revert acc. induction ts as [|t ts IH]; intros acc; cbn; [done|].
  rewrite foldl_app, <- IH. f_equal. unfold release_task. by destruct (deps !! t).
Qed.

(** Elements of [D] outside [X]. *)
Definition outside (X : gset string) (D : list string) : nat :=
  length (List.filter (fun d => negb (bool_decide (d ∈ X))) D).

Lemma outside_union X l D : NoDup l → (∀ x, x ∈ l → x ∉ X) →
  outside (X ∪ list_to_set l) D + list_sum (map (fun x => cnt D x) l) = outside X D.
Proof.
  intros Hnd. revert X. induction Hnd as [|x l Hx Hnd IH]; intros X Hdis; cbn.
  { by rewrite (right_id_L ∅ (∪)), Nat.add_0_r. }
  assert (outside ({[x]} ∪ X) D + cnt D x = outside X D) as Hone.
  { assert (x ∉ X) as HxX by (apply Hdis; left). clear -HxX. unfold outside.
    induction D as [|d D IH]; cbn; [done|]. destruct (String.string_dec d x) as [->|Hne].
    - rewrite bool_decide_eq_true_2 by set_solver. rewrite bool_decide_eq_false_2 by done. cbn. lia.
    - assert (bool_decide (d ∈ {[x]} ∪ X) = bool_decide (d ∈ X)) as ->.
      { apply bool_decide_ext. set_solver. }
      destruct (negb _); cbn; lia. }
  rewrite <- Hone, <- (IH ({[x]} ∪ X)) by set_solver.
  replace (X ∪ ({[x]} ∪ list_to_set l)) with ({[x]} ∪ X ∪ list_to_set l : gset string) by set_solver.
  unfold list_sum. lia.
Qed.

Lemma outside_zero X D : outside X D = 0 ↔ ∀ d, d ∈ D → d ∈ X.
Proof.
  unfold outside. induction D as [|d D IH]; cbn; [set_solver|].
  case_bool_decide; cbn; [rewrite IH; set_solver|]. split; [done|]. set_solver.
Qed.

Section Waves.
Context (tasks : list TaskSpec) (Hnd : NoDup (ts_name <$> tasks)).

Record wave_inv (done : gset string) (rem : gmap string nat) (ready : list string) : Prop := {
  wi_closed : ∀ n d, n ∈ done → depends tasks n d → d ∈ done;
  wi_rem : ∀ n, rem !! n = if bool_decide (n ∈ ts_name <$> tasks)
                           then Some (outside done (deps_of tasks n)) else None;
  wi_nodup : NoDup ready;
  wi_sorted : StronglySorted String.le ready;
  wi_ready : ∀ n, n ∈ ready ↔ named tasks n ∧ (n ∉ done) ∧ ∀ d, depends tasks n d → d ∈ done
}.

Lemma named_fmap n : named tasks n ↔ n ∈ ts_name <$> tasks.
Proof. unfold named. rewrite list_elem_of_fmap. naive_solver. Qed.

Lemma sort_names_sorted l : StronglySorted String.le (sort_by String.leb l).
Proof. apply sort_by_sorted; apply _. Qed.

Lemma children_cnt ready x :
  cnt (flat_map (fun t => default [] (dependents (build_graph tasks) !! t)) ready) x =
  list_sum (map (fun t => cnt (deps_of tasks x) t) ready).
Proof.
  induction ready as [|t ready IH]; [done|].
  cbn [flat_map map]. change (list_sum (?a :: ?l)) with (a + list_sum l).
  by rewrite count_occ_app, dependents_cnt, IH.
Qed.

Lemma children_elem ready x :
  x ∈ flat_map (fun t => default [] (dependents (build_graph tasks) !! t)) ready ↔
  ∃ t, t ∈ ready ∧ depends tasks x t.
Proof.
  rewrite list_elem_of_In, in_flat_map. setoid_rewrite <- list_elem_of_In.
  by setoid_rewrite dependents_elem.
Qed.

(** One round: the wave is done, and the next wave is what it makes ready. *)
Lemma wave_step done rem ready : wave_inv done rem ready →
  let acc := foldl (release_task (dependents (build_graph tasks))) (rem, []) ready in
  wave_inv (done ∪ list_to_set ready) acc.1 (sort_by String.leb acc.2).
Proof.
  intros [Hclosed Hrem Hrnd _ Hready]. rewrite release_tasks.
  set (cs := flat_map _ ready).
  assert (∀ x, outside (done ∪ list_to_set ready) (deps_of tasks x) + cnt cs x =
    outside done (deps_of tasks x)) as Hout.
  { intros x. unfold cs. rewrite children_cnt. apply outside_union; [done|]. by intros y (_ & ? & _)%Hready. }
  assert (∀ x, x ∈ cs ↔ ∃ t, t ∈ ready ∧ depends tasks x t) as Hcs by apply children_elem.
  assert (∀ x, x ∈ cs → rem !! x = Some (outside done (deps_of tasks x))) as Hsome.
  { intros x (t & _ & Hd)%Hcs. rewrite Hrem, bool_decide_eq_true_2; [done|].
    apply named_fmap. by eapply depends_named. }
  destruct (release_children cs rem []) as (H1 & new & H2 & Hnew & Hin).
  { intros x Hx. eexists. split; [by apply Hsome|]. rewrite <- Hout. lia. }
  cbv zeta. rewrite app_nil_l in H2. rewrite H2. split.
  - intros n d Hn Hd. apply elem_of_union in Hn as [Hn|Hn%elem_of_list_to_set].
    + apply elem_of_union_l. by eapply Hclosed.
    + apply elem_of_union_l. by apply (Hready n).
  - intros n. rewrite H1, Hrem. case_bool_decide; [|done]. cbn. f_equal. rewrite <- Hout. lia.
  - by apply sort_by_NoDup.
  - apply sort_names_sorted.
  - intros n. rewrite sort_by_elem, Hin. split.
    + intros [Hn Ho]. rewrite (Hsome n Hn) in Ho. injection Ho as Ho.
      apply Hcs in Hn as (t & Ht & Hd). pose proof (proj1 (Hready t) Ht) as (_ & Htd & _).
      split; [by eapply depends_named|]. split.
      * rewrite elem_of_union, elem_of_list_to_set, (Hready n). intros [Hn|(_ & _ & Hn)]; apply Htd.
        -- by eapply Hclosed.
        -- by apply Hn.
      * setoid_rewrite <- deps_of_elem. apply outside_zero. rewrite <- Hout in Ho. lia.
    + intros (Hn & Hfresh & Hd).
      assert (n ∉ done) as Hnot by (intros ?; apply Hfresh; by apply elem_of_union_l).
      assert (n ∈ cs) as Hc.
      { apply Hcs. destruct (decide (Forall (fun d => d ∈ done) (deps_of tasks n))) as [Hall|Hno].
        - destruct Hfresh. apply elem_of_union_r, elem_of_list_to_set, Hready.
          rewrite Forall_forall in Hall. split_and!; [done..|].
          intros d Hdep%deps_of_elem. by apply Hall.
        - apply not_Forall_Exists, Exists_exists in Hno as (d & Hdep%deps_of_elem & Hdone); [|apply _].
          exists d. split; [|done]. specialize (Hd d Hdep).
          by apply elem_of_union in Hd as [?|?%elem_of_list_to_set]. }
      split; [done|]. rewrite (Hsome n Hc). f_equal. rewrite <- Hout.
      assert (outside (done ∪ list_to_set ready) (deps_of tasks n) = 0) as ->; [|done].
      apply outside_zero. intros d. rewrite deps_of_elem. apply Hd.
Qed.

Lemma first_wave : wave_inv ∅ (in_degree (build_graph tasks)) (first_ready (in_degree (build_graph tasks))).
Proof.
  assert (∀ D, outside ∅ D = length D) as Ho.
  { intros D. unfold outside. induction D; cbn; [done|]. by rewrite bool_decide_eq_false_2 by set_solver; cbn; f_equal. }
  split.
  - set_solver.
  - intros n. rewrite in_degree_lookup, Ho by done. done.
  - unfold first_ready. apply sort_by_NoDup. 
    pose proof (bt_keys_NoDup (in_degree (build_graph tasks))) as Hk. unfold bt_keys in Hk.
    revert Hk. generalize (bt_iter (in_degree (build_graph tasks))). clear.
    intros l. induction l as [|[k v] l IH]; cbn; intros Hk; [constructor|].
    apply NoDup_cons in Hk as [Hk1 Hk]. destruct (v =? 0); cbn; [|by apply IH].
    constructor; [|by apply IH]. intros (y & -> & Hy)%list_elem_of_fmap. apply Hk1.
    apply list_elem_of_fmap_2. apply list_elem_of_In in Hy. apply filter_In in Hy as [Hy _].
    by apply list_elem_of_In.
  - apply sort_names_sorted.
  - intros n. unfold first_ready. rewrite sort_by_elem, list_elem_of_fmap. rewrite named_fmap.
    transitivity (in_degree (build_graph tasks) !! n = Some 0).
    + split.
      * intros ([k v] & -> & Hk%list_elem_of_In). apply filter_In in Hk as [Hk Hv]. cbn in *.
        apply Nat.eqb_eq in Hv as ->. apply bt_iter_elem. by apply list_elem_of_In.
      * intros Hn. exists (n, 0). split; [done|]. apply list_elem_of_In, filter_In.
        split; [|done]. by apply list_elem_of_In, bt_iter_elem.
    + rewrite in_degree_lookup by done. case_bool_decide as Hn; [|naive_solver].
      setoid_rewrite <- deps_of_elem. destruct (deps_of tasks n); set_solver.
Qed.

Context (l : list string) (Htopo : topo_order tasks = Ok l).

(** Nothing ready means nothing left. *)
Lemma wave_done done rem : wave_inv done rem [] → ∀ n, named tasks n → n ∈ done.
Proof.
  intros [_ _ _ _ Hready]. destruct (topo_order_spec tasks l Htopo) as (Hl & Hall & Hprec).
  assert (∀ i n, l !! i = Some n → n ∈ done) as Hi.
  { intros i. induction (lt_wf i) as [i _ IH]. intros n Hn. apply dec_stable. intros Hno.
    assert (n ∈ []) as []%elem_of_nil. apply Hready. split_and!; [|done|].
    - apply Hall. by eapply list_elem_of_lookup_2.
    - intros d Hd. destruct (Hprec n d Hd) as (a & b & Hab & Ha & Hb).
      rewrite (NoDup_lookup _ _ _ _ Hl Hn Hb) in IH. by eapply IH. }
  intros n [i Hn]%Hall%list_elem_of_lookup. by eapply Hi.
Qed.

Lemma waves_layered fuel done rem ready idx : wave_inv done rem ready →
  size (list_to_set (ts_name <$> tasks) ∖ done : gset string) < fuel →
  layered tasks done (stage_tasks <$> waves fuel (dependents (build_graph tasks)) rem ready idx) ∧
  ∀ j st, waves fuel (dependents (build_graph tasks)) rem ready idx !! j = Some st →
          stage_index st = idx + j.
Proof.
  revert done rem ready idx. induction fuel as [|fuel IH]; intros done rem ready idx Hinv Hf; [lia|].
  cbn [waves]. destruct ready as [|r ready'].
  { split; [|by intros j st Hj; rewrite lookup_nil in Hj]. constructor. by eapply wave_done. }
  set (ready := r :: ready') in *.
  pose proof (wave_step _ _ _ Hinv) as Hnext. cbv zeta in Hnext.
  destruct Hinv as [_ _ Hrnd Hrs Hready].
  edestruct (IH _ _ _ (S idx) Hnext) as [Hlay Hidx].
  { eapply Nat.lt_le_trans; [|apply Nat.lt_succ_r, Hf]. apply subset_size.
    split; [set_solver|]. intros Hsub.
    assert (r ∈ ready) as Hr by by left. pose proof (proj1 (Hready r) Hr) as (Hn & Hd & _).
    apply named_fmap in Hn. assert (r ∈ (list_to_set (ts_name <$> tasks) ∖ done : gset string)) as Hin.
    { apply elem_of_difference. by rewrite elem_of_list_to_set. }
    apply Hsub, elem_of_difference in Hin as [_ Hin]. apply Hin.
    by apply elem_of_union_r, elem_of_list_to_set. }
  split.
  - cbn [fmap list_fmap]. by constructor.
  - intros [|j] st Hj; cbn in Hj; [injection Hj as <-; cbn; lia|].
    rewrite (Hidx j st Hj). lia.
Qed.

Lemma stages_layered : layered tasks ∅ (stage_tasks <$> compute_stages tasks) ∧
  ∀ j st, compute_stages tasks !! j = Some st → stage_index st = j.
Proof.
  apply waves_layered; [apply first_wave|].
  rewrite difference_empty_L, size_list_to_set, length_fmap by done. lia.
Qed.
End Waves.
