(* ===== verification/DryRunPath.v ===== *)
(** * The dry-run report is right

    On a definition the graph check accepts, the waves are the depth classes of
    the graph, the critical path is a longest dependency chain, and a warning is
    raised exactly for a placeholder that does not point upstream. *)
From S2P Require Import Prelude RustStrings Text Errors Json RetryPolicy Workflow Dag DryRun.

(** ** Layers *)

Section Layers.
Context (tasks : list TaskSpec).

Lemma layered_elem done ls n : layered tasks done ls →
  n ∈ concat ls ↔ named tasks n ∧ n ∉ done.
Proof.
  induction 1 as [done Hall|done ready rest _ _ _ Hready _ IH]; cbn [concat].
  { rewrite elem_of_nil. naive_solver. }
  rewrite elem_of_app, IH, elem_of_union, elem_of_list_to_set, (Hready n).
  destruct (decide (n ∈ ready)) as [Hr|Hr]; pose proof Hr as Hr'; rewrite Hready in Hr'; naive_solver.
Qed.

Lemma layered_NoDup done ls : layered tasks done ls → NoDup (concat ls).
Proof.
  induction 1 as [|done ready rest _ Hnd _ Hready Hl IH]; [constructor|].
  cbn [concat]. apply NoDup_app. split_and!; [done| |done].
  intros n Hn [_ Hno]%(layered_elem _ _ n Hl). apply Hno. by apply elem_of_union_r, elem_of_list_to_set.
Qed.

Lemma layered_nonempty done ls : layered tasks done ls → length ls ≤ length (concat ls).
Proof.
  induction 1 as [|done ready rest Hne _ _ _ _ IH]; cbn [concat length]; [lia|].
  rewrite length_app. destruct ready; [done|]. cbn. lia.
Qed.

Lemma layered_level_ne done ls j lv : layered tasks done ls → ls !! j = Some lv → lv ≠ [].
Proof.
  intros Hl. revert j. induction Hl as [|done ready rest Hne _ _ _ _ IH]; intros j Hj; [done|].
  destruct j as [|j]; cbn in Hj; [by simplify_eq|by eapply IH].
Qed.

(** In wave order, what a task depends on comes before it. *)
Lemma layered_before done ls P1 a P2 d : layered tasks done ls → concat ls = P1 ++ a :: P2 →
  depends tasks a d → d ∈ done ∨ d ∈ P1.
Proof.
  intros Hl. revert P1. induction Hl as [|done ready rest _ _ _ Hready _ IH]; intros P1 E Hd.
  { by destruct P1. }
  cbn [concat] in E. apply app_eq_app in E as (l & [[-> E]|[-> E]]).
  - destruct l as [|b l].
    + rewrite app_nil_r in *. destruct (IH [] (eq_sym E) Hd) as [Hin|[]%elem_of_nil].
      rewrite elem_of_union, elem_of_list_to_set in Hin. done.
    + injection E as <- _. left. assert (a ∈ P1 ++ a :: l) as Ha by (rewrite elem_of_app; right; left).
      apply Hready in Ha as (_ & _ & Ha). by apply Ha.
  - rewrite elem_of_app. destruct (IH _ E Hd) as [Hin|Hin]; [|naive_solver].
    rewrite elem_of_union, elem_of_list_to_set in Hin. naive_solver.
Qed.

Lemma layered_lower done ls j n d : layered tasks done ls → n ∈ ls !!! j → depends tasks n d →
  d ∈ done ∨ ∃ i, i < j ∧ d ∈ ls !!! i.
Proof.
  intros Hl. revert j. induction Hl as [|done ready rest _ _ _ Hready _ IH]; intros j Hn Hd.
  { by apply elem_of_nil in Hn. }
  destruct j as [|j]; cbn in Hn; [left; by apply (Hready n)|].
  destruct (IH j Hn Hd) as [Hin|(i & Hi & Hin)]; [|right; exists (S i); split; [lia|done]].
  apply elem_of_union in Hin as [|Hin%elem_of_list_to_set]; [by left|].
  right. exists 0. split; [lia|done].
Qed.

(** A task waits for the wave right before its own. *)
Lemma layered_pred done ls j n : layered tasks done ls → n ∈ ls !!! S j →
  ∃ d, depends tasks n d ∧ d ∈ ls !!! j.
Proof.
  intros Hl. revert j. induction Hl as [|done ready rest _ _ _ Hready Hl IH]; intros j Hn.
  { by apply elem_of_nil in Hn. }
  destruct j as [|j]; [|by apply IH]. change (n ∈ rest !!! 0) in Hn. clear IH.
  inversion Hl as [|done' ready' rest' _ _ _ Hready' _]; subst; [by apply elem_of_nil in Hn|].
  change (n ∈ ready') in Hn. change (∃ d, depends tasks n d ∧ d ∈ ready).
  apply Hready' in Hn as (Hn & Hfresh & Hd). rewrite elem_of_union, elem_of_list_to_set in Hfresh.
  destruct (decide (Forall (fun d => d ∈ done) (deps_of tasks n))) as [Hall|Hno].
  - rewrite Forall_forall in Hall. destruct Hfresh.
    destruct (decide (n ∈ done)); [by left|right]. apply Hready. split_and!; [done..|].
    intros d Hdep%deps_of_elem. by apply Hall.
  - apply not_Forall_Exists, Exists_exists in Hno as (d & Hdep%deps_of_elem & Hdone); [|apply _].
    exists d. split; [done|]. specialize (Hd d Hdep).
    by apply elem_of_union in Hd as [?|?%elem_of_list_to_set].
Qed.
End Layers.

Lemma concat_unique {A} (ls : list (list A)) i j n : NoDup (concat ls) →
  n ∈ ls !!! i → n ∈ ls !!! j → i = j.
Proof.
  assert (∀ (rest : list (list A)) k, n ∈ rest !!! k → n ∈ concat rest) as Hin.
  { intros rest. induction rest as [|x rest IH]; intros k Hk; [by apply elem_of_nil in Hk|].
    cbn [concat]. apply elem_of_app. destruct k; [by left|right; by eapply IH]. }
  revert i j. induction ls as [|x ls IH]; intros i j Hnd Hi Hj; [by apply elem_of_nil in Hi|].
  cbn [concat] in Hnd. apply NoDup_app in Hnd as (_ & Hdis & Hnd).
  destruct i as [|i], j as [|j]; [done| | |f_equal; by apply IH].
  - destruct (Hdis n Hi). by eapply (Hin ls j).
  - destruct (Hdis n Hj). by eapply (Hin ls i).
Qed.

(** ** The critical path *)

Section Critical.
Context (tasks : list TaskSpec) (Hnd : NoDup (ts_name <$> tasks)).
Context (order : list string) (Htopo : topo_order tasks = Ok order).

Let ls : list (list string) := stage_tasks <$> compute_stages tasks.

(** The wave a task is in. *)
Definition stage_of (n : string) : nat :=
  match list_find (fun lv => n ∈ lv) ls with Some (i, _) => i | None => 0 end.

Lemma ls_layered : layered tasks ∅ ls.
Proof. by eapply stages_layered. Qed.

Lemma ls_concat n : n ∈ concat ls ↔ named tasks n.
Proof. rewrite (layered_elem tasks ∅ ls n ls_layered). set_solver. Qed.

Lemma stage_of_elem n : named tasks n → n ∈ ls !!! stage_of n.
Proof.
  intros Hn%ls_concat. unfold stage_of. destruct (list_find _ ls) as [[i lv]|] eqn:E.
  - apply list_find_Some in E as (Hi & Hlv & _). by rewrite (list_lookup_total_correct _ _ _ Hi).
  - apply list_find_None in E. rewrite Forall_forall in E.
    apply list_elem_of_In, in_concat in Hn as (lv & Hlv & Hn).
    destruct (E lv); by apply list_elem_of_In.
Qed.

Lemma elem_stage_of n j : n ∈ ls !!! j → named tasks n ∧ stage_of n = j.
Proof.
  intros Hj. assert (named tasks n) as Hn.
  { apply ls_concat. apply list_elem_of_In, in_concat. exists (ls !!! j).
    split; [|by apply list_elem_of_In]. apply list_elem_of_In.
    destruct (ls !! j) as [lv|] eqn:E.
    - rewrite (list_lookup_total_correct _ _ _ E). by eapply list_elem_of_lookup_2.
    - rewrite list_lookup_total_alt, E in Hj. by apply elem_of_nil in Hj. }
  split; [done|]. eapply concat_unique, Hj; [|by apply stage_of_elem].
  eapply layered_NoDup, ls_layered.
Qed.

Lemma dep_named n d : depends tasks n d → named tasks d.
Proof.
  destruct (topo_order_spec tasks order Htopo) as (_ & Hall & Hprec). intros Hd.
  apply Hall. destruct (Hprec n d Hd) as (i & j & _ & Hi & _). by eapply list_elem_of_lookup_2.
Qed.

Lemma stage_lt n d : depends tasks n d → stage_of d < stage_of n.
Proof.
  intros Hd. pose proof (depends_named _ _ _ Hd) as Hn.
  destruct (layered_lower tasks ∅ ls (stage_of n) n d ls_layered) as [[]%elem_of_empty|(i & Hi & Hin)];
    [by apply stage_of_elem|done|]. apply elem_stage_of in Hin as [_ ->]. done.
Qed.

Lemma stage_pred n k : named tasks n → stage_of n = S k → ∃ d, depends tasks n d ∧ stage_of d = k.
Proof.
  intros Hn Hk. destruct (layered_pred tasks ∅ ls k n ls_layered) as (d & Hd & Hin).
  - rewrite <- Hk. by apply stage_of_elem.
  - exists d. split; [done|]. by apply elem_stage_of in Hin as [_ ?].
Qed.

Lemma stage_bound n : named tasks n → stage_of n < length ls.
Proof.
  intros Hn%stage_of_elem. apply Nat.nle_gt. intros Hle.
  rewrite list_lookup_total_alt, lookup_ge_None_2 in Hn by done. by apply elem_of_nil in Hn.
Qed.

(** Distances and predecessors after the edges of [R] (from a task to what it
    depends on) were relaxed. *)
Record entry_ok (R : string → string → Prop) (n : string) (k : nat) (p : option string) : Prop := {
  eo_pos : 1 ≤ k;
  eo_low : ∀ d, R n d → depends tasks n d → stage_of d + 2 ≤ k;
  eo_prev : match p with
            | None => k = 1
            | Some d => depends tasks n d ∧ k = stage_of d + 2
            end
}.

Definition path_inv (R : string → string → Prop) (st : Paths) : Prop :=
  (∀ n, is_Some (st.1 !! n) ↔ named tasks n) ∧
  (∀ n, is_Some (st.2 !! n) ↔ named tasks n) ∧
  ∀ n k p, st.1 !! n = Some k → st.2 !! n = Some p → entry_ok R n k p.

Lemma path_inv_weaken (R R' : string → string → Prop) st :
  (∀ n d, depends tasks n d → R' n d → R n d) → path_inv R st → path_inv R' st.
Proof.
  intros HR (H1 & H2 & H3). split_and!; [done..|]. intros n k p Hk Hp.
  destruct (H3 n k p Hk Hp) as [? Hlow ?]. split; [done| |done]. auto.
Qed.

(** Once the edges of a task are relaxed, its distance is its depth. *)
Lemma entry_settled R n k p : named tasks n → (∀ d, depends tasks n d → R n d) →
  entry_ok R n k p → k = stage_of n + 1.
Proof.
  intros Hn HR [Hpos Hlow Hprev]. destruct (stage_of n) as [|j] eqn:Hj.
  - destruct p as [d|]; [|done]. destruct Hprev as [Hd _]. apply stage_lt in Hd. lia.
  - destruct (stage_pred n j Hn Hj) as (d & Hd & Hs). pose proof (Hlow d (HR d Hd) Hd).
    destruct p as [e|]; [|lia]. destruct Hprev as [He ->]. apply stage_lt in He. lia.
Qed.

Lemma relax_child_inv R a c st : depends tasks c a → path_inv R st →
  ∃ st', relax_child a (stage_of a + 1) (Some st) c = Some st' ∧
         path_inv (fun n d => R n d ∨ (n = c ∧ d = a)) st'.
Proof.
  intros Hd (H1 & H2 & H3). destruct st as [dist prev]. cbn [fst snd] in *.
  pose proof (depends_named _ _ _ Hd) as Hc.
  destruct (proj2 (H1 c) Hc) as [k Hk]. destruct (proj2 (H2 c) Hc) as [p Hp].
  unfold relax_child. rewrite Hk. destruct (Nat.ltb_spec k (stage_of a + 1 + 1)) as [Hlt|Hge].
  - eexists. split; [done|]. split_and!; cbn [fst snd].
    1,2: intros n; rewrite lookup_insert_is_Some; destruct (decide (c = n)); naive_solver.
    intros n k' p' Hk' Hp'. destruct (decide (c = n)) as [<-|Hne].
    + rewrite lookup_insert_eq in Hk'. rewrite lookup_insert_eq in Hp'. simplify_eq. destruct (H3 c k p Hk Hp) as [? Hlow ?].
      split; [lia| |split; [done|lia]]. intros d [HR|[_ ->]] Hdep; [|lia].
      specialize (Hlow d HR Hdep). lia.
    + rewrite lookup_insert_ne in Hk' by done. rewrite lookup_insert_ne in Hp' by done. destruct (H3 n k' p' Hk' Hp') as [? Hlow ?].
      split; [done| |done]. intros d [HR|[-> _]]; [by apply Hlow|done].
  - eexists. split; [done|]. split_and!; [done..|]. cbn [fst snd]. intros n k' p' Hk' Hp'.
    destruct (H3 n k' p' Hk' Hp') as [? Hlow ?]. split; [done| |done].
    intros d [HR|[-> ->]] Hdep; [by apply Hlow|]. simplify_eq. lia.
Qed.

Lemma relax_children_inv R a cs st : (∀ c, c ∈ cs → depends tasks c a) → path_inv R st →
  ∃ st', foldl (relax_child a (stage_of a + 1)) (Some st) cs = Some st' ∧
         path_inv (fun n d => R n d ∨ (n ∈ cs ∧ d = a)) st'.
Proof.
  revert R st. induction cs as [|c cs IH]; intros R st Hcs Hinv; cbn [foldl].
  { exists st. split; [done|]. eapply path_inv_weaken, Hinv. intros n d _ [?|[[]%elem_of_nil _]]; done. }
  destruct (relax_child_inv R a c st) as (st1 & -> & Hinv1); [apply Hcs; by left|done|].
  destruct (IH _ st1 (fun c' H => Hcs c' (list_elem_of_further _ _ _ H)) Hinv1) as (st2 & -> & Hinv2).
  exists st2. split; [done|]. eapply path_inv_weaken, Hinv2. cbn.
  intros n d _ [?|[[->|?]%elem_of_cons ->]]; auto.
Qed.

Lemma relax_task_inv R a st : named tasks a → (∀ d, depends tasks a d → R a d) → path_inv R st →
  ∃ st', relax_task (dependents (build_graph tasks)) (Some st) a = Some st' ∧
         path_inv (fun n d => R n d ∨ d = a) st'.
Proof.
  intros Ha HR Hinv. destruct st as [dist prev]. cbn [relax_task].
  pose proof Hinv as (H1 & H2 & H3). cbn [fst snd] in *.
  destruct (proj2 (H1 a) Ha) as [k Hk]. destruct (proj2 (H2 a) Ha) as [p Hp].
  rewrite Hk. cbn [from_option id].
  rewrite (entry_settled R a k p Ha HR (H3 a k p Hk Hp)).
  pose proof (fun n => dependents_elem tasks a n) as Hch.
  destruct (dependents (build_graph tasks) !! a) as [cs|]; cbn [from_option id] in Hch.
  - destruct (relax_children_inv R a cs (dist, prev)) as (st' & E & Hinv');
      [by intros c ?%Hch|done|]. exists st'. split; [exact E|].
    eapply path_inv_weaken, Hinv'. cbn. intros n d Hd [?|[= ->]]; [by left|right; by rewrite Hch].
  - eexists. split; [done|]. eapply path_inv_weaken, Hinv. intros n d Hd [?|[= ->]]; [done|].
    by apply Hch, elem_of_nil in Hd.
Qed.

Lemma relax_tasks_inv P1 P2 st : concat ls = P1 ++ P2 → path_inv (fun _ d => d ∈ P1) st →
  ∃ st', foldl (relax_task (dependents (build_graph tasks))) (Some st) P2 = Some st' ∧
         path_inv (fun _ d => d ∈ P1 ++ P2) st'.
Proof.
  revert P1 st. induction P2 as [|a P2 IH]; intros P1 st E Hinv; cbn [foldl].
  { exists st. by rewrite app_nil_r. }
  assert (named tasks a) as Ha by (apply ls_concat; rewrite E, elem_of_app; right; left).
  destruct (relax_task_inv (fun _ d => d ∈ P1) a st Ha) as (st1 & -> & Hinv1); [|done|].
  { intros d Hd. by destruct (layered_before tasks ∅ ls P1 a P2 d ls_layered E Hd) as [[]%elem_of_empty|]. }
  rewrite (cons_middle a P1 P2), app_assoc in E |- *.
  apply IH; [done|]. eapply path_inv_weaken, Hinv1.
  intros n d _ [?|?%list_elem_of_singleton]%elem_of_app; auto.
Qed.

Lemma initial_paths_inv : path_inv (fun _ _ => False) (initial_paths tasks).
Proof.
  assert (∀ ts (st : Paths), (∀ n k, st.1 !! n = Some k → k = 1) → (∀ n p, st.2 !! n = Some p → p = None) →
    let st' := foldl (fun st task => (<[ts_name task := 1]> st.1, <[ts_name task := None]> st.2)) st ts in
    (∀ n, is_Some (st'.1 !! n) ↔ is_Some (st.1 !! n) ∨ n ∈ ts_name <$> ts) ∧
    (∀ n, is_Some (st'.2 !! n) ↔ is_Some (st.2 !! n) ∨ n ∈ ts_name <$> ts) ∧
    (∀ n k, st'.1 !! n = Some k → k = 1) ∧
    (∀ n (p : option string), st'.2 !! n = Some p → p = None)) as Hfold.
  { intros ts. induction ts as [|t ts IH]; intros st Hst1 Hst2; cbn [foldl fmap list_fmap].
    - split_and!; [set_solver..|done|done].
    - destruct (IH (<[ts_name t := 1]> st.1, <[ts_name t := None]> st.2)) as (I1 & I2 & I3 & I4); cbn [fst snd].
      + intros n k. destruct (decide (ts_name t = n)) as [<-|];
          [rewrite lookup_insert_eq; by intros [= <-]|rewrite lookup_insert_ne by done; apply Hst1].
      + intros n k. destruct (decide (ts_name t = n)) as [<-|];
          [rewrite lookup_insert_eq; by intros [= <-]|rewrite lookup_insert_ne by done; apply Hst2].
      + split_and!; [..|exact I3|exact I4]; intros n; rewrite ?I1, ?I2; cbn [fst snd];
          rewrite lookup_insert_is_Some, elem_of_cons; destruct (decide (ts_name t = n)); naive_solver. }
  destruct (Hfold tasks (∅, ∅)) as (I1 & I2 & I3 & I4); [intros ? ? E; cbn in E; by rewrite lookup_empty in E..|].
  cbn [fst snd] in I1, I2. split_and!.
  - intros n. unfold initial_paths. rewrite I1, lookup_empty, named_fmap. split; [|by right].
    intros [[? ?]|?]; done.
  - intros n. unfold initial_paths. rewrite I2, lookup_empty, named_fmap. split; [|by right].
    intros [[? ?]|?]; done.
  - intros n k p ->%I3 ->%I4. by split.
Qed.

Lemma foldl_stages {A} (f : A → string → A) st stages :
  foldl (fun st stage => foldl f st (stage_tasks stage)) st stages =
  foldl f st (concat (stage_tasks <$> stages)).
Proof.
  revert st. induction stages as [|s stages IH]; intros st; cbn; [done|].
  by rewrite foldl_app, IH.
Qed.

(** The relaxation never meets an unknown name, and leaves each task at its
    depth with a predecessor one wave below. *)
Lemma relax_all_settled : ∃ st, relax_all tasks (compute_stages tasks) = Some st ∧
  (∀ n k, st.1 !! n = Some k ↔ named tasks n ∧ k = stage_of n + 1) ∧
  (∀ n, is_Some (st.2 !! n) ↔ named tasks n) ∧
  ∀ n p, st.2 !! n = Some p →
    match p with None => stage_of n = 0 | Some d => depends tasks n d ∧ stage_of n = S (stage_of d) end.
Proof.
  unfold relax_all. rewrite foldl_stages. fold ls.
  destruct (relax_tasks_inv [] (concat ls) (initial_paths tasks)) as (st & -> & H1 & H2 & H3).
  { done. }
  { eapply path_inv_weaken, initial_paths_inv. by intros n d _ ?%elem_of_nil. }
  exists st. split; [done|].
  assert (∀ n k p, st.1 !! n = Some k → st.2 !! n = Some p → k = stage_of n + 1) as Hset.
  { intros n k p Hk Hp. eapply entry_settled, H3; [|eauto..| done|done].
    - apply H1. by rewrite Hk.
    - cbn. intros d Hd. by apply ls_concat, (dep_named n). }
  assert (∀ n, named tasks n → ∃ k p, st.1 !! n = Some k ∧ st.2 !! n = Some p) as Hboth.
  { intros n Hn. destruct (proj2 (H1 n) Hn) as [k ?], (proj2 (H2 n) Hn) as [p ?]. eauto. }
  split_and!; [|done|].
  - intros n k. split.
    + intros Hk. assert (named tasks n) as Hn by (apply H1; by rewrite Hk). split; [done|].
      destruct (Hboth n Hn) as (k' & p & Hk' & Hp). simplify_eq. by eapply Hset.
    + intros [Hn ->]. destruct (Hboth n Hn) as (k' & p & Hk' & Hp). by rewrite <- (Hset n k' p).
  - intros n p Hp. assert (named tasks n) as Hn by (apply H2; by rewrite Hp).
    destruct (Hboth n Hn) as (k & p' & Hk & Hp'). simplify_eq.
    pose proof (Hset n k p Hk Hp). destruct (H3 n k p Hk Hp) as [_ _ Hprev].
    destruct p as [d|]; [|lia]. destruct Hprev as [? ?]. split; [done|lia].
Qed.

Lemma best_spec (l : list (string * nat)) (b : string * nat) :
  let r := foldl (fun best kv => if best.2 <? kv.2 then kv else best) b l in
  b.2 ≤ r.2 ∧ (r = b ∨ r ∈ l) ∧ ∀ kv, kv ∈ l → kv.2 ≤ r.2.
Proof.
  revert b. induction l as [|x l IH]; intros b; cbn [foldl].
  { split_and!; [done|by left|]. by intros ? ?%elem_of_nil. }
  destruct (IH (if b.2 <? x.2 then x else b)) as (Hb & Hr & Hl). cbv zeta in *.
  set (r := foldl _ _ l) in *. destruct (Nat.ltb_spec b.2 x.2); split_and!; try lia.
  - right. destruct Hr as [->|]; [left|by right].
  - intros kv [->|Hkv]%elem_of_cons; [lia|by apply Hl].
  - destruct Hr as [->|]; [by left|right; by right].
  - intros kv [->|Hkv]%elem_of_cons; [lia|by apply Hl].
Qed.

(** The path starts from a task of the last wave. *)
Lemma find_end_spec (st : Paths) : tasks ≠ [] →
  (∀ n k, st.1 !! n = Some k ↔ named tasks n ∧ k = stage_of n + 1) →
  named tasks (find_end tasks st.1) ∧ S (stage_of (find_end tasks st.1)) = length ls.
Proof.
  intros Hne Hdist. unfold find_end.
  match goal with |- context [foldl ?f ?b ?l] => destruct (best_spec l b) as (Hb & Hr & Hl) end.
  cbv zeta in *. set (r := foldl _ _ (bt_iter st.1)) in *.
  assert (∀ n, named tasks n → stage_of n + 1 ≤ r.2) as Hmax.
  { intros n Hn. apply (Hl (n, stage_of n + 1)). apply bt_iter_elem, Hdist. done. }
  assert (named tasks r.1 ∧ r.2 = stage_of r.1 + 1) as [Hn Hr2].
  { destruct Hr as [E|Hr].
    - assert (∃ n, named tasks n) as [n Hn].
      { clear -Hne. destruct tasks as [|t ts]; [done|]. exists (ts_name t), t. by split; [left|]. }
      specialize (Hmax _ Hn). rewrite E in Hmax. cbn in Hmax. lia.
    - destruct r as [n k]. by apply bt_iter_elem, Hdist in Hr. }
  split; [done|]. pose proof (stage_bound _ Hn) as Hbound.
  destruct (lookup_lt_is_Some_2 ls (length ls - 1)) as [lv Hlv]; [lia|].
  pose proof (layered_level_ne _ _ _ _ _ ls_layered Hlv) as Hlv_ne.
  destruct lv as [|m lv]; [done|].
  destruct (elem_stage_of m (length ls - 1)) as [Hm Hsm].
  { rewrite (list_lookup_total_correct _ _ _ Hlv). left. }
  specialize (Hmax m Hm). lia.
Qed.

Lemma chain_snoc (R : string → string → Prop) l y : chain R l →
  (∀ x, last l = Some x → R x y) → chain R (l ++ [y]).
Proof.
  intros Hl Hy i a b Ha Hb. destruct (decide (S i < length l)) as [Hlt|Hge].
  - rewrite lookup_app_l in Ha, Hb by lia. by apply (Hl i).
  - pose proof (lookup_lt_Some _ _ _ Hb) as Hlen. rewrite length_app in Hlen. cbn in Hlen.
    assert (length l = S i) as Hi by lia.
    rewrite lookup_app_r, Hi, Nat.sub_diag in Hb by lia. injection Hb as <-.
    rewrite lookup_app_l in Ha by lia. apply Hy. by rewrite last_lookup, Hi.
Qed.

Lemma trace_back_spec (st : Paths) fuel n :
  (∀ n, is_Some (st.2 !! n) ↔ named tasks n) →
  (∀ n p, st.2 !! n = Some p →
    match p with None => stage_of n = 0 | Some d => depends tasks n d ∧ stage_of n = S (stage_of d) end) →
  named tasks n → stage_of n < fuel →
  let t := rev (trace_back fuel st.2 n) in
  length t = S (stage_of n) ∧ last t = Some n ∧ chain (fun x y => depends tasks y x) t.
Proof.
  intros Hdom Hprev. revert n. induction fuel as [|fuel IH]; intros n Hn Hf; [lia|].
  cbn [trace_back]. destruct (proj2 (Hdom n) Hn) as [p Hp]. pose proof (Hprev n p Hp) as Hs.
  rewrite Hp. destruct p as [d|].
  - destruct Hs as [Hd Hs]. destruct (IH d) as (Hlen & Hlast & Hch); [by eapply dep_named|lia|].
    cbn [rev]. cbv zeta. rewrite length_app, Hlen, last_snoc. split_and!; [cbn; lia|done|].
    apply chain_snoc; [done|]. intros x. rewrite Hlast. by intros [= <-].
  - cbn. rewrite Hs. split_and!; [done..|]. intros [|i] x y Hx Hy; done.
Qed.

(** No dependency chain is longer than the number of waves. *)
Lemma chain_bound c : ls ≠ [] → chain (fun x y => depends tasks y x) c → length c ≤ length ls.
Proof.
  intros Hne Hc.
  assert (∀ i x, c !! i = Some x → 0 < i → named tasks x ∧ i ≤ stage_of x) as Hi.
  { intros i. induction i as [|i IH]; intros x Hx Hpos; [lia|].
    destruct (lookup_lt_is_Some_2 c i) as [y Hy]; [apply lookup_lt_Some in Hx; lia|].
    pose proof (Hc i y x Hy Hx) as Hd. cbn in Hd. pose proof (stage_lt _ _ Hd).
    split; [by eapply depends_named|]. destruct (decide (i = 0)); [subst; lia|].
    destruct (IH y Hy) as [_ ?]; lia. }
  destruct (decide (length c ≤ 1)).
  { assert (length ls ≠ 0) by (by intros ?%nil_length_inv). lia. }
  destruct (lookup_lt_is_Some_2 c (length c - 1)) as [x Hx]; [lia|].
  destruct (Hi _ x Hx) as [Hn Hle]; [lia|]. pose proof (stage_bound x Hn). lia.
Qed.

Lemma critical_path_spec : tasks ≠ [] → ∃ st,
  relax_all tasks (compute_stages tasks) = Some st ∧
  length (critical_path tasks st) = length ls ∧
  chain (fun x y => depends tasks y x) (critical_path tasks st) ∧
  ∀ c, chain (fun x y => depends tasks y x) c → length c ≤ length ls.
Proof.
  intros Hne. destruct relax_all_settled as (st & Hst & Hdist & Hdom & Hprev).
  exists st. split; [done|]. destruct (find_end_spec st Hne Hdist) as [Hend Hlast].
  assert (length ls ≤ size st.2) as Hsize.
  { rewrite <- size_dom. transitivity (size (list_to_set (concat ls) : gset string)).
    - rewrite size_list_to_set by (eapply layered_NoDup, ls_layered).
      eapply layered_nonempty, ls_layered.
    - apply subseteq_size. intros n Hn%elem_of_list_to_set%ls_concat. by apply elem_of_dom, Hdom. }
  destruct (trace_back_spec st (S (size st.2)) (find_end tasks st.1)) as (Hlen & _ & Hch);
    [done..|lia|].
  unfold critical_path. split_and!; [lia|done|].
  intros c. apply chain_bound. intros E. rewrite E in Hlast. done.
Qed.
End Critical.

(** ** Properties *)

(** Analysis of a definition whose task names are distinct, as the validator
    requires, and whose graph check succeeds. *)
Definition analysable (def : WorkflowDef) : Prop :=
  NoDup (ts_name <$> wd_tasks def) ∧ is_ok (topo_order (wd_tasks def)) = true.

Lemma simulate_ok def : analysable def → ∃ r, simulate_workflow def = Some (Ok r) ∧
  rp_stages r = compute_stages (wd_tasks def) ∧
  rp_max_parallelism r = max_width (compute_stages (wd_tasks def)) ∧
  (wd_tasks def ≠ [] → ∃ st, relax_all (wd_tasks def) (compute_stages (wd_tasks def)) = Some st ∧
    rp_critical_path r = critical_path (wd_tasks def) st).
Proof.
  intros [Hnd Hok]. unfold simulate_workflow.
  destruct (topo_order (wd_tasks def)) as [l|e] eqn:Ht; [|done].
  destruct (relax_all_settled (wd_tasks def) Hnd l Ht) as (st & -> & _).
  eexists. split; [done|]. cbn. split_and!; [done..|]. eauto.
Qed.

(** A workflow definition with the given tasks. *)
Definition planned (tasks : list TaskSpec) : WorkflowDef := {|
  wd_id := "wf_0"; wd_tenant := "acme"; wd_name := "etl"; wd_version := 1; wd_description := "";
  wd_tasks := tasks; wd_timeout_ms := wd_timeout_ms workflow_default;
  wd_retry := wd_retry workflow_default;
  wd_default_priority := wd_default_priority workflow_default;
  wd_hooks := wd_hooks workflow_default; wd_tags := ∅; wd_spec_version := 1;
  wd_created_at_ms := 0; wd_updated_at_ms := 0 |}.

Lemma diamond_analysable : analysable (planned diamond).
Proof. split; [|vm_compute; reflexivity]. apply (bool_decide_eq_true_1 _). vm_compute. reflexivity. Qed.

(** The dry run of an accepted definition succeeds without panicking, and its
    stages are the depth classes of the graph: every task is in exactly one,
    everything it depends on is in an earlier one, and each task past stage zero
    waits for something of the stage right before. *)
Theorem simulate_stages def : analysable def →
  ∃ r, simulate_workflow def = Some (Ok r) ∧
  NoDup (concat (stage_tasks <$> rp_stages r)) ∧
  (∀ n, n ∈ concat (stage_tasks <$> rp_stages r) ↔ named (wd_tasks def) n) ∧
  (∀ j st, rp_stages r !! j = Some st → stage_index st = j ∧ stage_tasks st ≠ [] ∧
    length (stage_tasks st) ≤ rp_max_parallelism r) ∧
  (∀ j n d, n ∈ level (rp_stages r) j → depends (wd_tasks def) n d →
    ∃ i, i < j ∧ d ∈ level (rp_stages r) i) ∧
  (∀ j n, n ∈ level (rp_stages r) (S j) →
    ∃ d, depends (wd_tasks def) n d ∧ d ∈ level (rp_stages r) j).
Proof.
  intros Ha. destruct (simulate_ok def Ha) as (r & Hr & Hst & Hw & _). exists r. rewrite Hst.
  destruct Ha as [Hnd Hok]. destruct (topo_order (wd_tasks def)) as [l|e] eqn:Ht; [|done].
  destruct (stages_layered (wd_tasks def) Hnd l Ht) as [Hl Hidx]. split_and!; [done|..].
  - by eapply layered_NoDup.
  - intros n. by apply (ls_concat (wd_tasks def) Hnd l Ht).
  - intros j st Hj. split_and!; [by apply Hidx| |].
    + eapply layered_level_ne; [done|]. by rewrite list_lookup_fmap, Hj.
    + rewrite Hw. clear -Hj. revert j Hj. induction (compute_stages (wd_tasks def)) as [|s ss IH];
        intros j Hj; [done|]. cbn [max_width foldr]. fold (max_width ss).
      destruct j as [|j]; cbn in Hj; [simplify_eq; lia|]. specialize (IH j Hj). lia.
  - intros j n d Hn Hd. by destruct (layered_lower _ _ _ j n d Hl Hn Hd) as [[]%elem_of_empty|].
  - intros j n Hn. by apply (layered_pred _ _ _ j n Hl).
Qed.

Lemma simulate_stages_witness : ∃ r, simulate_workflow (planned diamond) = Some (Ok r) ∧
  NoDup (concat (stage_tasks <$> rp_stages r)) ∧
  stage_tasks <$> rp_stages r = [["fetch"]; ["left"; "right"]; ["join"]].
Proof.
  destruct (simulate_stages (planned diamond) diamond_analysable) as (r & Hr & Hnd & _).
  exists r. split; [exact Hr|]. split; [exact Hnd|].
  assert (∀ r', simulate_workflow (planned diamond) = Some (Ok r') →
    stage_tasks <$> rp_stages r' = [["fetch"]; ["left"; "right"]; ["join"]]) as H.
  { intros r'. vm_compute. intros [= <-]. reflexivity. }
  exact (H r Hr).
Defined.

(** C23. The critical path is a dependency chain, one task per stage, and no
    dependency chain of the definition is longer. *)
Theorem simulate_critical_path def : analysable def → wd_tasks def ≠ [] →
  ∃ r, simulate_workflow def = Some (Ok r) ∧
  length (rp_critical_path r) = length (rp_stages r) ∧
  chain (fun x y => depends (wd_tasks def) y x) (rp_critical_path r) ∧
  ∀ c, chain (fun x y => depends (wd_tasks def) y x) c → length c ≤ length (rp_critical_path r).
Proof.
  intros Ha Hne. destruct (simulate_ok def Ha) as (r & Hr & Hst & _ & Hcp). exists r.
  destruct Ha as [Hnd Hok]. destruct (topo_order (wd_tasks def)) as [l|e] eqn:Ht; [|done].
  destruct (critical_path_spec (wd_tasks def) Hnd l Ht Hne) as (st & Hs & Hlen & Hch & Hmax).
  destruct (Hcp Hne) as (st' & Hs' & ->). simplify_eq. rewrite Hst, <- (length_fmap stage_tasks).
  split_and!; [done..|]. intros c Hc. rewrite Hlen. by apply Hmax.
Qed.

Lemma simulate_critical_path_witness : ∃ r, simulate_workflow (planned diamond) = Some (Ok r) ∧
  length (rp_critical_path r) = length (rp_stages r) ∧
  rp_critical_path r = ["fetch"; "left"; "join"].
Proof.
  destruct (simulate_critical_path (planned diamond) diamond_analysable) as (r & Hr & Hlen & _);
    [discriminate|].
  exists r. split; [exact Hr|]. split; [exact Hlen|].
  assert (∀ r', simulate_workflow (planned diamond) = Some (Ok r') →
    rp_critical_path r' = ["fetch"; "left"; "join"]) as H.
  { intros r'. vm_compute. intros [= <-]. reflexivity. }
  exact (H r Hr).
Defined.

(** One slow root and one that feeds two tasks. *)
Definition uneven : list TaskSpec :=
  [bare_task "slow" []; bare_task "split" []; bare_task "x" ["split"]; bare_task "y" ["split"]].

Lemma uneven_depends a b : tc (depends uneven) a b → b = "split".
Proof.
  assert (∀ a b, depends uneven a b → b = "split") as Hdep.
  { intros x y (t & Ht & _ & Hb). unfold uneven in Ht. rewrite !elem_of_cons, elem_of_nil in Ht.
    destruct Ht as [->|[->|[->|[->|[]]]]]; cbn [bare_task ts_depends_on] in Hb;
      solve [by apply elem_of_nil in Hb|by apply list_elem_of_singleton in Hb]. }
  induction 1; eauto.
Qed.

(** The reported maximal parallelism is the width of the widest stage, which
    is not the number of tasks that can run at once: here it is 2, although three
    tasks are pairwise independent. *)
Theorem parallelism_understated : ∃ r, simulate_workflow (planned uneven) = Some (Ok r) ∧
  rp_max_parallelism r = 2 ∧
  ∀ a b, a ∈ ["slow"; "x"; "y"] → b ∈ ["slow"; "x"; "y"] → ¬ tc (depends uneven) a b.
Proof.
  destruct (simulate_ok (planned uneven)) as (r & Hr & _ & Hw & _).
  { split; [|vm_compute; reflexivity]. apply (bool_decide_eq_true_1 _). vm_compute. reflexivity. }
  exists r. split; [exact Hr|]. split; [rewrite Hw; vm_compute; reflexivity|]. clear.
  intros a b _ Hb ->%uneven_depends.
  rewrite !elem_of_cons, elem_of_nil in Hb. by destruct Hb as [|[|[|]]].
Qed.
