(* ===== verification/DryRunRefs.v ===== *)
(** * Placeholder references of a dry run

    The depth-first search of [is_transitive_dependency] decides reachability
    in the task graph, so a definition is free of warnings exactly when every
    [tasks.*] placeholder points strictly upstream. *)
From S2P Require Import Prelude RustStrings Text Errors Json RetryPolicy Workflow Dag DryRun DryRunPath.

Section Reach.
Context (tm : gmap string TaskSpec) (target from : string).

Definition edge (n d : string) : Prop := ∃ t, tm !! n = Some t ∧ d ∈ ts_depends_on t.

Lemma edge_listed n d : edge n d → d ∈ listed tm.
Proof.
  intros (t & Ht & Hd). unfold listed. rewrite elem_of_list_to_set, list_elem_of_In, in_flat_map.
  exists (n, t). split; [by apply list_elem_of_In, elem_of_map_to_list|by apply list_elem_of_In].
Qed.

(** The inner loop: it stops at the target, and otherwise pushes what is new. *)
Lemma visit_deps_spec deps visited queue :
  match visit_deps target deps visited queue with
  | None => target ∈ deps
  | Some (visited', queue') => (target ∉ deps) ∧ visited' = visited ∪ list_to_set deps ∧
      (∀ x, x ∈ queue' ↔ x ∈ queue ∨ (x ∈ deps ∧ x ∉ visited)) ∧
      length queue' + size visited = length queue + size visited'
  end.
Proof.
  revert visited queue. induction deps as [|d deps IH]; intros visited queue; cbn [visit_deps].
  { split_and!; [by intros ?%elem_of_nil|set_solver|set_solver|lia]. }
  case_bool_decide as Hd; [subst; by left|]. case_bool_decide as Hv.
  - specialize (IH visited queue). destruct (visit_deps target deps visited queue) as [[v q]|].
    + destruct IH as (H1 & -> & H3 & H4). split_and!; [set_solver|set_solver| |done].
      intros x. rewrite H3. set_solver.
    + by right.
  - specialize (IH ({[d]} ∪ visited) (d :: queue)).
    destruct (visit_deps target deps _ _) as [[v q]|]; [|by right].
    destruct IH as (H1 & -> & H3 & H4). split_and!; [set_solver|set_solver| |].
    + intros x. rewrite H3. destruct (decide (x = d)) as [->|]; set_solver.
    + replace (visited ∪ list_to_set (d :: deps)) with ({[d]} ∪ visited ∪ list_to_set deps : gset string)
        by set_solver.
      rewrite (size_union {[d]} visited), size_singleton in H4 by set_solver. cbn [length] in H4. lia.
Qed.

(** The state of the search: what is pushed is reachable, what was popped has
    all its dependencies marked, and the target is not marked. *)
Record reach_inv (visited : gset string) (queue : list string) : Prop := {
  ri_reach : ∀ x, x ∈ queue ∨ x ∈ visited → x = from ∨ tc edge from x;
  ri_done : ∀ x d, x = from ∨ x ∈ visited → x ∉ queue → edge x d → d ∈ visited;
  ri_target : target ∉ visited;
  ri_listed : visited ⊆ listed tm
}.

Lemma reach_pop visited cur queue : reach_inv visited (cur :: queue) →
  match match tm !! cur with
        | Some spec => visit_deps target (ts_depends_on spec) visited queue
        | None => Some (visited, queue)
        end with
  | None => tc edge from target
  | Some (visited', queue') => reach_inv visited' queue' ∧
      length queue' + size visited = length queue + size visited'
  end.
Proof.
  intros [Hr Hd Ht Hl].
  assert (∀ d, edge cur d → tc edge from d) as Hcur.
  { intros d He. destruct (Hr cur) as [->|Htc]; [left; left|by apply tc_once|by eapply tc_r]. }
  destruct (tm !! cur) as [spec|] eqn:Hc.
  - pose proof (visit_deps_spec (ts_depends_on spec) visited queue) as Hv.
    assert (∀ d, d ∈ ts_depends_on spec ↔ edge cur d) as He.
    { intros d. unfold edge. rewrite Hc. naive_solver. }
    destruct (visit_deps _ _ _ _) as [[v q]|]; [|by apply Hcur, He].
    destruct Hv as (Hnt & -> & Hq & Hsize). split; [|done]. split.
    + intros x. rewrite Hq, elem_of_union, elem_of_list_to_set, He.
      intros [[?|[? _]]|[?|?]]; [apply Hr; left; by right|by right; apply Hcur|apply Hr; by right
                                |by right; apply Hcur].
    + intros x d Hx Hnq Hxd. rewrite elem_of_union, elem_of_list_to_set, He. rewrite Hq, He in Hnq.
      rewrite elem_of_union, elem_of_list_to_set, He in Hx.
      destruct (decide (x = cur)) as [->|Hne]; [by right|]. left.
      destruct (decide (x ∈ visited)) as [Hxv|Hxv].
      * apply (Hd x d); [by right| |done]. rewrite elem_of_cons. naive_solver.
      * apply (Hd x d); [naive_solver| |done]. rewrite elem_of_cons. naive_solver.
    + rewrite elem_of_union, elem_of_list_to_set. naive_solver.
    + intros d [?|Hdd%elem_of_list_to_set]%elem_of_union; [by apply Hl|].
      by apply (edge_listed cur), He.
  - split; [|done]. split; [|  |done|done].
    + intros x [?|?]; apply Hr; [left; by right|by right].
    + intros x d Hx Hnq Hxd. destruct (decide (x = cur)) as [->|Hne].
      * destruct Hxd as (t & ? & _). congruence.
      * apply (Hd x d); [done| |done]. rewrite elem_of_cons. naive_solver.
Qed.

Lemma reach_empty visited : reach_inv visited [] → ¬ tc edge from target.
Proof.
  intros [_ Hd Ht _].
  assert (∀ x y, tc edge x y → x = from ∨ x ∈ visited → y ∈ visited) as Hall.
  { induction 1 as [x y He|x y z He _ IH]; intros Hx.
    - by apply (Hd x); [|by intros ?%elem_of_nil|].
    - apply IH. right. by apply (Hd x); [|by intros ?%elem_of_nil|]. }
  intros Htc. apply Ht. eapply Hall; [done|by left].
Qed.

(** Enough fuel for one pop per listed name decides reachability. *)
Lemma reach_spec fuel visited queue : reach_inv visited queue →
  length queue + size (listed tm) ≤ fuel + size visited →
  reach fuel target tm visited queue = true ↔ tc edge from target.
Proof.
  revert visited queue. induction fuel as [|fuel IH]; intros visited queue Hinv Hf.
  - pose proof (subseteq_size _ _ (ri_listed _ _ Hinv)).
    destruct queue; [|cbn in Hf; lia]. apply reach_empty in Hinv. by split.
  - cbn [reach]. destruct queue as [|cur queue]; [apply reach_empty in Hinv; by split|].
    pose proof (reach_pop visited cur queue Hinv) as Hp. cbn [length] in Hf.
    destruct (tm !! cur) as [spec|].
    + destruct (visit_deps _ _ _ _) as [[v q]|]; [|done]. destruct Hp as [Hi Hs]. apply IH; [done|lia].
    + destruct Hp as [Hi Hs]. apply IH; [done|lia].
Qed.

Lemma is_transitive_dependency_spec :
  is_transitive_dependency target from tm = true ↔ tc edge from target.
Proof.
  apply reach_spec; [|rewrite size_empty; cbn; lia]. split; [set_solver| |set_solver..].
  intros x d [->|[]%elem_of_empty] Hx. destruct Hx. left.
Qed.
End Reach.

(** A placeholder [tasks.<name>...] of task [t] points at a task strictly
    upstream of it. *)
Definition upstream (tasks : list TaskSpec) (t : TaskSpec) (var : string) : Prop :=
  ∀ root ref rest, starts_with "tasks." var = true → split_on "." var = root :: ref :: rest →
  ref ≠ ts_name t ∧ tc (depends tasks) (ts_name t) ref.

Lemma task_map_edge tasks n d : NoDup (ts_name <$> tasks) →
  edge (task_map (build_graph tasks)) n d ↔ depends tasks n d.
Proof.
  intros Hnd. unfold edge, depends. setoid_rewrite (task_map_lookup tasks _ _ Hnd). naive_solver.
Qed.

Lemma tc_mono {A} (R R' : relation A) x y : (∀ x y, R x y → R' x y) → tc R x y → tc R' x y.
Proof. intros HR. induction 1; [by apply tc_once, HR|eapply tc_l; eauto]. Qed.

Lemma check_reference_spec tasks t var : NoDup (ts_name <$> tasks) →
  check_reference (task_map (build_graph tasks)) t var = [] ↔ upstream tasks t var.
Proof.
  intros Hnd. unfold check_reference, upstream.
  destruct (starts_with "tasks." var); [|naive_solver].
  destruct (split_on "." var) as [|root [|ref rest]]; [naive_solver..|].
  assert (is_transitive_dependency ref (ts_name t) (task_map (build_graph tasks)) = true ↔
          tc (depends tasks) (ts_name t) ref) as Hr.
  { rewrite is_transitive_dependency_spec.
    split; apply tc_mono; intros x y; by rewrite task_map_edge. }
  case_bool_decide; [naive_solver|].
  destruct (is_transitive_dependency _ _ _); cbn; naive_solver.
Qed.

(** ** Placeholders *)

Lemma find_skip p c s : starts_with p (String c s) = false → find p (String c s) = S <$> find p s.
Proof. cbn [find]. by intros ->. Qed.

Lemma starts_other x p c s : byte_of x ≠ byte_of c → starts_with (String x p) (String c s) = false.
Proof. intros Hne. unfold starts_with. cbn. destruct (ascii_dec x c); [congruence|done]. Qed.

Lemma find_dollar pre s : contains_byte 36 pre = false →
  find "${" (pre +:+ "${" +:+ s) = Some (String.length pre).
Proof.
  induction pre as [|c pre IH]; intros Hc; [by destruct s|].
  unfold contains_byte in Hc. cbn [as_bytes existsb] in Hc. apply orb_false_iff in Hc as [Hc Hpre].
  change (String c pre +:+ "${" +:+ s) with (String c (pre +:+ "${" +:+ s)).
  rewrite find_skip; [by rewrite IH|]. apply starts_other. to_prop. done.
Qed.

Lemma find_brace v s : contains_byte 125 v = false →
  find "}" (v +:+ "}" +:+ s) = Some (String.length v).
Proof.
  induction v as [|c v IH]; intros Hc; [by destruct s|].
  unfold contains_byte in Hc. cbn [as_bytes existsb] in Hc. apply orb_false_iff in Hc as [Hc Hv].
  change (String c v +:+ "}" +:+ s) with (String c (v +:+ "}" +:+ s)).
  rewrite find_skip; [by rewrite IH|]. apply starts_other. to_prop. done.
Qed.

Lemma find_none s : contains_byte 36 s = false → find "${" s = None.
Proof.
  induction s as [|c s IH]; intros Hc; [done|].
  unfold contains_byte in Hc. cbn [as_bytes existsb] in Hc. apply orb_false_iff in Hc as [Hc Hs].
  rewrite find_skip; [by rewrite IH|]. apply starts_other. to_prop. done.
Qed.

Lemma str_take_app v s : str_take (String.length v) (v +:+ s) = v.
Proof. induction v as [|c v IH]; [by destruct s|]. cbn. by f_equal. Qed.

Lemma scan_rendered fuel pieces tail :
  Forall (fun p => contains_byte 36 p.1 = false ∧ contains_byte 125 p.2 = false) pieces →
  contains_byte 36 tail = false → length pieces < fuel →
  scan_placeholders fuel (render pieces tail) =
  List.filter (fun w => negb (is_empty w)) ((fun p => trim p.2) <$> pieces).
Proof.
  intros Hp Ht. revert fuel. induction Hp as [|[pre v] pieces [Hpre Hv] _ IH]; intros [|fuel] Hf;
    [cbn in Hf; lia| |cbn in Hf; lia|]; cbn [scan_placeholders render foldr fst snd].
  { by rewrite (find_none tail Ht). }
  fold (render pieces tail). rewrite find_dollar, str_drop_app by done. cbv zeta.
  assert (find "}" ("${" +:+ v +:+ "}" +:+ render pieces tail) = Some (2 + String.length v)) as ->.
  { change ("${" +:+ v +:+ ?s) with (String "$" (String "{" (v +:+ s))).
    rewrite !find_skip, find_brace by done. done. }
  change (str_take (2 + String.length v) ("${" +:+ v +:+ "}" +:+ render pieces tail))
    with (String "$" (String "{" (str_take (String.length v) (v +:+ "}" +:+ render pieces tail)))).
  rewrite str_take_app.
  change (str_drop (S (2 + String.length v)) ("${" +:+ v +:+ "}" +:+ render pieces tail))
    with (str_drop (S (String.length v)) (v +:+ "}" +:+ render pieces tail)).
  assert (∀ u, str_drop (S (String.length u)) (u +:+ "}" +:+ render pieces tail) =
    render pieces tail) as ->.
  { intros u. induction u as [|c u IHu]; [done|]. exact IHu. }
  cbn [str_drop]. rewrite IH by (cbn in Hf; lia). cbn [fmap list_fmap List.filter].
  cbn [snd]. by destruct (is_empty (trim v)).
Qed.

Lemma render_length pieces tail : length pieces ≤ String.length (render pieces tail).
Proof.
  induction pieces as [|[pre v] pieces IH]; cbn [render foldr length]; [lia|].
  fold (render pieces tail). rewrite <- length_as_bytes in IH |- *. rewrite !as_bytes_app, !length_app. cbn [as_bytes length fst snd]. lia.
Qed.

(** ** Properties *)

(** The placeholder scan finds exactly the placeholders of a template, in
    order: rendering text pieces and names into [text${name}...] and extracting
    gives the trimmed names back, blank ones dropped. *)
Theorem extract_rendered pieces tail :
  Forall (fun p => contains_byte 36 p.1 = false ∧ contains_byte 125 p.2 = false) pieces →
  contains_byte 36 tail = false →
  extract_placeholders (JString (render pieces tail)) =
  List.filter (fun w => negb (is_empty w)) ((fun p => trim p.2) <$> pieces).
Proof.
  intros Hp Ht. apply scan_rendered; [done..|]. pose proof (render_length pieces tail). lia.
Qed.

Lemma extract_rendered_witness :
  render [("user ", " run.input.id "); (": ", "tasks.fetch.output")] "!" =
    "user ${ run.input.id }: ${tasks.fetch.output}!" ∧
  extract_placeholders (JString (render [("user ", " run.input.id "); (": ", "tasks.fetch.output")] "!")) =
    ["run.input.id"; "tasks.fetch.output"].
Proof.
  split; [reflexivity|].
  rewrite (extract_rendered [("user ", " run.input.id "); (": ", "tasks.fetch.output")] "!");
    [reflexivity| |reflexivity].
  repeat constructor.
Defined.

(** The dry run of an accepted definition raises no warning exactly when
    every [tasks.<name>] placeholder of a task's input names a task strictly
    upstream of it in the dependency graph. *)
Theorem simulate_warnings def : analysable def →
  ∃ r, simulate_workflow def = Some (Ok r) ∧
  (rp_warnings r = [] ↔
   ∀ t var, t ∈ wd_tasks def → var ∈ extract_placeholders (ts_input t) →
     upstream (wd_tasks def) t var).
Proof.
  intros [Hnd Hok]. unfold simulate_workflow.
  destruct (topo_order (wd_tasks def)) as [l|e] eqn:Ht; [|done].
  destruct (relax_all_settled (wd_tasks def) Hnd l Ht) as (st & -> & _).
  eexists. split; [done|]. cbn [rp_warnings].
  assert (∀ A B (f : A → list B) (xs : list A), flat_map f xs = [] ↔ ∀ x, x ∈ xs → f x = []) as Hfm.
  { intros A B f xs. induction xs as [|x xs IH]; cbn; [set_solver|].
    rewrite app_nil, IH. set_solver. }
  rewrite Hfm. setoid_rewrite Hfm. setoid_rewrite (check_reference_spec _ _ _ Hnd). naive_solver.
Qed.

Lemma simulate_warnings_witness : ∃ r, simulate_workflow (planned diamond) = Some (Ok r) ∧
  (rp_warnings r = [] ↔ ∀ t var, t ∈ diamond → var ∈ extract_placeholders (ts_input t) →
     upstream diamond t var).
Proof. exact (simulate_warnings (planned diamond) diamond_analysable). Defined.
