(* ===== verification/Validation.v ===== *)
(** * Definition and input validation (src/src/domain/validation.rs)

    The structural checks in the source's order. Code outside the sources is a
    parameter: [url_parse] is [url::Url::parse] (scheme and host, or the error
    text), [str_debug] and [float_text] render [{:?}] and [f64] in messages, and
    [number_text] is [serde_json::Number::to_string]. *)
From S2P Require Import Prelude RustStrings Float64 Json Ids Errors RetryPolicy Workflow Dag.
From stdpp Require Import pretty.
Local Open Scope Z_scope.

Definition MAX_RUN_INPUT_BYTES : Z := Z.shiftl 1 20.
Definition MAX_JSON_DEPTH : Z := 64.

(** A predicate on an ASCII [char]; a multi-byte character fails it. *)
Definition ascii_char (p : Z → bool) (c : string) : bool :=
  match as_bytes c with [b] => p b | _ => false end.

Definition is_valid_name (name : string) : bool :=
  if is_empty name || (64 <? str_len name) then false
  else match chars name with
       | [] => false
       | first :: rest =>
           ascii_char is_ascii_lowercase first &&
           forallb (ascii_char (fun b => is_ascii_lowercase b || is_ascii_digit b || (b =? 45))) rest
       end.

(** The [BTreeSet] of names seen so far. *)
Fixpoint check_unique (seen : gset string) (tasks : list TaskSpec) : result unit DomainError :=
  match tasks with
  | [] => Ok tt
  | t :: rest =>
      if bool_decide (ts_name t ∈ seen) then Err (DomainError.DuplicateTaskName (ts_name t))
      else check_unique ({[ts_name t]} ∪ seen) rest
  end.

Section Validation.
Context (url_parse : string → result (string * option string) string).
Context (str_debug : string → string) (float_text : f64 → string) (number_text : Number → string).

Definition validate_task_basics (task : TaskSpec) : result unit DomainError :=
  if bool_decide (ts_timeout_ms task = Some 0) then Err DomainError.ZeroTimeout
  else if MAX_TASK_NAME_LEN <? str_len (ts_name task) then
    Err (DomainError.InvalidDefinition ("task name " +:+ str_debug (ts_name task) +:+ " exceeds "
      +:+ pretty MAX_TASK_NAME_LEN +:+ " characters"))
  else match ts_retry task with
       | Some retry =>
           map_err (fun e => DomainError.InvalidPolicy (policy_error_text float_text e))
             (policy_validate retry)
       | None => Ok tt
       end.

Definition validate_workflow_policy (def : WorkflowDef) : result unit DomainError :=
  map_err (fun e => DomainError.InvalidPolicy (policy_error_text float_text e))
    (policy_validate (wd_retry def)).

Definition validate_webhook_url (url : string) : result unit string :=
  let? parsed := map_err (fun e => "webhook url is not parseable: " +:+ e) (url_parse url) in
  let '(scheme, host) := parsed in
  if bool_decide (scheme = "http"%string) || bool_decide (scheme = "https"%string) then
    match host with
    | None => Err "webhook url has no host"%string
    | Some _ => Ok tt
    end
  else Err ("webhook url scheme must be http/https, got " +:+ str_debug scheme).

Definition validate_definition (def : WorkflowDef) : result unit DomainError :=
  if negb (is_valid_name (wd_name def)) then Err (DomainError.InvalidName (wd_name def))
  else
    let? _ := sanitize_description (wd_description def) in
    if bool_decide (wd_tasks def = []) then Err DomainError.EmptyTasks
    else if MAX_TASKS <? Z.of_nat (length (wd_tasks def)) then Err DomainError.TooManyTasks
    else
      let? _ := check_unique ∅ (wd_tasks def) in
      let? _ := for_each validate_task_basics (wd_tasks def) in
      let? _ := validate_edges (wd_tasks def) in
      if wd_timeout_ms def =? 0 then Err DomainError.ZeroTimeout
      else for_each (fun hook =>
        match webhook_url hook with
        | Some url => map_err DomainError.InvalidDefinition (validate_webhook_url url)
        | None => Ok tt
        end) (all_hooks (wd_hooks def)).

(** [iter().max()] *)
Definition max_of (l : list Z) : option Z :=
  match l with [] => None | x :: rest => Some (foldl Z.max x rest) end.

Fixpoint json_depth (value : Json) (current_depth : Z) : Z :=
  match value with
  | JArray items =>
      default (current_depth + 1) (max_of (map (fun item => json_depth item (current_depth + 1)) items))
  | JObject fields =>
      default (current_depth + 1)
        (max_of (map (fun kv => json_depth kv.2 (current_depth + 1)) fields))
  | _ => current_depth
  end.

Fixpoint json_size (value : Json) : Z :=
  match value with
  | JNull => 4
  | JBool _ => 4
  | JNumber n => str_len (number_text n)
  | JString s => str_len s + 2
  | JArray items => foldr Z.add 0 (map json_size items)
  | JObject fields => foldr Z.add 0 (map (fun kv => str_len kv.1 + json_size kv.2) fields)
  end.

Definition validate_run_input (input : Json) : result unit DomainError :=
  let size := json_size input in
  if MAX_RUN_INPUT_BYTES <? size then Err (DomainError.InputTooLarge size MAX_RUN_INPUT_BYTES)
  else
    let depth := json_depth input 0 in
    if MAX_JSON_DEPTH <? depth then Err (DomainError.InputTooDeep depth MAX_JSON_DEPTH) else Ok tt.

(** ** Specification vocabulary *)

(** Nesting depth: scalars are flat, an array or object is one deeper than its
    deepest element. *)
Fixpoint nesting (value : Json) : Z :=
  match value with
  | JArray items => 1 + foldr Z.max 0 (map nesting items)
  | JObject fields => 1 + foldr Z.max 0 (map (fun kv => nesting kv.2) fields)
  | _ => 0
  end.

(** Bytes of the compact serialization of a document without escapes:
    brackets, separators and quotes included. *)
Fixpoint compact_len (value : Json) : Z :=
  match value with
  | JNull => 4
  | JBool b => if b then 4 else 5
  | JNumber n => str_len (number_text n)
  | JString s => str_len s + 2
  | JArray items =>
      2 + Z.max 0 (Z.of_nat (length items) - 1) + foldr Z.add 0 (map compact_len items)
  | JObject fields =>
      2 + Z.max 0 (Z.of_nat (length fields) - 1)
        + foldr Z.add 0 (map (fun kv => str_len kv.1 + 3 + compact_len kv.2) fields)
  end.

Definition valid_webhook (url : string) : Prop :=
  ∃ scheme host, url_parse url = Ok (scheme, Some host) ∧
    (scheme = "http"%string ∨ scheme = "https"%string).

(** What a task must satisfy on its own. *)
Definition task_ok (t : TaskSpec) : Prop :=
  ts_timeout_ms t ≠ Some 0 ∧ str_len (ts_name t) ≤ MAX_TASK_NAME_LEN ∧
  ∀ retry, ts_retry t = Some retry → policy_validate retry = Ok tt.
End Validation.

(** ** Names *)

Lemma chars_from_bytes cur s :
  concat (map as_bytes (chars_from cur s)) = as_bytes cur ++ as_bytes s.
Proof.
  revert cur. induction s as [|c s IH]; intros cur; cbn [chars_from map concat].
  - done.
  - destruct (is_continuation c); cbn [map concat]; rewrite IH.
    + rewrite as_bytes_app, <-(assoc_L (++)). done.
    + done.
Qed.

Lemma chars_bytes s : concat (map as_bytes (chars s)) = as_bytes s.
Proof. destruct s as [|c s]; [done|]. cbn [chars]. by rewrite chars_from_bytes. Qed.

(** Checking every character of a string against an ASCII class is checking
    every byte. *)
Lemma forallb_ascii (p : Z → bool) s : (∀ b, p b = true → 0 ≤ b < 128) →
  forallb (ascii_char p) (chars s) = true ↔ Forall (fun b => p b = true) (as_bytes s).
Proof.
  intros Hp. split.
  - rewrite <-chars_bytes. generalize (chars s). induction l as [|c l IH]; cbn; [done|].
    rewrite andb_true_iff. intros [Hc Hl]. apply Forall_app. split; [|auto].
    unfold ascii_char in Hc. destruct (as_bytes c) as [|b []]; try done. by constructor.
  - intros Hf. rewrite <-(of_bytes_as_bytes s), chars_of_ascii
      by (eapply Forall_impl; [exact Hf|cbn; auto]).
    induction Hf as [|b l Hb _ IH]; [done|]. cbn [map forallb]. rewrite IH, andb_true_r.
    unfold ascii_char, digit_char. cbn [as_bytes].
    rewrite byte_of_ascii_of; [done|]. specialize (Hp b Hb). unfold is_u8. lia.
Qed.

Lemma name_byte_ascii b :
  is_ascii_lowercase b || is_ascii_digit b || (b =? 45) = true → 0 ≤ b < 128.
Proof. unfold is_ascii_lowercase, is_ascii_digit. lia. Qed.

Lemma chars_cons s : s ≠ EmptyString → ∃ c rest, chars s = c :: rest.
Proof.
  destruct s as [|c s]; [done|]. intros _. cbn. generalize (String c EmptyString).
  induction s as [|d s IH]; intros cur; cbn; [by eexists _, _|].
  destruct (is_continuation d); [apply IH|by eexists _, _].
Qed.

Lemma is_valid_name_spec name :
  is_valid_name name = true ↔
  1 ≤ str_len name ≤ 64 ∧ is_ascii_lowercase (nth 0 (as_bytes name) 0) = true ∧
  Forall name_byte (as_bytes name).
Proof.
  unfold is_valid_name. destruct (decide (name = EmptyString)) as [->|Hne].
  { split; [done|]. intros ([H _]&_). by destruct H. }
  assert (Hl1 : 1 ≤ str_len name) by (destruct name; [done|]; unfold str_len; cbn; lia).
  rewrite (proj2 (is_empty_false name) Hne). cbn [orb].
  destruct (Z.ltb_spec 64 (str_len name)); [split; [done|lia]|].
  pose proof (forallb_ascii _ name name_byte_ascii) as Hall.
  destruct (chars_cons name Hne) as (c&rest&Hc).
  pose proof (chars_bytes name) as Hb. rewrite Hc in *. cbn [forallb] in Hall.
  fold name_byte in Hall. unfold ascii_char at 1.
  unfold ascii_char at 1 in Hall. cbn [map concat] in Hb.
  destruct (as_bytes c) as [|b [|b' bs]] eqn:Hcb.
  - split; [done|]. intros (_&_&Hf). by apply Hall in Hf.
  - assert (Hn0 : nth 0 (as_bytes name) 0 = b) by by rewrite <-Hb.
    rewrite Hn0, andb_true_iff. rewrite andb_true_iff in Hall. split.
    + intros [H1 H2]. split; [lia|]. split; [done|]. apply Hall. split; [|done].
      by rewrite H1.
    + intros (_&H1&H2). split; [done|]. by apply Hall.
  - split; [done|]. intros (_&_&Hf). by apply Hall in Hf.
Qed.

(** ** Tasks *)

Lemma check_unique_spec seen tasks :
  check_unique seen tasks = Ok tt ↔
  NoDup (map ts_name tasks) ∧ ∀ n, n ∈ seen → n ∉ map ts_name tasks.
Proof.
  revert seen. induction tasks as [|t tasks IH]; intros seen; cbn [check_unique map].
  { split; [|done]. intros _. split; [constructor|set_solver]. }
  rewrite NoDup_cons. case_bool_decide as Hin.
  - split; [done|]. intros [_ H]. destruct (H _ Hin). apply list_elem_of_here.
  - rewrite IH. split.
    + intros [Hnd H]. split; [split; [apply H; set_solver|done]|]. set_solver.
    + intros [[Hni Hnd] H]. split; [done|]. set_solver.
Qed.

Section TaskChecks.
Context (url_parse : string → result (string * option string) string).
Context (str_debug : string → string) (float_text : f64 → string).

Lemma validate_task_basics_spec t :
  validate_task_basics str_debug float_text t = Ok tt ↔ task_ok t.
Proof.
  unfold validate_task_basics, task_ok. case_bool_decide as Ht; [naive_solver|].
  destruct (Z.ltb_spec MAX_TASK_NAME_LEN (str_len (ts_name t))); [split; [done|lia]|].
  destruct (ts_retry t) as [r|]; [|naive_solver].
  destruct (policy_validate r) as [[]|] eqn:Hr; cbn; [naive_solver|].
  split; [done|]. intros (_&_&H'). specialize (H' r eq_refl). congruence.
Qed.

Lemma validate_webhook_url_spec url :
  validate_webhook_url url_parse str_debug url = Ok tt ↔ valid_webhook url_parse url.
Proof.
  unfold validate_webhook_url, valid_webhook.
  destruct (url_parse url) as [[scheme host]|e]; cbn [map_err rbind]; [|naive_solver].
  repeat case_bool_decide; destruct host; cbn [orb]; naive_solver.
Qed.

Lemma validate_hooks_spec hooks :
  for_each (fun hook => match webhook_url hook with
    | Some url => map_err DomainError.InvalidDefinition (validate_webhook_url url_parse str_debug url)
    | None => Ok tt end) hooks = Ok tt ↔
  ∀ hook url, hook ∈ hooks → webhook_url hook = Some url → valid_webhook url_parse url.
Proof.
  rewrite for_each_ok, Forall_forall. split.
  - intros H hook url Hin Hurl. specialize (H hook Hin). rewrite Hurl in H.
    apply validate_webhook_url_spec. by destruct (validate_webhook_url _ _ url) as [[]|].
  - intros H hook Hin. destruct (webhook_url hook) as [url|] eqn:Hurl; [|done].
    specialize (H hook url Hin Hurl). apply validate_webhook_url_spec in H. by rewrite H.
Qed.

Lemma validate_edges_spec tasks : validate_edges tasks = Ok tt ↔ is_acyclic tasks = true.
Proof. unfold validate_edges, is_acyclic. by destruct (topo_order tasks). Qed.
End TaskChecks.

(** ** Depth *)

Lemma foldl_max_foldr x l : foldl Z.max x l = Z.max x (foldr Z.max x l).
Proof.
  revert x. induction l as [|y l IH]; intros x; cbn; [lia|].
  rewrite IH. enough (foldr Z.max (Z.max x y) l = Z.max (Z.max x y) (foldr Z.max x l)) by lia.
  clear IH. revert x y. induction l as [|z l IH]; intros x y; cbn; [lia|]. rewrite IH. lia.
Qed.

Lemma foldr_max_base x l : 0 ≤ x → foldr Z.max x l = Z.max x (foldr Z.max 0 l).
Proof. intros Hx. induction l as [|y l IH]; cbn; lia. Qed.

Lemma max_of_spec {A} (f : A → Z) c l : (∀ x, x ∈ l → 0 ≤ f x) → 0 ≤ c →
  default c (max_of (map (fun x => c + f x) l)) = c + foldr Z.max 0 (map f l).
Proof.
  intros Hf Hc. destruct l as [|x l]; cbn; [lia|].
  assert (Hpos : ∀ y, y ∈ l → 0 ≤ f y) by set_solver.
  assert (0 ≤ f x) by set_solver. rewrite foldl_max_foldr, foldr_max_base by lia.
  clear Hf. induction l as [|y l IH]; cbn; [lia|].
  assert (0 ≤ f y) by set_solver. specialize (IH ltac:(set_solver)). lia.
Qed.

Lemma nesting_nonneg v : 0 ≤ nesting v.
Proof.
  destruct v as [| | | |items|fields]; cbn; try lia.
  - induction (map nesting items); cbn; lia.
  - induction (map (fun kv => nesting kv.2) fields); cbn; lia.
Qed.

Lemma json_depth_nesting v : ∀ c, 0 ≤ c → json_depth v c = c + nesting v.
Proof.
  induction v as [| | | |items IH|fields IH] using json_ind; intros c Hc; cbn [json_depth nesting]; try lia.
  - rewrite (map_ext_in _ (fun x => (c + 1) + nesting x)).
    + rewrite max_of_spec by (auto using nesting_nonneg || lia). lia.
    + intros x Hx%list_elem_of_In. rewrite Forall_forall in IH. apply IH; [done|lia].
  - rewrite (map_ext_in _ (fun kv => (c + 1) + nesting kv.2)).
    + rewrite (max_of_spec (fun kv => nesting kv.2)) by (auto using nesting_nonneg || lia). lia.
    + intros x Hx%list_elem_of_In. rewrite Forall_forall in IH. apply (IH x); [done|lia].
Qed.

Lemma foldr_repeat_zero (l : list Z) : Forall (fun z => z = 0) l → foldr Z.add 0 l = 0.
Proof. induction 1; cbn; lia. Qed.

(** ** Properties *)

Section Properties.
Context (url_parse : string → result (string * option string) string).
Context (str_debug : string → string) (float_text : f64 → string) (number_text : Number → string).

Lemma validate_definition_spec def :
  validate_definition url_parse str_debug float_text def = Ok tt ↔
  (1 ≤ str_len (wd_name def) ≤ 64 ∧ is_ascii_lowercase (nth 0 (as_bytes (wd_name def)) 0) = true ∧
   Forall name_byte (as_bytes (wd_name def))) ∧
  char_count (wd_description def) ≤ 512 ∧
  1 ≤ Z.of_nat (length (wd_tasks def)) ≤ MAX_TASKS ∧
  NoDup (map ts_name (wd_tasks def)) ∧
  Forall task_ok (wd_tasks def) ∧
  all_known (wd_tasks def) ∧ (∀ n, ¬ tc (depends (wd_tasks def)) n n) ∧
  wd_timeout_ms def ≠ 0 ∧
  ∀ hook url, hook ∈ all_hooks (wd_hooks def) → webhook_url hook = Some url →
    valid_webhook url_parse url.
Proof.
  unfold validate_definition. rewrite <-is_valid_name_spec.
  destruct (is_valid_name (wd_name def)); cbn [negb]; [|naive_solver].
  unfold sanitize_description. destruct (Z.ltb_spec 512 (char_count (wd_description def))); cbn [rbind];
    [split; [done|lia]|].
  case_bool_decide as He; [rewrite He; cbn; split; [done|lia]|].
  assert (1 ≤ Z.of_nat (length (wd_tasks def))) by (destruct (wd_tasks def); [done|cbn; lia]).
  destruct (Z.ltb_spec MAX_TASKS (Z.of_nat (length (wd_tasks def)))); [split; [done|lia]|].
  pose proof (check_unique_spec ∅ (wd_tasks def)) as Hu.
  destruct (check_unique ∅ (wd_tasks def)) as [[]|]; cbn [rbind];
    [|split; [done|]; intros (_&_&_&Hnd&_); assert (Err e = Ok tt) by (apply Hu; set_solver); done].
  pose proof (for_each_ok (validate_task_basics str_debug float_text) (wd_tasks def)) as Ht.
  setoid_rewrite validate_task_basics_spec in Ht.
  destruct (for_each (validate_task_basics _ _) _) as [[]|]; cbn [rbind];
    [|split; [done|]; intros (_&_&_&_&Hf&_); by apply Ht in Hf].
  pose proof (validate_edges_spec (wd_tasks def)) as Hed. rewrite is_acyclic_spec in Hed.
  destruct (validate_edges (wd_tasks def)) as [[]|]; cbn [rbind];
    [|split; [done|]; intros (_&_&_&_&_&Hk&Ha&_); by discriminate (proj2 Hed (conj Hk Ha))].
  destruct (Z.eqb_spec (wd_timeout_ms def) 0); [split; [done|tauto]|].
  rewrite (validate_hooks_spec url_parse str_debug). intuition lia.
Qed.

(** An accepted definition can be scheduled. *)
Lemma validated_runnable def : validate_definition url_parse str_debug float_text def = Ok tt →
  NoDup (map ts_name (wd_tasks def)) ∧ ∃ order, topo_order (wd_tasks def) = Ok order.
Proof.
  intros (_&_&_&Hnd&_&Hk&Ha&_)%validate_definition_spec. split; [done|].
  assert (Hac : is_acyclic (wd_tasks def) = true) by by apply is_acyclic_spec.
  unfold is_acyclic in Hac. destruct (topo_order (wd_tasks def)) as [l|]; [by exists l|done].
Qed.

(** C31. A definition passes validation exactly when: its name is 1 to 64 bytes of
    [a-z0-9-] starting with a letter; its description has at most 512
    characters; it has 1 to 256 tasks with distinct names; no task has a
    timeout of zero, a name over its bound or an invalid retry override; every
    dependency is a task and there is no cycle; the workflow timeout is not
    zero; and every webhook parses as an http(s) URL with a host. These are the checks
    of the code: the list in its comment also has the format of handler ids and
    ceilings on the timeout, on which acceptance does not depend, and leaves out the
    description. *)
Theorem validate_definition_iff def :
  validate_definition url_parse str_debug float_text def = Ok tt ↔
  (1 ≤ str_len (wd_name def) ≤ 64 ∧ is_ascii_lowercase (nth 0 (as_bytes (wd_name def)) 0) = true ∧
   Forall name_byte (as_bytes (wd_name def))) ∧
  char_count (wd_description def) ≤ 512 ∧
  1 ≤ Z.of_nat (length (wd_tasks def)) ≤ MAX_TASKS ∧
  NoDup (map ts_name (wd_tasks def)) ∧
  Forall task_ok (wd_tasks def) ∧
  all_known (wd_tasks def) ∧ (∀ n, ¬ tc (depends (wd_tasks def)) n n) ∧
  wd_timeout_ms def ≠ 0 ∧
  ∀ hook url, hook ∈ all_hooks (wd_hooks def) → webhook_url hook = Some url →
    valid_webhook url_parse url.
Proof. apply validate_definition_spec. Qed.

(** A run input is accepted exactly when its measured size is at most one
    mebibyte and its arrays and objects nest at most 64 deep; the size error
    takes precedence. *)
Theorem validate_run_input_cases v :
  validate_run_input number_text v =
  if MAX_RUN_INPUT_BYTES <? json_size number_text v
  then Err (DomainError.InputTooLarge (json_size number_text v) MAX_RUN_INPUT_BYTES)
  else if MAX_JSON_DEPTH <? nesting v
  then Err (DomainError.InputTooDeep (nesting v) MAX_JSON_DEPTH) else Ok tt.
Proof. unfold validate_run_input. by rewrite json_depth_nesting. Qed.

(** The size measure ignores brackets and separators: an array of [n] empty
    arrays, whose serialization takes 3n + 1 bytes, measures zero and is
    accepted whatever [n] is. *)
Theorem json_size_undercounts n :
  compact_len number_text (JArray (replicate (S n) (JArray []))) = 3 * Z.of_nat (S n) + 1 ∧
  validate_run_input number_text (JArray (replicate (S n) (JArray []))) = Ok tt.
Proof.
  split.
  - cbn [compact_len]. rewrite length_replicate.
    enough (foldr Z.add 0 (map (compact_len number_text) (replicate (S n) (JArray []))) = 2 * Z.of_nat (S n)) by lia.
    clear. induction (S n) as [|m IH]; [done|]. cbn [replicate map foldr] in *. rewrite IH. cbn. lia.
  - unfold validate_run_input. rewrite json_depth_nesting by lia. cbn [json_size].
    rewrite foldr_repeat_zero by (apply Forall_map, Forall_replicate; done).
    cbn [nesting]. assert (Hm : foldr Z.max 0 (map nesting (replicate (S n) (JArray []))) ≤ 1).
    { clear. induction (S n) as [|m IH]; cbn in *; lia. }
    destruct (Z.ltb_spec MAX_RUN_INPUT_BYTES 0) as [H|]; [by vm_compute in H|].
    unfold MAX_JSON_DEPTH. destruct (Z.ltb_spec 64 (0 + (1 + foldr Z.max 0 (map nesting (replicate (S n) (JArray []))))));
      [lia|done].
Qed.
End Properties.
