(* ===== verification/Cron.v ===== *)
(** * Cron schedules and triggers

    [scheduler/cron.rs]: parsing of the five fields, the binary search behind
    [CronField::contains], the minute-by-minute scan of [next_tick_ms] and the
    trigger that replays it. The decomposition of an instant into calendar
    fields is chrono's, the class [Calendar]. *)
From stdpp Require Import pretty.
From S2P Require Import Prelude RustStrings Text Json.
Local Open Scope Z_scope.

Inductive CronError :=
| InvalidFieldCount (n : nat)
| ValueOutOfRange (field : string) (value min max : Z)
| MalformedField (field reason : string).

Definition cron_error_text (e : CronError) : string :=
  match e with
  | InvalidFieldCount n => "invalid field count: expected 5, found " +:+ pretty n
  | ValueOutOfRange field value min max =>
      "field '" +:+ field +:+ "' value " +:+ pretty value +:+ " out of range (" +:+ pretty min +:+
      "..=" +:+ pretty max +:+ ")"
  | MalformedField field reason => "malformed cron field '" +:+ field +:+ "': " +:+ reason
  end.

(** ** Fields *)

Record CronField := { allowed : list Z }.

(** The loop of [slice::binary_search]: [size] shrinks by halves and [base]
    moves to the middle unless the element there is greater. *)
Fixpoint binary_loop (fuel : nat) (l : list Z) (x : Z) (base size : nat) : nat :=
  match fuel with
  | O => base
  | S fuel =>
      if (size <=? 1)%nat then base
      else let half := (size / 2)%nat in
           let mid := (base + half)%nat in
           binary_loop fuel l x (if nth mid l 0 >? x then base else mid) (size - half)
  end.

(** [slice::binary_search(&x).is_ok()] *)
Definition binary_search (l : list Z) (x : Z) : bool :=
  match l with
  | [] => false
  | _ => nth (binary_loop (length l) l x 0 (length l)) l 0 =? x
  end.

Definition contains (f : CronField) (val : Z) : bool := binary_search (allowed f) val.

(** [while v <= max { push(v); v = v.checked_add(step)? }] *)
Fixpoint step_values (fuel : nat) (step max v : Z) : list Z :=
  match fuel with
  | O => []
  | S fuel =>
      if v <=? max then
        v :: (if v + step <=? u32_max then step_values fuel step max (v + step) else [])
      else []
  end.

(** [min..=max] *)
Definition range_incl (min max : Z) : list Z := seqZ min (max - min + 1).

(** The values one element of the list adds: the body of the parser's loop. *)
Definition part_values (field : string) (min max : Z) (part : string) : result (list Z) CronError :=
  let malformed reason := MalformedField field reason in
  let out_of_range v := ValueOutOfRange field v min max in
  if is_empty part then Err (malformed "empty sub-expression in list")
  else if bool_decide (part = "*") then Ok (range_incl min max)
  else match strip_prefix "*/" part with
  | Some step_str =>
      let? step := map_err (fun e => malformed ("invalid step: " +:+ parse_int_error_text e))
                     (parse_u32 step_str) in
      if step =? 0 then Err (malformed "step must be greater than 0")
      else Ok (step_values (Z.to_nat (max - min + 1)) step max min)
  | None =>
      if contains_byte 45 part then
        match split_on "-" part with
        | start_str :: end_str :: _ =>
            let? start := map_err (fun e => malformed ("invalid range start: " +:+ parse_int_error_text e))
                            (parse_u32 start_str) in
            let? end_ := map_err (fun e => malformed ("invalid range end: " +:+ parse_int_error_text e))
                           (parse_u32 end_str) in
            if (start <? min) || (start >? max) then Err (out_of_range start)
            else if (end_ <? min) || (end_ >? max) then Err (out_of_range end_)
            else if start >? end_ then
              Err (malformed ("range start " +:+ pretty start +:+ " exceeds end " +:+ pretty end_))
            else Ok (range_incl start end_)
        | _ => Err (malformed "missing range upper bound")
        end
      else
        let? val := map_err (fun e => malformed ("invalid integer: " +:+ parse_int_error_text e))
                      (parse_u32 part) in
        if (val <? min) || (val >? max) then Err (out_of_range val)
        else Ok [val]
  end.

Fixpoint collect_parts (field : string) (min max : Z) (parts : list string)
    : result (list Z) CronError :=
  match parts with
  | [] => Ok []
  | part :: rest =>
      let? vs := part_values field min max (trim part) in
      let? more := collect_parts field min max rest in
      Ok (vs ++ more)
  end.

(** [Vec::dedup]: runs of equal neighbours become one element. *)
Fixpoint dedup (l : list Z) : list Z :=
  match l with
  | x :: ((y :: _) as rest) => if x =? y then dedup rest else x :: dedup rest
  | _ => l
  end.

Definition field_parse (expr field : string) (min max : Z) : result CronField CronError :=
  let? vs := collect_parts field min max (split_on "," expr) in
  Ok {| allowed := dedup (sort_by Z.leb vs) |}.

(** ** Schedules *)

Record CronSchedule := {
  raw : string;
  minutes : CronField;
  hours : CronField;
  days_of_month : CronField;
  months : CronField;
  days_of_week : CronField
}.

Definition schedule_parse (expr : string) : result CronSchedule CronError :=
  match split_whitespace expr with
  | [f0; f1; f2; f3; f4] =>
      let? minutes := field_parse f0 "minute" 0 59 in
      let? hours := field_parse f1 "hour" 0 23 in
      let? days_of_month := field_parse f2 "day_of_month" 1 31 in
      let? months := field_parse f3 "month" 1 12 in
      let? days_of_week := field_parse f4 "day_of_week" 0 6 in
      Ok {| raw := trim expr; minutes := minutes; hours := hours; days_of_month := days_of_month;
            months := months; days_of_week := days_of_week |}
  | fields => Err (InvalidFieldCount (length fields))
  end.

(** chrono's view of an instant, counted in nanoseconds from the epoch:
    [representable] bounds what a [DateTime<Utc>] can hold, the other fields
    are the accessors the schedule calls ([weekday] already through
    [num_days_from_sunday]). *)
Class Calendar := {
  representable : Z → bool;
  second : Z → Z;
  nanosecond : Z → Z;
  minute : Z → Z;
  hour : Z → Z;
  day : Z → Z;
  month : Z → Z;
  weekday : Z → Z
}.

Definition ns_per_ms : Z := 1000000.
Definition ns_per_sec : Z := 1000000000.
Definition ns_per_min : Z := 60 * ns_per_sec.

(** Minutes the scan looks at: [2_628_000]. *)
Definition horizon : nat := Z.to_nat 2628000.

Section Schedule.
Context `{Calendar}.

Definition matches_utc (s : CronSchedule) (dt : Z) : bool :=
  contains (minutes s) (minute dt) &&
  contains (hours s) (hour dt) &&
  contains (days_of_month s) (day dt) &&
  contains (months s) (month dt) &&
  contains (days_of_week s) (weekday dt).

(** [dt + Duration]: [None] is the panic of an instant out of range. *)
Definition dt_add (dt d : Z) : option Z :=
  if representable (dt + d) then Some (dt + d) else None.

(** The scan: [None] when the arithmetic panics. *)
Fixpoint scan (fuel : nat) (s : CronSchedule) (dt : Z) : option (option Z) :=
  match fuel with
  | O => Some None
  | S fuel =>
      if matches_utc s dt then Some (Some (dt / ns_per_ms))
      else match dt_add dt ns_per_min with
           | Some dt' => scan fuel s dt'
           | None => None
           end
  end.

Definition next_tick_ms (s : CronSchedule) (after_epoch_ms : Z) : option (option Z) :=
  let dt := after_epoch_ms * ns_per_ms in
  if representable dt then
    let remainder_sec := second dt in
    let remainder_nano := nanosecond dt in
    match dt_add dt ns_per_min with
    | Some dt1 =>
        match dt_add dt1 (- (remainder_sec * ns_per_sec)) with
        | Some dt2 =>
            match dt_add dt2 (- remainder_nano) with
            | Some dt3 => scan horizon s dt3
            | None => None
            end
        | None => None
        end
    | None => None
    end
  else Some None.
End Schedule.

(** ** Triggers *)

Record ScheduledTrigger := {
  tr_id : string;
  tr_tenant : string;
  tr_workflow_name : string;
  tr_cron_expr : string;
  tr_input : Json;
  tr_enabled : bool;
  tr_last_triggered_at_ms : option Z;
  tr_next_trigger_at_ms : option Z
}.

Section Trigger.
Context `{Calendar}.

(** [ScheduledTrigger::new] ([None]: the scan panicked). *)
Definition trigger_new (id tenant workflow_name cron_expr : string) (input : Json) (now_ms : Z)
    : option (result ScheduledTrigger CronError) :=
  match schedule_parse cron_expr with
  | Err e => Some (Err e)
  | Ok schedule =>
      match next_tick_ms schedule now_ms with
      | None => None
      | Some next =>
          Some (Ok {| tr_id := id; tr_tenant := tenant; tr_workflow_name := workflow_name;
                      tr_cron_expr := cron_expr; tr_input := input; tr_enabled := true;
                      tr_last_triggered_at_ms := None; tr_next_trigger_at_ms := next |})
      end
  end.

Definition advance_after_fire (t : ScheduledTrigger) (fired_at_ms : Z)
    : option (result (option Z) CronError * ScheduledTrigger) :=
  match schedule_parse (tr_cron_expr t) with
  | Err e => Some (Err e, t)
  | Ok schedule =>
      match next_tick_ms schedule fired_at_ms with
      | None => None
      | Some next =>
          Some (Ok next,
                {| tr_id := tr_id t; tr_tenant := tr_tenant t;
                   tr_workflow_name := tr_workflow_name t; tr_cron_expr := tr_cron_expr t;
                   tr_input := tr_input t; tr_enabled := tr_enabled t;
                   tr_last_triggered_at_ms := Some fired_at_ms;
                   tr_next_trigger_at_ms := next |})
      end
  end.

(** A driver that fires the trigger at every instant it announces, [n] times. *)
Fixpoint fires (n : nat) (t : ScheduledTrigger) : list Z :=
  match n, tr_next_trigger_at_ms t with
  | S n, Some at_ms =>
      match advance_after_fire t at_ms with
      | Some (Ok _, t') => at_ms :: fires n t'
      | _ => [at_ms]
      end
  | _, _ => []
  end.
End Trigger.

(** The proleptic Gregorian calendar, an instance of [Calendar] for concrete
    schedules: every instant is representable, and day, month and weekday come
    from the day number by the usual 400-year cycle. *)
Definition day_number (t : Z) : Z := t / (1440 * ns_per_min).

Definition civil_month_day (days : Z) : Z * Z :=
  let doe := (days + 719468) mod 146097 in
  let yoe := (doe - doe / 1460 + doe / 36524 - doe / 146096) / 365 in
  let doy := doe - (365 * yoe + yoe / 4 - yoe / 100) in
  let mp := (5 * doy + 2) / 153 in
  (if mp <? 10 then mp + 3 else mp - 9, doy - (153 * mp + 2) / 5 + 1).

Definition gregorian : Calendar := {|
  representable := fun _ => true;
  second := fun t => t / ns_per_sec mod 60;
  nanosecond := fun t => t mod ns_per_sec;
  minute := fun t => t / ns_per_min mod 60;
  hour := fun t => t / (60 * ns_per_min) mod 24;
  day := fun t => (civil_month_day (day_number t)).2;
  month := fun t => (civil_month_day (day_number t)).1;
  weekday := fun t => (day_number t + 4) mod 7
|}.

(** What one list element denotes, as the module documentation describes the
    grammar: every value, every [step]-th value, an inclusive range, a value. *)
Inductive denotes (min max : Z) : string → Z → Prop :=
| denotes_any v : min ≤ v ≤ max → denotes min max "*" v
| denotes_step s step i v : parse_u32 s = Ok step → 0 < step → 0 ≤ i → v = min + i * step →
    v ≤ max → denotes min max ("*/" +:+ s) v
| denotes_range part a b rest lo hi v : split_on "-" part = a :: b :: rest →
    parse_u32 a = Ok lo → parse_u32 b = Ok hi → min ≤ lo → hi ≤ max → lo ≤ v ≤ hi →
    denotes min max part v
| denotes_value part v : parse_u32 part = Ok v → min ≤ v ≤ max → denotes min max part v.

(** ** Binary search *)

Lemma binary_loop_inv fuel l x base size i : (size ≤ S fuel)%nat → (1 ≤ size)%nat →
  (base + size ≤ length l)%nat → StronglySorted Z.lt l →
  let b := binary_loop fuel l x base size in
  (b < length l)%nat ∧ (l !! i = Some x → (base ≤ i < base + size)%nat → b = i).
Proof.
  revert base size. induction fuel as [|fuel IH]; intros base size Hf H1 Hlen Hs; cbn.
  { split; [lia|]. intros. lia. }
  destruct (Nat.leb_spec size 1); [split; [lia|intros; lia]|].
  set (half := (size / 2)%nat).
  assert (1 ≤ half < size ∧ half + half ≤ size)%nat as [Hhalf Htwo].
  { unfold half. pose proof (Nat.div_mod_eq size 2). pose proof (Nat.mod_upper_bound size 2). lia. }
  destruct (lookup_lt_is_Some_2 l (base + half)) as [m Hm]; [lia|].
  rewrite (nth_lookup_Some _ _ _ _ Hm). rewrite Z.gtb_ltb.
  destruct (Z.ltb_spec x m) as [Hlt|Hge];
    [destruct (IH base (size - half)%nat) as [Hb Hi]
    |destruct (IH (base + half)%nat (size - half)%nat) as [Hb Hi]];
    try lia; try done; (split; [exact Hb|]); intros Hx Hr; apply Hi; try done.
  - destruct (decide (i < base + half)%nat); [lia|].
    destruct (decide (i = base + half)%nat) as [->|]; [simplify_eq; lia|].
    pose proof (StronglySorted_lookup _ _ _ _ _ _ Hs Hm Hx). lia.
  - destruct (decide (base + half ≤ i)%nat); [lia|].
    pose proof (StronglySorted_lookup _ _ _ _ _ _ Hs Hx Hm). lia.
Qed.

Lemma binary_search_spec l x : StronglySorted Z.lt l → binary_search l x = true ↔ x ∈ l.
Proof.
  intros Hs. unfold binary_search. destruct l as [|y l']; [by rewrite elem_of_nil|].
  set (l := y :: l') in *. assert (1 ≤ length l)%nat by (cbn; lia).
  rewrite Z.eqb_eq. split.
  - intros <-. destruct (binary_loop_inv (length l) l x 0 (length l) 0) as [Hb _]; [lia..|done|].
    apply list_elem_of_In, nth_In, Hb.
  - intros [i Hi]%list_elem_of_lookup. pose proof (lookup_lt_Some _ _ _ Hi).
    destruct (binary_loop_inv (length l) l x 0 (length l) i) as [_ Hb]; [lia..|done|].
    rewrite Hb by (done || lia). by apply nth_lookup_Some.
Qed.

#[local] Instance Zleb_trans : Transitive (fun a b => Is_true (Z.leb a b)).
Proof. intros a b c H1%Is_true_true_1 H2%Is_true_true_1. apply Is_true_true_2. lia. Qed.

#[local] Instance Zleb_total : Total (fun a b => Is_true (Z.leb a b)).
Proof.
  intros a b. destruct (Z.leb_spec a b); [left|right]; apply Is_true_true_2; lia.
Qed.

Lemma dedup_cons a b l :
  dedup (a :: b :: l) = if a =? b then dedup (b :: l) else a :: dedup (b :: l).
Proof. done. Qed.

Lemma dedup_elem l x : x ∈ dedup l ↔ x ∈ l.
Proof.
  induction l as [|a [|b l] IH]; [done..|]. rewrite dedup_cons.
  destruct (Z.eqb_spec a b) as [->|]; rewrite ?elem_of_cons, IH, !elem_of_cons; naive_solver.
Qed.

Lemma dedup_sorted l : StronglySorted (fun a b => Is_true (Z.leb a b)) l →
  StronglySorted Z.lt (dedup l).
Proof.
  induction l as [|a [|b l] IH]; intros Hs; [constructor|repeat constructor|].
  apply StronglySorted_inv in Hs as [Hs Ha]. rewrite dedup_cons. specialize (IH Hs).
  destruct (Z.eqb_spec a b); [done|]. constructor; [done|]. apply Forall_forall.
  intros y Hy. apply (proj1 (dedup_elem _ _)) in Hy. apply StronglySorted_inv in Hs as [_ Hb].
  rewrite Forall_cons in Ha. destruct Ha as [Hab _]. rewrite Forall_forall in Hb.
  apply elem_of_cons in Hy as [->|Hy%Hb]; apply Is_true_true_1 in Hab; to_prop; [lia|].
  apply Is_true_true_1 in Hy. to_prop. lia.
Qed.

(** ** Fields *)

Lemma range_incl_elem min max v : v ∈ range_incl min max ↔ min ≤ v ≤ max.
Proof. unfold range_incl. rewrite elem_of_seqZ. lia. Qed.

Lemma step_values_elem fuel step max v x : 0 < step → max ≤ u32_max → max < v + Z.of_nat fuel →
  x ∈ step_values fuel step max v ↔ ∃ i, 0 ≤ i ∧ x = v + i * step ∧ x ≤ max.
Proof.
  intros Hs Hm. revert v. induction fuel as [|fuel IH]; intros v Hf; cbn [step_values].
  { rewrite elem_of_nil. split; [done|]. intros (i & ? & -> & ?). nia. }
  destruct (Z.leb_spec v max).
  2: { rewrite elem_of_nil. split; [done|]. intros (i & ? & -> & ?). nia. }
  rewrite elem_of_cons.
  assert (x ∈ (if v + step <=? u32_max then step_values fuel step max (v + step) else [])
          ↔ ∃ i, 0 ≤ i ∧ x = v + step + i * step ∧ x ≤ max) as ->.
  { destruct (Z.leb_spec (v + step) u32_max); [apply IH; lia|].
    rewrite elem_of_nil. split; [done|]. intros (i & ? & -> & ?). nia. }
  split.
  - intros [->|(i & ? & -> & ?)]; [exists 0; lia|exists (i + 1); lia].
  - intros (i & ? & -> & ?). destruct (decide (i = 0)) as [->|]; [left; lia|].
    right. exists (i - 1). lia.
Qed.

(** A number has no star, no dash and at least one byte. *)
Lemma parse_u32_plain s n : parse_u32 s = Ok n →
  s ≠ EmptyString ∧ (42 ∉ as_bytes s) ∧ (45 ∉ as_bytes s).
Proof.
  intros H. split_and!; [by intros ->|..];
    intros Hb; destruct (parse_u32_bytes _ _ _ H Hb) as [|]; done.
Qed.

(** [split('-')] gives a second piece exactly when there is a dash. *)
Lemma split_dash part :
  contains_byte 45 part = true ↔ ∃ a b rest, split_on "-" part = a :: b :: rest.
Proof.
  rewrite contains_byte_spec. induction part as [|c part IH]; cbn [as_bytes split_on].
  { rewrite elem_of_nil. split; [done|]. by intros (? & ? & ? & ?). }
  rewrite elem_of_cons. case_bool_decide as Hc.
  - subst. split; [|by left]. intros _. destruct (split_on_cons "-" part) as (p & ps & ->). eauto.
  - destruct (split_on_cons "-" part) as (p & ps & E). rewrite E in *.
    assert (45 ≠ byte_of c).
    { intros Heq. apply Hc. rewrite <- (ascii_of_byte_of c), <- Heq. done. }
    rewrite IH. split.
    + intros [?|(a & b & rest & [= -> ->])]; [done|eauto].
    + intros (a & b & rest & [= <- ->]). eauto 10.
Qed.

(** What starts with a star is neither a number nor a range of numbers. *)
Lemma star_no_number s n : parse_u32 ("*" +:+ s) ≠ Ok n.
Proof. intros H. destruct (parse_u32_plain _ _ H) as (_ & Hn & _). apply Hn. left. Qed.

Lemma star_no_range s a ps n : split_on "-" ("*" +:+ s) = a :: ps → parse_u32 a ≠ Ok n.
Proof.
  change ("*" +:+ s) with (String "*" s). cbn [split_on].
  rewrite bool_decide_eq_false_2 by done.
  destruct (split_on_cons "-" s) as (p & qs & ->). intros [= <- ->]. apply star_no_number.
Qed.

(** A strict prefix of the grammar, by the shape of the element. *)
Lemma denotes_star min max v : denotes min max "*" v ↔ min ≤ v ≤ max.
Proof.
  split; [|by constructor].
  inversion 1 as [|? step i|? ? ? ? ? ? ? Hs Ha|? ? Hp]; simplify_eq; done.
Qed.

Lemma denotes_stepped min max s v : denotes min max ("*/" +:+ s) v ↔
  ∃ step i, parse_u32 s = Ok step ∧ 0 < step ∧ 0 ≤ i ∧ v = min + i * step ∧ v ≤ max.
Proof.
  split; [|intros (step & i & ? & ? & ? & ? & ?); by econstructor].
  inversion 1 as [|? step i|? ? ? ? ? ? ? Hs Ha|? ? Hp]; simplify_eq; [by eexists _, _|].
  exfalso. by eapply (star_no_range (String "/" s)).
Qed.

Lemma denotes_other min max part v : part ≠ "*" → strip_prefix "*/" part = None →
  denotes min max part v ↔
  (contains_byte 45 part = true ∧ ∃ a b rest lo hi, split_on "-" part = a :: b :: rest ∧
    parse_u32 a = Ok lo ∧ parse_u32 b = Ok hi ∧ min ≤ lo ∧ hi ≤ max ∧ lo ≤ v ≤ hi) ∨
  (contains_byte 45 part = false ∧ parse_u32 part = Ok v ∧ min ≤ v ≤ max).
Proof.
  intros Hstar Hstep. split.
  - inversion 1 as [|s step i|? a b rest lo hi ? Hs|? ? Hp]; subst; [done| | |].
    + exfalso. unfold strip_prefix in Hstep. by rewrite starts_with_app in Hstep.
    + left. split; [apply split_dash; eauto|]. by eexists _, _, _, _, _.
    + right. split; [|done]. apply not_true_iff_false. rewrite contains_byte_spec.
      apply (parse_u32_plain _ _ Hp).
  - intros [(_ & a & b & rest & lo & hi & ?)|(_ & ?)]; destruct_and!;
      [by eapply denotes_range|by apply denotes_value].
Qed.

(** One element: the values computed are the values denoted, and an element is
    refused exactly when it denotes nothing. *)
Definition denoted_by (min max : Z) (part : string) (r : result (list Z) CronError) : Prop :=
  match r with
  | Ok vs => vs ≠ [] ∧ ∀ v, v ∈ vs ↔ denotes min max part v
  | Err _ => ∀ v, ¬ denotes min max part v
  end.

Lemma denoted_by_ok min max part vs x : x ∈ vs → (∀ v, v ∈ vs ↔ denotes min max part v) →
  denoted_by min max part (Ok vs).
Proof. intros Hx Hv. split; [|done]. intros ->. by apply elem_of_nil in Hx. Qed.

Section Part.
Context (field : string) (min max : Z) (Hmin : 0 ≤ min ≤ max) (Hmax : max ≤ u32_max).

Lemma step_part_spec s : denoted_by min max ("*/" +:+ s) (part_values field min max ("*/" +:+ s)).
Proof.
  unfold part_values. cbv zeta. rewrite (bool_decide_eq_false_2 ("*/" +:+ s = "*")) by done.
  change (is_empty ("*/" +:+ s)) with false. unfold strip_prefix.
  rewrite starts_with_app, str_drop_app. cbv iota.
  destruct (parse_u32 s) as [step|e] eqn:Hn; cbn [map_err rbind denoted_by].
  2: { intros v (step & i & ? & _)%denotes_stepped. congruence. }
  pose proof (parse_u32_range _ _ Hn) as [? _].
  destruct (Z.eqb_spec step 0) as [->|].
  { intros v (step & i & ? & ? & _)%denotes_stepped. rewrite Hn in *. simplify_eq. lia. }
  assert (∀ v, v ∈ step_values (Z.to_nat (max - min + 1)) step max min ↔
    denotes min max ("*/" +:+ s) v) as Hv.
  { intros v. rewrite step_values_elem, denotes_stepped, Hn by lia. split.
    - intros (i & ? & ? & ?). exists step, i. split_and!; [done|lia..].
    - intros (? & i & [= <-] & ? & ? & ? & ?). by exists i. }
  eapply (denoted_by_ok _ _ _ _ min), Hv. apply Hv, denotes_stepped. exists step, 0.
  split_and!; [done|lia..].
Qed.

Lemma range_part_spec part : part ≠ "*" → strip_prefix "*/" part = None →
  contains_byte 45 part = true → denoted_by min max part (part_values field min max part).
Proof.
  intros Hstar Hstep Hdash. pose proof (proj1 (split_dash part) Hdash) as (a & b & rest & Hs).
  assert (is_empty part = false) as He by (apply bool_decide_eq_false_2; by intros ->).
  assert (∀ v, denotes min max part v ↔ ∃ lo hi, parse_u32 a = Ok lo ∧ parse_u32 b = Ok hi ∧
    min ≤ lo ∧ hi ≤ max ∧ lo ≤ v ≤ hi) as Hd.
  { intros v. rewrite denotes_other, Hdash, Hs by done. naive_solver. }
  unfold part_values. cbv zeta. rewrite He, bool_decide_eq_false_2, Hstep, Hdash, Hs by done.
  destruct (parse_u32 a) as [lo|] eqn:Ha; cbn [map_err rbind]; [|intros v ?%Hd; naive_solver].
  destruct (parse_u32 b) as [hi|] eqn:Hb; cbn [map_err rbind]; [|intros v ?%Hd; naive_solver].
  assert (∀ v, denotes min max part v ↔ min ≤ lo ∧ hi ≤ max ∧ lo ≤ v ≤ hi) as Hd'.
  { intros v. rewrite Hd. split; [intros (? & ? & [= <-] & [= <-] & ?)|intros ?; exists lo, hi]; tauto. }
  destruct ((lo <? min) || (lo >? max)) eqn:E1; [intros v ?%Hd'; lia|].
  destruct ((hi <? min) || (hi >? max)) eqn:E2; [intros v ?%Hd'; lia|].
  destruct (lo >? hi) eqn:E3; [intros v ?%Hd'; lia|].
  apply (denoted_by_ok _ _ _ _ lo); [apply range_incl_elem; lia|].
  intros v. rewrite range_incl_elem, Hd'. lia.
Qed.

Lemma value_part_spec part : part ≠ "*" → strip_prefix "*/" part = None →
  contains_byte 45 part = false → denoted_by min max part (part_values field min max part).
Proof.
  intros Hstar Hstep Hdash.
  assert (∀ v, denotes min max part v ↔ parse_u32 part = Ok v ∧ min ≤ v ≤ max) as Hd.
  { intros v. rewrite denotes_other, Hdash by done. naive_solver. }
  unfold part_values. cbv zeta. destruct (is_empty part) eqn:He.
  { apply bool_decide_eq_true in He as ->. intros v [? _]%Hd. done. }
  rewrite bool_decide_eq_false_2, Hstep, Hdash by done.
  destruct (parse_u32 part) as [n|] eqn:Hn; cbn [map_err rbind]; [|intros v ?%Hd; naive_solver].
  destruct ((n <? min) || (n >? max)) eqn:E; [intros v [[= <-] ?]%Hd; lia|].
  apply (denoted_by_ok _ _ _ _ n); [by left|].
  intros v. rewrite list_elem_of_singleton, Hd. split; [intros ->; split; [done|lia]|naive_solver].
Qed.

Lemma part_values_spec part : denoted_by min max part (part_values field min max part).
Proof.
  destruct (decide (part = "*")) as [->|Hstar].
  { apply (denoted_by_ok _ _ _ _ min); [apply range_incl_elem; lia|].
    intros v. by rewrite denotes_star, range_incl_elem. }
  destruct (strip_prefix "*/" part) as [s|] eqn:Hstep.
  { unfold strip_prefix in Hstep. case_match eqn:Hp; [|done].
    apply starts_with_spec in Hp as [t ->]. apply step_part_spec. }
  destruct (contains_byte 45 part) eqn:Hdash; [by apply range_part_spec|by apply value_part_spec].
Qed.

Lemma collect_parts_spec parts :
  match collect_parts field min max parts with
  | Ok vs => (∀ p, p ∈ parts → ∃ v, denotes min max (trim p) v) ∧
             ∀ v, v ∈ vs ↔ ∃ p, p ∈ parts ∧ denotes min max (trim p) v
  | Err _ => ∃ p, p ∈ parts ∧ ∀ v, ¬ denotes min max (trim p) v
  end.
Proof.
  induction parts as [|p parts IH]; cbn [collect_parts].
  { split; [by intros p ?%elem_of_nil|]. intros v. rewrite elem_of_nil.
    split; [done|]. by intros (p & ?%elem_of_nil & _). }
  pose proof (part_values_spec (trim p)) as Hp.
  destruct (part_values field min max (trim p)) as [vs|e]; cbn [rbind].
  2: { exists p. split; [by left|done]. }
  destruct Hp as [Hne Hp].
  destruct (collect_parts field min max parts) as [more|e]; cbn [rbind].
  2: { destruct IH as (q & ? & ?). exists q. split; [by right|done]. }
  destruct IH as [IH1 IH2]. split.
  - intros q [->|Hq]%elem_of_cons; [|by apply IH1].
    destruct vs as [|v vs]; [done|]. exists v. apply Hp. by left.
  - intros v. rewrite elem_of_app, Hp, IH2. setoid_rewrite elem_of_cons. naive_solver.
Qed.
End Part.

(** A value denoted by an element is a legal value of the field. *)
Lemma denotes_range_ok min max part v : denotes min max part v → min ≤ v ≤ max.
Proof. destruct 1; try lia; nia. Qed.

(** C25. [CronField::parse] accepts a field exactly when every comma-separated
    element denotes at least one value of the field; the accepted set is then
    strictly increasing, within the bounds of the field, and
    [CronField::contains] (a binary search) answers whether some element denotes
    the value. *)
Theorem field_parse_spec expr field min max : 0 ≤ min ≤ max → max ≤ u32_max →
  (is_ok (field_parse expr field min max) = true ↔
   ∀ p, p ∈ split_on "," expr → ∃ v, denotes min max (trim p) v) ∧
  ∀ f, field_parse expr field min max = Ok f →
    StronglySorted Z.lt (allowed f) ∧ Forall (fun v => min ≤ v ≤ max) (allowed f) ∧
    ∀ v, contains f v = true ↔ ∃ p, p ∈ split_on "," expr ∧ denotes min max (trim p) v.
Proof.
  intros Hmin Hmax. unfold field_parse.
  pose proof (collect_parts_spec field min max Hmin Hmax (split_on "," expr)) as Hc.
  destruct (collect_parts field min max (split_on "," expr)) as [vs|e]; cbn [rbind is_ok].
  2: { destruct Hc as (p & Hp & Hno). split; [|done]. split; [done|]. intros Hall.
       destruct (Hall p Hp) as [v ?%Hno]. done. }
  destruct Hc as [Hall Hv]. split; [done|]. intros f [= <-]. cbn [allowed].
  assert (StronglySorted Z.lt (dedup (sort_by Z.leb vs))) as Hs.
  { apply dedup_sorted, sort_by_sorted; apply _. }
  split_and!; [done| |].
  - apply Forall_forall. intros v. rewrite dedup_elem, sort_by_elem, Hv.
    intros (p & _ & Hd). by apply denotes_range_ok in Hd.
  - intros v. unfold contains. cbn [allowed]. by rewrite binary_search_spec, dedup_elem, sort_by_elem.
Qed.

Lemma field_parse_spec_witness :
  (contains (match field_parse "*/20, 7,30-31" "minute" 0 59 with Ok f => f | Err _ => {| allowed := [] |} end)
     31 = true ↔ ∃ p, p ∈ split_on "," "*/20, 7,30-31" ∧ denotes 0 59 (trim p) 31).
Proof.
  destruct (field_parse_spec "*/20, 7,30-31" "minute" 0 59) as [_ H]; [done..|].
  exact (proj2 (proj2 (H {| allowed := [0; 7; 20; 30; 31; 40] |} eq_refl)) 31).
Defined.

(** ** The scan *)

Section NextTick.
Context `{Calendar}.
Context (Hsecond : ∀ t, second t = t / ns_per_sec mod 60).
Context (Hnano : ∀ t, nanosecond t = t mod ns_per_sec).

(** No whole minute of the half-open range of minute numbers matches. *)
Definition quiet (s : CronSchedule) (lo hi : Z) : Prop :=
  ∀ j, lo ≤ j < hi → matches_utc s (j * ns_per_min) = false.

Lemma scan_spec fuel s k :
  (∀ j, k ≤ j ≤ k + Z.of_nat fuel → representable (j * ns_per_min) = true) →
  (∃ j, scan fuel s (k * ns_per_min) = Some (Some (j * 60000)) ∧ k ≤ j < k + Z.of_nat fuel ∧
        matches_utc s (j * ns_per_min) = true ∧ quiet s k j) ∨
  (scan fuel s (k * ns_per_min) = Some None ∧ quiet s k (k + Z.of_nat fuel)).
Proof.
  revert k. induction fuel as [|fuel IH]; intros k Hr; cbn [scan].
  { right. split; [done|]. intros j ?. lia. }
  destruct (matches_utc s (k * ns_per_min)) eqn:Hm.
  { left. exists k. split_and!; [|lia..|done|intros j ?; lia].
    do 2 f_equal. unfold ns_per_min, ns_per_sec, ns_per_ms.
    rewrite <- (Z.div_mul (k * 60000) 1000000) by done. f_equal. lia. }
  assert (k * ns_per_min + ns_per_min = (k + 1) * ns_per_min) as E by lia.
  unfold dt_add. rewrite E, Hr by lia.
  assert (∀ hi, quiet s (k + 1) hi → quiet s k hi) as Hq.
  { intros hi Hq j Hj. destruct (decide (j = k)) as [->|]; [done|]. apply Hq. lia. }
  destruct (IH (k + 1)) as [(j & -> & ? & ? & ?)|[-> ?]]; [intros; apply Hr; lia|left; exists j|right].
  - split_and!; [done|lia..|done|auto].
  - split; [done|]. apply Hq. intros j ?. apply H0. lia.
Qed.

(** The scan starts at the first whole minute after the given instant. *)
Lemma next_tick_scan s after :
  (∀ t, after * ns_per_ms ≤ t ≤ after * ns_per_ms + ns_per_min → representable t = true) →
  next_tick_ms s after = scan horizon s ((after / 60000 + 1) * ns_per_min).
Proof.
  intros Hr. unfold next_tick_ms, dt_add.
  set (dt := after * ns_per_ms) in *.
  assert (0 ≤ second dt * ns_per_sec + nanosecond dt < ns_per_min ∧
          dt + ns_per_min + - (second dt * ns_per_sec) + - nanosecond dt =
            (after / 60000 + 1) * ns_per_min ∧
          0 ≤ second dt * ns_per_sec ∧ 0 ≤ nanosecond dt) as (Hb & He & Hs & Hn).
  { rewrite Hsecond, Hnano. unfold ns_per_min, ns_per_sec, ns_per_ms in *.
    assert (dt = after * 1000000) as Hdt by done. clearbody dt. clear Hr.
    Z.div_mod_to_equations. lia. }
  rewrite !Hr by (unfold ns_per_min, ns_per_sec in *; lia). by rewrite He.
Qed.

Lemma horizon_Z : Z.of_nat horizon = 2628000.
Proof. unfold horizon. by rewrite Z2Nat.id. Qed.

(** Instants the scan can touch from [after] on. *)
Definition scan_room (after : Z) : Prop :=
  ∀ t, after * ns_per_ms ≤ t ≤ after * ns_per_ms + 2628001 * ns_per_min → representable t = true.

Lemma next_tick_cases s after : scan_room after →
  (∃ j, next_tick_ms s after = Some (Some (j * 60000)) ∧
        after < j * 60000 ≤ after + 2628000 * 60000 ∧ matches_utc s (j * ns_per_min) = true ∧
        ∀ i, after < i * 60000 < j * 60000 → matches_utc s (i * ns_per_min) = false) ∨
  (next_tick_ms s after = Some None ∧
   ∀ i, after < i * 60000 ≤ after + 2628000 * 60000 → matches_utc s (i * ns_per_min) = false).
Proof.
  intros Hr. rewrite next_tick_scan.
  2: { intros t Ht. apply Hr. unfold ns_per_min, ns_per_sec in *. lia. }
  set (k := after / 60000 + 1).
  assert (60000 * (k - 1) ≤ after < 60000 * k) as Hk.
  { clear Hr. unfold k. Z.div_mod_to_equations. lia. }
  pose proof horizon_Z as Hz.
  destruct (scan_spec horizon s k) as [(j & -> & Hj & Hm & Hq)|[-> Hq]].
  - intros j Hj. apply Hr. unfold ns_per_min, ns_per_sec, ns_per_ms. lia.
  - left. exists j. split_and!; [done|lia..|done|]. intros i Hi. apply Hq. lia.
  - right. split; [done|]. intros i Hi. apply Hq. lia.
Qed.

(** C24. [CronSchedule::next_tick_ms] terminates and returns the first matching
    whole minute strictly after the given instant, provided one lies within
    2,628,000 minutes; it returns [None] only when no minute of that window
    matches. *)
Theorem next_tick_first s after : scan_room after →
  match next_tick_ms s after with
  | Some (Some t) =>
      after < t ≤ after + 2628000 * 60000 ∧ t mod 60000 = 0 ∧ matches_utc s (t * ns_per_ms) = true ∧
      ∀ t', after < t' < t → t' mod 60000 = 0 → matches_utc s (t' * ns_per_ms) = false
  | Some None =>
      ∀ t', after < t' ≤ after + 2628000 * 60000 → t' mod 60000 = 0 →
            matches_utc s (t' * ns_per_ms) = false
  | None => False
  end.
Proof.
  intros Hr.
  assert (∀ j, j * 60000 * ns_per_ms = j * ns_per_min) as E.
  { intros j. unfold ns_per_min, ns_per_sec, ns_per_ms. lia. }
  assert (∀ t, t mod 60000 = 0 → t = t / 60000 * 60000) as Em.
  { intros t Ht. Z.div_mod_to_equations. lia. }
  destruct (next_tick_cases s after Hr) as [(j & -> & Hj & Hm & Hq)|[-> Hq]].
  - rewrite E. split_and!; [lia..|apply Z_mod_mult|done|].
    intros t' Ht' Ht%Em. rewrite Ht, E. apply Hq. lia.
  - intros t' Ht' Ht%Em. rewrite Ht, E. apply Hq. lia.
Qed.

(** The trigger's announced instants from a state whose schedule parses to [s]
    and whose next tick was computed at [now]. *)
Lemma fires_complete s n t now : schedule_parse (tr_cron_expr t) = Ok s →
  next_tick_ms s now = Some (tr_next_trigger_at_ms t) →
  (∀ after, now ≤ after ≤ now + Z.of_nat n * (2628000 * 60000) → scan_room after) →
  StronglySorted Z.lt (fires n t) ∧ Forall (fun x => now < x) (fires n t) ∧
  ∀ j last, now < j * 60000 ≤ last → last ∈ fires n t →
    (j * 60000 ∈ fires n t ↔ matches_utc s (j * ns_per_min) = true).
Proof.
  intros Hs. revert t now Hs. induction n as [|n IH]; intros t now Hs Hnext Hr; cbn [fires].
  { split_and!; [constructor..|]. by intros j last _ ?%elem_of_nil. }
  destruct (next_tick_cases s now) as [(k & Hk & Hnow & Hm & Hq)|[Hk Hq]]; [apply Hr; lia|..];
    rewrite Hk in Hnext; injection Hnext as <-.
  2: { split_and!; [constructor..|]. by intros j last _ ?%elem_of_nil. }
  assert (∃ r, next_tick_ms s (k * 60000) = Some r) as [r Hr'].
  { destruct (next_tick_cases s (k * 60000)) as [(? & -> & _)|[-> _]]; [apply Hr; lia|eauto..]. }
  unfold advance_after_fire. rewrite Hs, Hr'. cbv iota beta.
  match goal with |- context [fires n ?u] => set (t' := u) end.
  destruct (IH t' (k * 60000)) as (Hsort & Hlow & Hall); [done..|intros; apply Hr; lia|].
  rewrite Forall_forall in Hlow. split_and!.
  - constructor; [done|]. by apply Forall_forall.
  - constructor; [lia|]. apply Forall_forall. intros x ?%Hlow. lia.
  - intros j last Hj Hlast. rewrite elem_of_cons.
    destruct (Z.lt_trichotomy j k) as [|[->|]].
    + rewrite Hq by lia. split; [|done]. intros [?|?%Hlow]; lia.
    + split; [done|by left].
    + apply elem_of_cons in Hlast as [->|Hlast]; [lia|]. rewrite <- (Hall j last) by (done || lia).
      split; [intros [?|?]; [lia|done]|by right].
Qed.

(** A trigger created at [now] and advanced after each announced firing
    never fails to advance, fires at strictly increasing instants after [now],
    and up to its last firing fires at a whole minute exactly when the schedule
    matches it: no match is skipped and no other minute is announced. *)
Theorem trigger_fires id tenant wf expr input now t n :
  trigger_new id tenant wf expr input now = Some (Ok t) →
  (∀ after, now ≤ after ≤ now + Z.of_nat n * (2628000 * 60000) → scan_room after) →
  ∃ s, schedule_parse expr = Ok s ∧
  StronglySorted Z.lt (fires n t) ∧ Forall (fun x => now < x) (fires n t) ∧
  ∀ j last, now < j * 60000 ≤ last → last ∈ fires n t →
    (j * 60000 ∈ fires n t ↔ matches_utc s (j * 60000 * ns_per_ms) = true).
Proof.
  unfold trigger_new. intros Hnew Hr.
  destruct (schedule_parse expr) as [s|e] eqn:Hs; [|done].
  destruct (next_tick_ms s now) as [r|] eqn:Hn; [|done]. injection Hnew as <-.
  exists s. split; [done|].
  match goal with |- context [fires n ?u] =>
    destruct (fires_complete s n u now Hs Hn Hr) as (? & ? & Hall) end.
  split_and!; [done..|]. intros j last Hj Hl. rewrite (Hall j last Hj Hl).
  replace (j * 60000 * ns_per_ms) with (j * ns_per_min)
    by (unfold ns_per_min, ns_per_sec, ns_per_ms; lia). done.
Qed.
End NextTick.

Lemma gregorian_room after : scan_room (H := gregorian) after.
Proof. by intros t _. Qed.

(** [0 0 29 2 *] from 28 February 1972, 00:00:05.250, which had a leap day. *)
Definition leap_day : CronSchedule := {|
  raw := "0 0 29 2 *"; minutes := {| allowed := [0] |}; hours := {| allowed := [0] |};
  days_of_month := {| allowed := [29] |}; months := {| allowed := [2] |};
  days_of_week := {| allowed := [0; 1; 2; 3; 4; 5; 6] |} |}.

Lemma next_tick_first_witness :
  schedule_parse "0 0 29 2 *" = Ok leap_day ∧
  next_tick_ms (H := gregorian) leap_day 68083205250 = Some (Some 68169600000) ∧
  matches_utc (H := gregorian) leap_day (68169600000 * ns_per_ms) = true.
Proof.
  assert (next_tick_ms (H := gregorian) leap_day 68083205250 = Some (Some 68169600000)) as E
    by (vm_compute; reflexivity).
  pose proof (next_tick_first (H := gregorian) (fun _ => eq_refl) (fun _ => eq_refl) leap_day
    68083205250 (gregorian_room _)) as T.
  rewrite E in T. split; [reflexivity|]. split; [exact E|]. exact (proj1 (proj2 (proj2 T))).
Defined.

Definition weekday_report : ScheduledTrigger := {|
  tr_id := "tr_1"; tr_tenant := "acme"; tr_workflow_name := "report";
  tr_cron_expr := "30 9 * * 1-5"; tr_input := JNull; tr_enabled := true;
  tr_last_triggered_at_ms := None; tr_next_trigger_at_ms := Some 34200000 |}.

(** The epoch is a Thursday: the third firing is on Monday. *)
Lemma trigger_fires_witness :
  fires (H := gregorian) 3 weekday_report = [34200000; 120600000; 379800000] ∧
  StronglySorted Z.lt (fires (H := gregorian) 3 weekday_report).
Proof.
  split; [vm_compute; reflexivity|].
  destruct (trigger_fires (H := gregorian) (fun _ => eq_refl) (fun _ => eq_refl)
    "tr_1" "acme" "report" "30 9 * * 1-5" JNull 0 weekday_report 3) as (s & _ & Hs & _).
  - vm_compute. reflexivity.
  - intros after _. apply gregorian_room.
  - exact Hs.
Defined.
