(* ===== verification/Sampled.v ===== *)
(** * The properties the repository samples, for all inputs
    (src/tests/proptest_dag.rs, proptest_cron.rs, proptest_backoff.rs, proptest_expr.rs)

    The repository states properties of the graph ordering, the schedules, the backoff and
    the templates and has a test generator sample their inputs from bounded ranges. Here
    each of them is a lemma about the translated code, for every input the generators could
    draw and, where the property allows it, far beyond their ranges. *)
From stdpp Require Import pretty.
From S2P Require Import Prelude RustStrings Text Ids Errors Float64 FloatOrder Json Expr ExprSpec RetryPolicy Workflow Dag Cron.

(** ** Ordering (proptest_dag.rs) *)

Lemma precedes_antisym {A} (l : list A) : NoDup l → AntiSymm (=) (precedes l).
Proof. intros Hnd x y Hxy Hyx. destruct (precedes_irrefl l x Hnd). by eapply precedes_trans. Qed.

Lemma lookup_sorted {A} (R : A → A → Prop) (l : list A) :
  (∀ i j x y, i < j → l !! i = Some x → l !! j = Some y → R x y) → StronglySorted R l.
Proof.
  induction l as [|x l IH]; intros Hord; constructor.
  - apply IH. intros i j a b Hij Ha Hb. by apply (Hord (S i) (S j)); [lia|..].
  - apply Forall_forall. intros y [j Hj]%list_elem_of_lookup. by apply (Hord 0 (S j)); [lia|..].
Qed.

(** A list without duplicates is determined by its elements and their order. *)
Lemma precedes_unique {A} (l1 l2 : list A) : NoDup l1 → NoDup l2 → (∀ x, x ∈ l1 ↔ x ∈ l2) →
  (∀ i j x y, i < j → l1 !! i = Some x → l1 !! j = Some y → precedes l2 x y) → l1 = l2.
Proof.
  intros H1 H2 Hel Hord. pose proof (precedes_antisym l2 H2).
  apply (StronglySorted_unique (precedes l2)); [| |by apply NoDup_Permutation]; apply lookup_sorted; [done|].
  intros i j x y Hij Hx Hy. by exists i, j.
Qed.

(** Tasks that only depend on tasks listed before them. *)
Definition forward (tasks : list TaskSpec) : Prop :=
  ∀ i t d, tasks !! i = Some t → d ∈ ts_depends_on t → d ∈ take i (map ts_name tasks).

(** [arbitrary_forward_dag_produces_valid_topological_sort] *)
Lemma forward_ordered tasks : NoDup (map ts_name tasks) → forward tasks →
  ∃ l, topo_order tasks = Ok l ∧ l ≡ₚ map ts_name tasks ∧ ∀ n d, depends tasks n d → precedes l d n.
Proof.
  intros Hnd Hf. assert (Hp : ∀ n d, depends tasks n d → precedes (map ts_name tasks) d n).
  { intros n d (t&[i Hi]%list_elem_of_lookup&<-&Hd). pose proof (Hf i t d Hi Hd) as [j Hj]%list_elem_of_lookup.
    apply lookup_take_Some in Hj as [Hj Hlt]. exists j, i. split; [done|]. split; [done|].
    apply list_lookup_fmap_Some. by exists t. }
  assert (Hac : is_acyclic tasks = true).
  { apply is_acyclic_spec. split; [|by apply (precedes_acyclic (map ts_name tasks))].
    intros n d (i&j&_&Hd&_)%Hp. apply list_lookup_fmap_Some in Hd as (t&->&Ht). exists t. split; [|done].
    by eapply list_elem_of_lookup_2. }
  unfold is_acyclic in Hac. destruct (topo_order tasks) as [l|] eqn:Hl; [|done]. exists l.
  apply topo_order_spec in Hl as (Hndl&Hel&Hpl). split; [done|]. split; [|done].
  apply NoDup_Permutation; [done..|]. intros n. rewrite Hel, list_elem_of_fmap. unfold named. naive_solver.
Qed.

(** Each task depends on the one before it. *)
Fixpoint linked (deps names : list string) : list TaskSpec :=
  match names with
  | [] => []
  | name :: rest => bare_task name deps :: linked [name] rest
  end.

Lemma linked_names deps names : map ts_name (linked deps names) = names.
Proof. revert deps. induction names as [|n names IH]; intros deps; cbn; [done|]. by rewrite IH. Qed.

Lemma linked_lookup deps names i t : linked deps names !! i = Some t →
  names !! i = Some (ts_name t) ∧
  match i with O => ts_depends_on t = deps | S k => ∃ p, names !! k = Some p ∧ ts_depends_on t = [p] end.
Proof.
  revert deps i. induction names as [|n names IH]; intros deps [|i]; cbn; [done..|by intros [= <-]|].
  intros [Hn Hd]%IH. split; [done|]. destruct i as [|i]; [by exists n|done].
Qed.

Lemma linked_depends deps names i p n : names !! i = Some p → names !! S i = Some n → depends (linked deps names) n p.
Proof.
  intros Hp Hn. rewrite <-(linked_names deps names) in Hn. apply list_lookup_fmap_Some in Hn as (t&->&Ht).
  exists t. split; [by eapply list_elem_of_lookup_2|]. split; [done|].
  apply linked_lookup in Ht as (_&p'&Hp'&->). simplify_eq. apply list_elem_of_here.
Qed.

(** [linear_chains_are_always_valid_and_ordered] *)
Lemma chain_ordered names : NoDup names → topo_order (linked [] names) = Ok names.
Proof.
  intros Hnd. destruct (forward_ordered (linked [] names)) as (l&->&Hperm&Hp).
  - by rewrite linked_names.
  - intros i t d Ht Hd. rewrite linked_names. apply linked_lookup in Ht as [Hn Hdep].
    destruct i as [|i]; [rewrite Hdep in Hd; set_solver|]. destruct Hdep as (p&Hpn&Hdep). rewrite Hdep in Hd.
    apply list_elem_of_singleton in Hd as ->. apply (list_elem_of_lookup_2 _ i), lookup_take_Some. split; [done|lia].
  - f_equal. symmetry. rewrite linked_names in Hperm. assert (Hndl : NoDup l) by by rewrite Hperm.
    apply precedes_unique; [done..|by intros x; rewrite Hperm|]. intros i j x y Hij Hx Hy.
    assert (Hch : chain (fun a b => precedes l a b) names).
    { intros k a b Ha Hb. by apply Hp, (linked_depends _ _ k). }
    pose proof (chain_tc _ _ i j x y Hch Hij Hx Hy) as Htc. clear -Htc Hndl.
    induction Htc; [done|]. by eapply precedes_trans.
Qed.

Lemma cyclic_rejected tasks n : all_known tasks → tc (depends tasks) n n → topo_order tasks = Err DomainError.CycleDetected.
Proof.
  intros Hk Hc. pose proof (topo_order_cases tasks) as Ht. pose proof (is_acyclic_spec tasks) as Hac. unfold is_acyclic in Hac.
  destruct (topo_order tasks) as [l|e]; [by destruct (proj2 (proj1 Hac eq_refl) n)|].
  destruct Ht as [(dep&name&_&Hd&Hn)|[-> _]]; [|done]. by destruct Hn; apply (Hk name).
Qed.

(** [back_edge_cycle_is_always_detected]; with one task it is
    [self_dependency_is_always_rejected]. *)
Lemma back_edge_rejected names end_ : last names = Some end_ →
  topo_order (linked [end_] names) = Err DomainError.CycleDetected.
Proof.
  intros Hlast. rewrite last_lookup in Hlast. destruct names as [|first rest]; [done|]. set (names := first :: rest) in *.
  assert (Hd0 : depends (linked [end_] names) first end_).
  { exists (bare_task first [end_]). split; [apply list_elem_of_here|]. split; [done|]. apply list_elem_of_here. }
  apply (cyclic_rejected _ end_).
  - intros n d (t&[i Hi]%list_elem_of_lookup&_&Hd). apply linked_lookup in Hi as [_ Hi].
    assert (Hd' : d ∈ names).
    { destruct i as [|i]; [rewrite Hi in Hd; apply list_elem_of_singleton in Hd as ->; by eapply list_elem_of_lookup_2|].
      destruct Hi as (p&Hp&Hi). rewrite Hi in Hd. apply list_elem_of_singleton in Hd as ->. by eapply list_elem_of_lookup_2. }
    rewrite <-(linked_names [end_] names) in Hd'. apply list_elem_of_fmap in Hd' as (t'&->&Ht'). by exists t'.
  - assert (Hup : ∀ i x, names !! i = Some x → tc (depends (linked [end_] names)) x end_).
    { induction i as [|i IH]; intros x Hx; [cbn in Hx; simplify_eq; by apply tc_once|].
      destruct (lookup_lt_is_Some_2 names i) as [p Hp]; [apply lookup_lt_Some in Hx; lia|].
      apply (tc_l _ _ p); [by apply (linked_depends _ _ i)|by apply IH]. }
    by eapply Hup.
Qed.

(** [unknown_dependency_is_always_rejected] *)
Lemma unknown_rejected name dep : dep ≠ name →
  topo_order [bare_task name [dep]] = Err (DomainError.UnknownDependency dep name).
Proof.
  intros Hne. pose proof (topo_order_cases [bare_task name [dep]]) as Ht.
  assert (Hd : depends [bare_task name [dep]] name dep).
  { exists (bare_task name [dep]). split; [apply list_elem_of_here|]. split; [done|]. apply list_elem_of_here. }
  assert (Hk : ¬ all_known [bare_task name [dep]]).
  { intros Hk. apply Hk in Hd as (t&->%list_elem_of_singleton&Hn). cbn in Hn. congruence. }
  destruct (topo_order _) as [l|e]; [by destruct Hk; apply Ht|]. destruct Ht as [(d&n&->&Hdn&_)|(_&?&_)]; [|done].
  destruct Hdn as (t&->%list_elem_of_singleton&<-&Hin). by apply list_elem_of_singleton in Hin as ->.
Qed.

(** ** Backoff (proptest_backoff.rs) *)

Section Backoff.
Local Open Scope Z_scope.
Context (powf : f64 → f64 → f64).

(** What the property needs of [powf] for a growth above one: the powers are doubles that
    are not negative and do not decrease with the exponent. *)
Definition powers_grow (g : f64) : Prop :=
  ∀ i j, 0 ≤ i ≤ j → let x := powf g (f64_of_Z i) in let y := powf g (f64_of_Z j) in
  valid_binary 53 1024 x = true ∧ f64_leb f64_zero x = true ∧ f64_leb x y = true.

(** The step per attempt of the linear backoff is a double that is not negative, or not a
    number. *)
Lemma linear_step p : 0 ≤ base_delay_ms p → valid_binary 53 1024 (multiplier p) = true → f64_leb (multiplier p) f64_one = false →
  let x := f64_mul (f64_of_Z (base_delay_ms p)) (f64_sub (multiplier p) f64_one) in
  valid_binary 53 1024 x = true ∧ (is_finite x = true → f64_leb f64_zero x = true).
Proof.
  intros Hb Hv Hg x. assert (Hone : valid_binary 53 1024 f64_one = true) by done.
  assert (Hvx : valid_binary 53 1024 x = true) by (apply f64_mul_valid; [apply f64_of_Z_valid|by apply f64_sub_valid]).
  split; [done|]. intros Hfin. destruct (multiplier p) as [s|[]| |s m e] eqn:Hm; try done.
  1,2: unfold x in Hfin; by destruct (f64_of_Z (base_delay_ms p)) as [|[]| |[]].
  unfold x in *. rewrite <-Hm in *. assert (Hge : f64_leb f64_one (multiplier p) = true) by (apply f64_leb_total; [by rewrite Hm|done|done]).
  assert (Hs : f64_leb f64_zero (f64_sub (multiplier p) f64_one) = true) by by apply f64_sub_nonneg.
  apply (f64_mul_below _ _ (f64_sub (multiplier p) f64_one)); try done; [apply f64_of_Z_valid|by apply f64_sub_valid..|by apply f64_of_Z_nonneg|].
  apply f64_leb_refl. intros E. by rewrite E in Hs.
Qed.

Lemma clamp_mono v1 v2 lo hi r1 r2 : Z.min v1 hi ≤ Z.min v2 hi →
  clamp_u64 v1 lo hi = Some r1 → clamp_u64 v2 lo hi = Some r2 → r1 ≤ r2.
Proof.
  unfold clamp_u64. destruct (Z.ltb_spec hi lo); [done|]. intros Hm [= <-] [= <-].
  destruct (Z.ltb_spec v1 lo), (Z.ltb_spec v2 lo), (Z.ltb_spec hi v1), (Z.ltb_spec hi v2); lia.
Qed.

(** [backoff_raw_delay_is_bounded_and_monotonic], for every multiplier and index: the
    delay before jitter never decreases from one attempt to a later one. The bounds are
    those of [raw_delay_bounds]. *)
Lemma raw_delay_mono p i j r1 r2 : 0 ≤ i ≤ j → 0 ≤ base_delay_ms p → valid_binary 53 1024 (multiplier p) = true →
  (backoff p = Exponential → f64_leb (multiplier p) f64_one = false → powers_grow (multiplier p)) →
  raw_delay powf p i = Some r1 → raw_delay powf p j = Some r2 → r1 ≤ r2.
Proof.
  intros Hij Hb Hv Hpow. apply clamp_mono. unfold curve. destruct (backoff p) eqn:Hk; [done|..];
    (destruct (f64_leb (multiplier p) f64_one) eqn:Hg; [done|]).
  - destruct (linear_step p Hb Hv Hg) as [Hvx Hx]. set (x := f64_mul (f64_of_Z _) _) in *.
    destruct (is_finite (f64_mul x (f64_of_Z j)) && _) eqn:Hf; [|lia]. apply andb_true_iff in Hf as [Hf _].
    assert (Hfx : is_finite x = true) by (destruct x as [|[]| |], (f64_of_Z j) as [|[]| |[]]; done).
    destruct (f64_mul_below x (f64_of_Z i) (f64_of_Z j)) as (->&->&Hle); try apply f64_of_Z_valid; try done.
    + by apply Hx.
    + apply f64_of_Z_nonneg. lia.
    + by apply f64_of_Z_mono.
    + cbn [andb]. unfold sat_u64. lia.
  - destruct (is_finite (f64_mul _ (powf _ (f64_of_Z j))) && _) eqn:Hf; [|lia]. apply andb_true_iff in Hf as [Hf _].
    destruct (Hpow eq_refl eq_refl i j Hij) as (H1&H2&H3). destruct (Hpow eq_refl eq_refl j j ltac:(lia)) as (H4&_&_).
    destruct (f64_mul_below (f64_of_Z (base_delay_ms p)) (powf (multiplier p) (f64_of_Z i)) (powf (multiplier p) (f64_of_Z j)))
      as (->&->&Hle); try done; [apply f64_of_Z_valid|by apply f64_of_Z_nonneg|]. cbn [andb]. lia.
Qed.
End Backoff.

(** [should_retry_obeys_budget_and_retryability] *)
Lemma should_retry_spec p attempts retryable : should_retry p attempts retryable = true ↔
  (attempts < max_attempts p)%Z ∧ (retryable_only p = true → retryable = true).
Proof.
  unfold should_retry, allows_attempt. rewrite andb_true_iff, Z.ltb_lt. destruct (retryable_only p), retryable; cbn; naive_solver.
Qed.

(** ** Schedules (proptest_cron.rs) *)

Section Schedules.
Local Open Scope Z_scope.

(** A word of an expression: not empty, valid text, no white space. *)
Definition word (w : string) : Prop :=
  w ≠ EmptyString ∧ on_boundary w = true ∧ Forall (fun c => is_whitespace c = false) (chars w).

Lemma words_word cur cs rest : Forall (fun c => is_whitespace c = false) cs →
  words_from cur (cs ++ rest) = words_from (cur +:+ collect cs) rest.
Proof.
  intros Hcs. revert cur. induction Hcs as [|c cs Hc _ IH]; intros cur; cbn [app words_from collect foldr]; [by rewrite str_app_nil|].
  rewrite Hc, IH. by rewrite str_app_assoc.
Qed.

Lemma split_join ws : Forall word ws → split_whitespace (join " " ws) = ws.
Proof.
  unfold split_whitespace. induction 1 as [|w ws (Hne&Hb&Hw) Hws IH]; [done|].
  assert (Hk : ∀ rest, List.filter (fun w => negb (is_empty w)) (w :: rest) = w :: List.filter (fun w => negb (is_empty w)) rest).
  { intros rest. cbn. by destruct w. }
  destruct ws as [|w' ws].
  - cbn [join]. rewrite <-(app_nil_r (chars w)), words_word by done. cbn [words_from]. change (EmptyString +:+ collect (chars w)) with (collect (chars w)).
    by rewrite collect_chars, Hk.
  - change (join " " (w :: w' :: ws)) with (w +:+ " " +:+ join " " (w' :: ws)). rewrite chars_app by done.
    rewrite (words_word _ (chars w)) by done. change (EmptyString +:+ collect (chars w)) with (collect (chars w)). rewrite collect_chars.
    assert (Hbj : on_boundary (join " " (w' :: ws)) = true).
    { apply Forall_cons in Hws as [(Hne'&Hb'&_) _]. cbn [join]. destruct ws; [done|]. by destruct w'. }
    rewrite (chars_app " ") by done. change (chars " " ++ chars (join " " (w' :: ws))) with (" "%string :: chars (join " " (w' :: ws))).
    cbn [words_from]. change (is_whitespace " ") with true. cbn iota. by rewrite Hk, IH.
Qed.

(** [invalid_field_counts_are_rejected] *)
Lemma field_count_rejected fields : Forall word fields → length fields ≠ 5%nat →
  schedule_parse (join " " fields) = Err (InvalidFieldCount (length fields)).
Proof.
  intros Hf Hlen. unfold schedule_parse. rewrite split_join by done.
  by destruct fields as [|f0 [|f1 [|f2 [|f3 [|f4 [|f5 rest]]]]]].
Qed.

(** [minute_out_of_range_is_rejected] and [hour_out_of_range_is_rejected], on every value
    they draw. *)
Definition out_of_range (expr field : string) (v : Z) : bool :=
  match schedule_parse expr with
  | Err (ValueOutOfRange f v' _ _) => bool_decide (f = field) && (v' =? v)
  | _ => false
  end.

Lemma out_of_range_rejected :
  forallb (fun v => out_of_range (pretty v +:+ " * * * *") "minute" v) (seqZ 60 140) = true ∧
  forallb (fun v => out_of_range ("* " +:+ pretty v +:+ " * * *") "hour" v) (seqZ 24 76) = true.
Proof. split; vm_compute; reflexivity. Qed.

(** What the schedules rely on of the calendar: minutes are counted from the epoch and the
    other accessors stay in the ranges of their fields. *)
Class CalendarLaws `{Calendar} := {
  law_second : ∀ t, second t = t / ns_per_sec mod 60;
  law_nanosecond : ∀ t, nanosecond t = t mod ns_per_sec;
  law_minute : ∀ t, minute t = t / ns_per_min mod 60;
  law_hour : ∀ t, 0 ≤ hour t ≤ 23;
  law_day : ∀ t, 1 ≤ day t ≤ 31;
  law_month : ∀ t, 1 ≤ month t ≤ 12;
  law_weekday : ∀ t, 0 ≤ weekday t ≤ 6
}.

(** Every hour, day, month and weekday is allowed. *)
Definition any_hour (s : CronSchedule) : bool :=
  forallb (contains (hours s)) (seqZ 0 24) && forallb (contains (days_of_month s)) (seqZ 1 31) &&
  forallb (contains (months s)) (seqZ 1 12) && forallb (contains (days_of_week s)) (seqZ 0 7).

Context `{CalendarLaws}.

Lemma contains_all f lo n v : forallb (contains f) (seqZ lo n) = true → lo ≤ v ≤ lo + n - 1 → contains f v = true.
Proof. intros Hf Hv. eapply forallb_forall; [exact Hf|]. apply list_elem_of_In, elem_of_seqZ. lia. Qed.

Lemma any_hour_matches s t : any_hour s = true → matches_utc s t = contains (minutes s) (minute t).
Proof.
  unfold any_hour. intros Hs. to_prop. unfold matches_utc.
  pose proof (law_hour t). pose proof (law_day t). pose proof (law_month t). pose proof (law_weekday t).
  rewrite (contains_all (hours s) 0 24), (contains_all (days_of_month s) 1 31), (contains_all (months s) 1 12),
    (contains_all (days_of_week s) 0 7) by (done || lia). by rewrite !andb_true_r.
Qed.

Lemma whole_minute k : minute (k * ns_per_min) = k mod 60.
Proof. rewrite law_minute. by rewrite Z.div_mul. Qed.

(** A schedule that allows the full hour fires within sixty minutes, at a whole minute
    that it matches. *)
Lemma hourly_fires s after : any_hour s = true → contains (minutes s) 0 = true → scan_room after →
  ∃ t, next_tick_ms s after = Some (Some t) ∧ after < t ≤ after + 3600000 ∧ t mod 60000 = 0 ∧
    matches_utc s (t * ns_per_ms) = true.
Proof.
  intros Hs Hzero Hr. set (full := (after / 3600000 + 1) * 60).
  assert (Hfull : after < full * 60000 ≤ after + 3600000) by (unfold full; Z.to_euclidean_division_equations; lia).
  assert (Hm : matches_utc s (full * ns_per_min) = true).
  { rewrite any_hour_matches, whole_minute by done. unfold full. by rewrite Z.mod_mul. }
  destruct (next_tick_cases law_second law_nanosecond s after Hr) as [(j&Ht&Hj&Hjm&Hq)|[_ Hq]].
  - exists (j * 60000). split; [done|]. split.
    + split; [lia|]. destruct (Z.lt_ge_cases full j); [|lia]. rewrite Hq in Hm by lia. done.
    + split; [by apply Z.mod_mul|]. replace (j * 60000 * ns_per_ms) with (j * ns_per_min); [done|].
      unfold ns_per_min, ns_per_sec, ns_per_ms. ring.
  - rewrite Hq in Hm by lia. done.
Qed.

(** The minute steps the tests draw. *)
Definition every (step : Z) : string := "*/" +:+ pretty step +:+ " * * * *".

Lemma every_parses : forallb (fun step =>
  match schedule_parse (every step) with Ok s => any_hour s && contains (minutes s) 0 | Err _ => false end) (seqZ 1 59) = true.
Proof. vm_compute. reflexivity. Qed.

(** [cron_next_tick_is_strictly_future_and_aligned_to_minute], for steps of up to 59
    minutes and every instant; [cron_ticks_are_strictly_monotonic] is its iteration. *)
Lemma every_fires step after : 1 ≤ step ≤ 59 → scan_room after →
  ∃ s t, schedule_parse (every step) = Ok s ∧ next_tick_ms s after = Some (Some t) ∧
    after < t ≤ after + 3600000 ∧ t mod 60000 = 0 ∧ matches_utc s (t * ns_per_ms) = true.
Proof.
  intros Hstep Hr. pose proof every_parses as Hall. rewrite forallb_forall in Hall.
  specialize (Hall step ltac:(apply list_elem_of_In, elem_of_seqZ; lia)).
  destruct (schedule_parse (every step)) as [s|]; [|done]. to_prop.
  destruct (hourly_fires s after) as (t&Ht); [done..|]. by exists s, t.
Qed.

(** [wildcard_cron_always_fires_at_next_minute] *)
Lemma wildcard_fires after : scan_room after →
  ∃ s, schedule_parse "* * * * *" = Ok s ∧ next_tick_ms s after = Some (Some ((after / 60000 + 1) * 60000)).
Proof.
  intros Hr. destruct (schedule_parse "* * * * *") as [s|] eqn:Hs; [|done]. exists s. split; [done|].
  assert (Hany : any_hour s && forallb (contains (minutes s)) (seqZ 0 60) = true).
  { injection Hs as <-. vm_compute. reflexivity. }
  apply andb_true_iff in Hany as [Hany Hmin].
  assert (Hm : ∀ k, matches_utc s (k * ns_per_min) = true).
  { intros k. rewrite any_hour_matches, whole_minute by done. eapply contains_all; [done|].
    pose proof (Z.mod_pos_bound k 60). lia. }
  destruct (next_tick_cases law_second law_nanosecond s after Hr) as [(j&->&Hj&_&Hq)|[_ Hq]].
  - do 3 f_equal. assert (Hk : after < (after / 60000 + 1) * 60000 ≤ after + 60000) by (Z.to_euclidean_division_equations; lia).
    destruct (Z.lt_ge_cases (after / 60000 + 1) j); [|lia].
    pose proof (Hm (after / 60000 + 1)) as Hm1. rewrite Hq in Hm1 by lia. done.
  - pose proof (Hm (after / 60000 + 1)) as Hm1. rewrite Hq in Hm1; [done|]. Z.to_euclidean_division_equations. lia.
Qed.
End Schedules.

Lemma civil_ranges days : let '(m, d) := civil_month_day days in (1 ≤ m ≤ 12 ∧ 1 ≤ d ≤ 31)%Z.
Proof.
  unfold civil_month_day. pose proof (Z.mod_pos_bound (days + 719468) 146097 ltac:(lia)) as Hd.
  set (doe := ((days + 719468) mod 146097)%Z) in *. clearbody doe.
  set (yoe := ((doe - doe / 1460 + doe / 36524 - doe / 146096) / 365)%Z).
  assert (Hdoy : (0 ≤ doe - (365 * yoe + yoe / 4 - yoe / 100) ≤ 366)%Z).
  { unfold yoe. Z.to_euclidean_division_equations. lia. }
  set (doy := (doe - (365 * yoe + yoe / 4 - yoe / 100))%Z) in *. clearbody doy. set (mp := ((5 * doy + 2) / 153)%Z).
  assert (Hmp : (153 * mp ≤ 5 * doy + 2 < 153 * mp + 153)%Z) by (unfold mp; Z.to_euclidean_division_equations; lia).
  clearbody mp. destruct (Z.ltb_spec mp 10); Z.to_euclidean_division_equations; lia.
Qed.

(** The proleptic Gregorian calendar has these laws. *)
#[export] Instance gregorian_laws : CalendarLaws (H := gregorian).
Proof.
  constructor; intros t; cbn [gregorian second nanosecond minute hour day month weekday]; try done;
    pose proof (civil_ranges (day_number t)) as Hmd; try (destruct (civil_month_day (day_number t)); cbn; lia).
  - pose proof (Z.mod_pos_bound (t / (60 * ns_per_min)) 24). lia.
  - pose proof (Z.mod_pos_bound (day_number t + 4) 7). lia.
Qed.

(** ** Expressions and templates (proptest_expr.rs) *)

(** [unclosed_placeholder_syntax_fails]; [string_without_placeholders_is_identity] is
    [interpolate_plain_string] and [json_primitives_without_templates_are_identity] is
    [interpolate_json_same]. *)
Lemma unclosed_rejected ctx prefix name : contains_byte 36 prefix = false → on_boundary name = true →
  contains_byte 125 name = false →
  ∃ e, interpolate_string (prefix +:+ "${" +:+ name) ctx = Err (Syntax e).
Proof.
  intros Hp Hb Hn. unfold interpolate_string. rewrite (chars_app prefix) by done.
  rewrite (chars_app "${") by done. change (chars "${") with ["$"; "{"]%string.
  rewrite interpolate_text; [|by apply clean_no_byte|rewrite length_app; lia]. rewrite length_app, Nat.add_comm, Nat.add_sub.
  cbn [app length interpolate_chars head tail]. rewrite !bool_decide_eq_true_2 by done. cbn [andb].
  assert (Hclose : take_close (chars name) = None).
  { apply (clean_no_byte _ "}") in Hn. induction (chars name) as [|c cs IH]; [done|]. cbn [take_close].
    rewrite bool_decide_eq_false_2 by set_solver. by rewrite IH by set_solver. }
  cbn [tl]. rewrite Hclose. by eexists.
Qed.

Lemma trim_word s : Forall (fun c => is_whitespace c = false) (chars s) → trim s = s.
Proof.
  assert (Hdrop : ∀ l, Forall (fun c => is_whitespace c = false) l → drop_while is_whitespace l = l).
  { intros l Hl. destruct Hl as [|c l Hc _]; cbn; [done|]. by rewrite Hc. }
  intros Hs. unfold trim. rewrite (Hdrop (chars s)) by done. rewrite Hdrop by by apply Forall_rev.
  by rewrite rev_involutive, collect_chars.
Qed.

Lemma split_single sep s : contains_byte (byte_of sep) s = false → split_on sep s = [s].
Proof.
  intros Hs. induction s as [|c s IH]; [done|]. unfold contains_byte in Hs. cbn [as_bytes existsb] in Hs.
  apply orb_false_iff in Hs as [Hc Hs]. cbn [split_on]. rewrite bool_decide_eq_false_2 by (intros ->; by rewrite Z.eqb_refl in Hc).
  by rewrite IH.
Qed.

(** [single_variable_replacement] *)
Lemma meta_replaced ctx prefix key val suffix :
  clean_text prefix = true → clean_text suffix = true → clean_name key = true → contains_byte 46 key = false →
  Forall (fun c => is_whitespace c = false) (chars key) →
  interpolate_string (prefix +:+ "${meta." +:+ key +:+ "}" +:+ suffix) (with_meta ctx key val) = Ok (prefix +:+ val +:+ suffix).
Proof.
  intros Hp Hs Hk Hdot Hw. pose proof (proj1 (andb_prop _ _ Hk)) as Hb.
  change (prefix +:+ "${meta." +:+ key +:+ "}" +:+ suffix) with (render [(prefix, "meta." +:+ key)] suffix).
  assert (Hn : clean_name ("meta." +:+ key) = true).
  { unfold clean_name in *. to_prop. apply andb_true_iff. split; [done|]. by apply negb_true_iff. }
  assert (Hc : clean [(prefix, "meta." +:+ key)] suffix = true).
  { unfold clean. cbn [forallb fst snd]. by rewrite Hp, Hs, Hn. }
  unfold interpolate_string. rewrite interpolate_render by done.
  cbn [fill rbind]. unfold resolve_name. rewrite trim_word.
  - change (split_on "." ("meta." +:+ key)) with ("meta"%string :: split_on "." key). rewrite split_single by done.
    cbn. rewrite lookup_insert_eq. done.
  - rewrite (chars_app "meta.") by done. apply Forall_app. split; [|done]. repeat constructor.
Qed.

(** [numeric_comparisons_satisfy_algebra] and [boolean_algebra_invariants] *)
Lemma literal_algebra ctx a b x y :
  eval ctx (Lt_ (Literal (VNumber x)) (Literal (VNumber y))) = Ok (VBool (f64_ltb x y)) ∧
  eval ctx (Gt_ (Literal (VNumber x)) (Literal (VNumber y))) = Ok (VBool (f64_ltb y x)) ∧
  eval ctx (Expr.Eq (Literal (VNumber x)) (Literal (VNumber y))) = Ok (VBool (f64_eqb x y)) ∧
  eval ctx (And (Literal (VBool a)) (Literal (VBool b))) = Ok (VBool (a && b)) ∧
  eval ctx (Or (Literal (VBool a)) (Literal (VBool b))) = Ok (VBool (a || b)) ∧
  eval ctx (Not (Literal (VBool a))) = Ok (VBool (negb a)).
Proof. by destruct a, b. Qed.

(** ** Property *)

(** C36. The delays of a validated policy form a schedule, whatever its multiplier: before
    jitter they start at or above the base, never decrease from one attempt to a later one
    and never exceed the maximum, in the double arithmetic the code computes them with and
    through every overflow of it; jitter only shortens a delay, by at most half for equal
    jitter. Of [powf] only monotonicity is assumed, and only for exponential backoff. *)
Theorem backoff_schedule powf gen_range p i j :
  policy_typed p → policy_validate p = Ok tt → in_range gen_range → valid_binary 53 1024 (multiplier p) = true →
  (backoff p = Exponential → f64_leb (multiplier p) f64_one = false → powers_grow powf (multiplier p)) →
  (0 ≤ i ≤ j)%Z →
  ∃ r1 r2 d, raw_delay powf p i = Some r1 ∧ raw_delay powf p j = Some r2 ∧ next_delay powf gen_range p i = Some d ∧
    (base_delay_ms p ≤ r1 ∧ r1 ≤ r2 ∧ r2 ≤ max_delay_ms p ∧ 0 ≤ d ≤ r1)%Z ∧
    (jitter p = JitterKind.None → d = r1) ∧ (jitter p = JitterKind.Equal → (r1 / 2 ≤ d)%Z).
Proof.
  intros Ht Hv Hg Hm Hpow Hij. apply policy_validate_valid in Hv; [|done].
  destruct (next_delay_bounds powf gen_range p i Hg Hv) as (d&r1&Hd&Hr1&Hb1&Hd1&Hj).
  destruct Hv as (_&[Hb Hbm]&Hmax&_). destruct (raw_delay_bounds powf p j Hbm Hmax) as (r2&Hr2&Hb2).
  exists r1, r2, d. split_and!; try done; try lia; [|apply Hj..].
  by apply (raw_delay_mono powf p i j); [| lia |..].
Qed.

Definition doubling : RetryPolicy := retry_exponential 5 1000 60000.

(** A stand-in for [powf] that grows with its exponent. *)
Definition scaled (g x : f64) : f64 := f64_mul g x.

Lemma scaled_grows : powers_grow scaled (f64_of_Z 2).
Proof.
  intros i j Hij. cbn zeta. unfold scaled. assert (Hn : ∀ z, f64_mul (f64_of_Z 2) (f64_of_Z z) ≠ S754_nan).
  { intros z. pose proof (f64_of_Z_valid z) as Hz. assert (Hf : f64_of_Z z ≠ S754_nan) by apply f64_of_Z_number.
    change (f64_of_Z 2) with (S754_finite false 4503599627370496 (-51)).
    destruct (f64_of_Z z) as [| | |s m e]; try done.
    destruct (mul_finite false 4503599627370496 (-51) s m e eq_refl Hz) as [-> _]. apply of_pair_number. }
  split; [apply f64_mul_valid; [done|apply f64_of_Z_valid]|]. split.
  - pose proof (f64_mul_mono (f64_of_Z 2) f64_zero (f64_of_Z i)) as Hm. apply Hm; try done; [apply f64_of_Z_valid|]. apply f64_of_Z_nonneg. lia.
  - apply f64_mul_mono; try done; try apply f64_of_Z_valid; [apply f64_of_Z_nonneg; lia|by apply f64_of_Z_mono].
Qed.

Lemma backoff_schedule_witness :
  ∃ r1 r2 d, raw_delay scaled doubling 2 = Some r1 ∧ raw_delay scaled doubling 9 = Some r2 ∧
    next_delay scaled (fun u => u / 3)%Z doubling 2 = Some d ∧ (1000 ≤ r1 ∧ r1 ≤ r2 ∧ r2 ≤ 60000 ∧ 0 ≤ d ≤ r1)%Z.
Proof.
  destruct (backoff_schedule scaled (fun u => u / 3)%Z doubling 2 9) as (r1&r2&d&H1&H2&H3&H4&_).
  - repeat split; cbn; unfold u32_max, u64_max; lia.
  - reflexivity.
  - intros u Hu. Z.to_euclidean_division_equations; lia.
  - reflexivity.
  - intros _ _. exact scaled_grows.
  - lia.
  - exists r1, r2, d. exact (conj H1 (conj H2 (conj H3 H4))).
Defined.
