(* ===== verification/Store.v ===== *)
(** * The store contract
    (src/src/persistence/mod.rs, src/src/persistence/model.rs, src/src/persistence/filter.rs)

    The durable records, the run filter, and the [Store] trait. A trait method is
    a constructor of [StoreCall], indexed by the type of its result; a backend is
    an instance of [Store], a state transformer for every call. [reap_finished_runs]
    is the trait's provided method, written over the calls. *)
From S2P Require Import Prelude RustStrings Ids Status Errors Json Workflow.
Local Open Scope Z_scope.

Record WorkflowRecord := { wr_def : WorkflowDef }.

(** [ClaimToken(String)] *)
Abbreviation ClaimToken := string (only parsing).
Definition empty_token : ClaimToken := EmptyString.

Record QueueEntry := {
  qe_run_id : RunId;
  qe_token : ClaimToken;
  qe_due_at_ms : Z;
  qe_lease_until_ms : option Z;
  qe_claimed_by : option string
}.

Definition is_leased (e : QueueEntry) (now_ms : Z) : bool :=
  match qe_lease_until_ms e with Some exp => now_ms <? exp | None => false end.

Definition is_ready (e : QueueEntry) (now_ms : Z) : bool :=
  (qe_due_at_ms e <=? now_ms) && negb (is_leased e now_ms).

Record WorkflowSummary := {
  ws_workflow : WorkflowRecord;
  ws_run_count : Z;
  ws_latest_run : option Run
}.

Definition summary_assemble (workflow : WorkflowRecord) (runs : list Run) : WorkflowSummary :=
  {| ws_workflow := workflow; ws_run_count := Z.of_nat (length runs); ws_latest_run := head runs |}.

(** ** Filters *)

Record RunFilter := {
  rf_name : option string;
  rf_name_prefix : option string;
  rf_status : option RunStatus;
  rf_status_in : list RunStatus;
  rf_tenant : option string;
  rf_tags : gmap string string;
  rf_has_tag_keys : list string;
  rf_from_ms : option Z;
  rf_to_ms : option Z;
  rf_finished_from_ms : option Z;
  rf_finished_to_ms : option Z;
  rf_min_duration_ms : option Z;
  rf_limit : option nat;
  rf_offset : nat
}.

Definition filter_default : RunFilter := {|
  rf_name := None; rf_name_prefix := None; rf_status := None; rf_status_in := [];
  rf_tenant := None; rf_tags := ∅; rf_has_tag_keys := []; rf_from_ms := None;
  rf_to_ms := None; rf_finished_from_ms := None; rf_finished_to_ms := None;
  rf_min_duration_ms := None; rf_limit := None; rf_offset := 0
|}.

(** The chained setters of a filter under construction. *)
Module FilterBuilder.
Definition with_name (name : string) (f : RunFilter) : RunFilter := {|
  rf_name := Some name; rf_name_prefix := rf_name_prefix f; rf_status := rf_status f;
  rf_status_in := rf_status_in f; rf_tenant := rf_tenant f; rf_tags := rf_tags f;
  rf_has_tag_keys := rf_has_tag_keys f; rf_from_ms := rf_from_ms f; rf_to_ms := rf_to_ms f;
  rf_finished_from_ms := rf_finished_from_ms f; rf_finished_to_ms := rf_finished_to_ms f;
  rf_min_duration_ms := rf_min_duration_ms f; rf_limit := rf_limit f; rf_offset := rf_offset f
|}.

Definition with_name_prefix (prefix : string) (f : RunFilter) : RunFilter := {|
  rf_name := rf_name f; rf_name_prefix := Some prefix; rf_status := rf_status f;
  rf_status_in := rf_status_in f; rf_tenant := rf_tenant f; rf_tags := rf_tags f;
  rf_has_tag_keys := rf_has_tag_keys f; rf_from_ms := rf_from_ms f; rf_to_ms := rf_to_ms f;
  rf_finished_from_ms := rf_finished_from_ms f; rf_finished_to_ms := rf_finished_to_ms f;
  rf_min_duration_ms := rf_min_duration_ms f; rf_limit := rf_limit f; rf_offset := rf_offset f
|}.

Definition with_status (status : RunStatus) (f : RunFilter) : RunFilter := {|
  rf_name := rf_name f; rf_name_prefix := rf_name_prefix f; rf_status := Some status;
  rf_status_in := rf_status_in f; rf_tenant := rf_tenant f; rf_tags := rf_tags f;
  rf_has_tag_keys := rf_has_tag_keys f; rf_from_ms := rf_from_ms f; rf_to_ms := rf_to_ms f;
  rf_finished_from_ms := rf_finished_from_ms f; rf_finished_to_ms := rf_finished_to_ms f;
  rf_min_duration_ms := rf_min_duration_ms f; rf_limit := rf_limit f; rf_offset := rf_offset f
|}.

Definition with_status_in (statuses : list RunStatus) (f : RunFilter) : RunFilter := {|
  rf_name := rf_name f; rf_name_prefix := rf_name_prefix f; rf_status := rf_status f;
  rf_status_in := statuses; rf_tenant := rf_tenant f; rf_tags := rf_tags f;
  rf_has_tag_keys := rf_has_tag_keys f; rf_from_ms := rf_from_ms f; rf_to_ms := rf_to_ms f;
  rf_finished_from_ms := rf_finished_from_ms f; rf_finished_to_ms := rf_finished_to_ms f;
  rf_min_duration_ms := rf_min_duration_ms f; rf_limit := rf_limit f; rf_offset := rf_offset f
|}.

Definition with_tenant (tenant : string) (f : RunFilter) : RunFilter := {|
  rf_name := rf_name f; rf_name_prefix := rf_name_prefix f; rf_status := rf_status f;
  rf_status_in := rf_status_in f; rf_tenant := Some tenant; rf_tags := rf_tags f;
  rf_has_tag_keys := rf_has_tag_keys f; rf_from_ms := rf_from_ms f; rf_to_ms := rf_to_ms f;
  rf_finished_from_ms := rf_finished_from_ms f; rf_finished_to_ms := rf_finished_to_ms f;
  rf_min_duration_ms := rf_min_duration_ms f; rf_limit := rf_limit f; rf_offset := rf_offset f
|}.

Definition with_tag (key value : string) (f : RunFilter) : RunFilter := {|
  rf_name := rf_name f; rf_name_prefix := rf_name_prefix f; rf_status := rf_status f;
  rf_status_in := rf_status_in f; rf_tenant := rf_tenant f;
  rf_tags := <[key := value]> (rf_tags f); rf_has_tag_keys := rf_has_tag_keys f;
  rf_from_ms := rf_from_ms f; rf_to_ms := rf_to_ms f;
  rf_finished_from_ms := rf_finished_from_ms f; rf_finished_to_ms := rf_finished_to_ms f;
  rf_min_duration_ms := rf_min_duration_ms f; rf_limit := rf_limit f; rf_offset := rf_offset f
|}.

Definition with_has_tag_key (key : string) (f : RunFilter) : RunFilter := {|
  rf_name := rf_name f; rf_name_prefix := rf_name_prefix f; rf_status := rf_status f;
  rf_status_in := rf_status_in f; rf_tenant := rf_tenant f; rf_tags := rf_tags f;
  rf_has_tag_keys := rf_has_tag_keys f ++ [key]; rf_from_ms := rf_from_ms f;
  rf_to_ms := rf_to_ms f; rf_finished_from_ms := rf_finished_from_ms f;
  rf_finished_to_ms := rf_finished_to_ms f; rf_min_duration_ms := rf_min_duration_ms f;
  rf_limit := rf_limit f; rf_offset := rf_offset f
|}.

Definition with_time_range (from_ms to_ms : option Z) (f : RunFilter) : RunFilter := {|
  rf_name := rf_name f; rf_name_prefix := rf_name_prefix f; rf_status := rf_status f;
  rf_status_in := rf_status_in f; rf_tenant := rf_tenant f; rf_tags := rf_tags f;
  rf_has_tag_keys := rf_has_tag_keys f; rf_from_ms := from_ms; rf_to_ms := to_ms;
  rf_finished_from_ms := rf_finished_from_ms f; rf_finished_to_ms := rf_finished_to_ms f;
  rf_min_duration_ms := rf_min_duration_ms f; rf_limit := rf_limit f; rf_offset := rf_offset f
|}.

Definition with_finished_range (from_ms to_ms : option Z) (f : RunFilter) : RunFilter := {|
  rf_name := rf_name f; rf_name_prefix := rf_name_prefix f; rf_status := rf_status f;
  rf_status_in := rf_status_in f; rf_tenant := rf_tenant f; rf_tags := rf_tags f;
  rf_has_tag_keys := rf_has_tag_keys f; rf_from_ms := rf_from_ms f; rf_to_ms := rf_to_ms f;
  rf_finished_from_ms := from_ms; rf_finished_to_ms := to_ms;
  rf_min_duration_ms := rf_min_duration_ms f; rf_limit := rf_limit f; rf_offset := rf_offset f
|}.

Definition with_min_duration (duration_ms : Z) (f : RunFilter) : RunFilter := {|
  rf_name := rf_name f; rf_name_prefix := rf_name_prefix f; rf_status := rf_status f;
  rf_status_in := rf_status_in f; rf_tenant := rf_tenant f; rf_tags := rf_tags f;
  rf_has_tag_keys := rf_has_tag_keys f; rf_from_ms := rf_from_ms f; rf_to_ms := rf_to_ms f;
  rf_finished_from_ms := rf_finished_from_ms f; rf_finished_to_ms := rf_finished_to_ms f;
  rf_min_duration_ms := Some duration_ms; rf_limit := rf_limit f; rf_offset := rf_offset f
|}.

Definition with_limit (limit : nat) (f : RunFilter) : RunFilter := {|
  rf_name := rf_name f; rf_name_prefix := rf_name_prefix f; rf_status := rf_status f;
  rf_status_in := rf_status_in f; rf_tenant := rf_tenant f; rf_tags := rf_tags f;
  rf_has_tag_keys := rf_has_tag_keys f; rf_from_ms := rf_from_ms f; rf_to_ms := rf_to_ms f;
  rf_finished_from_ms := rf_finished_from_ms f; rf_finished_to_ms := rf_finished_to_ms f;
  rf_min_duration_ms := rf_min_duration_ms f; rf_limit := Some limit; rf_offset := rf_offset f
|}.

Definition with_offset (offset : nat) (f : RunFilter) : RunFilter := {|
  rf_name := rf_name f; rf_name_prefix := rf_name_prefix f; rf_status := rf_status f;
  rf_status_in := rf_status_in f; rf_tenant := rf_tenant f; rf_tags := rf_tags f;
  rf_has_tag_keys := rf_has_tag_keys f; rf_from_ms := rf_from_ms f; rf_to_ms := rf_to_ms f;
  rf_finished_from_ms := rf_finished_from_ms f; rf_finished_to_ms := rf_finished_to_ms f;
  rf_min_duration_ms := rf_min_duration_ms f; rf_limit := rf_limit f; rf_offset := offset
|}.
End FilterBuilder.

(** [if let Some(x) = o { if !p(x) { return false } }] *)
Definition when_set {A} (o : option A) (p : A → bool) : bool :=
  match o with Some a => p a | None => true end.

Definition filter_matches (f : RunFilter) (run : Run) : bool :=
  when_set (rf_name f) (fun n => bool_decide (rn_def_name run = n)) &&
  when_set (rf_name_prefix f) (fun p => starts_with p (rn_def_name run)) &&
  when_set (rf_status f) (fun s => bool_decide (rn_status run = s)) &&
  (bool_decide (rf_status_in f = []) || bool_decide (rn_status run ∈ rf_status_in f)) &&
  when_set (rf_tenant f) (fun t => bool_decide (rn_tenant run = t)) &&
  forallb (fun kv => bool_decide (rn_tags run !! kv.1 = Some kv.2)) (bt_iter (rf_tags f)) &&
  forallb (fun k => bool_decide (is_Some (rn_tags run !! k))) (rf_has_tag_keys f) &&
  when_set (rf_from_ms f) (fun from => from <=? rn_created_at_ms run) &&
  when_set (rf_to_ms f) (fun to => rn_created_at_ms run <? to) &&
  when_set (rf_finished_from_ms f) (fun from =>
    match rn_finished_at_ms run with Some fin => from <=? fin | None => false end) &&
  when_set (rf_finished_to_ms f) (fun to =>
    match rn_finished_at_ms run with Some fin => fin <=? to | None => false end) &&
  when_set (rf_min_duration_ms f) (fun min_dur =>
    match rn_started_at_ms run, rn_finished_at_ms run with
    | Some s, Some fin => min_dur <=? sat_i64 (fin - s)
    | _, _ => false
    end).

(** [sort_by_key(|r| Reverse(r.created_at_ms))] *)
Definition newest_first (a b : Run) : bool := rn_created_at_ms b <=? rn_created_at_ms a.

(** The copying loop: a row is pushed before the limit is looked at. *)
Fixpoint take_rows (limit : option nat) (out : list Run) (rows : list Run) : list Run :=
  match rows with
  | [] => out
  | run :: rest =>
      let out := out ++ [run] in
      match limit with
      | Some limit => if (limit <=? length out)%nat then out else take_rows (Some limit) out rest
      | None => take_rows None out rest
      end
  end.

Definition apply_order (f : RunFilter) (runs : list Run) : list Run :=
  take_rows (rf_limit f) [] (drop (rf_offset f) (sort_by newest_first runs)).

(** ** The trait *)

Inductive StoreCall : Type → Type :=
| PutWorkflow (def : WorkflowDef) : StoreCall (result WorkflowRecord StorageError)
| UpdateWorkflowVersion (tenant name : string) (def : WorkflowDef) (expected_version : Z)
    : StoreCall (result WorkflowRecord StorageError)
| GetWorkflow (tenant name : string) : StoreCall (result WorkflowRecord StorageError)
| ListWorkflows : StoreCall (result (list WorkflowRecord) StorageError)
| ListWorkflowSummaries : StoreCall (result (list WorkflowSummary) StorageError)
| PutRun (run : Run) : StoreCall (result unit StorageError)
| GetRun (id : RunId) : StoreCall (result Run StorageError)
| DeleteRun (id : RunId) : StoreCall (result unit StorageError)
| ListRuns (filter : RunFilter) : StoreCall (result (list Run) StorageError)
| CountRuns (filter : RunFilter) : StoreCall (result Z StorageError)
| PutTaskRun (tr : TaskRun) : StoreCall (result unit StorageError)
| GetTaskRun (id : TaskRunId) : StoreCall (result TaskRun StorageError)
| ListTaskRunsForRun (run_id : RunId) : StoreCall (result (list TaskRun) StorageError)
| NextRunNumber (def_name : string) : StoreCall (result Z StorageError)
| Enqueue (entry : QueueEntry) : StoreCall (result unit StorageError)
| ScanReady (now_ms : Z) (limit : nat) : StoreCall (result (list QueueEntry) StorageError)
| Claim (run_id : RunId) (token : ClaimToken) (now_ms lease_ms : Z) : StoreCall (result unit StorageError)
| Ack (run_id : RunId) (token : ClaimToken) : StoreCall (result unit StorageError)
| Release (run_id : RunId) (token : ClaimToken) (retry_at_ms : Z) : StoreCall (result unit StorageError)
| FailClaim (run_id : RunId) (token : ClaimToken) : StoreCall (result unit StorageError)
| RenewLease (run_id : RunId) (token : ClaimToken) (now_ms extend_by_ms : Z)
    : StoreCall (result unit StorageError)
| CancelRun (run_id : RunId) (now_ms : Z) : StoreCall (result bool StorageError)
| RecoverExpiredLeases (now_ms : Z) : StoreCall (result Z StorageError)
| LenQueue : StoreCall Z.

Class Store (S : Type) := call : ∀ {A}, StoreCall A → S → S * A.

(** A sequence of calls, as the threads of the process interleave them. *)
Inductive AnyCall :=
| Any (A : Type) (c : StoreCall A).
Arguments Any {A} c.

Fixpoint run_calls {S} `{Store S} (cs : list AnyCall) (s : S) : S :=
  match cs with
  | [] => s
  | Any c :: rest => run_calls rest (call c s).1
  end.

(** The provided method: the deletion loop stops at the first error. *)
Section Provided.
Context {S : Type} `{Store S}.

Fixpoint reap_loop (before_ms reaped : Z) (runs : list Run) (s : S) : S * result Z StorageError :=
  match runs with
  | [] => (s, Ok reaped)
  | run :: rest =>
      if match rn_finished_at_ms run with Some f => f <=? before_ms | None => false end then
        match call (DeleteRun (rn_id run)) s with
        | (s, Ok _) => reap_loop before_ms (reaped + 1) rest s
        | (s, Err e) => (s, Err e)
        end
      else reap_loop before_ms reaped rest s
  end.

Definition reap_finished_runs (before_ms : Z) (s : S) : S * result Z StorageError :=
  match call (ListRuns filter_default) s with
  | (s, Ok runs) => reap_loop before_ms 0 runs s
  | (s, Err e) => (s, Err e)
  end.
End Provided.

(** ** Lemmas on ordering and paging *)

#[export] Instance newest_first_trans : Transitive (fun a b => Is_true (newest_first a b)).
Proof. intros a b c. unfold newest_first. rewrite !Is_true_true, !Z.leb_le. lia. Qed.

#[export] Instance newest_first_total : Total (fun a b => Is_true (newest_first a b)).
Proof. intros a b. unfold newest_first. rewrite !Is_true_true, !Z.leb_le. lia. Qed.

Lemma take_rows_none out rows : take_rows None out rows = out ++ rows.
Proof.
  revert out. induction rows as [|r rows IH]; intros out; cbn; [by rewrite app_nil_r|].
  by rewrite IH, <-(assoc_L (++)).
Qed.

Lemma take_rows_some limit out rows : (length out < limit ∨ limit = 0 ∧ out = [])%nat →
  take_rows (Some limit) out rows = out ++ take (Nat.max 1 limit - length out) rows.
Proof.
  revert out. induction rows as [|r rows IH]; intros out Hl; cbn [take_rows].
  { by rewrite take_nil, app_nil_r. }
  rewrite length_app. cbn [length]. destruct (Nat.leb_spec limit (length out + 1)).
  - replace (Nat.max 1 limit - length out)%nat with 1%nat by (destruct Hl as [|[-> ->]]; cbn; lia).
    done.
  - rewrite IH by (left; rewrite length_app; cbn; lia). rewrite length_app, <-(assoc_L (++)). cbn.
    destruct (Nat.max 1 limit - length out)%nat as [|k] eqn:Hk; [lia|]. cbn.
    by replace (Nat.max 1 limit - (length out + 1))%nat with k by lia.
Qed.

Lemma apply_order_page f runs :
  apply_order f runs =
  match rf_limit f with
  | None => drop (rf_offset f) (sort_by newest_first runs)
  | Some limit => take (Nat.max 1 limit) (drop (rf_offset f) (sort_by newest_first runs))
  end.
Proof.
  unfold apply_order. destruct (rf_limit f) as [limit|].
  - rewrite take_rows_some by (destruct limit; [by right|left; cbn; lia]). by rewrite Nat.sub_0_r.
  - by rewrite take_rows_none.
Qed.

(** ** Properties *)

(** Listing order: the rows are newest first, runs created in the same
    millisecond keep the order the backend produced, and the page is what
    remains after skipping [offset] rows, cut at the limit; a limit of zero is
    served as a limit of one. *)
Theorem apply_order_spec f runs :
  StronglySorted (fun a b => rn_created_at_ms b ≤ rn_created_at_ms a) (apply_order f runs) ∧
  (∃ all, all ≡ₚ runs ∧
    (∀ t, List.filter (fun r => rn_created_at_ms r =? t) all
        = List.filter (fun r => rn_created_at_ms r =? t) runs) ∧
    apply_order f runs =
      match rf_limit f with
      | None => drop (rf_offset f) all
      | Some limit => take (Nat.max 1 limit) (drop (rf_offset f) all)
      end).
Proof.
  assert (Hs : StronglySorted (fun a b => rn_created_at_ms b ≤ rn_created_at_ms a)
    (sort_by newest_first runs)).
  { eapply StronglySorted_impl; [|apply sort_by_sorted; apply _].
    intros a b H. unfold newest_first in H. by apply Is_true_true, Z.leb_le in H. }
  split.
  - rewrite apply_order_page. destruct (rf_limit f); auto using StronglySorted_take, StronglySorted_drop.
  - exists (sort_by newest_first runs). split; [apply sort_by_perm|]. split; [|apply apply_order_page].
    intros t. apply sort_by_stable. intros x y Hx%Is_true_true Hy%Is_true_true.
    unfold newest_first. apply Is_true_true. lia.
Qed.

(** A query for zero rows returns one: the row is pushed before the limit is
    tested. *)
Theorem limit_zero_returns_row f run runs :
  rf_limit f = Some 0%nat → rf_offset f = 0%nat → length (apply_order f (run :: runs)) = 1%nat.
Proof.
  intros Hl Ho. rewrite apply_order_page, Hl, Ho, drop_0, length_take, sort_by_length.
  cbn. lia.
Qed.

Lemma limit_zero_returns_row_witness :
  length (apply_order
    {| rf_name := None; rf_name_prefix := None; rf_status := None; rf_status_in := [];
       rf_tenant := None; rf_tags := ∅; rf_has_tag_keys := []; rf_from_ms := None;
       rf_to_ms := None; rf_finished_from_ms := None; rf_finished_to_ms := None;
       rf_min_duration_ms := None; rf_limit := Some 0%nat; rf_offset := 0 |} [sample_run; sample_run])
  = 1%nat.
Proof. apply limit_zero_returns_row; reflexivity. Defined.
