(* ===== verification/Interference.v ===== *)
(** * Disciplines of store calls, and interference between threads

    The components share one store and call it one method at a time. [Interfered] is
    the store one thread sees: before each of its calls the other threads' calls of the
    script have been made. [Logged] records the calls a thread makes. A [Discipline]
    says which calls are allowed and what their answers then satisfy; a store [Upholds]
    it with an invariant. A store that upholds a discipline still does under the
    interference of threads that keep to it, and the calls of a client that keeps to it
    are recorded as allowed ones: so each component is verified on its own, against the
    discipline, whatever the others do. *)
From S2P Require Import Prelude Errors Store.

(** The store as one thread sees it: what the others call before each of its calls. *)
Record Interfered (S : Type) := { if_store : S; if_script : list (list AnyCall) }.
Arguments if_store {S}.
Arguments if_script {S}.

#[export] Instance Interfered_Store {S} `{Store S} : Store (Interfered S) := fun A c x =>
  let s := run_calls (default [] (head (if_script x))) (if_store x) in
  let '(s, a) := call c s in
  ({| if_store := s; if_script := tail (if_script x) |}, a).

(** The calls made so far, the latest last. *)
Record Logged (S : Type) := { lg_store : S; lg_calls : list AnyCall }.
Arguments lg_store {S}.
Arguments lg_calls {S}.

#[export] Instance Logged_Store {S} `{Store S} : Store (Logged S) := fun A c x =>
  let '(s, a) := call c (lg_store x) in ({| lg_store := s; lg_calls := lg_calls x ++ [Any c] |}, a).

(** ** Disciplines *)

Record Discipline := {
  d_call : ∀ {A}, StoreCall A → Prop;
  d_answer : ∀ {A}, StoreCall A → A → Prop
}.

Definition d_any (D : Discipline) (c : AnyCall) : Prop := match c with Any c => d_call D c end.

Class Upholds {S : Type} `{Store S} (D : Discipline) (I : S → Prop) : Prop :=
  upholds : ∀ A (c : StoreCall A) s, I s → d_call D c → I (call c s).1 ∧ d_answer D c (call c s).2.

Section Upholds.
Context {S : Type} `{Store S} (D : Discipline) (I : S → Prop) `{!Upholds D I}.

Lemma run_calls_upholds cs : ∀ s, Forall (d_any D) cs → I s → I (run_calls cs s).
Proof.
  induction cs as [|[A c] cs IH]; intros s Hcs Hs; [done|]. apply Forall_cons in Hcs as [Hc Hcs].
  cbn [run_calls]. apply IH; [done|]. exact (proj1 (upholds A c s Hs Hc)).
Qed.

(** Whatever the others do within the discipline. *)
#[export] Instance Interfered_upholds :
  Upholds D (fun x : Interfered S => I (if_store x) ∧ Forall (Forall (d_any D)) (if_script x)).
Proof.
  intros A c [s script] [Hs Hscript] Hc. cbn [if_store if_script] in *.
  assert (Hs' : I (run_calls (default [] (head script)) s)).
  { apply run_calls_upholds; [|done]. by destruct Hscript as [|cs script Hcs _]; cbn; [constructor|]. }
  pose proof (upholds A c _ Hs' Hc) as Hu.
  change (call c {| if_store := s; if_script := script |}) with
    (let '(s, a) := call c (run_calls (default [] (head script)) s) in
     ({| if_store := s; if_script := tail script |}, a)).
  destruct (call c (run_calls _ s)) as [s' a]. cbn in *. split_and!; [apply Hu| |apply Hu]. by destruct Hscript.
Qed.

(** The log of a disciplined client holds allowed calls only. *)
#[export] Instance Logged_upholds :
  Upholds D (fun x : Logged S => I (lg_store x) ∧ Forall (d_any D) (lg_calls x)).
Proof.
  intros A c [s log] [Hs Hlog] Hc. cbn [lg_store lg_calls] in *. pose proof (upholds A c s Hs Hc) as Hu.
  change (call c {| lg_store := s; lg_calls := log |}) with
    (let '(s, a) := call c s in ({| lg_store := s; lg_calls := log ++ [Any c] |}, a)).
  destruct (call c s) as [s' a]. cbn in *. split_and!; [apply Hu| |apply Hu].
  apply Forall_app. split; [done|]. by repeat constructor.
Qed.
End Upholds.

(** The log of a run of calls is the calls, and the store is the one they lead to. *)
Lemma logged_replays {S} `{Store S} cs : ∀ x : Logged S,
  lg_store (run_calls cs x) = run_calls cs (lg_store x) ∧ lg_calls (run_calls cs x) = lg_calls x ++ cs.
Proof.
  induction cs as [|[A c] cs IH]; intros x; cbn [run_calls]; [by rewrite app_nil_r|].
  destruct (IH (call c x).1) as [-> ->]. destruct x as [s log].
  change (call c {| lg_store := s; lg_calls := log |}) with
    (let '(s, a) := call c s in ({| lg_store := s; lg_calls := log ++ [Any c] |}, a)).
  destruct (call c s) as [s' a] eqn:Hc. cbn [fst lg_store lg_calls]. by rewrite Hc, <-app_assoc.
Qed.
