(* ===== verification/MemoryStore.v ===== *)
(** * The in-memory store (src/src/persistence/memory.rs)

    [MemoryState] holds the five maps behind the store's one mutex, so every
    method is one atomic function of the state. Methods that walk a [HashMap] use
    the unspecified order of [HashIter]. *)
From S2P Require Import Prelude RustStrings Ids Status Errors Json Workflow Store.
From stdpp Require Import pretty.
Local Open Scope Z_scope.

Record MemoryState := {
  ms_runs : gmap RunId Run;
  ms_task_runs : gmap TaskRunId TaskRun;
  ms_defs : gmap (string * string) WorkflowRecord;
  ms_queue : gmap RunId QueueEntry;
  ms_run_numbers : gmap string Z
}.

Definition mem_new : MemoryState :=
  {| ms_runs := ∅; ms_task_runs := ∅; ms_defs := ∅; ms_queue := ∅; ms_run_numbers := ∅ |}.

Definition set_runs (m : gmap RunId Run) (s : MemoryState) : MemoryState :=
  {| ms_runs := m; ms_task_runs := ms_task_runs s; ms_defs := ms_defs s;
     ms_queue := ms_queue s; ms_run_numbers := ms_run_numbers s |}.

Definition set_task_runs (m : gmap TaskRunId TaskRun) (s : MemoryState) : MemoryState :=
  {| ms_runs := ms_runs s; ms_task_runs := m; ms_defs := ms_defs s;
     ms_queue := ms_queue s; ms_run_numbers := ms_run_numbers s |}.

Definition set_defs (m : gmap (string * string) WorkflowRecord) (s : MemoryState) : MemoryState :=
  {| ms_runs := ms_runs s; ms_task_runs := ms_task_runs s; ms_defs := m;
     ms_queue := ms_queue s; ms_run_numbers := ms_run_numbers s |}.

Definition set_queue (m : gmap RunId QueueEntry) (s : MemoryState) : MemoryState :=
  {| ms_runs := ms_runs s; ms_task_runs := ms_task_runs s; ms_defs := ms_defs s;
     ms_queue := m; ms_run_numbers := ms_run_numbers s |}.

Definition set_run_numbers (m : gmap string Z) (s : MemoryState) : MemoryState :=
  {| ms_runs := ms_runs s; ms_task_runs := ms_task_runs s; ms_defs := ms_defs s;
     ms_queue := ms_queue s; ms_run_numbers := m |}.

(** An entry as submission inserts it: unclaimed, due at [due]. *)
Definition fresh_entry (run_id : RunId) (due : Z) : QueueEntry :=
  {| qe_run_id := run_id; qe_token := empty_token; qe_due_at_ms := due;
     qe_lease_until_ms := None; qe_claimed_by := None |}.

(** An entry leased until 60, and the store that holds it. *)
Definition leased_entry : QueueEntry :=
  {| qe_run_id := "rn_0"; qe_token := "mine"; qe_due_at_ms := 5;
     qe_lease_until_ms := Some 60; qe_claimed_by := Some "dispatcher"%string |}.

Definition leased_state : MemoryState := set_queue {["rn_0"%string := leased_entry]} mem_new.

(** A store with one run that finished at 50, and a definition at a version. *)
Definition finished_state : MemoryState :=
  set_runs {["rn_0"%string := run_set_finished_at_ms (Some 50)
    (run_set_status RunStatus.Succeeded sample_run)]} mem_new.

Definition versioned (v : Z) : WorkflowDef := {|
  wd_id := "wf_default"; wd_tenant := ""; wd_name := ""; wd_version := v;
  wd_description := ""; wd_tasks := []; wd_timeout_ms := 3600000;
  wd_retry := wd_retry workflow_default; wd_default_priority := priority_default;
  wd_hooks := hooks_default; wd_tags := ∅; wd_spec_version := SPEC_VERSION;
  wd_created_at_ms := 0; wd_updated_at_ms := 0
|}.

(** ** Workflows *)

Definition workflow_label (tenant name : string) : string :=
  "workflow " +:+ tenant +:+ "/" +:+ name.

Definition mem_put_workflow (def : WorkflowDef) (s : MemoryState)
    : MemoryState * result WorkflowRecord StorageError :=
  let rec := {| wr_def := def |} in
  (set_defs (<[(wd_tenant def, wd_name def) := rec]> (ms_defs s)) s, Ok rec).

Definition mem_update_workflow_version (tenant name : string) (def : WorkflowDef)
    (expected_version : Z) (s : MemoryState) : MemoryState * result WorkflowRecord StorageError :=
  match ms_defs s !! (tenant, name) with
  | None => (s, Err (StorageError.NotFound (workflow_label tenant name)))
  | Some current =>
      if negb (wd_version (wr_def current) =? expected_version) then
        (s, Err (StorageError.ConcurrentModification (workflow_label tenant name)))
      else if negb (wd_version def =? wrap_u32 (expected_version + 1)) then
        (s, Err (StorageError.Conflict (workflow_label tenant name +:+ " version must be "
          +:+ pretty expected_version +:+ "+1, got " +:+ pretty (wd_version def))))
      else
        let rec := {| wr_def := def |} in
        (set_defs (<[(tenant, name) := rec]> (ms_defs s)) s, Ok rec)
  end.

Definition mem_get_workflow (tenant name : string) (s : MemoryState)
    : result WorkflowRecord StorageError :=
  ok_or (ms_defs s !! (tenant, name)) (StorageError.NotFound (workflow_label tenant name)).

(** Lexicographic order of the [(tenant, name)] pairs. *)
Definition workflow_le (a b : WorkflowRecord) : bool :=
  if bool_decide (wd_tenant (wr_def a) = wd_tenant (wr_def b))
  then String.leb (wd_name (wr_def a)) (wd_name (wr_def b))
  else String.leb (wd_tenant (wr_def a)) (wd_tenant (wr_def b)).

Section MemoryStore.
Context `{HashIter}.

Definition mem_list_workflows (s : MemoryState) : list WorkflowRecord :=
  sort_by workflow_le (hash_values (ms_defs s)).

Definition mem_list_workflow_summaries (s : MemoryState) : list WorkflowSummary :=
  map (fun rec =>
    let runs := List.filter (fun r => bool_decide (rn_def_name r = wd_name (wr_def rec)) &&
      bool_decide (rn_tenant r = wd_tenant (wr_def rec))) (hash_values (ms_runs s)) in
    summary_assemble rec (sort_by newest_first runs)) (hash_values (ms_defs s)).

(** ** Runs *)

Definition mem_put_run (run : Run) (s : MemoryState) : MemoryState :=
  set_runs (<[rn_id run := run]> (ms_runs s)) s.

Definition mem_get_run (id : RunId) (s : MemoryState) : result Run StorageError :=
  ok_or (ms_runs s !! id) (StorageError.NotFound ("run " +:+ id)).

Definition mem_delete_run (id : RunId) (s : MemoryState) : MemoryState :=
  set_task_runs (filter (fun kv => tr_run_id kv.2 ≠ id) (ms_task_runs s))
    (set_runs (delete id (ms_runs s)) s).

Definition mem_matched (f : RunFilter) (s : MemoryState) : list Run :=
  List.filter (filter_matches f) (hash_values (ms_runs s)).

Definition mem_list_runs (f : RunFilter) (s : MemoryState) : list Run :=
  apply_order f (mem_matched f s).

Definition mem_count_runs (f : RunFilter) (s : MemoryState) : Z :=
  Z.of_nat (length (mem_matched f s)).

(** ** Task runs *)

Definition mem_put_task_run (tr : TaskRun) (s : MemoryState) : MemoryState :=
  set_task_runs (<[tr_id tr := tr]> (ms_task_runs s)) s.

Definition mem_get_task_run (id : TaskRunId) (s : MemoryState) : result TaskRun StorageError :=
  ok_or (ms_task_runs s !! id) (StorageError.NotFound ("task run " +:+ id)).

Definition task_runs_sorted (runs : list TaskRun) : list TaskRun :=
  sort_by (fun a b => String.leb (tr_task_name a) (tr_task_name b)) runs.

Definition mem_list_task_runs_for_run (run_id : RunId) (s : MemoryState) : list TaskRun :=
  task_runs_sorted (List.filter (fun t => bool_decide (tr_run_id t = run_id))
    (hash_values (ms_task_runs s))).

Definition mem_next_run_number (def_name : string) (s : MemoryState) : MemoryState * Z :=
  let next := wrap_u64 (default 0 (ms_run_numbers s !! def_name) + 1) in
  (set_run_numbers (<[def_name := next]> (ms_run_numbers s)) s, next).

(** ** The queue *)

Definition mem_enqueue (entry : QueueEntry) (s : MemoryState) : MemoryState * result unit StorageError :=
  match ms_queue s !! qe_run_id entry with
  | Some _ => (s, Err (StorageError.Conflict ("already queued: " +:+ qe_run_id entry)))
  | None => (set_queue (<[qe_run_id entry := entry]> (ms_queue s)) s, Ok tt)
  end.

Definition due_le (a b : QueueEntry) : bool := qe_due_at_ms a <=? qe_due_at_ms b.

Definition mem_scan_ready (now_ms : Z) (limit : nat) (s : MemoryState) : list QueueEntry :=
  take limit (sort_by due_le (List.filter (fun e => is_ready e now_ms) (hash_values (ms_queue s)))).

Definition queue_label (run_id : RunId) : string := "queue entry " +:+ run_id.

Definition mem_claim (run_id : RunId) (token : ClaimToken) (now_ms lease_ms : Z) (s : MemoryState)
    : MemoryState * result unit StorageError :=
  match ms_queue s !! run_id with
  | None => (s, Err (StorageError.NotFound (queue_label run_id)))
  | Some entry =>
      if is_leased entry now_ms && negb (bool_decide (qe_token entry = token)) then
        (s, Err (StorageError.ClaimLost ("run " +:+ run_id)))
      else if is_empty (qe_token entry) && is_empty token && is_leased entry now_ms then
        (s, Err (StorageError.ClaimLost ("run " +:+ run_id)))
      else
        (set_queue (<[run_id := {| qe_run_id := qe_run_id entry; qe_token := token;
           qe_due_at_ms := qe_due_at_ms entry;
           qe_lease_until_ms := Some (wrap_i64 (now_ms + lease_ms));
           qe_claimed_by := Some "dispatcher"%string |}]> (ms_queue s)) s, Ok tt)
  end.

(** The look-up and token test that [ack], [release] and [failclaim] share. *)
Definition owned_entry (run_id : RunId) (token : ClaimToken) (s : MemoryState)
    : result QueueEntry StorageError :=
  let? entry := ok_or (ms_queue s !! run_id) (StorageError.NotFound (queue_label run_id)) in
  if negb (bool_decide (qe_token entry = token)) then Err (StorageError.ClaimLost ("run " +:+ run_id))
  else Ok entry.

Definition mem_ack (run_id : RunId) (token : ClaimToken) (s : MemoryState)
    : MemoryState * result unit StorageError :=
  match owned_entry run_id token s with
  | Err e => (s, Err e)
  | Ok _ => (set_queue (delete run_id (ms_queue s)) s, Ok tt)
  end.

(** An entry without its lease. *)
Definition unleased (entry : QueueEntry) (due_at_ms : Z) : QueueEntry :=
  {| qe_run_id := qe_run_id entry; qe_token := empty_token; qe_due_at_ms := due_at_ms;
     qe_lease_until_ms := None; qe_claimed_by := None |}.

Definition mem_release (run_id : RunId) (token : ClaimToken) (retry_at_ms : Z) (s : MemoryState)
    : MemoryState * result unit StorageError :=
  match owned_entry run_id token s with
  | Err e => (s, Err e)
  | Ok entry => (set_queue (<[run_id := unleased entry retry_at_ms]> (ms_queue s)) s, Ok tt)
  end.

Definition mem_failclaim (run_id : RunId) (token : ClaimToken) (s : MemoryState)
    : MemoryState * result unit StorageError :=
  match owned_entry run_id token s with
  | Err e => (s, Err e)
  | Ok entry => (set_queue (<[run_id := unleased entry (qe_due_at_ms entry)]> (ms_queue s)) s, Ok tt)
  end.

Definition mem_renew_lease (run_id : RunId) (token : ClaimToken) (now_ms extend_by_ms : Z)
    (s : MemoryState) : MemoryState * result unit StorageError :=
  match ms_queue s !! run_id with
  | None => (s, Err (StorageError.NotFound (queue_label run_id)))
  | Some entry =>
      if negb (bool_decide (qe_token entry = token)) || negb (is_leased entry now_ms) then
        (s, Err (StorageError.ClaimLost ("run " +:+ run_id)))
      else
        (set_queue (<[run_id := {| qe_run_id := qe_run_id entry; qe_token := qe_token entry;
           qe_due_at_ms := qe_due_at_ms entry;
           qe_lease_until_ms := Some (wrap_i64 (now_ms + extend_by_ms));
           qe_claimed_by := qe_claimed_by entry |}]> (ms_queue s)) s, Ok tt)
  end.

Definition mem_cancel_run (run_id : RunId) (now_ms : Z) (s : MemoryState)
    : MemoryState * result bool StorageError :=
  match ms_runs s !! run_id with
  | None => (s, Err (StorageError.NotFound ("run " +:+ run_id)))
  | Some run =>
      if Run_is_terminal run then (s, Ok false)
      else
        let run := run_set_error None (run_set_finished_at_ms (Some now_ms)
          (run_set_status RunStatus.Cancelled run)) in
        (set_queue (delete run_id (ms_queue s)) (set_runs (<[run_id := run]> (ms_runs s)) s), Ok true)
  end.

Definition lease_expired (now_ms : Z) (e : QueueEntry) : bool :=
  match qe_lease_until_ms e with Some exp => exp <=? now_ms | None => false end.

(** Collects the ids, then clears each entry still present, counting them. *)
Definition mem_recover_expired_leases (now_ms : Z) (s : MemoryState) : MemoryState * Z :=
  let expired := map qe_run_id (List.filter (lease_expired now_ms) (hash_values (ms_queue s))) in
  let '(queue, recovered) := foldl (fun '(queue, n) id =>
    match queue !! id with
    | Some entry => (<[id := unleased entry (qe_due_at_ms entry)]> queue, n + 1)
    | None => (queue, n)
    end) (ms_queue s, 0) expired in
  (set_queue queue s, recovered).

Definition mem_len_queue (s : MemoryState) : Z := Z.of_nat (size (ms_queue s)).

(** ** The instance *)

Definition mem_call {A} (c : StoreCall A) (s : MemoryState) : MemoryState * A :=
  match c in StoreCall A return MemoryState * A with
  | PutWorkflow def => mem_put_workflow def s
  | UpdateWorkflowVersion tenant name def v => mem_update_workflow_version tenant name def v s
  | GetWorkflow tenant name => (s, mem_get_workflow tenant name s)
  | ListWorkflows => (s, Ok (mem_list_workflows s))
  | ListWorkflowSummaries => (s, Ok (mem_list_workflow_summaries s))
  | PutRun run => (mem_put_run run s, Ok tt)
  | GetRun id => (s, mem_get_run id s)
  | DeleteRun id => (mem_delete_run id s, Ok tt)
  | ListRuns f => (s, Ok (mem_list_runs f s))
  | CountRuns f => (s, Ok (mem_count_runs f s))
  | PutTaskRun tr => (mem_put_task_run tr s, Ok tt)
  | GetTaskRun id => (s, mem_get_task_run id s)
  | ListTaskRunsForRun id => (s, Ok (mem_list_task_runs_for_run id s))
  | NextRunNumber name => let '(s, n) := mem_next_run_number name s in (s, Ok n)
  | Enqueue entry => mem_enqueue entry s
  | ScanReady now limit => (s, Ok (mem_scan_ready now limit s))
  | Claim id token now lease => mem_claim id token now lease s
  | Ack id token => mem_ack id token s
  | Release id token at_ms => mem_release id token at_ms s
  | FailClaim id token => mem_failclaim id token s
  | RenewLease id token now ext => mem_renew_lease id token now ext s
  | CancelRun id now => mem_cancel_run id now s
  | RecoverExpiredLeases now => let '(s, n) := mem_recover_expired_leases now s in (s, Ok n)
  | LenQueue => (s, mem_len_queue s)
  end.

#[export] Instance MemoryStore : Store MemoryState := @mem_call.
End MemoryStore.

(** ** Well-formed states *)

(** Every map is keyed by the id inside its records; counters are [u64]. *)
Record mem_wf (s : MemoryState) : Prop := {
  wf_runs : ∀ k r, ms_runs s !! k = Some r → rn_id r = k;
  wf_task_runs : ∀ k t, ms_task_runs s !! k = Some t → tr_id t = k;
  wf_queue : ∀ k e, ms_queue s !! k = Some e → qe_run_id e = k;
  wf_numbers : ∀ k n, ms_run_numbers s !! k = Some n → in_u64 n
}.

(** Splits on the key of an insertion or deletion looked up in a hypothesis. *)
Ltac lookup_cases :=
  repeat match goal with
  | H : <[?i := _]> _ !! ?j = _ |- _ =>
      apply lookup_insert_Some in H as [[? ?]|[? ?]]; simplify_eq
  | H : delete _ _ !! _ = _ |- _ => apply lookup_delete_Some in H as [? ?]
  | H : filter _ _ !! _ = Some _ |- _ => apply map_lookup_filter_Some in H as [? ?]
  end.

(** [recover_expired_leases] is a fold over ids; it maps every entry. *)
Lemma recover_fold_lookup ids (q : gmap RunId QueueEntry) n k :
  (foldl (fun '(queue, n) id =>
    match queue !! id with
    | Some entry => (<[id := unleased entry (qe_due_at_ms entry)]> queue, n + 1)
    | None => (queue, n)
    end) (q, n) ids).1 !! k
  = (if decide (k ∈ ids) then (fun e => unleased e (qe_due_at_ms e)) <$> q !! k else q !! k).
Proof.
  revert q n. induction ids as [|id ids IH]; intros q n; cbn [foldl]; [done|].
  destruct (q !! id) as [e|] eqn:He; rewrite IH.
  - destruct (decide (k = id)) as [->|Hk].
    + rewrite lookup_insert_eq, He. cbn. rewrite (decide_True (P := id ∈ id :: ids)) by set_solver.
      by case_decide.
    + rewrite lookup_insert_ne by done. repeat case_decide; set_solver.
  - destruct (decide (k = id)) as [->|Hk]; [rewrite He; by repeat case_decide|].
    repeat case_decide; set_solver.
Qed.

Section Wf.
Context `{HashIter}.

Lemma mem_recover_queue now s k :
  ms_queue (mem_recover_expired_leases now s).1 !! k =
  (if decide (k ∈ map qe_run_id (List.filter (lease_expired now) (hash_values (ms_queue s))))
   then (fun e => unleased e (qe_due_at_ms e)) <$> ms_queue s !! k else ms_queue s !! k).
Proof.
  rewrite <-recover_fold_lookup with (n := 0). unfold mem_recover_expired_leases.
  by destruct (foldl _ _ _).
Qed.

Lemma mem_recover_other now s :
  let s' := (mem_recover_expired_leases now s).1 in
  ms_runs s' = ms_runs s ∧ ms_task_runs s' = ms_task_runs s ∧
  ms_defs s' = ms_defs s ∧ ms_run_numbers s' = ms_run_numbers s.
Proof. unfold mem_recover_expired_leases. by destruct (foldl _ _ _). Qed.

Lemma owned_entry_ok run_id token s e :
  owned_entry run_id token s = Ok e → ms_queue s !! run_id = Some e ∧ qe_token e = token.
Proof.
  unfold owned_entry. destruct (ms_queue s !! run_id) as [e'|]; cbn; [|done].
  case_bool_decide; cbn; [|done]. intros [= ->]. done.
Qed.

Lemma mem_call_wf {A} (c : StoreCall A) s : mem_wf s → mem_wf (call c s).1.
Proof.
  intros Hwf. destruct c; cbn [call MemoryStore mem_call fst]; try done.
  all: try (destruct Hwf; constructor; cbn; intros; lookup_cases; eauto; fail).
  - unfold mem_update_workflow_version. repeat case_step; try done.
    destruct Hwf; constructor; cbn; intros; lookup_cases; eauto.
  - destruct Hwf as [H1 H2 H3 H4]. constructor; cbn; intros; lookup_cases; eauto with runvane.
  - unfold mem_enqueue. case_step; [done|].
    destruct Hwf; constructor; cbn; intros; lookup_cases; eauto.
  - unfold mem_claim. repeat case_step; try done.
    destruct Hwf; constructor; cbn; intros; lookup_cases; cbn; eauto.
  - unfold mem_ack. case_step; [|done]. destruct Hwf; constructor; cbn; intros; lookup_cases; eauto.
  - unfold mem_release. destruct (owned_entry _ _ _) eqn:Ho; [|done]. apply owned_entry_ok in Ho as [? _].
    destruct Hwf; constructor; cbn; intros; lookup_cases; cbn; eauto.
  - unfold mem_failclaim. destruct (owned_entry _ _ _) eqn:Ho; [|done]. apply owned_entry_ok in Ho as [? _].
    destruct Hwf; constructor; cbn; intros; lookup_cases; cbn; eauto.
  - unfold mem_renew_lease. repeat case_step; try done.
    destruct Hwf; constructor; cbn; intros; lookup_cases; cbn; eauto.
  - unfold mem_cancel_run. repeat case_step; try done.
    destruct Hwf; constructor; cbn; intros; lookup_cases; cbn; eauto.
  - destruct (mem_recover_other now_ms s) as (H1&H2&H3&H4).
    pose proof (mem_recover_queue now_ms s) as Hq.
    destruct (mem_recover_expired_leases now_ms s) as [s' n]. cbn in *.
    destruct Hwf as [W1 W2 W3 W4]. constructor; rewrite ?H1, ?H2, ?H4; try done.
    intros k e He. rewrite Hq in He. case_decide; [|eauto].
    apply fmap_Some in He as (e0&He0&->). cbn. eauto.
Qed.
End Wf.

(** ** The queue *)

(** A call that neither presents [token] for [run_id], nor cancels the run, nor
    happens (where it is time-stamped) at or after [exp]. *)
Definition foreign_call (run_id : RunId) (token : ClaimToken) (exp : Z) (c : AnyCall) : Prop :=
  match c with
  | Any c =>
      match c with
      | Claim id tok now _ => id = run_id → tok ≠ token ∧ now < exp
      | Ack id tok | Release id tok _ | FailClaim id tok | RenewLease id tok _ _ =>
          id = run_id → tok ≠ token
      | CancelRun id _ => id ≠ run_id
      | RecoverExpiredLeases now => now < exp
      | _ => True
      end
  end.

(** The calls that may end or change a lease of [run_id] under [token] until [exp]: those
    of its holder, a cancellation of the run, and a claim or a sweep at or after [exp]. *)
Inductive ends_lease (run_id : RunId) (token : ClaimToken) (exp : Z) : AnyCall → Prop :=
| ends_claim now lease : ends_lease run_id token exp (Any (Claim run_id token now lease))
| ends_ack : ends_lease run_id token exp (Any (Ack run_id token))
| ends_release t : ends_lease run_id token exp (Any (Release run_id token t))
| ends_failclaim : ends_lease run_id token exp (Any (FailClaim run_id token))
| ends_renew now lease : ends_lease run_id token exp (Any (RenewLease run_id token now lease))
| ends_cancel now : ends_lease run_id token exp (Any (CancelRun run_id now))
| ends_late_claim tok now lease : exp ≤ now → ends_lease run_id token exp (Any (Claim run_id tok now lease))
| ends_sweep now : exp ≤ now → ends_lease run_id token exp (Any (RecoverExpiredLeases now)).

(** Every other call is foreign. *)
Lemma foreign_or_ends run_id token exp c : foreign_call run_id token exp c ∨ ends_lease run_id token exp c.
Proof.
  destruct c as [A c]. destruct c; cbn [foreign_call]; try (by left).
  all: try (destruct (decide (run_id0 = run_id)) as [->|]; [|by left]).
  all: try (destruct (decide (token0 = token)) as [->|]; [by right; constructor|]; try (by left)).
  - destruct (decide (now_ms < exp)); [by left|]. right. apply ends_late_claim. lia.
  - right. constructor.
  - destruct (decide (now_ms < exp)); [by left|]. right. apply ends_sweep. lia.
Qed.

(** Up to the first call that may end the lease, if there is one, all are foreign. *)
Lemma foreign_until run_id token exp cs :
  Forall (foreign_call run_id token exp) cs ∨
  ∃ cs1 c cs2, cs = cs1 ++ c :: cs2 ∧ ends_lease run_id token exp c ∧ Forall (foreign_call run_id token exp) cs1.
Proof.
  induction cs as [|c cs [Hall|(cs1&c'&cs2&->&Hc&Hall)]]; [by left|..];
    (destruct (foreign_or_ends run_id token exp c) as [Hf|He];
     [|right; exists [], c; eexists; split_and!; [reflexivity|done|constructor]]).
  - left. by constructor.
  - right. exists (c :: cs1), c', cs2. split_and!; [done..|by constructor].
Qed.

Section Queue.
Context `{HashIter}.

Lemma owned_entry_foreign run_id token s e tok :
  ms_queue s !! run_id = Some e → qe_token e = token → tok ≠ token →
  owned_entry run_id tok s = Err (StorageError.ClaimLost ("run " +:+ run_id)).
Proof.
  intros He <- Hne. unfold owned_entry. rewrite He. cbn.
  by rewrite bool_decide_eq_false_2 by congruence.
Qed.

(** No foreign call disturbs a live lease. *)
Lemma foreign_keeps_entry run_id token exp e {A} (c : StoreCall A) s :
  mem_wf s → ms_queue s !! run_id = Some e → qe_token e = token →
  qe_lease_until_ms e = Some exp → foreign_call run_id token exp (Any c) →
  ms_queue (call c s).1 !! run_id = Some e.
Proof.
  intros Hwf He Ht Hl Hf.
  destruct c; cbn [call MemoryStore mem_call fst foreign_call] in *; try done.
  - unfold mem_update_workflow_version. by repeat case_step.
  - unfold mem_enqueue. case_step; [done|]. cbn. apply lookup_insert_Some. right.
    split; [congruence|done].
  - unfold mem_claim. destruct (decide (run_id0 = run_id)) as [->|Hne].
    + destruct Hf as [Hne Hnow]; [done|]. rewrite He. unfold is_leased. rewrite Hl.
      rewrite bool_decide_eq_false_2 by congruence. by rewrite (proj2 (Z.ltb_lt _ _) Hnow).
    + repeat case_step; try done. cbn. by rewrite lookup_insert_ne.
  - unfold mem_ack. destruct (decide (run_id0 = run_id)) as [->|Hne].
    + by rewrite (owned_entry_foreign run_id token s e) by auto.
    + case_step; [|done]. cbn. by rewrite lookup_delete_ne.
  - unfold mem_release. destruct (decide (run_id0 = run_id)) as [->|Hne].
    + by rewrite (owned_entry_foreign run_id token s e) by auto.
    + case_step; [|done]. cbn. by rewrite lookup_insert_ne.
  - unfold mem_failclaim. destruct (decide (run_id0 = run_id)) as [->|Hne].
    + by rewrite (owned_entry_foreign run_id token s e) by auto.
    + case_step; [|done]. cbn. by rewrite lookup_insert_ne.
  - unfold mem_renew_lease. destruct (decide (run_id0 = run_id)) as [->|Hne].
    + rewrite He, bool_decide_eq_false_2 by (specialize (Hf eq_refl); congruence). done.
    + repeat case_step; try done. cbn. by rewrite lookup_insert_ne.
  - unfold mem_cancel_run. repeat case_step; try done. cbn. by rewrite lookup_delete_ne.
  - pose proof (mem_recover_queue now_ms s run_id) as Hq.
    destruct (mem_recover_expired_leases now_ms s) as [s' n]. cbn in *. rewrite Hq.
    case_decide as Hin; [|done]. exfalso. apply list_elem_of_In, in_map_iff in Hin as (e'&Hid&Hin').
    apply filter_In in Hin' as [Hin' Hexp]. apply list_elem_of_In, hash_values_elem in Hin' as [k Hk].
    rewrite (wf_queue s Hwf k e' Hk) in Hid. subst k. simplify_eq. unfold lease_expired in Hexp.
    rewrite Hl in Hexp. to_prop. lia.
Qed.

Lemma foreign_calls_keep_entry run_id token exp e cs : ∀ s,
  mem_wf s → ms_queue s !! run_id = Some e → qe_token e = token →
  qe_lease_until_ms e = Some exp → Forall (foreign_call run_id token exp) cs →
  mem_wf (run_calls cs s) ∧ ms_queue (run_calls cs s) !! run_id = Some e.
Proof.
  induction cs as [|[A c] cs IH]; intros s Hwf He Ht Hl Hf; [done|]. cbn [run_calls].
  apply Forall_cons in Hf as [Hc Hf].
  apply IH; eauto using mem_call_wf, foreign_keeps_entry.
Qed.
End Queue.

(** ** Reaping *)

(** Whether [reap_finished_runs] selects a run. *)
Definition reapable (before_ms : Z) (r : Run) : bool :=
  match rn_finished_at_ms r with Some f => f <=? before_ms | None => false end.

Section Reap.
Context `{HashIter}.

Lemma reap_loop_spec before runs : ∀ n s,
  ∃ ids, ids = map rn_id (List.filter (reapable before) runs) ∧
  (reap_loop before n runs s).2 = Ok (n + Z.of_nat (length ids)) ∧
  ms_runs (reap_loop before n runs s).1 = filter (fun kv => kv.1 ∉ ids) (ms_runs s) ∧
  ms_task_runs (reap_loop before n runs s).1 = filter (fun kv => tr_run_id kv.2 ∉ ids) (ms_task_runs s) ∧
  ms_defs (reap_loop before n runs s).1 = ms_defs s ∧
  ms_queue (reap_loop before n runs s).1 = ms_queue s.
Proof.
  induction runs as [|r runs IH]; intros n s; cbn [reap_loop List.filter map].
  - eexists; split; [done|]. cbn. rewrite Z.add_0_r.
    rewrite !map_filter_id by set_solver. done.
  - fold (reapable before r). destruct (reapable before r) eqn:Hr; [|apply IH].
    cbn [call MemoryStore mem_call]. destruct (IH (n + 1) (mem_delete_run (rn_id r) s))
      as (ids&Hids&H1&H2&H3&H4&H5). cbn [map]. rewrite <-Hids. exists (rn_id r :: ids). split; [done|].
    rewrite H1, H2, H3, H4, H5. cbn [length]. split; [f_equal; lia|]. cbn. split; [|split; [|done]].
    + apply map_eq. intros k. rewrite !map_lookup_filter.
      destruct (decide (k = rn_id r)) as [->|Hk]; [rewrite lookup_delete_eq|rewrite lookup_delete_ne by done].
      * cbn. destruct (ms_runs s !! rn_id r); cbn; [|done]. case_guard; set_solver.
      * destruct (ms_runs s !! k); cbn; [|done]. repeat case_guard; set_solver.
    + rewrite map_filter_filter. apply map_filter_ext. intros k t _. cbn.
      rewrite not_elem_of_cons. tauto.
Qed.
End Reap.

(** [recover_expired_leases] counts each id it finds. *)
Lemma recover_fold_count ids (q : gmap RunId QueueEntry) n :
  (∀ id, id ∈ ids → is_Some (q !! id)) →
  (foldl (fun '(queue, n) id =>
    match queue !! id with
    | Some entry => (<[id := unleased entry (qe_due_at_ms entry)]> queue, n + 1)
    | None => (queue, n)
    end) (q, n) ids).2 = n + Z.of_nat (length ids).
Proof.
  revert q n. induction ids as [|id ids IH]; intros q n Hall; cbn [foldl length]; [cbn; lia|].
  destruct (Hall id) as [e He]; [set_solver|]. rewrite He, IH; [lia|].
  intros id' Hid'. destruct (decide (id' = id)) as [->|]; [by rewrite lookup_insert_eq|].
  rewrite lookup_insert_ne by done. apply Hall. set_solver.
Qed.

Lemma expired_ids_elem `{HashIter} now s id : mem_wf s →
  id ∈ map qe_run_id (List.filter (lease_expired now) (hash_values (ms_queue s))) ↔
  ∃ e, ms_queue s !! id = Some e ∧ lease_expired now e = true.
Proof.
  intros Hwf. rewrite list_elem_of_In, in_map_iff. split.
  - intros (e&<-&Hin). apply filter_In in Hin as [Hin He].
    apply list_elem_of_In, hash_values_elem in Hin as [k Hk].
    rewrite (wf_queue s Hwf k e Hk). by exists e.
  - intros (e&He&Hx). exists e. split; [by apply (wf_queue s Hwf)|].
    apply filter_In. split; [|done]. apply list_elem_of_In, hash_values_elem. by exists id.
Qed.

Lemma default_matches run : filter_matches filter_default run = true.
Proof. reflexivity. Qed.

Section ReapLemmas.
Context `{HashIter}.

Lemma list_all_perm s : mem_list_runs filter_default s ≡ₚ (map_to_list (ms_runs s)).*2.
Proof.
  unfold mem_list_runs, mem_matched. rewrite apply_order_page. cbn [rf_limit rf_offset filter_default].
  rewrite drop_0, sort_by_perm. unfold hash_values. rewrite <-hash_iter_perm.
  induction ((hash_iter (ms_runs s)).*2) as [|r l IH]; [done|].
  cbn [List.filter]. rewrite default_matches. by f_equiv.
Qed.

Lemma reaped_ids_elem before s listed id : mem_wf s → listed ≡ₚ (map_to_list (ms_runs s)).*2 →
  id ∈ map rn_id (List.filter (reapable before) listed) ↔
  ∃ run, ms_runs s !! id = Some run ∧ reapable before run = true.
Proof.
  intros Hwf Hp. rewrite list_elem_of_In, in_map_iff.
  assert (Hl : ∀ r, In r listed ↔ ∃ k, ms_runs s !! k = Some r).
  { intros r. rewrite <-list_elem_of_In, Hp, list_elem_of_fmap. split.
    - intros ([k r']&->&Hk%elem_of_map_to_list). by exists k.
    - intros [k Hk]. exists (k, r). by rewrite elem_of_map_to_list. }
  setoid_rewrite filter_In. setoid_rewrite Hl. split.
  - intros (r&<-&[k Hk]&Hr). rewrite (wf_runs s Hwf k r Hk). by exists r.
  - intros (r&Hk&Hr). exists r. split; [by apply (wf_runs s Hwf)|]. eauto.
Qed.

Lemma filter_map_to_list (p : Run → bool) (m : gmap RunId Run) :
  length (List.filter p (map_to_list m).*2) = size (filter (fun kv => p kv.2 = true) m).
Proof.
  induction m as [|k r m Hk IH] using map_ind; [by rewrite map_filter_empty, map_to_list_empty|].
  rewrite map_to_list_insert by done. cbn [fmap list_fmap List.filter snd].
  destruct (p r) eqn:Hp.
  - rewrite map_filter_insert_True by done. rewrite map_size_insert_None
      by (apply map_lookup_filter_None; by left). cbn [length]. by f_equal.
  - rewrite map_filter_insert_False by (cbn; congruence). by rewrite delete_id.
Qed.

Lemma reaped_size before s listed : listed ≡ₚ (map_to_list (ms_runs s)).*2 →
  length (List.filter (reapable before) listed)
  = size (filter (fun kv => reapable before kv.2 = true) (ms_runs s)).
Proof. intros Hp. rewrite <-filter_map_to_list. by rewrite Hp. Qed.
End ReapLemmas.

Lemma mem_new_wf : mem_wf mem_new.
Proof. constructor; cbn; intros k x Hx; by rewrite lookup_empty in Hx. Qed.

Lemma mem_run_calls_wf `{HashIter} cs : ∀ s, mem_wf s → mem_wf (run_calls cs s).
Proof. induction cs as [|[A c] cs IH]; intros s Hs; [done|]. cbn [run_calls]. apply IH, mem_call_wf, Hs. Qed.

(** ** Properties *)

(** Every state the store can reach from the empty one by any sequence of
    trait calls is well-formed: records sit under their own ids in each map and
    the submission counters stay [u64]. *)
Theorem mem_reachable_wf `{HashIter} cs : mem_wf (run_calls cs mem_new).
Proof. apply mem_run_calls_wf, mem_new_wf. Qed.

(** C9. Lease exclusivity: whatever calls all the threads make, in whatever order, a leased
    entry stays exactly as it is up to the first call that is made by the holder of its
    token, cancels the run, or claims it or sweeps at or after the expiry; without such a
    call it stays to the end. *)
Theorem lease_exclusive `{HashIter} run_id exp e cs s :
  mem_wf s → ms_queue s !! run_id = Some e → qe_lease_until_ms e = Some exp →
  ms_queue (run_calls cs s) !! run_id = Some e ∨
  ∃ cs1 c cs2, cs = cs1 ++ c :: cs2 ∧ ends_lease run_id (qe_token e) exp c ∧
    ms_queue (run_calls cs1 s) !! run_id = Some e.
Proof.
  intros Hwf He Hl. destruct (foreign_until run_id (qe_token e) exp cs) as [Hall|(cs1&c&cs2&->&Hc&Hall)].
  - left. by eapply foreign_calls_keep_entry.
  - right. exists cs1, c, cs2. split_and!; [done..|]. by eapply foreign_calls_keep_entry.
Qed.

Lemma lease_exclusive_witness :
  let cs := [Any (Claim "rn_0" "thief" 20 50); Any (Ack "rn_0" "thief"); Any (RecoverExpiredLeases 59);
    Any (CancelRun "rn_0" 60)] in
  ms_queue (run_calls cs leased_state) !! "rn_0"%string = Some leased_entry ∨
  ∃ cs1 c cs2, cs = cs1 ++ c :: cs2 ∧ ends_lease "rn_0" "mine" 60 c ∧
    ms_queue (run_calls cs1 leased_state) !! "rn_0"%string = Some leased_entry.
Proof.
  apply (lease_exclusive "rn_0" 60 leased_entry).
  - constructor; cbn; intros k x Hx.
    1,2,4: rewrite lookup_empty in Hx; discriminate Hx.
    apply lookup_singleton_Some in Hx as [<- <-]. reflexivity.
  - reflexivity.
  - reflexivity.
Defined.

(** A claim succeeds exactly when the run has a queue entry that is not under
    a live lease, or is leased under the claimer's own non-empty token; it
    then leases the entry to that token until [now + lease], and otherwise
    leaves the store unchanged. *)
Theorem claim_spec run_id token now lease s :
  match mem_claim run_id token now lease s with
  | (s', Ok _) => ∃ e, ms_queue s !! run_id = Some e ∧
      (is_leased e now = true → qe_token e = token ∧ token ≠ EmptyString) ∧
      ms_queue s' = <[run_id := {| qe_run_id := qe_run_id e; qe_token := token;
        qe_due_at_ms := qe_due_at_ms e; qe_lease_until_ms := Some (wrap_i64 (now + lease));
        qe_claimed_by := Some "dispatcher"%string |}]> (ms_queue s) ∧ ms_runs s' = ms_runs s
  | (s', Err err) => s' = s ∧
      match ms_queue s !! run_id with
      | None => err = StorageError.NotFound (queue_label run_id)
      | Some e => err = StorageError.ClaimLost ("run " +:+ run_id) ∧ is_leased e now = true ∧
          (qe_token e ≠ token ∨ token = EmptyString)
      end
  end.
Proof.
  unfold mem_claim. destruct (ms_queue s !! run_id) as [e|]; [|done].
  destruct (is_leased e now) eqn:Hle;
    [|cbn [andb]; rewrite andb_false_r; exists e; rewrite Hle; naive_solver].
  case_bool_decide as Ht; cbn [andb negb]; [|by auto].
  rewrite Ht. destruct (is_empty token) eqn:He; cbn [andb].
  - apply is_empty_spec in He. auto.
  - apply is_empty_false in He. exists e. naive_solver.
Qed.

(** [scan_ready] returns entries of the queue that are due and not under a
    live lease, earliest due first, never more than the limit; with a large
    enough limit it returns all of them. *)
Theorem scan_ready_spec `{HashIter} now limit s :
  let l := mem_scan_ready now limit s in
  StronglySorted (fun a b => qe_due_at_ms a ≤ qe_due_at_ms b) l ∧ (length l ≤ limit)%nat ∧
  (∀ e, e ∈ l → (∃ k, ms_queue s !! k = Some e) ∧ qe_due_at_ms e ≤ now ∧ is_leased e now = false) ∧
  ((size (ms_queue s) ≤ limit)%nat → ∀ k e, ms_queue s !! k = Some e →
    qe_due_at_ms e ≤ now → is_leased e now = false → e ∈ l).
Proof.
  cbn zeta. unfold mem_scan_ready.
  set (ready := List.filter _ _).
  assert (Hready : ∀ e, e ∈ ready ↔ (∃ k, ms_queue s !! k = Some e) ∧
    qe_due_at_ms e ≤ now ∧ is_leased e now = false).
  { intros e. unfold ready. rewrite list_elem_of_In, filter_In, <-list_elem_of_In, hash_values_elem.
    unfold is_ready. rewrite andb_true_iff, Z.leb_le, negb_true_iff. done. }
  split; [|split; [|split]].
  - apply StronglySorted_take. eapply StronglySorted_impl; [|apply sort_by_sorted].
    + intros a b Hab. by apply Is_true_true, Z.leb_le in Hab.
    + intros a b c. unfold due_le. rewrite !Is_true_true, !Z.leb_le. lia.
    + intros a b. unfold due_le. rewrite !Is_true_true, !Z.leb_le. lia.
  - rewrite length_take. lia.
  - intros e He. apply Hready. apply elem_of_take in He as (i&Hi&_).
    apply list_elem_of_lookup_2 in Hi. by apply sort_by_elem in Hi.
  - intros Hlim k e He Hdue Hl. rewrite take_ge; [apply sort_by_elem, Hready; eauto|].
    rewrite sort_by_length. unfold ready. etransitivity; [apply filter_length_le|].
    unfold hash_values. by rewrite length_fmap, hash_iter_perm, length_map_to_list.
Qed.

(** A recovery sweep at [now] frees exactly the entries whose lease has run
    out: those lose token, holder and lease and keep their due time, every other
    entry is untouched, and the result counts the freed entries. *)
Theorem recover_spec `{HashIter} now s : mem_wf s →
  (∀ k, ms_queue (mem_recover_expired_leases now s).1 !! k =
    match ms_queue s !! k with
    | Some e => Some (if lease_expired now e then unleased e (qe_due_at_ms e) else e)
    | None => None
    end) ∧
  (mem_recover_expired_leases now s).2 =
    Z.of_nat (length (List.filter (lease_expired now) (hash_values (ms_queue s)))).
Proof.
  intros Hwf. split.
  - intros k. rewrite mem_recover_queue. case_decide as Hin.
    + apply expired_ids_elem in Hin as (e&->&He); [|done]. cbn. by rewrite He.
    + destruct (ms_queue s !! k) as [e|] eqn:Hk; [|done].
      destruct (lease_expired now e) eqn:He; [|done]. destruct Hin.
      apply expired_ids_elem; [done|]. by exists e.
  - unfold mem_recover_expired_leases.
    pose proof (recover_fold_count (map qe_run_id (List.filter (lease_expired now)
      (hash_values (ms_queue s)))) (ms_queue s) 0) as Hc.
    destruct (foldl _ _ _). cbn in *. rewrite Hc, length_map; [done|].
    intros id Hid. apply expired_ids_elem in Hid as (e&He&_); [|done]. by exists e.
Qed.

Lemma recover_spec_witness :
  (mem_recover_expired_leases 60 leased_state).2 = 1 ∧ mem_wf leased_state.
Proof.
  assert (Hwf : mem_wf leased_state).
  { constructor; cbn; intros k x Hx.
    1,2,4: rewrite lookup_empty in Hx; discriminate Hx.
    apply lookup_singleton_Some in Hx as [<- <-]. reflexivity. }
  split; [|exact Hwf]. destruct (recover_spec 60 leased_state Hwf) as [_ H].
  rewrite H. vm_compute. reflexivity.
Defined.

(** Reaping deletes exactly the runs whose finish time is at or before the
    cut-off together with their task runs, reports how many there were, and
    leaves definitions and the queue alone. *)
Theorem reap_spec `{HashIter} before s : mem_wf s →
  let '(s', r) := reap_finished_runs before s in
  ms_runs s' = filter (fun kv => reapable before kv.2 = false) (ms_runs s) ∧
  r = Ok (Z.of_nat (size (filter (fun kv => reapable before kv.2 = true) (ms_runs s)))) ∧
  (∀ k t, ms_task_runs s' !! k = Some t ↔ ms_task_runs s !! k = Some t ∧
     ∀ run, ms_runs s !! tr_run_id t = Some run → reapable before run = false) ∧
  ms_defs s' = ms_defs s ∧ ms_queue s' = ms_queue s.
Proof.
  intros Hwf. unfold reap_finished_runs. cbn [call MemoryStore mem_call].
  set (listed := mem_list_runs filter_default s).
  assert (Hperm : listed ≡ₚ (map_to_list (ms_runs s)).*2) by apply list_all_perm.
  destruct (reap_loop_spec before listed 0 s) as (ids&Hids&H1&H2&H3&H4&H5).
  assert (Hin : ∀ id, id ∈ ids ↔ ∃ run, ms_runs s !! id = Some run ∧ reapable before run = true).
  { intros id. rewrite Hids. apply reaped_ids_elem; done. }
  destruct (reap_loop before 0 listed s) as [s' r]. cbn [fst snd] in *. split; [|split; [|split; [|done]]]; [| |intros k t; split].
  - rewrite H2. apply map_filter_ext. intros k run Hk. cbn. rewrite Hin, Hk.
    split; [|intros Hr (run'&[= <-]&Hr'); congruence].
    intros Hn. destruct (reapable before run) eqn:Hr; [|done]. destruct Hn. by exists run.
  - rewrite H1, Hids, length_map, (reaped_size before s listed Hperm). f_equal.
  - intros Hk. rewrite H3 in Hk. apply map_lookup_filter_Some in Hk as [Hk Hn]. cbn in Hn.
    rewrite Hin in Hn. split; [done|]. intros run Hrun.
    destruct (reapable before run) eqn:Hr; [|done]. destruct Hn. by exists run.
  - intros [Hk Hn]. rewrite H3. apply map_lookup_filter_Some. split; [done|]. cbn. rewrite Hin.
    intros (run&Hrun&Hr). rewrite (Hn run Hrun) in Hr. done.
Qed.

Lemma reap_spec_witness :
  let '(s', r) := reap_finished_runs 100 finished_state in
  ms_runs s' = filter (fun kv => reapable 100 kv.2 = false) (ms_runs finished_state) ∧ r = Ok 1.
Proof.
  assert (Hwf : mem_wf finished_state).
  { constructor; cbn; intros k x Hx.
    2,3,4: rewrite lookup_empty in Hx; discriminate Hx.
    apply lookup_singleton_Some in Hx as [<- <-]. reflexivity. }
  pose proof (reap_spec 100 finished_state Hwf) as H.
  destruct (reap_finished_runs 100 finished_state) as [s' r].
  destruct H as (H1&H2&_). split; [exact H1|]. rewrite H2. vm_compute. reflexivity.
Defined.

(** Cancelling: an unknown run is an error; a terminal run is left exactly as
    it was and [false] is returned; any other run becomes [Cancelled] with its
    finish time set and its error cleared, its queue entry disappears even if a
    worker holds the lease, and nothing else changes. *)
Theorem cancel_spec run_id now s :
  mem_cancel_run run_id now s =
  match ms_runs s !! run_id with
  | None => (s, Err (StorageError.NotFound ("run " +:+ run_id)))
  | Some run =>
      if run_is_terminal (rn_status run) then (s, Ok false)
      else (set_queue (delete run_id (ms_queue s))
              (set_runs (alter (fun r => run_set_error None (run_set_finished_at_ms (Some now)
                (run_set_status RunStatus.Cancelled r))) run_id (ms_runs s)) s), Ok true)
  end.
Proof.
  unfold mem_cancel_run, Run_is_terminal. destruct (ms_runs s !! run_id) as [run|] eqn:Hr; [|done].
  destruct (run_is_terminal (rn_status run)); [done|]. do 3 f_equal.
  apply map_eq. intros k. destruct (decide (k = run_id)) as [->|].
  - by rewrite lookup_insert_eq, lookup_alter_eq, Hr.
  - by rewrite lookup_insert_ne, lookup_alter_ne.
Qed.

(** Optimistic concurrency of definitions: after an update from version [v]
    succeeded, every further update that still expects [v] is refused as a
    concurrent modification and leaves the store unchanged, so of two writers
    that read the same version exactly one wins. *)
Theorem update_version_once tenant name def1 def2 v s s1 rec :
  in_u32 v →
  mem_update_workflow_version tenant name def1 v s = (s1, Ok rec) →
  rec = {| wr_def := def1 |} ∧ mem_get_workflow tenant name s1 = Ok rec ∧
  mem_update_workflow_version tenant name def2 v s1 =
    (s1, Err (StorageError.ConcurrentModification (workflow_label tenant name))).
Proof.
  intros Hv. unfold mem_update_workflow_version, mem_get_workflow.
  destruct (ms_defs s !! (tenant, name)) as [cur|]; [|done].
  destruct (Z.eqb_spec (wd_version (wr_def cur)) v); cbn [negb]; [|done].
  destruct (Z.eqb_spec (wd_version def1) (wrap_u32 (v + 1))) as [Hd|]; cbn [negb]; [|done].
  intros [= <- <-]. cbn. rewrite lookup_insert_eq. cbn. rewrite Hd.
  destruct (Z.eqb_spec (wrap_u32 (v + 1)) v) as [Hw|]; [|done].
  unfold wrap_u32, in_u32, u32_max in *. Z.to_euclidean_division_equations; lia.
Qed.

Lemma update_version_once_witness :
  mem_update_workflow_version "" "" (versioned 2) 1 (mem_update_workflow_version "" "" (versioned 2) 1
    (mem_put_workflow (versioned 1) mem_new).1).1
  = ((mem_update_workflow_version "" "" (versioned 2) 1 (mem_put_workflow (versioned 1) mem_new).1).1,
     Err (StorageError.ConcurrentModification "workflow /")).
Proof.
  refine (proj2 (proj2 (update_version_once "" "" (versioned 2) (versioned 2) 1
    (mem_put_workflow (versioned 1) mem_new).1 _ {| wr_def := versioned 2 |} _ _))).
  - unfold in_u32, u32_max. lia.
  - reflexivity.
Defined.
