(* ===== verification/LruStore.v ===== *)
(** * The caching store (src/src/persistence/lru_store.rs)

    [LruStore] decorates any [Store] with a cache of workflow records. The cache
    itself is the [lru] crate: the class [LruCache] states what the crate
    documents of [get], [put] and [pop] (eviction may drop any entry), and
    [list_lru] is one implementation. [WorkflowFrame] is what the decorator relies
    on of the inner store; [MemoryStore] provides it. *)
From S2P Require Import Prelude Errors Json Workflow Store MemoryStore.
Local Open Scope Z_scope.

Definition DEFAULT_CACHE_CAPACITY : nat := 128.

Class LruCache (C : Type) := {
  lru_new : nat → C;
  lru_get : string * string → C → C * option WorkflowRecord;
  lru_put : string * string → WorkflowRecord → C → C;
  lru_pop : string * string → C → C
}.

Class LruLaws (C : Type) `{LruCache C} := {
  lru_peek : string * string → C → option WorkflowRecord;
  lru_peek_new : ∀ n k, lru_peek k (lru_new n) = None;
  lru_get_value : ∀ k c, (lru_get k c).2 = lru_peek k c;
  lru_get_peek : ∀ k k' c, lru_peek k' (lru_get k c).1 = lru_peek k' c;
  lru_put_peek : ∀ k v k' v' c, lru_peek k' (lru_put k v c) = Some v' →
    (k' = k ∧ v' = v) ∨ (k' ≠ k ∧ lru_peek k' c = Some v');
  lru_pop_peek : ∀ k k' c, lru_peek k' (lru_pop k c) = if decide (k' = k) then None else lru_peek k' c
}.

Record LruStore (S C : Type) := {
  ls_inner : S;
  ls_cache : C;
  ls_hits : Z;
  ls_misses : Z
}.
Arguments ls_inner {S C}.
Arguments ls_cache {S C}.
Arguments ls_hits {S C}.
Arguments ls_misses {S C}.

Section LruStoreOps.
Context {S C : Type} `{Store S} `{LruCache C}.

Definition with_inner (s : S) (l : LruStore S C) : LruStore S C :=
  {| ls_inner := s; ls_cache := ls_cache l; ls_hits := ls_hits l; ls_misses := ls_misses l |}.

(** [NonZeroUsize::new(capacity).expect(...)]: a zero capacity panics. *)
Definition with_capacity (inner : S) (capacity : nat) : option (LruStore S C) :=
  match capacity with
  | O => None
  | _ => Some {| ls_inner := inner; ls_cache := lru_new capacity; ls_hits := 0; ls_misses := 0 |}
  end.

Definition wrap (inner : S) : option (LruStore S C) := with_capacity inner DEFAULT_CACHE_CAPACITY.

Definition cache_stats (l : LruStore S C) : Z * Z := (ls_hits l, ls_misses l).

(** The three critical sections of [fetch]: the cache is not locked while the
    inner store is read. *)
Definition fetch_lookup (key : string * string) (l : LruStore S C)
    : LruStore S C * option WorkflowRecord :=
  let '(cache, hit) := lru_get key (ls_cache l) in
  match hit with
  | Some rec => ({| ls_inner := ls_inner l; ls_cache := cache; ls_hits := wrap_u64 (ls_hits l + 1);
                    ls_misses := ls_misses l |}, Some rec)
  | None => ({| ls_inner := ls_inner l; ls_cache := cache; ls_hits := ls_hits l;
                ls_misses := wrap_u64 (ls_misses l + 1) |}, None)
  end.

Definition fetch_read (key : string * string) (l : LruStore S C)
    : LruStore S C * result WorkflowRecord StorageError :=
  let '(inner, r) := call (GetWorkflow key.1 key.2) (ls_inner l) in (with_inner inner l, r).

Definition fetch_fill (key : string * string) (rec : WorkflowRecord) (l : LruStore S C) : LruStore S C :=
  {| ls_inner := ls_inner l; ls_cache := lru_put key rec (ls_cache l); ls_hits := ls_hits l;
     ls_misses := ls_misses l |}.

Definition fetch (tenant name : string) (l : LruStore S C)
    : LruStore S C * result WorkflowRecord StorageError :=
  let key := (tenant, name) in
  match fetch_lookup key l with
  | (l, Some rec) => (l, Ok rec)
  | (l, None) =>
      match fetch_read key l with
      | (l, Ok rec) => (fetch_fill key rec l, Ok rec)
      | (l, Err e) => (l, Err e)
      end
  end.

Definition invalidate (tenant name : string) (l : LruStore S C) : LruStore S C :=
  {| ls_inner := ls_inner l; ls_cache := lru_pop (tenant, name) (ls_cache l);
     ls_hits := ls_hits l; ls_misses := ls_misses l |}.

(** Every other method forwards to the inner store. *)
Definition delegate {A} (c : StoreCall A) (l : LruStore S C) : LruStore S C * A :=
  let '(inner, r) := call c (ls_inner l) in (with_inner inner l, r).

Definition lru_put_workflow (def : WorkflowDef) (l : LruStore S C)
    : LruStore S C * result WorkflowRecord StorageError :=
  match delegate (PutWorkflow def) l with
  | (l, Ok rec) => (invalidate (wd_tenant (wr_def rec)) (wd_name (wr_def rec)) l, Ok rec)
  | (l, Err e) => (l, Err e)
  end.

Definition lru_update_workflow_version (tenant name : string) (def : WorkflowDef) (v : Z)
    (l : LruStore S C) : LruStore S C * result WorkflowRecord StorageError :=
  match delegate (UpdateWorkflowVersion tenant name def v) l with
  | (l, Ok rec) => (invalidate tenant name l, Ok rec)
  | (l, Err e) => (l, Err e)
  end.

Definition lru_call {A} (c : StoreCall A) (l : LruStore S C) : LruStore S C * A :=
  match c in StoreCall A return StoreCall A → LruStore S C * A with
  | PutWorkflow def => fun _ => lru_put_workflow def l
  | UpdateWorkflowVersion tenant name def v => fun _ => lru_update_workflow_version tenant name def v l
  | GetWorkflow tenant name => fun _ => fetch tenant name l
  | _ => fun c => delegate c l
  end c.

#[export] Instance LruStore_Store : Store (LruStore S C) := @lru_call.
End LruStoreOps.

(** ** What the decorator needs of the inner store

    Reading a workflow changes nothing; a definition changes only through a
    successful write to its key. *)
Definition touches {A} (c : StoreCall A) (r : A) (key : string * string) : Prop :=
  match c in StoreCall A return A → Prop with
  | PutWorkflow _ => fun r => ∃ rec, r = Ok rec ∧ key = (wd_tenant (wr_def rec), wd_name (wr_def rec))
  | UpdateWorkflowVersion tenant name _ _ => fun r => is_ok r = true ∧ key = (tenant, name)
  | _ => fun _ => False
  end r.

Class WorkflowFrame (S : Type) `{Store S} := {
  get_workflow_pure : ∀ tenant name (s : S), (call (GetWorkflow tenant name) s).1 = s;
  workflow_frame : ∀ {A} (c : StoreCall A) (s : S) tenant name,
    ¬ touches c (call c s).2 (tenant, name) →
    (call (GetWorkflow tenant name) (call c s).1).2 = (call (GetWorkflow tenant name) s).2
}.

(** ** A list-backed cache: most recently used first, cut at the capacity *)

Record ListLru := { ll_cap : nat; ll_items : list ((string * string) * WorkflowRecord) }.

Definition drop_key (k : string * string) (l : list ((string * string) * WorkflowRecord)) :=
  List.filter (fun kv => negb (bool_decide (kv.1 = k))) l.

Definition find_key (k : string * string) (l : list ((string * string) * WorkflowRecord)) :=
  snd <$> List.find (fun kv => bool_decide (kv.1 = k)) l.

#[export] Instance list_lru : LruCache ListLru := {|
  lru_new n := {| ll_cap := n; ll_items := [] |};
  lru_get k c := match find_key k (ll_items c) with
    | Some v => ({| ll_cap := ll_cap c; ll_items := (k, v) :: drop_key k (ll_items c) |}, Some v)
    | None => (c, None)
    end;
  lru_put k v c := {| ll_cap := ll_cap c; ll_items := take (ll_cap c) ((k, v) :: drop_key k (ll_items c)) |};
  lru_pop k c := {| ll_cap := ll_cap c; ll_items := drop_key k (ll_items c) |}
|}.

(** An empty cache of capacity one over a store. *)
Definition empty_lru {S} (inner : S) : LruStore S ListLru :=
  {| ls_inner := inner; ls_cache := lru_new 1; ls_hits := 0; ls_misses := 0 |}.

(** ** The list-backed cache satisfies the laws *)

Lemma find_drop_key k k' l :
  find_key k' (drop_key k l) = if decide (k' = k) then None else find_key k' l.
Proof.
  unfold find_key, drop_key. induction l as [|[k0 v0] l IH]; cbn; [by case_decide|].
  destruct (decide (k0 = k)) as [->|Hne].
  - rewrite bool_decide_eq_true_2 by done. cbn. rewrite IH. case_decide as Hk; [done|].
    by rewrite (bool_decide_eq_false_2 (k = k')) by congruence.
  - rewrite bool_decide_eq_false_2 by done. cbn. case_bool_decide; [subst; by case_decide|done].
Qed.

Lemma find_take_key k n l v : find_key k (take n l) = Some v → find_key k l = Some v.
Proof.
  unfold find_key. revert n. induction l as [|[k0 v0] l IH]; intros [|n]; cbn; try done.
  case_bool_decide; [done|]. apply IH.
Qed.

#[export] Instance list_lru_laws : LruLaws ListLru.
Proof.
  refine {| lru_peek k c := find_key k (ll_items c) |}.
  - done.
  - intros k c. cbn. by destruct (find_key k (ll_items c)).
  - intros k k' c. cbn. destruct (find_key k (ll_items c)) as [v|] eqn:Hv; [|done].
    cbn. unfold find_key at 1. cbn. case_bool_decide as Hk; [by subst|].
    change (find_key k' (drop_key k (ll_items c)) = find_key k' (ll_items c)).
    rewrite find_drop_key. by case_decide.
  - intros k v k' v' c Hp. cbn in Hp. apply find_take_key in Hp. unfold find_key in Hp. cbn in Hp.
    case_bool_decide as Hk; [left; by simplify_eq/=|right].
    change (find_key k' (drop_key k (ll_items c)) = Some v') in Hp. rewrite find_drop_key in Hp.
    case_decide; [done|]. split; [congruence|done].
  - intros k k' c. cbn. apply find_drop_key.
Defined.

#[export] Instance MemoryStore_frame `{HashIter} : WorkflowFrame MemoryState.
Proof.
  split; [done|]. intros A c s tenant name Hn.
  destruct c; cbn [call MemoryStore mem_call fst snd touches] in *; try done.
  - unfold mem_get_workflow. cbn. rewrite lookup_insert_ne; [done|]. intros Heq. apply Hn. eauto.
  - unfold mem_update_workflow_version in *. repeat case_step; try done.
    unfold mem_get_workflow. cbn in *. rewrite lookup_insert_ne; [done|]. intros Heq. by apply Hn.
  - unfold mem_enqueue. by repeat case_step.
  - unfold mem_claim. by repeat case_step.
  - unfold mem_ack. by repeat case_step.
  - unfold mem_release. by repeat case_step.
  - unfold mem_failclaim. by repeat case_step.
  - unfold mem_renew_lease. by repeat case_step.
  - unfold mem_cancel_run. by repeat case_step.
  - destruct (mem_recover_other now_ms s) as (_&_&Hd&_).
    destruct (mem_recover_expired_leases now_ms s). unfold mem_get_workflow. cbn in *. by rewrite Hd.
Qed.

(** ** Coherence *)

Section Coherence.
Context {S C : Type} `{WorkflowFrame S} `{LruLaws C}.

(** Every cached record is what the inner store would return. *)
Definition coherent (l : LruStore S C) : Prop :=
  ∀ tenant name rec, lru_peek (tenant, name) (ls_cache l) = Some rec →
    (call (GetWorkflow tenant name) (ls_inner l)).2 = Ok rec.

(** One call on the decorator is the same call on the inner store. *)
Definition refines {A} (c : StoreCall A) (l : LruStore S C) : Prop :=
  coherent (call c l).1 ∧ ls_inner (call c l).1 = (call c (ls_inner l)).1 ∧
  (call c l).2 = (call c (ls_inner l)).2.

Lemma fetch_refines tenant name l : coherent l → refines (GetWorkflow tenant name) l.
Proof.
  intros Hc. unfold refines. change (call (GetWorkflow tenant name) l) with (fetch tenant name l).
  unfold fetch, fetch_lookup, fetch_read.
  pose proof (lru_get_value (tenant, name) (ls_cache l)) as Hv.
  pose proof (fun k' => lru_get_peek (tenant, name) k' (ls_cache l)) as Hp.
  pose proof (get_workflow_pure tenant name (ls_inner l)) as Hpure.
  destruct (lru_get (tenant, name) (ls_cache l)) as [cache [rec|]]; cbn in *.
  - split; [|split; [by rewrite Hpure|symmetry; by apply Hc]].
    intros t n r. cbn. rewrite Hp. apply Hc.
  - destruct (call (GetWorkflow tenant name) (ls_inner l)) as [s [rec|e]] eqn:Hcall; cbn in *; subst s.
    + split; [|done]. intros t n r. cbn. intros [[Heq ->]|[_ Hr]]%lru_put_peek.
      * simplify_eq. by rewrite Hcall.
      * rewrite Hp in Hr. by apply Hc.
    + split; [|done]. intros t n r. cbn. rewrite Hp. apply Hc.
Qed.

(** A delegated call followed by the invalidation of the key it may have touched. *)
Lemma write_coherent {A} (c : StoreCall A) l key : coherent l →
  (∀ k, touches c (call c (ls_inner l)).2 k → k = key) →
  coherent (invalidate key.1 key.2 (with_inner (call c (ls_inner l)).1 l)).
Proof.
  intros Hc Ht tenant name rec. cbn. rewrite lru_pop_peek. case_decide as Hk; [done|].
  intros Hr. rewrite workflow_frame; [by apply Hc|]. intros Hto%Ht. destruct key. cbn in *. congruence.
Qed.

Lemma delegate_coherent {A} (c : StoreCall A) l : coherent l →
  (∀ k, ¬ touches c (call c (ls_inner l)).2 k) → coherent (with_inner (call c (ls_inner l)).1 l).
Proof.
  intros Hc Ht tenant name rec Hr. cbn. rewrite workflow_frame by apply Ht. by apply Hc.
Qed.

Lemma delegate_refines {A} (c : StoreCall A) l : coherent l →
  (∀ k, ¬ touches c (call c (ls_inner l)).2 k) → call c l = delegate c l → refines c l.
Proof.
  intros Hc Ht Hd. unfold refines. rewrite Hd. pose proof (delegate_coherent c l Hc Ht).
  unfold delegate. by destruct (call c (ls_inner l)).
Qed.

Lemma call_refines {A} (c : StoreCall A) l : coherent l → refines c l.
Proof.
  intros Hc. destruct c;
    try (apply delegate_refines; [done|intros k []|reflexivity]).
  - unfold refines. change (call (PutWorkflow def) l) with (lru_put_workflow def l).
    unfold lru_put_workflow, delegate.
    destruct (call (PutWorkflow def) (ls_inner l)) as [s [rec|e]] eqn:Hcall; cbn; (split; [|done]).
    + pose proof (write_coherent (PutWorkflow def) l (wd_tenant (wr_def rec), wd_name (wr_def rec)) Hc) as Hw.
      rewrite Hcall in Hw. apply Hw. intros k (rec'&[= <-]&->). done.
    + pose proof (delegate_coherent (PutWorkflow def) l Hc) as Hw. rewrite Hcall in Hw.
      apply Hw. by intros k (?&?&_).
  - unfold refines. change (call (UpdateWorkflowVersion tenant name def expected_version) l)
      with (lru_update_workflow_version tenant name def expected_version l).
    unfold lru_update_workflow_version, delegate.
    destruct (call (UpdateWorkflowVersion tenant name def expected_version) (ls_inner l))
      as [s [rec|e]] eqn:Hcall; cbn; (split; [|done]).
    + pose proof (write_coherent (UpdateWorkflowVersion tenant name def expected_version) l
        (tenant, name) Hc) as Hw. rewrite Hcall in Hw. apply Hw. by intros k [_ ->].
    + pose proof (delegate_coherent (UpdateWorkflowVersion tenant name def expected_version) l Hc) as Hw.
      rewrite Hcall in Hw. apply Hw. by intros k [? _].
  - by apply fetch_refines.
Qed.

Lemma calls_refine cs : ∀ l, coherent l →
  coherent (run_calls cs l) ∧ ls_inner (run_calls cs l) = run_calls cs (ls_inner l).
Proof.
  induction cs as [|[A c] cs IH]; intros l Hc; [done|]. cbn [run_calls].
  destruct (call_refines c l Hc) as (Hc'&Hi&_). rewrite <-Hi. by apply IH.
Qed.
End Coherence.

(** ** Properties *)

(** C7. The cache is invisible: from an empty cache, whatever calls were made
    before, the next call on the decorated store returns what the same call
    returns on the bare store after the same calls, and leaves the same inner
    state. This needs of the inner store only that definitions change through
    successful writes to their key, and of the cache only its documented laws. *)
Theorem lru_refines_inner {S C} `{WorkflowFrame S} `{LruLaws C} (inner : S) capacity
    (l0 : LruStore S C) cs {A} (c : StoreCall A) :
  with_capacity inner capacity = Some l0 →
  (call c (run_calls cs l0)).2 = (call c (run_calls cs inner)).2 ∧
  ls_inner (call c (run_calls cs l0)).1 = (call c (run_calls cs inner)).1.
Proof.
  intros Hl0. assert (coherent l0 ∧ ls_inner l0 = inner) as [Hc0 <-].
  { destruct capacity; simplify_eq/=. split; [|done]. intros t n r. cbn. by rewrite lru_peek_new. }
  destruct (calls_refine cs l0 Hc0) as [Hc Hi].
  destruct (call_refines c _ Hc) as (_&Hst&Hres). by rewrite Hst, Hres, Hi.
Qed.

Lemma lru_refines_inner_witness :
  (call (GetWorkflow "" "") (run_calls
    [Any (PutWorkflow (versioned 1)); Any (GetWorkflow "" ""); Any (PutWorkflow (versioned 2))]
    (empty_lru mem_new))).2
  = (call (GetWorkflow "" "") (run_calls
    [Any (PutWorkflow (versioned 1)); Any (GetWorkflow "" ""); Any (PutWorkflow (versioned 2))]
    mem_new)).2.
Proof.
  refine (proj1 (lru_refines_inner mem_new 1 (empty_lru mem_new)
    [Any (PutWorkflow (versioned 1)); Any (GetWorkflow "" ""); Any (PutWorkflow (versioned 2))]
    (GetWorkflow "" "") _)).
  reflexivity.
Defined.

(** Atomicity matters: [fetch] drops the cache lock while it reads the inner
    store. If another thread replaces the definition (writing and invalidating)
    between that read and the cache insertion, the decorated store serves the
    superseded definition afterwards although the inner store has the new one. *)
Theorem fetch_race_stale :
  let l0 := (call (PutWorkflow (versioned 1)) (empty_lru mem_new)).1 in
  let l1 := (fetch_lookup ("", "")%string l0).1 in
  let '(l2, read) := fetch_read ("", "")%string l1 in
  let l3 := (call (PutWorkflow (versioned 2)) l2).1 in
  match read with
  | Err _ => False
  | Ok rec =>
      let l4 := fetch_fill ("", "")%string rec l3 in
      (call (GetWorkflow "" "") l4).2 = Ok {| wr_def := versioned 1 |} ∧
      (call (GetWorkflow "" "") (ls_inner l4)).2 = Ok {| wr_def := versioned 2 |}
  end.
Proof. split; reflexivity. Qed.
