(* ===== verification/StoreLaws.v ===== *)
(** * What the scheduler relies on of a store

    [RunStore] states, over three views of a store's state, the behaviour of the
    calls the scheduler makes; [store_ok] is an invariant every call preserves.
    The in-memory store satisfies it, and so does the caching decorator over any
    store that does. *)
From S2P Require Import Prelude Ids Status Errors Workflow Store MemoryStore LruStore.
Local Open Scope Z_scope.

(** Calls that change none of the three views. *)
Definition view_neutral {A} (c : StoreCall A) : bool :=
  match c with
  | GetWorkflow _ _ | ListWorkflows | ListWorkflowSummaries | GetRun _ | ListRuns _ | CountRuns _
  | GetTaskRun _ | ListTaskRunsForRun _ | NextRunNumber _ | Enqueue _ | ScanReady _ _
  | Claim _ _ _ _ | Ack _ _ | Release _ _ _ | FailClaim _ _ | RenewLease _ _ _ _
  | RecoverExpiredLeases _ | LenQueue => true
  | _ => false
  end.

Class RunStore (S : Type) `{Store S} := {
  view_runs : S → gmap RunId Run;
  view_tasks : S → gmap TaskRunId TaskRun;
  view_defs : S → gmap (string * string) WorkflowRecord;
  store_ok : S → Prop;
  rs_ok : ∀ {A} (c : StoreCall A) s, store_ok s → store_ok (call c s).1;
  rs_neutral : ∀ {A} (c : StoreCall A) s, store_ok s → view_neutral c = true →
    view_runs (call c s).1 = view_runs s ∧ view_tasks (call c s).1 = view_tasks s ∧
    view_defs (call c s).1 = view_defs s;
  rs_get_run : ∀ id s, store_ok s →
    match (call (GetRun id) s).2 with
    | Ok r => view_runs s !! id = Some r
    | Err _ => view_runs s !! id = None
    end;
  rs_get_workflow : ∀ tenant name s, store_ok s →
    match (call (GetWorkflow tenant name) s).2 with
    | Ok r => view_defs s !! (tenant, name) = Some r
    | Err _ => view_defs s !! (tenant, name) = None
    end;
  rs_get_task : ∀ id s, store_ok s →
    match (call (GetTaskRun id) s).2 with
    | Ok t => view_tasks s !! id = Some t
    | Err _ => view_tasks s !! id = None
    end;
  rs_list_tasks : ∀ run_id s, store_ok s → ∃ l, (call (ListTaskRunsForRun run_id) s).2 = Ok l ∧
    ∀ t, t ∈ l ↔ ∃ k, view_tasks s !! k = Some t ∧ tr_run_id t = run_id;
  rs_put_run : ∀ run s, store_ok s →
    (call (PutRun run) s).2 = Ok tt ∧
    view_runs (call (PutRun run) s).1 = <[rn_id run := run]> (view_runs s) ∧
    view_tasks (call (PutRun run) s).1 = view_tasks s ∧
    view_defs (call (PutRun run) s).1 = view_defs s;
  rs_put_task : ∀ tr s, store_ok s →
    (call (PutTaskRun tr) s).2 = Ok tt ∧
    view_tasks (call (PutTaskRun tr) s).1 = <[tr_id tr := tr]> (view_tasks s) ∧
    view_runs (call (PutTaskRun tr) s).1 = view_runs s ∧
    view_defs (call (PutTaskRun tr) s).1 = view_defs s
}.

(** ** The in-memory store *)

Lemma mem_neutral `{HashIter} {A} (c : StoreCall A) s : view_neutral c = true →
  ms_runs (call c s).1 = ms_runs s ∧ ms_task_runs (call c s).1 = ms_task_runs s ∧
  ms_defs (call c s).1 = ms_defs s.
Proof.
  destruct c; cbn [call MemoryStore mem_call fst view_neutral]; try done; intros _.
  - unfold mem_enqueue. by repeat case_step.
  - unfold mem_claim. by repeat case_step.
  - unfold mem_ack. by repeat case_step.
  - unfold mem_release. by repeat case_step.
  - unfold mem_failclaim. by repeat case_step.
  - unfold mem_renew_lease. by repeat case_step.
  - destruct (mem_recover_other now_ms s) as (?&?&?&_). by destruct (mem_recover_expired_leases now_ms s).
Qed.

Lemma mem_list_tasks_elem `{HashIter} run_id s t :
  t ∈ mem_list_task_runs_for_run run_id s ↔ ∃ k, ms_task_runs s !! k = Some t ∧ tr_run_id t = run_id.
Proof.
  unfold mem_list_task_runs_for_run, task_runs_sorted.
  rewrite sort_by_elem, list_elem_of_In, filter_In, <-list_elem_of_In, hash_values_elem,
    bool_decide_eq_true. naive_solver.
Qed.

#[export] Instance MemoryStore_laws `{HashIter} : RunStore MemoryState.
Proof.
  refine {| view_runs := ms_runs; view_tasks := ms_task_runs; view_defs := ms_defs; store_ok := mem_wf |}.
  - intros. by apply mem_call_wf.
  - intros. by apply mem_neutral.
  - intros id s _. cbn. unfold mem_get_run. by destruct (ms_runs s !! id).
  - intros t n s _. cbn. unfold mem_get_workflow. by destruct (ms_defs s !! (t, n)).
  - intros id s _. cbn. unfold mem_get_task_run. by destruct (ms_task_runs s !! id).
  - intros id s _. eexists. split; [reflexivity|]. intros t. apply mem_list_tasks_elem.
  - done.
  - done.
Defined.

(** ** The decorator *)

#[export] Instance LruStore_laws {S C} `{RunStore S} `{!WorkflowFrame S} `{LruLaws C}
  : RunStore (LruStore S C).
Proof.
  assert (Hr : ∀ A (c : StoreCall A) (l : LruStore S C), coherent l ∧ store_ok (ls_inner l) →
    refines c l) by (intros A c l [Hc _]; by apply call_refines).
  refine {| view_runs l := view_runs (ls_inner l); view_tasks l := view_tasks (ls_inner l);
            view_defs l := view_defs (ls_inner l);
            store_ok l := coherent l ∧ store_ok (ls_inner l) |}.
  - intros A c l Hl. destruct (Hr A c l Hl) as (Hc&Hi&_). split; [done|]. rewrite Hi.
    apply rs_ok, Hl.
  - intros A c l Hl Hn. destruct (Hr A c l Hl) as (_&Hi&_). rewrite Hi. apply rs_neutral; [apply Hl|done].
  - intros id l Hl. destruct (Hr _ (GetRun id) l Hl) as (_&_&->). apply rs_get_run, Hl.
  - intros t n l Hl. destruct (Hr _ (GetWorkflow t n) l Hl) as (_&_&->). apply rs_get_workflow, Hl.
  - intros id l Hl. destruct (Hr _ (GetTaskRun id) l Hl) as (_&_&->). apply rs_get_task, Hl.
  - intros id l Hl. destruct (Hr _ (ListTaskRunsForRun id) l Hl) as (_&_&->). apply rs_list_tasks, Hl.
  - intros r l Hl. destruct (Hr _ (PutRun r) l Hl) as (_&->&->). apply rs_put_run, Hl.
  - intros t l Hl. destruct (Hr _ (PutTaskRun t) l Hl) as (_&->&->). apply rs_put_task, Hl.
Defined.
