(* ===== verification/StoreSpec.v ===== *)
(** * The contract every backend implements
    (the documentation of the trait in src/src/persistence/mod.rs)

    [contract c s s' r] says that a store with the records [s] may answer the call
    [c] with [r] and hold the records [s'] afterwards. Where the trait leaves a choice
    (the order of rows that tie, which error refuses a call about an entry that is not
    there, whether a lease that has run out can be taken over before it is recovered) the
    contract leaves it too. The
    in-memory store meets it; leases are exclusive under any store that does. *)
From S2P Require Import Prelude RustStrings Ids Status Errors Json Workflow Store MemoryStore.
Local Open Scope Z_scope.

Definition refused {A} (s s' : MemoryState) (r : result A StorageError) : Prop :=
  s' = s ∧ is_ok r = false.

(** The store as it is after an operation on the queue entry of a run. *)
Definition set_entry (run_id : RunId) (e : option QueueEntry) (s : MemoryState) : MemoryState :=
  set_queue (partial_alter (fun _ => e) run_id (ms_queue s)) s.

(** An operation reserved to the holder of the entry's token. *)
Definition held_op (run_id : RunId) (token : ClaimToken) (f : QueueEntry → option QueueEntry)
    (s s' : MemoryState) (r : result unit StorageError) : Prop :=
  match ms_queue s !! run_id with
  | None => refused s s' r
  | Some e =>
      if bool_decide (qe_token e = token) then s' = set_entry run_id (f e) s ∧ r = Ok tt
      else s' = s ∧ ∃ text, r = Err (StorageError.ClaimLost text)
  end.

Definition with_lease (token : ClaimToken) (until : Z) (e : QueueEntry) : QueueEntry :=
  {| qe_run_id := qe_run_id e; qe_token := token; qe_due_at_ms := qe_due_at_ms e;
     qe_lease_until_ms := Some until; qe_claimed_by := Some "dispatcher"%string |}.

(** A live lease of another token is refused, a free entry granted; a lease that has
    run out, or is the claimer's own, may go either way. *)
Definition claim_op (run_id : RunId) (token : ClaimToken) (now_ms lease_ms : Z)
    (s s' : MemoryState) (r : result unit StorageError) : Prop :=
  match ms_queue s !! run_id with
  | None => refused s s' r
  | Some e =>
      let granted := s' = set_entry run_id (Some (with_lease token (wrap_i64 (now_ms + lease_ms)) e)) s ∧ r = Ok tt in
      let lost := s' = s ∧ ∃ text, r = Err (StorageError.ClaimLost text) in
      if is_leased e now_ms && negb (bool_decide (qe_token e = token)) then lost
      else if bool_decide (qe_lease_until_ms e = None) then granted
      else granted ∨ lost
  end.

Definition renew_op (run_id : RunId) (token : ClaimToken) (now_ms extend_by_ms : Z)
    (s s' : MemoryState) (r : result unit StorageError) : Prop :=
  match ms_queue s !! run_id with
  | None => refused s s' r
  | Some e =>
      if bool_decide (qe_token e = token) && is_leased e now_ms then
        s' = set_entry run_id (Some {| qe_run_id := qe_run_id e; qe_token := qe_token e;
          qe_due_at_ms := qe_due_at_ms e; qe_lease_until_ms := Some (wrap_i64 (now_ms + extend_by_ms));
          qe_claimed_by := qe_claimed_by e |}) s ∧ r = Ok tt
      else s' = s ∧ ∃ text, r = Err (StorageError.ClaimLost text)
  end.

Definition recovered_queue (now_ms : Z) (q : gmap RunId QueueEntry) : gmap RunId QueueEntry :=
  (fun e => if lease_expired now_ms e then unleased e (qe_due_at_ms e) else e) <$> q.

Abbreviation rows m := (map_to_list m).*2.

Definition runs_of (rec : WorkflowRecord) (run : Run) : bool :=
  bool_decide (rn_def_name run = wd_name (wr_def rec)) && bool_decide (rn_tenant run = wd_tenant (wr_def rec)).

Definition contract {A} (c : StoreCall A) (s s' : MemoryState) : A → Prop :=
  match c in StoreCall A return A → Prop with
  | PutWorkflow def => fun r => (s', r) = mem_put_workflow def s
  | UpdateWorkflowVersion tenant name def v => fun r =>
      (s', r) = mem_update_workflow_version tenant name def v s
  | GetWorkflow tenant name => fun r => s' = s ∧ r = mem_get_workflow tenant name s
  | ListWorkflows => fun r => s' = s ∧ ∃ l, l ≡ₚ rows (ms_defs s) ∧ r = Ok (sort_by workflow_le l)
  | ListWorkflowSummaries => fun r => s' = s ∧ ∃ recs l, recs ≡ₚ rows (ms_defs s) ∧ r = Ok l ∧
      Forall2 (fun rec sum => ∃ runs, runs ≡ₚ rows (ms_runs s) ∧
        sum = summary_assemble rec (sort_by newest_first (List.filter (runs_of rec) runs))) recs l
  | PutRun run => fun r => s' = mem_put_run run s ∧ r = Ok tt
  | GetRun id => fun r => s' = s ∧ r = mem_get_run id s
  | DeleteRun id => fun r => s' = mem_delete_run id s ∧ r = Ok tt
  | ListRuns f => fun r => s' = s ∧ ∃ l, l ≡ₚ rows (ms_runs s) ∧
      r = Ok (apply_order f (List.filter (filter_matches f) l))
  | CountRuns f => fun r => s' = s ∧ r = Ok (Z.of_nat (length (List.filter (filter_matches f) (rows (ms_runs s)))))
  | PutTaskRun tr => fun r => s' = mem_put_task_run tr s ∧ r = Ok tt
  | GetTaskRun id => fun r => s' = s ∧ r = mem_get_task_run id s
  | ListTaskRunsForRun id => fun r => s' = s ∧ ∃ l, l ≡ₚ rows (ms_task_runs s) ∧
      r = Ok (task_runs_sorted (List.filter (fun t => bool_decide (tr_run_id t = id)) l))
  | NextRunNumber name => fun r =>
      s' = (mem_next_run_number name s).1 ∧ r = Ok (mem_next_run_number name s).2
  | Enqueue entry => fun r =>
      match ms_queue s !! qe_run_id entry with
      | Some _ => s' = s ∧ ∃ text, r = Err (StorageError.Conflict text)
      | None => s' = set_entry (qe_run_id entry) (Some entry) s ∧ r = Ok tt
      end
  | ScanReady now limit => fun r => s' = s ∧ ∃ l, l ≡ₚ rows (ms_queue s) ∧
      r = Ok (take limit (sort_by due_le (List.filter (fun e => is_ready e now) l)))
  | Claim id token now lease => claim_op id token now lease s s'
  | Ack id token => held_op id token (fun _ => None) s s'
  | Release id token at_ms => held_op id token (fun e => Some (unleased e at_ms)) s s'
  | FailClaim id token => held_op id token (fun e => Some (unleased e (qe_due_at_ms e))) s s'
  | RenewLease id token now ext => renew_op id token now ext s s'
  | CancelRun id now => fun r => (s', r) = mem_cancel_run id now s
  | RecoverExpiredLeases now => fun r => s' = set_queue (recovered_queue now (ms_queue s)) s ∧
      r = Ok (Z.of_nat (length (List.filter (lease_expired now) (rows (ms_queue s)))))
  | LenQueue => fun r => s' = s ∧ r = Z.of_nat (size (ms_queue s))
  end.

(** ** The in-memory store *)

Lemma state_eta s : set_queue (ms_queue s) s = s.
Proof. by destruct s. Qed.

Lemma hash_values_perm `{HashIter} {K V} `{Countable K} (m : gmap K V) : hash_values m ≡ₚ rows m.
Proof. unfold hash_values. by rewrite hash_iter_perm. Qed.

Lemma held_op_mem run_id token f (s : MemoryState) (op : QueueEntry → gmap RunId QueueEntry) :
  (∀ e, op e = partial_alter (fun _ => f e) run_id (ms_queue s)) →
  let '(s', r) := match owned_entry run_id token s with
                  | Err e => (s, Err e)
                  | Ok e => (set_queue (op e) s, Ok tt)
                  end in held_op run_id token f s s' r.
Proof.
  intros Hop. unfold owned_entry, held_op. destruct (ms_queue s !! run_id) as [e|] eqn:He; cbn; [|done].
  destruct (decide (qe_token e = token)) as [Ht|Ht].
  - rewrite !bool_decide_eq_true_2 by done. cbn. by rewrite Hop.
  - rewrite !bool_decide_eq_false_2 by done. cbn. eauto.
Qed.

Lemma mem_recover_contract `{HashIter} now s : mem_wf s →
  contract (RecoverExpiredLeases now) s (mem_recover_expired_leases now s).1
    (Ok (mem_recover_expired_leases now s).2).
Proof.
  intros Hwf. destruct (recover_spec now s Hwf) as [Hq Hn]. cbn [contract]. split.
  - destruct (mem_recover_other now s) as (Hr&Ht&Hd&Hnum). destruct (mem_recover_expired_leases now s) as [s' n].
    cbn [fst] in *. destruct s, s'. cbn in *. subst. unfold set_queue. cbn. f_equal.
    apply map_eq. intros k. rewrite Hq. unfold recovered_queue. rewrite lookup_fmap. by destruct (_ !! k).
  - rewrite Hn. do 2 f_equal. apply Permutation_length. by rewrite hash_values_perm.
Qed.

Lemma mem_meets_contract `{HashIter} {A} (c : StoreCall A) s : mem_wf s →
  contract c s (call c s).1 (call c s).2.
Proof.
  intros Hwf. destruct c; cbn [call MemoryStore mem_call contract fst snd]; try done.
  - by destruct (mem_update_workflow_version tenant name def expected_version s).
  - split; [done|]. exists (hash_values (ms_defs s)). split; [apply hash_values_perm|done].
  - split; [done|]. exists (hash_values (ms_defs s)), (mem_list_workflow_summaries s).
    split; [apply hash_values_perm|]. split; [done|]. unfold mem_list_workflow_summaries.
    induction (hash_values (ms_defs s)) as [|rec recs IH]; cbn [map]; constructor; [|done].
    exists (hash_values (ms_runs s)). split; [apply hash_values_perm|done].
  - split; [done|]. exists (hash_values (ms_runs s)). split; [apply hash_values_perm|done].
  - split; [done|]. unfold mem_count_runs, mem_matched. do 2 f_equal. by rewrite hash_values_perm.
  - split; [done|]. exists (hash_values (ms_task_runs s)). split; [apply hash_values_perm|done].
  - unfold mem_enqueue. destruct (ms_queue s !! qe_run_id entry); [by eauto|done].
  - split; [done|]. exists (hash_values (ms_queue s)). split; [apply hash_values_perm|done].
  - unfold mem_claim, claim_op. destruct (ms_queue s !! run_id) as [e|] eqn:He; [|done].
    destruct (is_leased e now_ms && negb (bool_decide (qe_token e = token))); [by eauto|].
    destruct (is_empty (qe_token e) && is_empty token && is_leased e now_ms) eqn:Hown; cbn [fst snd].
    + rewrite bool_decide_eq_false_2; [by eauto|]. to_prop. unfold is_leased in *. by case_match.
    + case_bool_decide; [done|]. by left.
  - pose proof (held_op_mem run_id token (fun _ => None) s (fun _ => delete run_id (ms_queue s)) (fun _ => eq_refl)).
    unfold mem_ack. by destruct (owned_entry run_id token s).
  - pose proof (held_op_mem run_id token (fun e => Some (unleased e retry_at_ms)) s
      (fun e => <[run_id := unleased e retry_at_ms]> (ms_queue s)) (fun _ => eq_refl)).
    unfold mem_release. by destruct (owned_entry run_id token s).
  - pose proof (held_op_mem run_id token (fun e => Some (unleased e (qe_due_at_ms e))) s
      (fun e => <[run_id := unleased e (qe_due_at_ms e)]> (ms_queue s)) (fun _ => eq_refl)).
    unfold mem_failclaim. by destruct (owned_entry run_id token s).
  - unfold mem_renew_lease, renew_op. destruct (ms_queue s !! run_id) as [e|] eqn:He; [|done].
    rewrite <-negb_andb. destruct (bool_decide _ && is_leased e now_ms); cbn; eauto.
  - by destruct (mem_cancel_run run_id now_ms s).
  - pose proof (mem_recover_contract now_ms s Hwf) as Hc. by destruct (mem_recover_expired_leases now_ms s).
Qed.

(** ** Leases *)

Lemma set_entry_ne run_id id e s : id ≠ run_id → ms_queue (set_entry run_id e s) !! id = ms_queue s !! id.
Proof. intros. cbn. by rewrite lookup_partial_alter_ne. Qed.

Lemma held_op_ne run_id id token f s s' r : held_op run_id token f s s' r → id ≠ run_id →
  ms_queue s' !! id = ms_queue s !! id.
Proof.
  unfold held_op, refused. intros Hop Hne. repeat case_match; destruct Hop as [-> _]; try done.
  by apply set_entry_ne.
Qed.

(** No call a foreign thread may make touches an entry under a live lease. *)
Lemma contract_keeps_entry run_id exp e {A} (c : StoreCall A) s s' r :
  contract c s s' r → ms_queue s !! run_id = Some e → qe_lease_until_ms e = Some exp →
  foreign_call run_id (qe_token e) exp (Any c) → ms_queue s' !! run_id = Some e.
Proof.
  intros Hc He Hl Hf.
  assert (Hheld : ∀ id token f r', held_op id token f s s' r' → (id = run_id → token ≠ qe_token e) →
    ms_queue s' !! run_id = Some e).
  { intros id token f r' Hop Hne. destruct (decide (run_id = id)) as [<-|Hid];
      [|by rewrite (held_op_ne id run_id token f s s' r' Hop Hid)].
    unfold held_op in Hop. rewrite He, bool_decide_eq_false_2 in Hop by (specialize (Hne eq_refl); congruence).
    by destruct Hop as [-> _]. }
  destruct c; cbn [contract foreign_call] in Hc, Hf; try (match type of Hc with _ ∧ _ => destruct Hc as [-> _]; exact He end); eauto.
  - by injection Hc as -> _.
  - unfold mem_update_workflow_version in Hc. repeat case_match; by injection Hc as -> _.
  - case_match eqn:Hq; destruct Hc as [-> _]; [done|].
    rewrite set_entry_ne by congruence. done.
  - unfold claim_op, refused in Hc. destruct (decide (run_id = run_id0)) as [<-|Hid].
    + destruct Hf as [Ht Hnow]; [done|]. rewrite He in Hc.
      replace (is_leased e now_ms) with true in Hc
        by (unfold is_leased; rewrite Hl; symmetry; by apply Z.ltb_lt).
      rewrite bool_decide_eq_false_2 in Hc by congruence. by destruct Hc as [-> _].
    + repeat case_match; (destruct Hc as [-> _] || destruct Hc as [[-> _]|[-> _]]); try done;
        by rewrite set_entry_ne.
  - unfold renew_op, refused in Hc. destruct (decide (run_id = run_id0)) as [<-|Hid].
    + rewrite He, bool_decide_eq_false_2 in Hc by (specialize (Hf eq_refl); congruence). by destruct Hc as [-> _].
    + repeat case_match; destruct Hc as [-> _]; try done. by rewrite set_entry_ne.
  - unfold mem_cancel_run in Hc. repeat case_match; injection Hc as -> _; try done. cbn.
    by rewrite lookup_delete_ne.
  - destruct Hc as [-> _]. cbn. unfold recovered_queue. rewrite lookup_fmap, He. cbn.
    unfold lease_expired. rewrite Hl. by rewrite (proj2 (Z.leb_gt _ _) Hf).
Qed.
