(* ===== verification/Typed.v ===== *)
(** * Machine types and validity of the stored records

    The widths the structs of the crate declare for the fields the model keeps in [Z],
    and what validation guarantees of a stored definition, as a [Discipline] of store
    calls: every record a call writes is sound, and so is every record an answer gives.
    The contract of the store keeps it, hence the in-memory store upholds it, and the
    caching store does over any store that does. *)
From S2P Require Import Prelude RustStrings Ids Status Errors Json RetryPolicy Workflow Dag Store Interference.
From S2P Require Import MemoryStore LruStore StoreSpec.
Local Open Scope Z_scope.

(** ** The records *)

(** The [Option<i64>] and [Option<u64>] fields. *)
Definition opt_i64 (o : option Z) : Prop := from_option in_i64 True o.
Definition opt_u64 (o : option Z) : Prop := from_option in_u64 True o.

Definition policy_sound (p : RetryPolicy) : Prop := policy_typed p ∧ policy_validate p = Ok tt.

Record task_sound (t : TaskSpec) : Prop := {
  tk_timeout : opt_u64 (ts_timeout_ms t);
  tk_retry : from_option policy_sound True (ts_retry t)
}.

Record def_sound (d : WorkflowDef) : Prop := {
  df_version : in_u32 (wd_version d);
  df_timeout : in_u64 (wd_timeout_ms d);
  df_spec_version : in_u32 (wd_spec_version d);
  df_created : in_i64 (wd_created_at_ms d);
  df_updated : in_i64 (wd_updated_at_ms d);
  df_retry : policy_sound (wd_retry d);
  df_tasks : Forall task_sound (wd_tasks d);
  df_names : NoDup (map ts_name (wd_tasks d));
  df_order : ∃ order, topo_order (wd_tasks d) = Ok order
}.

Definition rec_sound (r : WorkflowRecord) : Prop := def_sound (wr_def r).

(** [depth] is a [u8]. *)
Definition error_typed (e : RunError) : Prop := is_u8 (re_depth e) ∧ in_u32 (re_attempts e).

Record run_typed (r : Run) : Prop := {
  ru_version : in_u32 (rn_def_version r);
  ru_attempts : in_u32 (rn_attempts r);
  ru_next : opt_i64 (rn_next_attempt_at_ms r);
  ru_deadline : opt_i64 (rn_deadline_at_ms r);
  ru_started : opt_i64 (rn_started_at_ms r);
  ru_finished : opt_i64 (rn_finished_at_ms r);
  ru_error : from_option error_typed True (rn_error r);
  ru_created : in_i64 (rn_created_at_ms r);
  ru_number : in_u64 (rn_run_number r)
}.

Record task_run_typed (t : TaskRun) : Prop := {
  tt_attempts : in_u32 (tr_attempts t);
  tt_started : opt_i64 (tr_started_at_ms t);
  tt_finished : opt_i64 (tr_finished_at_ms t)
}.

Record entry_typed (e : QueueEntry) : Prop := {
  et_due : in_i64 (qe_due_at_ms e);
  et_lease : opt_i64 (qe_lease_until_ms e)
}.

Definition summary_sound (w : WorkflowSummary) : Prop :=
  rec_sound (ws_workflow w) ∧ from_option run_typed True (ws_latest_run w).

Definition ok_is {A E} (P : A → Prop) (r : result A E) : Prop := match r with Ok a => P a | Err _ => True end.

(** ** The discipline *)

Definition sound_call {A} (c : StoreCall A) : Prop :=
  match c with
  | PutWorkflow def | UpdateWorkflowVersion _ _ def _ => def_sound def
  | PutRun run => run_typed run
  | PutTaskRun tr => task_run_typed tr
  | Enqueue entry => entry_typed entry
  | Release _ _ retry_at_ms => in_i64 retry_at_ms
  | CancelRun _ now_ms => in_i64 now_ms
  | _ => True
  end.

Definition sound_answer {A} (c : StoreCall A) : A → Prop :=
  match c in StoreCall A return A → Prop with
  | PutWorkflow _ | UpdateWorkflowVersion _ _ _ _ | GetWorkflow _ _ => ok_is rec_sound
  | ListWorkflows => ok_is (Forall rec_sound)
  | ListWorkflowSummaries => ok_is (Forall summary_sound)
  | GetRun _ => ok_is run_typed
  | ListRuns _ => ok_is (Forall run_typed)
  | GetTaskRun _ => ok_is task_run_typed
  | ListTaskRunsForRun _ => ok_is (Forall task_run_typed)
  | NextRunNumber _ => ok_is in_u64
  | ScanReady _ _ => ok_is (Forall entry_typed)
  | _ => fun _ => True
  end.

Definition sound : Discipline := {| d_call := @sound_call; d_answer := @sound_answer |}.

(** The records of a state. *)
Record recs_sound (s : MemoryState) : Prop := {
  so_defs : map_Forall (fun _ => rec_sound) (ms_defs s);
  so_runs : map_Forall (fun _ => run_typed) (ms_runs s);
  so_tasks : map_Forall (fun _ => task_run_typed) (ms_task_runs s);
  so_queue : map_Forall (fun _ => entry_typed) (ms_queue s);
  so_numbers : map_Forall (fun _ => in_u64) (ms_run_numbers s)
}.

Definition mem_sound (s : MemoryState) : Prop := mem_wf s ∧ recs_sound s.

(** ** Assignments to a record keep its types *)

Create HintDb sound discriminated.

Lemma run_set_typed run : run_typed run →
  (∀ st, run_typed (run_set_status st run)) ∧
  (∀ n, in_u32 n → run_typed (run_set_attempts n run)) ∧
  (∀ t, opt_i64 t → run_typed (run_set_next_attempt_at_ms t run)) ∧
  (∀ t, opt_i64 t → run_typed (run_set_started_at_ms t run)) ∧
  (∀ t, opt_i64 t → run_typed (run_set_finished_at_ms t run)) ∧
  (∀ e, from_option error_typed True e → run_typed (run_set_error e run)).
Proof. intros []. split_and!; constructor; assumption. Qed.

Lemma task_set_typed tr : task_run_typed tr →
  (∀ st, task_run_typed (task_set_status st tr)) ∧
  (∀ n, in_u32 n → task_run_typed (task_set_attempts n tr)) ∧
  (∀ t, opt_i64 t → task_run_typed (task_set_started_at_ms t tr)) ∧
  (∀ t, opt_i64 t → task_run_typed (task_set_finished_at_ms t tr)) ∧
  (∀ o, task_run_typed (task_set_output o tr)) ∧
  (∀ e, task_run_typed (task_set_last_error e tr)).
Proof. intros []. split_and!; constructor; assumption. Qed.

Lemma unleased_typed e due : in_i64 due → entry_typed (unleased e due).
Proof. by constructor. Qed.

Lemma unleased_same e : entry_typed e → entry_typed (unleased e (qe_due_at_ms e)).
Proof. intros []. by constructor. Qed.

Lemma with_lease_typed token until e : in_i64 until → entry_typed e → entry_typed (with_lease token until e).
Proof. intros Hu []. by constructor. Qed.

#[export] Hint Extern 2 (run_typed (run_set_status _ _)) => apply run_set_typed : sound.
#[export] Hint Extern 2 (run_typed (run_set_attempts _ _)) => apply run_set_typed : sound.
#[export] Hint Extern 2 (run_typed (run_set_next_attempt_at_ms _ _)) => apply run_set_typed : sound.
#[export] Hint Extern 2 (run_typed (run_set_started_at_ms _ _)) => apply run_set_typed : sound.
#[export] Hint Extern 2 (run_typed (run_set_finished_at_ms _ _)) => apply run_set_typed : sound.
#[export] Hint Extern 2 (run_typed (run_set_error _ _)) => apply run_set_typed : sound.
#[export] Hint Extern 2 (task_run_typed (task_set_status _ _)) => apply task_set_typed : sound.
#[export] Hint Extern 2 (task_run_typed (task_set_attempts _ _)) => apply task_set_typed : sound.
#[export] Hint Extern 2 (task_run_typed (task_set_started_at_ms _ _)) => apply task_set_typed : sound.
#[export] Hint Extern 2 (task_run_typed (task_set_finished_at_ms _ _)) => apply task_set_typed : sound.
#[export] Hint Extern 2 (task_run_typed (task_set_output _ _)) => apply task_set_typed : sound.
#[export] Hint Extern 2 (task_run_typed (task_set_last_error _ _)) => apply task_set_typed : sound.
#[export] Hint Resolve unleased_typed unleased_same with_lease_typed : sound.
#[export] Hint Resolve wrap_u32_range wrap_u64_range wrap_i64_range sat_i64_range : sound.
#[export] Hint Extern 1 (opt_i64 (Some _)) => cbn : sound.
#[export] Hint Extern 1 (from_option _ True (Some _)) => cbn : sound.
#[export] Hint Extern 1 (from_option _ True None) => exact I : sound.

Ltac sound := eauto 12 with sound.

(** ** The contract keeps the records sound *)

Lemma rows_Forall {K A} `{Countable K} (P : A → Prop) (m : gmap K A) :
  map_Forall (fun _ => P) m → Forall P (rows m).
Proof.
  intros Hm. apply Forall_fmap. apply Forall_forall. intros [k a] Hin. apply elem_of_map_to_list in Hin. exact (Hm k a Hin).
Qed.

Lemma filter_Forall {A} (P : A → Prop) (f : A → bool) l : Forall P l → Forall P (List.filter f l).
Proof.
  intros Hl. apply Forall_forall. intros x Hx. apply list_elem_of_In, filter_In in Hx as [Hx _].
  apply list_elem_of_In in Hx. by apply (Forall_forall P l).
Qed.

Lemma sorted_Forall {A} (P : A → Prop) le (l : list A) : Forall P l → Forall P (sort_by le l).
Proof. by rewrite sort_by_perm. Qed.

Lemma head_Forall {A} (P : A → Prop) (l : list A) : Forall P l → from_option P True (head l).
Proof. by destruct 1. Qed.

Section Contract.
Implicit Types s : MemoryState.

Lemma set_entry_sound id e s : from_option entry_typed True e → recs_sound s → recs_sound (set_entry id e s).
Proof.
  intros He []. constructor; try done. cbn. intros k x. rewrite lookup_partial_alter. case_decide; [|by eauto].
  intros ->. exact He.
Qed.

Lemma entry_sound id e s : recs_sound s → ms_queue s !! id = Some e → entry_typed e.
Proof. intros [_ _ _ Hq _] He. exact (Hq id e He). Qed.

Lemma held_op_sound id token f s s' r : (∀ e, entry_typed e → from_option entry_typed True (f e)) →
  recs_sound s → held_op id token f s s' r → recs_sound s'.
Proof.
  unfold held_op, refused. intros Hf Hs Hop. destruct (ms_queue s !! id) as [e|] eqn:He; [|by destruct Hop as [-> _]].
  case_bool_decide; destruct Hop as [-> _]; [|done]. apply set_entry_sound; [|done]. by eapply Hf, entry_sound.
Qed.

Lemma cancel_sound id now s s' r : recs_sound s → in_i64 now → (s', r) = mem_cancel_run id now s → recs_sound s'.
Proof.
  intros Hs Hnow. unfold mem_cancel_run. destruct (ms_runs s !! id) as [run|] eqn:Hrun; [|by intros [= -> _]].
  destruct (Run_is_terminal run); intros [= -> _]; [done|].
  destruct Hs as [Hd Hr Ht Hq Hn]. pose proof (map_Forall_lookup_1 _ _ _ _ Hr Hrun) as Hty. cbn beta in Hty.
  constructor; cbn; try done.
  - apply map_Forall_insert_2; [sound|done].
  - by apply map_Forall_delete.
Qed.

Lemma recovered_sound now s : recs_sound s → recs_sound (set_queue (recovered_queue now (ms_queue s)) s).
Proof.
  intros [? ? ? Hq ?]. constructor; try done. cbn. apply map_Forall_fmap. intros k e He. cbn.
  specialize (Hq k e He). case_match; sound.
Qed.

Lemma put_workflow_sound def s : def_sound def → recs_sound s → recs_sound (mem_put_workflow def s).1.
Proof. intros Hd []. constructor; try done. cbn. by apply map_Forall_insert_2. Qed.

Lemma update_workflow_sound tenant name def v s : def_sound def → recs_sound s →
  recs_sound (mem_update_workflow_version tenant name def v s).1 ∧
  ok_is rec_sound (mem_update_workflow_version tenant name def v s).2.
Proof.
  intros Hd Hs. unfold mem_update_workflow_version. repeat case_match; try done.
  destruct Hs. split; [|done]. constructor; try done. cbn. by apply map_Forall_insert_2.
Qed.

Lemma summaries_sound recs l s : recs_sound s → recs ≡ₚ rows (ms_defs s) →
  Forall2 (fun rec sum => ∃ runs, runs ≡ₚ rows (ms_runs s) ∧
    sum = summary_assemble rec (sort_by newest_first (List.filter (runs_of rec) runs))) recs l →
  Forall summary_sound l.
Proof.
  intros [Hd Hr _ _ _] Hp Hl. apply rows_Forall in Hd. rewrite <-Hp in Hd. clear Hp.
  induction Hl as [|rec sum recs l (runs&Hruns&->) _ IH]; [done|]. apply Forall_cons in Hd as [Hrec Hd].
  constructor; [|by apply IH]. split; [done|]. cbn. apply head_Forall, sorted_Forall, filter_Forall.
  rewrite Hruns. by apply rows_Forall.
Qed.

Lemma apply_order_Forall (P : Run → Prop) f l : Forall P l → Forall P (apply_order f l).
Proof.
  intros Hl. rewrite apply_order_page. destruct (rf_limit f); [apply Forall_take|]; by apply Forall_drop, sorted_Forall.
Qed.

Lemma page_typed f l s : recs_sound s → l ≡ₚ rows (ms_runs s) →
  Forall run_typed (apply_order f (List.filter (filter_matches f) l)).
Proof.
  intros [_ Hr _ _ _] Hl. apply apply_order_Forall, filter_Forall. rewrite Hl. by apply rows_Forall.
Qed.

Lemma contract_sound {A} (c : StoreCall A) s s' r :
  recs_sound s → sound_call c → contract c s s' r → recs_sound s' ∧ sound_answer c r.
Proof.
  intros Hs Hc Hr. pose proof Hs as [Hd Hru Ht Hq Hn].
  destruct c; cbn [contract sound_call sound_answer] in *;
    try (match type of Hr with (_, _) = _ => idtac | _ ∧ _ => destruct Hr as [-> Hr]; try subst r end); try done.
  - pose proof (put_workflow_sound def s Hc Hs) as Hp. unfold mem_put_workflow in Hr, Hp. by injection Hr as -> ->.
  - pose proof (update_workflow_sound tenant name def expected_version s Hc Hs) as Hp. by rewrite <-Hr in Hp.
  - split; [done|]. unfold mem_get_workflow. destruct (ms_defs s !! _) as [rec|] eqn:Hrec; [|done]. exact (Hd _ _ Hrec).
  - destruct Hr as (l&Hl&->). split; [done|]. cbn. apply sorted_Forall. rewrite Hl. by apply rows_Forall.
  - destruct Hr as (recs&l&Hp&->&Hl). split; [done|]. by eapply summaries_sound.
  - split; [|done]. constructor; try done. cbn. by apply map_Forall_insert_2.
  - split; [done|]. unfold mem_get_run. destruct (ms_runs s !! _) as [run|] eqn:Hrun; [|done]. exact (Hru _ _ Hrun).
  - split; [|done]. constructor; try done; cbn; [by apply map_Forall_delete|].
    intros k t [Hk _]%map_lookup_filter_Some. exact (Ht k t Hk).
  - destruct Hr as (l&Hl&->). split; [done|]. by eapply page_typed.
  - split; [|done]. constructor; try done. cbn. by apply map_Forall_insert_2.
  - split; [done|]. unfold mem_get_task_run. destruct (ms_task_runs s !! _) as [tr|] eqn:Htr; [|done]. exact (Ht _ _ Htr).
  - destruct Hr as (l&Hl&->). split; [done|]. cbn. apply sorted_Forall, filter_Forall. rewrite Hl. by apply rows_Forall.
  - split; [|cbn; sound]. constructor; try done. cbn. apply map_Forall_insert_2; [sound|done].
  - split; [|done]. destruct (ms_queue s !! qe_run_id entry); destruct Hr as [-> _]; [done|].
    by apply set_entry_sound.
  - destruct Hr as (l&Hl&->). split; [done|]. cbn. apply Forall_take, sorted_Forall, filter_Forall. rewrite Hl.
    by apply rows_Forall.
  - split; [|done]. unfold claim_op, refused in Hr. destruct (ms_queue s !! run_id) as [e|] eqn:He; [|by destruct Hr as [-> _]].
    pose proof (entry_sound _ _ _ Hs He) as Hty. cbn zeta in Hr.
    assert (Hgr : recs_sound (set_entry run_id (Some (with_lease token (wrap_i64 (now_ms + lease_ms)) e)) s))
      by (apply set_entry_sound; sound).
    repeat case_match; destruct_or?; by destruct Hr as [-> _].
  - split; [|done]. by eapply held_op_sound, Hr.
  - split; [|done]. eapply held_op_sound, Hr; [|done]. cbn. sound.
  - split; [|done]. eapply held_op_sound, Hr; [|done]. cbn. sound.
  - split; [|done]. unfold renew_op, refused in Hr. destruct (ms_queue s !! run_id) as [e|] eqn:He; [|by destruct Hr as [-> _]].
    case_match; destruct Hr as [-> _]; [|done]. destruct (entry_sound _ _ _ Hs He).
    apply set_entry_sound; [|done]. constructor; cbn; sound.
  - split; [|done]. by eapply cancel_sound.
  - split; [|done]. by apply recovered_sound.
Qed.
End Contract.

#[export] Instance Memory_upholds `{HashIter} : Upholds sound mem_sound.
Proof.
  intros A c s [Hwf Hs] Hc. destruct (contract_sound c s _ _ Hs Hc (mem_meets_contract c s Hwf)) as [Hs' Ha].
  split; [|done]. split; [by apply mem_call_wf|done].
Qed.

Lemma mem_new_sound : mem_sound mem_new.
Proof. split; [apply mem_new_wf|]. constructor; apply map_Forall_empty. Qed.

(** ** The caching store over a store that keeps the discipline *)

Section Lru.
Context {S C : Type} `{Store S} `{LruLaws C} (I : S → Prop) `{!Upholds sound I}.

Definition cache_sound (c : C) : Prop := ∀ k rec, lru_peek k c = Some rec → rec_sound rec.

Definition lru_sound (l : LruStore S C) : Prop := I (ls_inner l) ∧ cache_sound (ls_cache l).

Lemma delegate_sound {A} (c : StoreCall A) l : lru_sound l → sound_call c →
  lru_sound (delegate c l).1 ∧ sound_answer c (delegate c l).2.
Proof.
  intros [Hi Hc] Hcall. pose proof (upholds (D := sound) A c (ls_inner l) Hi Hcall) as Hu. unfold delegate.
  destruct (call c (ls_inner l)) as [s a]. cbn in *. split; [|apply Hu]. split; [apply Hu|done].
Qed.

Lemma invalidate_sound tenant name l : lru_sound l → lru_sound (invalidate tenant name l).
Proof.
  intros [Hi Hc]. split; [done|]. intros k rec. cbn. rewrite lru_pop_peek. case_decide; [done|apply Hc].
Qed.

Lemma fetch_sound tenant name l : lru_sound l →
  lru_sound (fetch tenant name l).1 ∧ ok_is rec_sound (fetch tenant name l).2.
Proof.
  intros [Hi Hc]. unfold fetch, fetch_lookup. pose proof (lru_get_value (tenant, name) (ls_cache l)) as Hv.
  assert (Hg : cache_sound (lru_get (tenant, name) (ls_cache l)).1).
  { intros k rec. rewrite lru_get_peek. apply Hc. }
  destruct (lru_get (tenant, name) (ls_cache l)) as [cache [rec|]]; cbn in Hv, Hg.
  - split; [done|]. cbn. by eapply Hc.
  - unfold fetch_read. cbn [ls_inner fst snd].
    pose proof (upholds (D := sound) _ (GetWorkflow tenant name) (ls_inner l) Hi Logic.I) as Hu.
    destruct (call (GetWorkflow tenant name) (ls_inner l)) as [s [rec|e]]; cbn in Hu |- *;
      [|split; [split; [apply Hu|exact Hg]|done]].
    split; [|apply Hu]. split; [apply Hu|]. cbn. intros k rec' [[_ ->]|[_ Hk]]%lru_put_peek; [apply Hu|by eapply Hg].
Qed.

#[export] Instance Lru_upholds : Upholds sound lru_sound.
Proof.
  intros A c l Hl Hc. pose proof (delegate_sound c l Hl Hc) as Hd.
  destruct c; try exact Hd.
  - change (call (PutWorkflow def) l) with (lru_put_workflow def l). unfold lru_put_workflow.
    destruct (delegate (PutWorkflow def) l) as [l' [rec|e]]; [|exact Hd]. destruct Hd. split; [by apply invalidate_sound|done].
  - change (call (UpdateWorkflowVersion tenant name def expected_version) l)
      with (lru_update_workflow_version tenant name def expected_version l). unfold lru_update_workflow_version.
    destruct (delegate _ l) as [l' [rec|e]]; [|exact Hd]. destruct Hd. split; [by apply invalidate_sound|done].
  - by apply fetch_sound.
Qed.
End Lru.
