(* ===== verification/Sqlite.v ===== *)
(** * The SQLite store
    (src/src/persistence/sqlite.rs, src/src/persistence/migrations.rs)

    A database is its tables, keyed by their primary keys, with the names of the
    tables and indexes that have been created. Each SQL statement of the source is
    one atomic step on the tables: it may fail ([sq_fault], a full disk or a locked
    file), and a statement on a table that does not exist fails. Rows come back in
    the unspecified order of [HashIter], and [ORDER BY] sorts them, so rows that tie
    keep an unspecified order. Run, task-run and definition documents are JSON text:
    serde_json is the codec of [Sqlite], and the messages of rusqlite are its texts.
    The mutex around the connection makes every method one transition. *)
From S2P Require Import Prelude RustStrings Text Ids Status Errors Json Workflow Store MemoryStore.
From stdpp Require Import pretty.
Local Open Scope Z_scope.

Record WorkflowRow := {
  wrow_version : Z;
  wrow_spec_version : Z;
  wrow_created_at_ms : Z;
  wrow_updated_at_ms : Z;
  wrow_document : string
}.

Record RunRow := {
  rrow_tenant : string;
  rrow_def_name : string;
  rrow_def_version : Z;
  rrow_status : string;
  rrow_attempts : Z;
  rrow_next_attempt_at_ms : option Z;
  rrow_created_at_ms : Z;
  rrow_run_number : Z;
  rrow_document : string
}.

Record TaskRow := {
  trow_run_id : string;
  trow_task_name : string;
  trow_status : string;
  trow_document : string
}.

Record QueueRow := {
  qrow_token : string;
  qrow_due_at_ms : Z;
  qrow_lease_until_ms : option Z;
  qrow_claimed_by : option string
}.

(** A counter above [i64_max] stands for the REAL that SQLite's addition gives. *)
Record Db := {
  db_objects : gset string;
  db_workflows : gmap (string * string) WorkflowRow;
  db_runs : gmap string RunRow;
  db_task_runs : gmap string TaskRow;
  db_queue_entries : gmap string QueueRow;
  db_run_counters : gmap string Z;
  db_meta : gmap string string;
  db_statements : nat
}.

(** A database file that has never been opened. *)
Definition db_empty : Db := {|
  db_objects := ∅; db_workflows := ∅; db_runs := ∅; db_task_runs := ∅; db_queue_entries := ∅;
  db_run_counters := ∅; db_meta := ∅; db_statements := 0
|}.

Definition with_workflows (m : gmap (string * string) WorkflowRow) (d : Db) : Db := {|
  db_objects := db_objects d; db_workflows := m; db_runs := db_runs d; db_task_runs := db_task_runs d;
  db_queue_entries := db_queue_entries d; db_run_counters := db_run_counters d; db_meta := db_meta d;
  db_statements := db_statements d |}.

Definition with_runs (m : gmap string RunRow) (d : Db) : Db := {|
  db_objects := db_objects d; db_workflows := db_workflows d; db_runs := m; db_task_runs := db_task_runs d;
  db_queue_entries := db_queue_entries d; db_run_counters := db_run_counters d; db_meta := db_meta d;
  db_statements := db_statements d |}.

Definition with_task_runs (m : gmap string TaskRow) (d : Db) : Db := {|
  db_objects := db_objects d; db_workflows := db_workflows d; db_runs := db_runs d; db_task_runs := m;
  db_queue_entries := db_queue_entries d; db_run_counters := db_run_counters d; db_meta := db_meta d;
  db_statements := db_statements d |}.

Definition with_queue_entries (m : gmap string QueueRow) (d : Db) : Db := {|
  db_objects := db_objects d; db_workflows := db_workflows d; db_runs := db_runs d;
  db_task_runs := db_task_runs d; db_queue_entries := m; db_run_counters := db_run_counters d;
  db_meta := db_meta d; db_statements := db_statements d |}.

Definition with_run_counters (m : gmap string Z) (d : Db) : Db := {|
  db_objects := db_objects d; db_workflows := db_workflows d; db_runs := db_runs d;
  db_task_runs := db_task_runs d; db_queue_entries := db_queue_entries d; db_run_counters := m;
  db_meta := db_meta d; db_statements := db_statements d |}.

Definition with_meta_rows (m : gmap string string) (d : Db) : Db := {|
  db_objects := db_objects d; db_workflows := db_workflows d; db_runs := db_runs d;
  db_task_runs := db_task_runs d; db_queue_entries := db_queue_entries d;
  db_run_counters := db_run_counters d; db_meta := m; db_statements := db_statements d |}.

Definition with_objects (o : gset string) (d : Db) : Db := {|
  db_objects := o; db_workflows := db_workflows d; db_runs := db_runs d; db_task_runs := db_task_runs d;
  db_queue_entries := db_queue_entries d; db_run_counters := db_run_counters d; db_meta := db_meta d;
  db_statements := db_statements d |}.

Definition with_statements (n : nat) (d : Db) : Db := {|
  db_objects := db_objects d; db_workflows := db_workflows d; db_runs := db_runs d;
  db_task_runs := db_task_runs d; db_queue_entries := db_queue_entries d;
  db_run_counters := db_run_counters d; db_meta := db_meta d; db_statements := n |}.

(** ** The schema *)

Inductive Ddl :=
| CreateTable (name : string) (columns : list string)
| CreateIndex (name table : string) (columns : list string).

Record Migration := { mg_version : Z; mg_name : string; mg_statements : list Ddl }.

Definition MIGRATIONS : list Migration := [
  {| mg_version := 1; mg_name := "initial schema"; mg_statements := [
       CreateTable "workflows" ["tenant"; "name"; "version"; "spec_version"; "created_at_ms";
                                "updated_at_ms"; "document"];
       CreateTable "runs" ["id"; "tenant"; "def_name"; "def_version"; "status"; "attempts";
                           "next_attempt_at_ms"; "created_at_ms"; "run_number"; "document"];
       CreateIndex "idx_runs_tenant" "runs" ["tenant"];
       CreateIndex "idx_runs_status" "runs" ["status"];
       CreateIndex "idx_runs_def" "runs" ["tenant"; "def_name"];
       CreateIndex "idx_runs_created" "runs" ["created_at_ms"];
       CreateTable "task_runs" ["id"; "run_id"; "task_name"; "status"; "document"];
       CreateIndex "idx_task_runs_run" "task_runs" ["run_id"];
       CreateTable "queue_entries" ["run_id"; "token"; "due_at_ms"; "lease_until_ms"; "claimed_by"];
       CreateIndex "idx_queue_due" "queue_entries" ["due_at_ms"];
       CreateIndex "idx_queue_lease" "queue_entries" ["lease_until_ms"];
       CreateTable "meta" ["key"; "value"]] |};
  {| mg_version := 2; mg_name := "per-definition run counters"; mg_statements := [
       CreateTable "run_counters" ["def_name"; "n"]] |}
].

Definition latest_version : Z :=
  match last MIGRATIONS with None => 0 | Some m => mg_version m end.

(** rusqlite and serde_json, as far as the store depends on them. *)
Class Sqlite := {
  sq_fault : nat → option string;
  sq_unique : string → string;
  sq_conversion : string → string;
  sq_no_table : string → string;
  sq_no_rows : string;
  def_text : WorkflowDef → string;
  def_read : string → result WorkflowDef string;
  run_text : Run → string;
  run_read : string → result Run string;
  task_text : TaskRun → string;
  task_read : string → result TaskRun string
}.

(** ** Statements *)

Definition SqlM (A : Type) : Type := Db → Db * result A StorageError.

Definition sql_ret {A} (a : A) : SqlM A := fun d => (d, Ok a).
Definition sql_fail {A} (e : StorageError) : SqlM A := fun d => (d, Err e).
Definition sql_bind {A B} (c : SqlM A) (k : A → SqlM B) : SqlM B := fun d =>
  match c d with
  | (d, Ok a) => k a d
  | (d, Err e) => (d, Err e)
  end.

Notation "'let%' x := c 'in' k" := (sql_bind c (fun x => k))
  (at level 10, x pattern, c at level 100, k at level 200) : runvane_scope.

Section Sqlite.
Context `{Sqlite} `{HashIter}.

Definition statement {A} (f : Db → Db * result A string) : SqlM A := fun d =>
  let d' := with_statements (Datatypes.S (db_statements d)) d in
  match sq_fault (db_statements d) with
  | Some text => (d', Err (StorageError.Backend text))
  | None => let '(d', r) := f d' in (d', map_err StorageError.Backend r)
  end.

(** A statement on a table. *)
Definition on_table {A} (table : string) (f : Db → Db * result A string) : SqlM A :=
  statement (fun d => if bool_decide (table ∈ db_objects d) then f d else (d, Err (sq_no_table table))).

Definition execute (table : string) (f : Db → Db) : SqlM unit :=
  on_table table (fun d => (f d, Ok tt)).

Definition query {A} (table : string) (f : Db → result A string) : SqlM A :=
  on_table table (fun d => (d, f d)).

(** [decode], for each kind of document. *)
Definition decode {A} (read : string → result A string) (document : string) : result A string :=
  map_err sq_conversion (read document).

(** [query_row(..).optional()] by primary key *)
Definition decode_opt {A} (read : string → result A string) (document : option string)
    : result (option A) string :=
  match document with
  | None => Ok None
  | Some text => let? a := decode read text in Ok (Some a)
  end.

(** A transaction that is dropped before its commit leaves the tables as they were. *)
Definition rollback (before after : Db) : Db := with_statements (db_statements after) before.

Definition control : SqlM unit := statement (fun d => (d, Ok tt)).

(** [inr] commits; [inl] returns early, dropping the transaction. *)
Definition transaction {A} (body : SqlM (A + A)) : SqlM A := fun d =>
  match control d with
  | (d, Err e) => (d, Err e)
  | (d, Ok _) =>
      match body d with
      | (d', Err e) => (rollback d d', Err e)
      | (d', Ok (inl a)) => (rollback d d', Ok a)
      | (d', Ok (inr a)) =>
          match control d' with
          | (d'', Ok _) => (d'', Ok a)
          | (d'', Err e) => (rollback d d'', Err e)
          end
      end
  end.

(** ** Workflows *)

Definition workflow_row (def : WorkflowDef) (created_at_ms : Z) : WorkflowRow := {|
  wrow_version := wd_version def; wrow_spec_version := wd_spec_version def;
  wrow_created_at_ms := created_at_ms; wrow_updated_at_ms := wd_updated_at_ms def;
  wrow_document := def_text def |}.

Definition sqlite_put_workflow (def : WorkflowDef) : SqlM WorkflowRecord :=
  let% _ := execute "workflows" (fun d =>
    let created := match db_workflows d !! (wd_tenant def, wd_name def) with
                   | Some row => wrow_created_at_ms row
                   | None => wd_created_at_ms def
                   end in
    with_workflows (<[(wd_tenant def, wd_name def) := workflow_row def created]> (db_workflows d)) d) in
  sql_ret {| wr_def := def |}.

Definition sqlite_update_workflow_version (tenant name : string) (def : WorkflowDef)
    (expected_version : Z) : SqlM WorkflowRecord :=
  let% version := query "workflows" (fun d => Ok (wrow_version <$> db_workflows d !! (tenant, name))) in
  match version with
  | None => sql_fail (StorageError.NotFound (workflow_label tenant name))
  | Some stored =>
      if negb (stored =? expected_version) then
        sql_fail (StorageError.ConcurrentModification (workflow_label tenant name))
      else if negb (wd_version def =? wrap_u32 (expected_version + 1)) then
        sql_fail (StorageError.Conflict (workflow_label tenant name +:+ " version must be "
          +:+ pretty expected_version +:+ "+1, got " +:+ pretty (wd_version def)))
      else
        let% _ := execute "workflows" (fun d =>
          with_workflows (alter (fun row => workflow_row def (wrow_created_at_ms row)) (tenant, name)
            (db_workflows d)) d) in
        sql_ret {| wr_def := def |}
  end.

Definition sqlite_get_workflow (tenant name : string) : SqlM WorkflowRecord :=
  let% found := query "workflows" (fun d =>
    decode_opt def_read (wrow_document <$> db_workflows d !! (tenant, name))) in
  match found with
  | Some def => sql_ret {| wr_def := def |}
  | None => sql_fail (StorageError.NotFound (workflow_label tenant name))
  end.

(** [ORDER BY tenant, name], in the order of the bytes *)
Definition row_key_le {V} (a b : (string * string) * V) : bool :=
  if bool_decide (a.1.1 = b.1.1) then String.leb a.1.2 b.1.2 else String.leb a.1.1 b.1.1.

Definition sqlite_list_workflows : SqlM (list WorkflowRecord) :=
  query "workflows" (fun d =>
    let? defs := try_map (fun kv => decode def_read (wrow_document kv.2))
                   (sort_by row_key_le (hash_iter (db_workflows d))) in
    Ok (map Build_WorkflowRecord defs)).

Definition runs_where (p : RunRow → bool) (d : Db) : result (list Run) string :=
  try_map (fun row => decode run_read (rrow_document row)) (List.filter p (hash_values (db_runs d))).

Definition sqlite_summary (rec : WorkflowRecord) : SqlM WorkflowSummary :=
  let% runs := query "runs" (runs_where (fun row =>
    bool_decide (rrow_tenant row = wd_tenant (wr_def rec)) &&
    bool_decide (rrow_def_name row = wd_name (wr_def rec)))) in
  sql_ret (summary_assemble rec (sort_by newest_first runs)).

Fixpoint sqlite_summaries (recs : list WorkflowRecord) : SqlM (list WorkflowSummary) :=
  match recs with
  | [] => sql_ret []
  | rec :: rest =>
      let% s := sqlite_summary rec in
      let% out := sqlite_summaries rest in
      sql_ret (s :: out)
  end.

Definition sqlite_list_workflow_summaries : SqlM (list WorkflowSummary) :=
  let% workflows := sqlite_list_workflows in sqlite_summaries workflows.

(** ** Runs *)

Definition run_row (run : Run) : RunRow := {|
  rrow_tenant := rn_tenant run; rrow_def_name := rn_def_name run; rrow_def_version := rn_def_version run;
  rrow_status := run_display (rn_status run); rrow_attempts := rn_attempts run;
  rrow_next_attempt_at_ms := rn_next_attempt_at_ms run; rrow_created_at_ms := rn_created_at_ms run;
  rrow_run_number := wrap_i64 (rn_run_number run); rrow_document := run_text run |}.

(** The columns that [ON CONFLICT(id) DO UPDATE] sets. *)
Definition run_row_update (run : Run) (row : RunRow) : RunRow := {|
  rrow_tenant := rrow_tenant row; rrow_def_name := rrow_def_name row; rrow_def_version := rrow_def_version row;
  rrow_status := run_display (rn_status run); rrow_attempts := rn_attempts run;
  rrow_next_attempt_at_ms := rn_next_attempt_at_ms run; rrow_created_at_ms := rrow_created_at_ms row;
  rrow_run_number := rrow_run_number row; rrow_document := run_text run |}.

Definition sqlite_put_run (run : Run) : SqlM unit :=
  execute "runs" (fun d =>
    with_runs (<[rn_id run := match db_runs d !! rn_id run with
                              | Some row => run_row_update run row
                              | None => run_row run
                              end]> (db_runs d)) d).

Definition select_run (id : RunId) (d : Db) : result (option Run) string :=
  decode_opt run_read (rrow_document <$> db_runs d !! id).

Definition sqlite_get_run (id : RunId) : SqlM Run :=
  let% found := query "runs" (select_run id) in
  match found with
  | Some run => sql_ret run
  | None => sql_fail (StorageError.NotFound ("run " +:+ id))
  end.

Definition sqlite_delete_run (id : RunId) : SqlM unit :=
  let% _ := execute "task_runs" (fun d =>
    with_task_runs (filter (fun kv => trow_run_id kv.2 ≠ id) (db_task_runs d)) d) in
  execute "runs" (fun d => with_runs (delete id (db_runs d)) d).

Definition sqlite_list_runs (f : RunFilter) : SqlM (list Run) :=
  let% rows := query "runs" (match rf_tenant f with
    | Some tenant => runs_where (fun row => bool_decide (rrow_tenant row = tenant))
    | None => runs_where (fun _ => true)
    end) in
  sql_ret (apply_order f (List.filter (filter_matches f) rows)).

Definition sqlite_count_runs (f : RunFilter) : SqlM Z :=
  let% runs := sqlite_list_runs f in sql_ret (Z.of_nat (length runs)).

(** ** Task runs *)

Definition sqlite_put_task_run (tr : TaskRun) : SqlM unit :=
  execute "task_runs" (fun d =>
    with_task_runs (<[tr_id tr := match db_task_runs d !! tr_id tr with
      | Some row => {| trow_run_id := trow_run_id row; trow_task_name := trow_task_name row;
                       trow_status := task_display (tr_status tr); trow_document := task_text tr |}
      | None => {| trow_run_id := tr_run_id tr; trow_task_name := tr_task_name tr;
                   trow_status := task_display (tr_status tr); trow_document := task_text tr |}
      end]> (db_task_runs d)) d).

Definition sqlite_get_task_run (id : TaskRunId) : SqlM TaskRun :=
  let% found := query "task_runs" (fun d => decode_opt task_read (trow_document <$> db_task_runs d !! id)) in
  match found with
  | Some tr => sql_ret tr
  | None => sql_fail (StorageError.NotFound ("task run " +:+ id))
  end.

Definition task_row_le (a b : TaskRow) : bool := String.leb (trow_task_name a) (trow_task_name b).

Definition sqlite_list_task_runs_for_run (run_id : RunId) : SqlM (list TaskRun) :=
  query "task_runs" (fun d =>
    try_map (fun row => decode task_read (trow_document row))
      (sort_by task_row_le (List.filter (fun row => bool_decide (trow_run_id row = run_id))
        (hash_values (db_task_runs d))))).

(** [n = n + 1] is the REAL 2^63 past the largest integer, and stays there. *)
Definition next_counter (n : option Z) : Z :=
  match n with None => 1 | Some n => if n <? i64_max then n + 1 else i64_max + 1 end.

Definition sqlite_next_run_number (def_name : string) : SqlM Z :=
  let% _ := execute "run_counters" (fun d =>
    with_run_counters (<[def_name := next_counter (db_run_counters d !! def_name)]> (db_run_counters d)) d) in
  let% n := query "run_counters" (fun d =>
    match db_run_counters d !! def_name with
    | Some n => if n <=? i64_max then Ok n else Err (sq_conversion "REAL")
    | None => Err sq_no_rows
    end) in
  sql_ret (wrap_u64 n).

(** ** The queue *)

Definition sqlite_enqueue (entry : QueueEntry) : SqlM unit :=
  on_table "queue_entries" (fun d =>
    match db_queue_entries d !! qe_run_id entry with
    | Some _ => (d, Err (sq_unique (qe_run_id entry)))
    | None => (with_queue_entries (<[qe_run_id entry := {| qrow_token := qe_token entry;
        qrow_due_at_ms := qe_due_at_ms entry; qrow_lease_until_ms := qe_lease_until_ms entry;
        qrow_claimed_by := qe_claimed_by entry |}]> (db_queue_entries d)) d, Ok tt)
    end).

Definition entry_of (run_id : string) (row : QueueRow) : QueueEntry := {|
  qe_run_id := run_id; qe_token := qrow_token row; qe_due_at_ms := qrow_due_at_ms row;
  qe_lease_until_ms := qrow_lease_until_ms row; qe_claimed_by := qrow_claimed_by row |}.

(** [lease_until_ms IS NULL OR lease_until_ms <= ?1] *)
Definition lease_over (row : QueueRow) (now_ms : Z) : bool :=
  match qrow_lease_until_ms row with None => true | Some exp => exp <=? now_ms end.

(** [LIMIT ?n]: a negative limit is none. *)
Definition sql_limit {A} (n : Z) (rows : list A) : list A :=
  if n <? 0 then rows else take (Z.to_nat n) rows.

Definition sqlite_scan_ready (now_ms : Z) (limit : nat) : SqlM (list QueueEntry) :=
  query "queue_entries" (fun d =>
    let ready := List.filter (fun kv => (qrow_due_at_ms kv.2 <=? now_ms) && lease_over kv.2 now_ms)
                   (hash_iter (db_queue_entries d)) in
    let rows := sort_by (fun a b => qrow_due_at_ms a.2 <=? qrow_due_at_ms b.2) ready in
    Ok (map (fun kv => entry_of kv.1 kv.2) (sql_limit (wrap_i64 (Z.of_nat limit)) rows))).

(** An [UPDATE] or [DELETE] of the entry of [run_id] under a guard, which refuses
    with [ClaimLost] when it changed no row. *)
Definition guarded (run_id : RunId) (guard : QueueRow → bool) (f : QueueRow → option QueueRow) : SqlM unit :=
  let% updated := on_table "queue_entries" (fun d =>
    match db_queue_entries d !! run_id with
    | Some row => if guard row
        then (with_queue_entries (partial_alter (fun _ => f row) run_id (db_queue_entries d)) d, Ok 1)
        else (d, Ok 0)
    | None => (d, Ok 0)
    end) in
  if updated =? 0 then sql_fail (StorageError.ClaimLost ("run " +:+ run_id)) else sql_ret tt.

Definition owns (token : ClaimToken) (row : QueueRow) : bool := bool_decide (qrow_token row = token).

Definition sqlite_claim (run_id : RunId) (token : ClaimToken) (now_ms lease_ms : Z) : SqlM unit :=
  guarded run_id (fun row => bool_decide (qrow_lease_until_ms row = None) || owns token row)
    (fun row => Some {| qrow_token := token; qrow_due_at_ms := qrow_due_at_ms row;
       qrow_lease_until_ms := Some (wrap_i64 (now_ms + lease_ms));
       qrow_claimed_by := Some "dispatcher"%string |}).

Definition sqlite_ack (run_id : RunId) (token : ClaimToken) : SqlM unit :=
  guarded run_id (owns token) (fun _ => None).

Definition row_unleased (due_at_ms : Z) : QueueRow := {|
  qrow_token := EmptyString; qrow_due_at_ms := due_at_ms; qrow_lease_until_ms := None;
  qrow_claimed_by := None |}.

Definition sqlite_release (run_id : RunId) (token : ClaimToken) (retry_at_ms : Z) : SqlM unit :=
  guarded run_id (owns token) (fun _ => Some (row_unleased retry_at_ms)).

Definition sqlite_failclaim (run_id : RunId) (token : ClaimToken) : SqlM unit :=
  guarded run_id (owns token) (fun row => Some (row_unleased (qrow_due_at_ms row))).

Definition sqlite_renew_lease (run_id : RunId) (token : ClaimToken) (now_ms extend_by_ms : Z) : SqlM unit :=
  guarded run_id (fun row => owns token row &&
      match qrow_lease_until_ms row with Some exp => now_ms <? exp | None => false end)
    (fun row => Some {| qrow_token := qrow_token row; qrow_due_at_ms := qrow_due_at_ms row;
       qrow_lease_until_ms := Some (wrap_i64 (now_ms + extend_by_ms));
       qrow_claimed_by := qrow_claimed_by row |}).

Definition sqlite_cancel_run (run_id : RunId) (now_ms : Z) : SqlM bool :=
  transaction (
    let% current := query "runs" (select_run run_id) in
    match current with
    | None => sql_fail (StorageError.NotFound ("run " +:+ run_id))
    | Some run =>
        if Run_is_terminal run then sql_ret (inl false)
        else
          let run := run_set_error None (run_set_finished_at_ms (Some now_ms)
            (run_set_status RunStatus.Cancelled run)) in
          let% _ := execute "runs" (fun d => with_runs (alter (fun row => {|
            rrow_tenant := rrow_tenant row; rrow_def_name := rrow_def_name row;
            rrow_def_version := rrow_def_version row; rrow_status := run_display (rn_status run);
            rrow_attempts := rrow_attempts row; rrow_next_attempt_at_ms := rrow_next_attempt_at_ms row;
            rrow_created_at_ms := rrow_created_at_ms row; rrow_run_number := rrow_run_number row;
            rrow_document := run_text run |}) run_id (db_runs d)) d) in
          let% _ := execute "queue_entries" (fun d =>
            with_queue_entries (delete run_id (db_queue_entries d)) d) in
          sql_ret (inr true)
    end).

Definition row_expired (now_ms : Z) (row : QueueRow) : bool :=
  match qrow_lease_until_ms row with Some exp => exp <=? now_ms | None => false end.

Definition sqlite_recover_expired_leases (now_ms : Z) : SqlM Z :=
  on_table "queue_entries" (fun d =>
    (with_queue_entries ((fun row => if row_expired now_ms row then row_unleased (qrow_due_at_ms row) else row)
       <$> db_queue_entries d) d,
     Ok (Z.of_nat (size (filter (fun kv => row_expired now_ms kv.2 = true) (db_queue_entries d)))))).

(** A connection in use counts as a failed statement: both answer zero. *)
Definition sqlite_len_queue (d : Db) : Db * Z :=
  match query "queue_entries" (fun d => Ok (Z.of_nat (size (db_queue_entries d)))) d with
  | (d, Ok n) => (d, n)
  | (d, Err _) => (d, 0)
  end.

Definition sqlite_call {A} (c : StoreCall A) : Db → Db * A :=
  match c in StoreCall A return Db → Db * A with
  | PutWorkflow def => sqlite_put_workflow def
  | UpdateWorkflowVersion tenant name def v => sqlite_update_workflow_version tenant name def v
  | GetWorkflow tenant name => sqlite_get_workflow tenant name
  | ListWorkflows => sqlite_list_workflows
  | ListWorkflowSummaries => sqlite_list_workflow_summaries
  | PutRun run => sqlite_put_run run
  | GetRun id => sqlite_get_run id
  | DeleteRun id => sqlite_delete_run id
  | ListRuns f => sqlite_list_runs f
  | CountRuns f => sqlite_count_runs f
  | PutTaskRun tr => sqlite_put_task_run tr
  | GetTaskRun id => sqlite_get_task_run id
  | ListTaskRunsForRun id => sqlite_list_task_runs_for_run id
  | NextRunNumber name => sqlite_next_run_number name
  | Enqueue entry => sqlite_enqueue entry
  | ScanReady now limit => sqlite_scan_ready now limit
  | Claim id token now lease => sqlite_claim id token now lease
  | Ack id token => sqlite_ack id token
  | Release id token at_ms => sqlite_release id token at_ms
  | FailClaim id token => sqlite_failclaim id token
  | RenewLease id token now ext => sqlite_renew_lease id token now ext
  | CancelRun id now => sqlite_cancel_run id now
  | RecoverExpiredLeases now => sqlite_recover_expired_leases now
  | LenQueue => sqlite_len_queue
  end.

#[export] Instance SqliteStore : Store Db := @sqlite_call.

(** ** Migrations and opening *)

(** [execute_batch]: every statement is [IF NOT EXISTS], so an object that exists is
    left alone; an index needs its table. *)
Definition apply_ddl (s : Ddl) : SqlM unit :=
  statement (fun d =>
    match s with
    | CreateTable name _ => (with_objects ({[name]} ∪ db_objects d) d, Ok tt)
    | CreateIndex name table _ =>
        if bool_decide (table ∈ db_objects d) then (with_objects ({[name]} ∪ db_objects d) d, Ok tt)
        else (d, Err (sq_no_table table))
    end).

Fixpoint sql_each {A} (f : A → SqlM unit) (l : list A) : SqlM unit :=
  match l with
  | [] => sql_ret tt
  | x :: rest => let% _ := f x in sql_each f rest
  end.

Definition apply_migrations : SqlM unit :=
  let% _ := sql_each (fun m => sql_each apply_ddl (mg_statements m)) MIGRATIONS in
  execute "meta" (fun d =>
    with_meta_rows (<["schema_version"%string := pretty latest_version]> (db_meta d)) d).

Definition schema_version : SqlM Z :=
  query "meta" (fun d =>
    match db_meta d !! "schema_version"%string with
    | Some stored => Ok (match parse_u32 stored with Ok v => v | Err _ => 0 end)
    | None => Err sq_no_rows
    end).

(** [SqliteStore::open]; the first statement stands for opening the file. *)
Definition sqlite_open : SqlM unit :=
  let% _ := control in apply_migrations.
End Sqlite.
