(* ===== verification/SqliteSpec.v ===== *)
(** * The SQLite store meets the contract

    [represents d m]: the tables of [d] hold the records of [m], with the
    denormalized columns in step with the documents. A call the representation admits
    and none of whose statements fails is answered within the contract, but for two
    departures, and keeps the representation; a call with a failing statement reports an
    error and leaves the tables as they were. The last part holds where the two backends
    differ. *)
From S2P Require Import Prelude RustStrings Text Ids Status Errors Json Workflow Store MemoryStore StoreSpec Sqlite.
From stdpp Require Import pretty.
Local Open Scope Z_scope.

Definition store_tables : list string :=
  ["workflows"; "runs"; "task_runs"; "queue_entries"; "run_counters"; "meta"]%string.

Definition tick (d : Db) : Db := with_statements (Datatypes.S (db_statements d)) d.

Section Represents.
Context `{Sqlite}.

Definition def_row (k : string * string) (row : WorkflowRow) (rec : WorkflowRecord) : Prop :=
  def_read (wrow_document row) = Ok (wr_def rec) ∧ wrow_version row = wd_version (wr_def rec) ∧
  k = (wd_tenant (wr_def rec), wd_name (wr_def rec)).

Definition run_row_of (k : string) (row : RunRow) (run : Run) : Prop :=
  run_read (rrow_document row) = Ok run ∧ rrow_tenant row = rn_tenant run ∧
  rrow_def_name row = rn_def_name run ∧ rn_id run = k.

Definition task_row_of (k : string) (row : TaskRow) (tr : TaskRun) : Prop :=
  task_read (trow_document row) = Ok tr ∧ trow_run_id row = tr_run_id tr ∧
  trow_task_name row = tr_task_name tr ∧ tr_id tr = k.

Record represents (d : Db) (m : MemoryState) : Prop := {
  rp_tables : ∀ t, t ∈ store_tables → t ∈ db_objects d;
  rp_defs : map_Forall2 def_row (db_workflows d) (ms_defs m);
  rp_runs : map_Forall2 run_row_of (db_runs d) (ms_runs m);
  rp_tasks : map_Forall2 task_row_of (db_task_runs d) (ms_task_runs m);
  rp_queue : map_Forall2 (fun k row e => e = entry_of k row) (db_queue_entries d) (ms_queue m);
  rp_counters : db_run_counters d = ms_run_numbers m;
  rp_counted : ∀ k n, db_run_counters d !! k = Some n → 0 ≤ n ≤ i64_max
}.

(** The calls that keep it: documents that read back, keys and denormalized columns
    that do not change, and sizes within SQLite's integers. *)
Definition admissible {A} (c : StoreCall A) (m : MemoryState) : Prop :=
  match c with
  | PutWorkflow def => def_read (def_text def) = Ok def
  | UpdateWorkflowVersion tenant name def _ =>
      def_read (def_text def) = Ok def ∧ wd_tenant def = tenant ∧ wd_name def = name
  | PutRun run => run_read (run_text run) = Ok run ∧
      ∀ old, ms_runs m !! rn_id run = Some old → rn_tenant run = rn_tenant old ∧ rn_def_name run = rn_def_name old
  | PutTaskRun tr => task_read (task_text tr) = Ok tr ∧
      ∀ old, ms_task_runs m !! tr_id tr = Some old → tr_run_id tr = tr_run_id old ∧ tr_task_name tr = tr_task_name old
  | CancelRun id now => ∀ run, ms_runs m !! id = Some run →
      let run' := run_set_error None (run_set_finished_at_ms (Some now) (run_set_status RunStatus.Cancelled run)) in
      run_read (run_text run') = Ok run'
  | NextRunNumber name => ∀ n, ms_run_numbers m !! name = Some n → n < i64_max
  | ScanReady _ limit => Z.of_nat limit ≤ i64_max
  | _ => True
  end.

(** The two answers with which SQLite departs from the contract, both without an effect: a
    second entry for a run is a backend error, and a count is the length of the page. *)
Definition departs {A} (c : StoreCall A) (m : MemoryState) : A → Prop :=
  match c in StoreCall A return A → Prop with
  | Enqueue entry => fun r => is_Some (ms_queue m !! qe_run_id entry) ∧ ∃ text, r = Err (StorageError.Backend text)
  | CountRuns f => fun r => (is_Some (rf_limit f) ∨ rf_offset f ≠ 0%nat) ∧
      ∃ l, l ≡ₚ rows (ms_runs m) ∧ r = Ok (Z.of_nat (length (apply_order f (List.filter (filter_matches f) l))))
  | _ => fun _ => False
  end.

Lemma rep_tick d m : represents d m → represents (tick d) m.
Proof. by destruct 1. Qed.

Lemma rep_defs d m rs defs : represents d m → map_Forall2 def_row rs defs →
  represents (with_workflows rs d) (set_defs defs m).
Proof. by destruct 1. Qed.

Lemma rep_runs d m rs runs : represents d m → map_Forall2 run_row_of rs runs →
  represents (with_runs rs d) (set_runs runs m).
Proof. by destruct 1. Qed.

Lemma rep_tasks d m rs tasks : represents d m → map_Forall2 task_row_of rs tasks →
  represents (with_task_runs rs d) (set_task_runs tasks m).
Proof. by destruct 1. Qed.

Lemma rep_queue d m rs q : represents d m → map_Forall2 (fun k row e => e = entry_of k row) rs q →
  represents (with_queue_entries rs d) (set_queue q m).
Proof. by destruct 1. Qed.

(** The relation at one key. *)
Lemma rows_at {K A B} `{Countable K} (R : K → A → B → Prop) (m1 : gmap K A) (m2 : gmap K B) k :
  map_Forall2 R m1 m2 →
  match m1 !! k, m2 !! k with
  | Some a, Some b => R k a b
  | None, None => True
  | _, _ => False
  end.
Proof. intros Hm. specialize (Hm k). destruct (m1 !! k), (m2 !! k); by inv Hm. Qed.

(** One entry changed on both sides. *)
Lemma rows_alter {K A B} `{Countable K} (R : K → A → B → Prop) (m1 : gmap K A) (m2 : gmap K B) k a b :
  map_Forall2 R m1 m2 → match a, b with Some a, Some b => R k a b | None, None => True | _, _ => False end →
  map_Forall2 R (partial_alter (fun _ => a) k m1) (partial_alter (fun _ => b) k m2).
Proof.
  intros Hm Hab j. destruct (decide (k = j)) as [<-|Hne].
  - rewrite !lookup_partial_alter_eq. destruct a, b; done || (constructor; done).
  - rewrite !lookup_partial_alter_ne by done. apply Hm.
Qed.
End Represents.

Lemma map_size_filter_rows {K V} `{HashIter} `{Countable K} (p : V → bool) (m : gmap K V) :
  size (filter (fun kv => p kv.2 = true) m) = length (List.filter (fun kv => p kv.2) (hash_iter m)).
Proof.
  rewrite hash_iter_perm.
  induction m as [|k v m Hk IH] using map_ind; [by rewrite map_filter_empty, map_to_list_empty|].
  rewrite map_to_list_insert by done.
  cbn [List.filter snd]. destruct (p v) eqn:Hp.
  - rewrite map_filter_insert_True, map_size_insert_None by (done || apply map_lookup_filter_None; by left).
    cbn [length]. by f_equal.
  - rewrite map_filter_insert_False by (cbn; congruence). by rewrite delete_id.
Qed.

(** ** Without failing statements *)

Section Faultless.
Context `{Sqlite} `{HashIter} (Hok : ∀ n, sq_fault n = None).

Lemma on_table_ok {A} table (f : Db → Db * result A string) d m : represents d m → table ∈ store_tables →
  on_table table f d = (let '(d', r) := f (tick d) in (d', map_err StorageError.Backend r)).
Proof.
  intros Hr Ht. unfold on_table, statement. rewrite Hok.
  rewrite bool_decide_eq_true_2 by (cbn; by eapply rp_tables). done.
Qed.

Lemma execute_ok table f d m : represents d m → table ∈ store_tables →
  execute table f d = (f (tick d), Ok tt).
Proof. intros Hr Ht. unfold execute. by rewrite (on_table_ok _ _ d m). Qed.

Lemma query_ok {A} table (f : Db → result A string) d m : represents d m → table ∈ store_tables →
  query table f d = (tick d, map_err StorageError.Backend (f (tick d))).
Proof. intros Hr Ht. unfold query. by rewrite (on_table_ok _ _ d m). Qed.

Definition answered {A} (c : StoreCall A) (d : Db) (m : MemoryState) : Prop :=
  ∃ m', contract c m m' (sqlite_call c d).2 ∧ represents (sqlite_call c d).1 m'.

Definition departed {A} (c : StoreCall A) (d : Db) (m : MemoryState) : Prop :=
  departs c m (sqlite_call c d).2 ∧ represents (sqlite_call c d).1 m.

(** A statement on a table the store has created, without a failure. *)
Ltac run_sql Hr :=
  unfold sql_bind, sql_ret, sql_fail;
  repeat first
    [ erewrite execute_ok by (exact Hr || set_solver)
    | erewrite query_ok by (exact Hr || set_solver)
    | erewrite on_table_ok by (exact Hr || set_solver) ];
  cbn [tick with_statements db_objects db_workflows db_runs db_task_runs db_queue_entries db_run_counters db_meta].

(** *** Definitions *)

Lemma put_workflow_answered def d m : represents d m → admissible (PutWorkflow def) m →
  answered (PutWorkflow def) d m.
Proof.
  intros Hr Ha. exists (mem_put_workflow def m).1. unfold answered, sqlite_call, sqlite_put_workflow.
  run_sql Hr. split; [done|]. apply rep_defs; [by apply rep_tick|].
  apply map_Forall2_insert_2; [done|apply Hr].
Qed.

Lemma update_workflow_answered tenant name def v d m : represents d m →
  admissible (UpdateWorkflowVersion tenant name def v) m →
  answered (UpdateWorkflowVersion tenant name def v) d m.
Proof.
  intros Hr (Ha&Ht&Hn). exists (mem_update_workflow_version tenant name def v m).1.
  unfold sqlite_call, sqlite_update_workflow_version, contract, mem_update_workflow_version. run_sql Hr.
  pose proof (rows_at _ _ _ (tenant, name) (rp_defs d m Hr)) as Hk.
  destruct (db_workflows d !! (tenant, name)) as [row|] eqn:Hd, (ms_defs m !! (tenant, name)) as [rec|]; try done;
    cbn [fmap option_fmap option_map map_err]; [|split; [done|by apply rep_tick]].
  destruct Hk as (Hrd&Hv&_). rewrite Hv.
  destruct (negb _); [split; [done|by apply rep_tick]|]. destruct (negb _); [split; [done|by apply rep_tick]|].
  erewrite execute_ok by (apply rep_tick, Hr || set_solver). cbn [fst snd]. split; [done|].
  apply rep_defs; [by apply rep_tick, rep_tick|]. cbn [tick with_statements db_workflows].
  replace (alter _ _ (db_workflows d)) with (<[(tenant, name) := workflow_row def (wrow_created_at_ms row)]> (db_workflows d))
    by (apply map_eq; intros k; destruct (decide (k = (tenant, name))) as [->|];
        [by rewrite lookup_insert_eq, lookup_alter_eq, Hd|by rewrite lookup_insert_ne, lookup_alter_ne by done]).
  apply map_Forall2_insert_2; [|apply Hr]. split; [done|]. split; [done|]. cbn. congruence.
Qed.

Lemma get_workflow_answered tenant name d m : represents d m → answered (GetWorkflow tenant name) d m.
Proof.
  intros Hr. exists m. unfold sqlite_call, sqlite_get_workflow, contract, mem_get_workflow. run_sql Hr.
  pose proof (rows_at _ _ _ (tenant, name) (rp_defs d m Hr)) as Hk.
  destruct (db_workflows d !! (tenant, name)) as [row|], (ms_defs m !! (tenant, name)) as [rec|]; try done;
    cbn [fmap option_fmap option_map decode_opt map_err]; [|split; [done|by apply rep_tick]].
  destruct Hk as (Hrd&_&_). unfold decode. rewrite Hrd. cbn [map_err rbind].
  split; [|by apply rep_tick]. by destruct rec.
Qed.

(** The rows of a table, read in any order. *)
Lemma read_rows {K V B} `{Countable K} (R : K → V → B → Prop) (m1 : gmap K V) (m2 : gmap K B) :
  map_Forall2 R m1 m2 →
  ∃ l, l ≡ₚ rows m2 ∧ Forall2 (fun x b => R x.1 x.2 b) (hash_iter m1) l.
Proof.
  intros Hm. destruct (map_Forall2_rows R m1 m2 (hash_iter m1) Hm) as (l&Hl&Hf); [apply hash_iter_perm|].
  exists (l.*2). split; [by rewrite Hl|]. apply Forall2_fmap_r. eapply Forall2_impl; [exact Hf|].
  by intros x y [_ ?].
Qed.

Lemma read_values {K V B} `{Countable K} (R : K → V → B → Prop) (m1 : gmap K V) (m2 : gmap K B) :
  map_Forall2 R m1 m2 →
  ∃ l, l ≡ₚ rows m2 ∧ Forall2 (fun v b => ∃ k, R k v b) (hash_values m1) l.
Proof.
  intros (l&Hl&Hf)%read_rows. exists l. split; [done|]. apply Forall2_fmap_l.
  eapply Forall2_impl; [exact Hf|]. intros x y Hxy. by exists x.1.
Qed.

(** Documents that read back are all decoded. *)
Lemma decode_all {V B} (read : string → result B string) (doc : V → string) l bs :
  Forall2 (fun v b => read (doc v) = Ok b) l bs → try_map (fun v => decode read (doc v)) l = Ok bs.
Proof.
  intros Hf. apply try_map_ok. eapply Forall2_impl; [exact Hf|]. intros v b Hv. cbn in Hv.
  unfold decode. by rewrite Hv.
Qed.

Lemma list_workflows_eq d m : represents d m →
  ∃ l, l ≡ₚ rows (ms_defs m) ∧ sqlite_list_workflows d = (tick d, Ok (sort_by workflow_le l)).
Proof.
  intros Hr. destruct (read_rows _ _ _ (rp_defs d m Hr)) as (l&Hl&Hf). exists l. split; [done|].
  unfold sqlite_list_workflows. run_sql Hr. f_equal.
  assert (Hs : Forall2 (fun x b => def_row x.1 x.2 b) (sort_by row_key_le (hash_iter (db_workflows d)))
    (sort_by workflow_le l)).
  { apply Forall2_sort_by; [|done]. intros x y a b (_&_&Hx) (_&_&Hy). unfold row_key_le, workflow_le.
    by rewrite Hx, Hy. }
  rewrite (decode_all def_read (fun kv => wrow_document kv.2) _ (map wr_def (sort_by workflow_le l))).
  - cbn [rbind map_err]. rewrite map_map. f_equal. rewrite <-(map_id (sort_by workflow_le l)) at 2.
    apply map_ext. by intros [].
  - apply Forall2_fmap_r. eapply Forall2_impl; [exact Hs|]. by intros x b (?&_&_).
Qed.

Lemma list_workflows_answered d m : represents d m → answered ListWorkflows d m.
Proof.
  intros Hr. destruct (list_workflows_eq d m Hr) as (l&Hl&He). exists m. unfold sqlite_call. rewrite He.
  split; [|by apply rep_tick]. split; [done|]. by exists l.
Qed.

(** The runs a statement selects. *)
Lemma runs_where_ok p q d m : represents d m →
  (∀ row run, rrow_tenant row = rn_tenant run → rrow_def_name row = rn_def_name run → p row = q run) →
  ∃ l, l ≡ₚ rows (ms_runs m) ∧ runs_where p d = Ok (List.filter q l).
Proof.
  intros Hr Hpq. destruct (read_values _ _ _ (rp_runs d m Hr)) as (l&Hl&Hf). exists l. split; [done|].
  unfold runs_where. apply decode_all. eapply Forall2_impl with (P := fun row run => ∃ k, run_row_of k row run).
  - apply Forall2_list_filter; [|done]. intros row run (k&_&Ht&Hn&_). by apply Hpq.
  - by intros row run (k&?&_).
Qed.

Lemma summaries_answered m recs : ∀ d, represents d m →
  ∃ d' l, sqlite_summaries recs d = (d', Ok l) ∧ represents d' m ∧
  Forall2 (fun rec sum => ∃ runs, runs ≡ₚ rows (ms_runs m) ∧
    sum = summary_assemble rec (sort_by newest_first (List.filter (runs_of rec) runs))) recs l.
Proof.
  induction recs as [|rec recs IH]; intros d Hr; cbn [sqlite_summaries]; [by exists d, []|].
  destruct (runs_where_ok (fun row => bool_decide (rrow_tenant row = wd_tenant (wr_def rec)) &&
    bool_decide (rrow_def_name row = wd_name (wr_def rec))) (runs_of rec) (tick d) m (rep_tick d m Hr))
    as (runs&Hp&He).
  { intros row run -> ->. unfold runs_of. by rewrite andb_comm. }
  unfold sqlite_summary, sql_bind at 1 2. erewrite query_ok by (exact Hr || set_solver). rewrite He.
  cbn [map_err sql_ret]. destruct (IH (tick d) (rep_tick d m Hr)) as (d'&l&Hs&Hr'&Hf).
  unfold sql_bind. rewrite Hs. do 2 eexists. split; [reflexivity|]. split; [done|].
  constructor; [by exists runs|done].
Qed.

Lemma list_summaries_answered d m : represents d m → answered ListWorkflowSummaries d m.
Proof.
  intros Hr. destruct (list_workflows_eq d m Hr) as (recs&Hl&He). exists m.
  unfold sqlite_call, sqlite_list_workflow_summaries, sql_bind. rewrite He.
  destruct (summaries_answered m (sort_by workflow_le recs) (tick d) (rep_tick d m Hr)) as (d'&l&Hs&Hr'&Hf).
  rewrite Hs. split; [|done]. split; [done|]. exists (sort_by workflow_le recs), l.
  split; [by rewrite sort_by_perm|]. done.
Qed.
(** *** Runs and task runs *)

Lemma put_run_answered run d m : represents d m → admissible (PutRun run) m → answered (PutRun run) d m.
Proof.
  intros Hr [Ha Hold]. exists (mem_put_run run m). unfold sqlite_call, sqlite_put_run. run_sql Hr.
  split; [done|]. apply rep_runs; [by apply rep_tick|]. apply map_Forall2_insert_2; [|apply Hr].
  pose proof (rows_at _ _ _ (rn_id run) (rp_runs d m Hr)) as Hk.
  destruct (db_runs d !! rn_id run) as [row|], (ms_runs m !! rn_id run) as [old|]; try done.
  destruct Hk as (_&Ht&Hn&_). destruct (Hold old eq_refl) as [Ht' Hn'].
  unfold run_row_of, run_row_update. cbn. by rewrite Ht, Hn.
Qed.

Lemma select_run_ok id d m : represents d m → select_run id (tick d) = Ok (ms_runs m !! id).
Proof.
  intros Hr. pose proof (rows_at _ _ _ id (rp_runs d m Hr)) as Hk. unfold select_run.
  cbn [tick with_statements db_runs].
  destruct (db_runs d !! id) as [row|], (ms_runs m !! id) as [run|]; try done.
  destruct Hk as (Hrd&_). cbn. unfold decode. by rewrite Hrd.
Qed.

Lemma get_run_answered id d m : represents d m → answered (GetRun id) d m.
Proof.
  intros Hr. exists m. unfold sqlite_call, sqlite_get_run, contract, mem_get_run. run_sql Hr.
  rewrite (select_run_ok id d m Hr). cbn [map_err].
  destruct (ms_runs m !! id); (split; [done|by apply rep_tick]).
Qed.

Lemma delete_run_answered id d m : represents d m → answered (DeleteRun id) d m.
Proof.
  intros Hr. exists (mem_delete_run id m). unfold sqlite_call, sqlite_delete_run. run_sql Hr.
  assert (Hr' : represents (with_task_runs (filter (fun kv => trow_run_id kv.2 ≠ id) (db_task_runs d)) (tick d))
    (set_task_runs (filter (fun kv => tr_run_id kv.2 ≠ id) (ms_task_runs m)) m)).
  { apply rep_tasks; [by apply rep_tick|]. intros k. rewrite !map_lookup_filter.
    pose proof (rows_at _ _ _ k (rp_tasks d m Hr)) as Hk.
    destruct (db_task_runs d !! k) as [row|], (ms_task_runs m !! k) as [tr|]; try done; cbn; [|constructor].
    pose proof Hk as (_&Hid&_&_). rewrite Hid. case_guard; cbn; constructor; done. }
  erewrite execute_ok by (exact Hr' || set_solver). split; [done|].
  change (mem_delete_run id m) with (set_runs (delete id (ms_runs m))
    (set_task_runs (filter (fun kv => tr_run_id kv.2 ≠ id) (ms_task_runs m)) m)).
  apply rep_runs; [by apply rep_tick|]. apply map_Forall2_delete, Hr.
Qed.

(** Filtering on the tenant column first drops no run the filter wants. *)
Lemma filter_tenant_first f l t : rf_tenant f = Some t →
  List.filter (filter_matches f) (List.filter (fun run => bool_decide (rn_tenant run = t)) l)
  = List.filter (filter_matches f) l.
Proof.
  intros Ht. induction l as [|run l IH]; cbn; [done|]. case_bool_decide as Hb; cbn; [by rewrite IH|].
  rewrite IH. assert (filter_matches f run = false) as ->; [|done].
  unfold filter_matches. rewrite Ht. cbn [when_set].
  rewrite (bool_decide_eq_false_2 (rn_tenant run = t)) by done. by rewrite andb_false_r.
Qed.

Lemma list_runs_eq f d m : represents d m →
  ∃ l, l ≡ₚ rows (ms_runs m) ∧
  sqlite_list_runs f d = (tick d, Ok (apply_order f (List.filter (filter_matches f) l))).
Proof.
  intros Hr. unfold sqlite_list_runs. run_sql Hr. destruct (rf_tenant f) as [t|] eqn:Ht.
  - destruct (runs_where_ok (fun row => bool_decide (rrow_tenant row = t))
      (fun run => bool_decide (rn_tenant run = t)) (tick d) m (rep_tick d m Hr)) as (l&Hl&He);
      [by intros ?? -> _|]. exists l. split; [done|]. rewrite He. cbn [map_err]. by rewrite filter_tenant_first.
  - destruct (runs_where_ok (fun _ => true) (fun _ => true) (tick d) m (rep_tick d m Hr)) as (l&Hl&He); [done|].
    exists l. split; [done|]. rewrite He. cbn [map_err]. do 4 f_equal. clear. induction l; cbn; congruence.
Qed.

Lemma list_runs_answered f d m : represents d m → answered (ListRuns f) d m.
Proof.
  intros Hr. destruct (list_runs_eq f d m Hr) as (l&Hl&He). exists m. unfold sqlite_call. rewrite He.
  split; [|by apply rep_tick]. split; [done|]. by exists l.
Qed.

Lemma count_runs_answered f d m : represents d m → answered (CountRuns f) d m ∨ departed (CountRuns f) d m.
Proof.
  intros Hr. destruct (list_runs_eq f d m Hr) as (l&Hl&He). unfold answered, departed.
  unfold sqlite_call, sqlite_count_runs, sql_bind. rewrite He. cbn [sql_ret fst snd].
  destruct (decide (rf_limit f = None ∧ rf_offset f = 0%nat)) as [[Hlim Hoff]|Hpage].
  - left. exists m. split; [|by apply rep_tick]. split; [done|].
    rewrite apply_order_page, Hlim, Hoff, drop_0, sort_by_length. do 2 f_equal. by rewrite Hl.
  - right. split; [|by apply rep_tick]. split; [|by exists l].
    destruct (rf_limit f); [by left; eauto|]. right. intros Hz. by apply Hpage.
Qed.

Lemma put_task_run_answered tr d m : represents d m → admissible (PutTaskRun tr) m →
  answered (PutTaskRun tr) d m.
Proof.
  intros Hr [Ha Hold]. exists (mem_put_task_run tr m). unfold sqlite_call, sqlite_put_task_run. run_sql Hr.
  split; [done|]. apply rep_tasks; [by apply rep_tick|]. apply map_Forall2_insert_2; [|apply Hr].
  pose proof (rows_at _ _ _ (tr_id tr) (rp_tasks d m Hr)) as Hk.
  destruct (db_task_runs d !! tr_id tr) as [row|], (ms_task_runs m !! tr_id tr) as [old|]; try done.
  destruct Hk as (_&Ht&Hn&_). destruct (Hold old eq_refl) as [Ht' Hn'].
  unfold task_row_of. cbn. by rewrite Ht, Hn.
Qed.

Lemma get_task_run_answered id d m : represents d m → answered (GetTaskRun id) d m.
Proof.
  intros Hr. exists m. unfold sqlite_call, sqlite_get_task_run, contract, mem_get_task_run. run_sql Hr.
  pose proof (rows_at _ _ _ id (rp_tasks d m Hr)) as Hk.
  destruct (db_task_runs d !! id) as [row|], (ms_task_runs m !! id) as [tr|]; try done;
    cbn [fmap option_fmap option_map decode_opt map_err]; [|split; [done|by apply rep_tick]].
  destruct Hk as (Hrd&_). unfold decode. rewrite Hrd. split; [done|by apply rep_tick].
Qed.

Lemma list_task_runs_answered id d m : represents d m → answered (ListTaskRunsForRun id) d m.
Proof.
  intros Hr. destruct (read_values _ _ _ (rp_tasks d m Hr)) as (l&Hl&Hf). exists m.
  unfold sqlite_call, sqlite_list_task_runs_for_run. run_sql Hr.
  erewrite (decode_all task_read trow_document).
  - split; [|by apply rep_tick]. split; [done|]. exists l. split; [done|]. reflexivity.
  - eapply Forall2_impl with (P := fun row tr => ∃ k, task_row_of k row tr); [|by intros row tr (k&?&_)].
    apply Forall2_sort_by; [|apply Forall2_list_filter; [|done]].
    + intros x y a b (?&_&_&Hx&_) (?&_&_&Hy&_). unfold task_row_le. by rewrite Hx, Hy.
    + intros x y (?&_&Hx&_). by rewrite Hx.
Qed.

Lemma next_number_answered name d m : represents d m → admissible (NextRunNumber name) m →
  answered (NextRunNumber name) d m.
Proof.
  intros Hr Ha. cbn [admissible] in Ha. exists (mem_next_run_number name m).1.
  unfold sqlite_call, sqlite_next_run_number, contract, mem_next_run_number. run_sql Hr.
  rewrite (rp_counters d m Hr). set (next := next_counter (ms_run_numbers m !! name)).
  assert (Hn : next = default 0 (ms_run_numbers m !! name) + 1 ∧ 0 ≤ next ≤ i64_max).
  { unfold next, next_counter. destruct (ms_run_numbers m !! name) as [n|] eqn:Hn; cbn; [|by unfold i64_max].
    pose proof (rp_counted d m Hr name n) as Hc. rewrite (rp_counters d m Hr) in Hc.
    specialize (Hc Hn). specialize (Ha n eq_refl). rewrite (proj2 (Z.ltb_lt _ _) Ha). lia. }
  destruct Hn as [Hn Hb]. assert (Hw : wrap_u64 next = next)
    by (apply wrap_u64_id; unfold in_u64, u64_max, i64_max in *; lia).
  assert (Hr' : represents (with_run_counters (<[name := next]> (ms_run_numbers m)) (tick d))
    (set_run_numbers (<[name := next]> (ms_run_numbers m)) m)).
  { destruct Hr as [? ? ? ? ? Hcnt Hb']. constructor; try done. cbn. rewrite Hcnt in Hb'.
    intros k n [[<- <-]|[_ Hk]]%lookup_insert_Some; [done|by eapply Hb']. }
  erewrite query_ok by (exact Hr' || set_solver). cbn [tick with_statements with_run_counters db_run_counters].
  rewrite lookup_insert_eq, (proj2 (Z.leb_le _ _) (proj2 Hb)). cbn [map_err fst snd]. rewrite <-Hn, Hw.
  split; [done|]. by apply rep_tick.
Qed.
(** *** The queue *)

Lemma guarded_eq run_id guard f d m : represents d m →
  guarded run_id guard f d =
  match db_queue_entries d !! run_id with
  | Some row => if guard row
      then (with_queue_entries (partial_alter (fun _ => f row) run_id (db_queue_entries d)) (tick d), Ok tt)
      else (tick d, Err (StorageError.ClaimLost ("run " +:+ run_id)))
  | None => (tick d, Err (StorageError.ClaimLost ("run " +:+ run_id)))
  end.
Proof.
  intros Hr. unfold guarded. run_sql Hr. destruct (db_queue_entries d !! run_id) as [row|]; [|done].
  by destruct (guard row).
Qed.

(** A guarded statement is the operation on the entry it stands for. *)
Lemma guarded_entry run_id (guard : QueueRow → bool) (f : QueueRow → option QueueRow)
    (P : QueueEntry → option QueueEntry) d m : represents d m →
  (∀ row, f row = None ∧ P (entry_of run_id row) = None ∨
     ∃ row', f row = Some row' ∧ P (entry_of run_id row) = Some (entry_of run_id row')) →
  match ms_queue m !! run_id with
  | None => guarded run_id guard f d = (tick d, Err (StorageError.ClaimLost ("run " +:+ run_id)))
  | Some e => ∃ row, e = entry_of run_id row ∧
      if guard row then ∃ d', guarded run_id guard f d = (d', Ok tt) ∧ represents d' (set_entry run_id (P e) m)
      else guarded run_id guard f d = (tick d, Err (StorageError.ClaimLost ("run " +:+ run_id)))
  end.
Proof.
  intros Hr HfP. pose proof (rows_at _ _ _ run_id (rp_queue d m Hr)) as Hk. rewrite (guarded_eq run_id guard f d m Hr).
  destruct (db_queue_entries d !! run_id) as [row|], (ms_queue m !! run_id) as [e|]; try done.
  exists row. split; [done|]. subst e. destruct (guard row); [|done]. eexists. split; [reflexivity|].
  apply rep_queue; [by apply rep_tick|]. apply rows_alter; [apply Hr|].
  destruct (HfP row) as [[-> ->]|(row'&->&->)]; done.
Qed.

Lemma enqueue_answered entry d m : represents d m → answered (Enqueue entry) d m ∨ departed (Enqueue entry) d m.
Proof.
  intros Hr. unfold answered, departed, sqlite_call, sqlite_enqueue, contract, departs. run_sql Hr.
  pose proof (rows_at _ _ _ (qe_run_id entry) (rp_queue d m Hr)) as Hk.
  destruct (db_queue_entries d !! qe_run_id entry) as [row|], (ms_queue m !! qe_run_id entry) as [e|]; try done;
    cbn [fst snd map_err].
  - right. split; [by eauto|by apply rep_tick].
  - left. eexists. split; [done|]. apply rep_queue; [by apply rep_tick|].
    apply (rows_alter _ _ _ (qe_run_id entry) (Some _) (Some entry)); [apply Hr|]. by destruct entry.
Qed.

Lemma scan_ready_answered now limit d m : represents d m → admissible (ScanReady now limit) m →
  answered (ScanReady now limit) d m.
Proof.
  intros Hr Ha. cbn [admissible] in Ha. destruct (read_rows _ _ _ (rp_queue d m Hr)) as (l&Hl&Hf).
  exists m. unfold sqlite_call, sqlite_scan_ready. run_sql Hr. cbn [map_err fst snd].
  split; [|by apply rep_tick]. split; [done|]. exists l. split; [done|]. f_equal.
  rewrite wrap_i64_id by (unfold in_i64, i64_min, i64_max in *; lia). unfold sql_limit.
  rewrite (proj2 (Z.ltb_ge _ _)) by lia. rewrite Nat2Z.id, <-firstn_map. f_equal.
  assert (Hs : Forall2 (fun (x : string * QueueRow) e => e = entry_of x.1 x.2)
    (sort_by (fun a b => qrow_due_at_ms a.2 <=? qrow_due_at_ms b.2)
      (List.filter (fun kv => (qrow_due_at_ms kv.2 <=? now) && lease_over kv.2 now) (hash_iter (db_queue_entries d))))
    (sort_by due_le (List.filter (fun e => is_ready e now) l))).
  { apply Forall2_sort_by; [by intros x y ? ? -> ->|]. apply Forall2_list_filter; [|done].
    intros [k row] e ->. unfold is_ready, is_leased, lease_over. cbn. f_equal.
    destruct (qrow_lease_until_ms row) as [exp|]; [|done]. by rewrite Z.leb_antisym. }
  clear -Hs. induction Hs as [|x e xs es Hx Hs IH]; cbn; [done|]. by rewrite IH, Hx.
Qed.

Lemma claim_answered id token now lease d m : represents d m → answered (Claim id token now lease) d m.
Proof.
  intros Hr. unfold answered, sqlite_call, sqlite_claim, contract, claim_op.
  match goal with |- context [guarded id ?g ?f d] =>
    pose proof (guarded_entry id g f (fun e => Some (with_lease token (wrap_i64 (now + lease)) e)) d m Hr) as Hg end.
  destruct (ms_queue m !! id) as [e|].
  - destruct Hg as (row&->&Hg); [intros row; right; by eexists|]. cbn [entry_of qe_token qe_lease_until_ms] in *.
    unfold owns in *. destruct (bool_decide (qrow_lease_until_ms row = None)) eqn:Hn; cbn [orb] in Hg.
    + destruct Hg as (d'&->&Hr'). eexists. split; [|exact Hr']. to_prop. unfold is_leased. cbn. by rewrite Hn.
    + destruct (bool_decide (qrow_token row = token)) eqn:Ht; cbn [negb]; rewrite ?andb_false_r, ?andb_true_r.
      * destruct Hg as (d'&->&Hr'). eexists. split; [|exact Hr']. left. done.
      * rewrite Hg. exists m. split; [|by apply rep_tick]. destruct (is_leased _ now); eauto.
  - rewrite Hg by (intros row; right; by eexists). exists m. split; [done|by apply rep_tick].
Qed.

(** Acknowledging, releasing and failing a claim. *)
Lemma held_answered run_id token f P d m : represents d m →
  (∀ row, f row = None ∧ P (entry_of run_id row) = None ∨
     ∃ row', f row = Some row' ∧ P (entry_of run_id row) = Some (entry_of run_id row')) →
  ∃ m', held_op run_id token P m m' (guarded run_id (owns token) f d).2 ∧
    represents (guarded run_id (owns token) f d).1 m'.
Proof.
  intros Hr HfP. pose proof (guarded_entry run_id (owns token) f P d m Hr HfP) as Hg. unfold held_op.
  destruct (ms_queue m !! run_id) as [e|].
  - destruct Hg as (row&->&Hg). cbn [entry_of qe_token].
    change (bool_decide (qrow_token row = token)) with (owns token row). destruct (owns token row).
    + destruct Hg as (d'&Hg&Hr'). eexists. rewrite Hg. split; [done|exact Hr'].
    + exists m. rewrite Hg. split; [by eauto|by apply rep_tick].
  - exists m. rewrite Hg. split; [done|by apply rep_tick].
Qed.

Lemma renew_answered id token now ext d m : represents d m → answered (RenewLease id token now ext) d m.
Proof.
  intros Hr. unfold answered, sqlite_call, sqlite_renew_lease, contract, renew_op.
  match goal with |- context [guarded id ?g ?f d] =>
    pose proof (guarded_entry id g f (fun e => Some {| qe_run_id := qe_run_id e; qe_token := qe_token e;
      qe_due_at_ms := qe_due_at_ms e; qe_lease_until_ms := Some (wrap_i64 (now + ext));
      qe_claimed_by := qe_claimed_by e |}) d m Hr) as Hg end.
  destruct (ms_queue m !! id) as [e|].
  - destruct Hg as (row&->&Hg); [intros row; right; by eexists|].
    change (owns token row && match qrow_lease_until_ms row with Some exp => now <? exp | None => false end)
      with (bool_decide (qe_token (entry_of id row) = token) && is_leased (entry_of id row) now) in Hg.
    destruct (bool_decide _ && is_leased (entry_of id row) now).
    + destruct Hg as (d'&->&Hr'). eexists. split; [done|exact Hr'].
    + rewrite Hg. exists m. split; [by eauto|by apply rep_tick].
  - rewrite Hg by (intros row; right; by eexists). exists m. split; [done|by apply rep_tick].
Qed.
Lemma control_ok d : control d = (tick d, Ok tt).
Proof. unfold control, statement. by rewrite Hok. Qed.

Lemma rep_rollback d d' m : represents d m → represents (rollback d d') m.
Proof. by destruct 1. Qed.

(** [alter] on an entry that is there. *)
Lemma alter_insert {K V} `{Countable K} (f : V → V) (m : gmap K V) k v :
  m !! k = Some v → alter f k m = <[k := f v]> m.
Proof.
  intros Hk. apply map_eq. intros j. destruct (decide (j = k)) as [->|Hne].
  - by rewrite lookup_alter_eq, lookup_insert_eq, Hk.
  - by rewrite lookup_alter_ne, lookup_insert_ne by done.
Qed.

Lemma cancel_answered id now d m : represents d m → admissible (CancelRun id now) m →
  answered (CancelRun id now) d m.
Proof.
  intros Hr Ha. cbn [admissible] in Ha.
  unfold answered, sqlite_call, sqlite_cancel_run, transaction, contract, mem_cancel_run.
  rewrite control_ok. unfold sql_bind, sql_ret, sql_fail.
  erewrite query_ok by (apply rep_tick, Hr || set_solver). rewrite (select_run_ok id (tick d) m (rep_tick d m Hr)).
  cbn [map_err]. pose proof (rows_at _ _ _ id (rp_runs d m Hr)) as Hk.
  destruct (ms_runs m !! id) as [run|]; [|exists m; split; [done|by apply rep_rollback, rep_tick]].
  destruct (Run_is_terminal run); [exists m; split; [done|by apply rep_rollback, rep_tick]|].
  specialize (Ha run eq_refl). cbv zeta in Ha. set (run' := run_set_error _ _) in *.
  destruct (db_runs d !! id) as [row|] eqn:Hd; [|done]. destruct Hk as (_&Ht&Hn&Hid).
  erewrite execute_ok by (apply rep_tick, rep_tick, Hr || set_solver).
  set (rs := alter _ id _). assert (Hr1 : represents (with_runs rs (tick (tick (tick d))))
    (set_runs (<[id := run']> (ms_runs m)) m)).
  { apply rep_runs; [by do 3 apply rep_tick|]. unfold rs. cbn [tick with_statements db_runs].
    rewrite (alter_insert _ _ _ _ Hd). apply map_Forall2_insert_2; [|apply Hr].
    unfold run_row_of. cbn. by destruct run. }
  erewrite execute_ok by (exact Hr1 || set_solver). rewrite control_ok. cbn [fst snd].
  eexists. split; [reflexivity|]. apply rep_tick, rep_queue; [by apply rep_tick|].
  apply map_Forall2_delete, Hr.
Qed.

Lemma recover_answered now d m : represents d m → answered (RecoverExpiredLeases now) d m.
Proof.
  intros Hr. exists (set_queue (recovered_queue now (ms_queue m)) m).
  unfold sqlite_call, sqlite_recover_expired_leases. run_sql Hr. cbn [fst snd map_err].
  assert (Hx : ∀ k row e, e = entry_of k row → row_expired now row = lease_expired now e) by by intros ??? ->.
  split.
  - split; [done|]. do 2 f_equal. destruct (read_rows _ _ _ (rp_queue d m Hr)) as (l&Hl&Hf).
    rewrite <-Hl. rewrite map_size_filter_rows.
    apply Forall2_length with (P := fun (x : string * QueueRow) e => e = entry_of x.1 x.2).
    apply Forall2_list_filter; [|exact Hf]. intros [k row] e ->. done.
  - apply rep_queue; [by apply rep_tick|]. intros k. unfold recovered_queue. rewrite !lookup_fmap.
    pose proof (rows_at _ _ _ k (rp_queue d m Hr)) as Hk.
    destruct (db_queue_entries d !! k) as [row|], (ms_queue m !! k) as [e|]; try done; cbn; constructor.
    rewrite (Hx k row e Hk), Hk. by destruct (lease_expired now _).
Qed.

Lemma len_queue_answered d m : represents d m → answered LenQueue d m.
Proof.
  intros Hr. exists m. unfold sqlite_call, sqlite_len_queue. run_sql Hr. cbn [map_err fst snd].
  split; [|by apply rep_tick]. split; [done|]. f_equal.
  destruct (read_rows _ _ _ (rp_queue d m Hr)) as (l&Hl&Hf%Forall2_length).
  rewrite <-!length_map_to_list, <-hash_iter_perm, Hf, Hl. by rewrite length_fmap.
Qed.

Lemma sqlite_answered {A} (c : StoreCall A) d m : represents d m → admissible c m →
  answered c d m ∨ departed c d m.
Proof.
  intros Hr Ha. destruct c; auto using put_workflow_answered, update_workflow_answered, get_workflow_answered,
    list_workflows_answered, list_summaries_answered, put_run_answered, get_run_answered, delete_run_answered,
    list_runs_answered, count_runs_answered, put_task_run_answered, get_task_run_answered, list_task_runs_answered,
    next_number_answered, enqueue_answered, scan_ready_answered, claim_answered, renew_answered,
    cancel_answered, recover_answered, len_queue_answered.
  - left. apply held_answered; [done|]. auto.
  - left. apply held_answered; [done|]. right. by eexists.
  - left. apply held_answered; [done|]. right. by eexists.
Qed.
End Faultless.

(** ** With failing statements *)

Section Faults.
Context `{Sqlite} `{HashIter}.

(** Equal but for the number of statements run so far. *)
Definition same_tables (d d' : Db) : Prop := with_statements (db_statements d') d = d'.

Lemma same_refl d : same_tables d d.
Proof. by destruct d. Qed.

Lemma same_trans d1 d2 d3 : same_tables d1 d2 → same_tables d2 d3 → same_tables d1 d3.
Proof. unfold same_tables. intros <- <-. done. Qed.

(** A step that changes no table, and one that changes none when it fails. *)
Definition reads {A} (c : SqlM A) : Prop := ∀ d, same_tables d (c d).1.
Definition atomic {A} (c : SqlM A) : Prop := ∀ d, is_ok (c d).2 = false → same_tables d (c d).1.

Lemma reads_atomic {A} (c : SqlM A) : reads c → atomic c.
Proof. intros Hc d _. apply Hc. Qed.

Lemma reads_ret {A} (a : A) : reads (sql_ret a).
Proof. intros d. apply same_refl. Qed.

Lemma reads_fail {A} e : reads (sql_fail (A := A) e).
Proof. intros d. apply same_refl. Qed.

Lemma reads_query {A} table (f : Db → result A string) : reads (query table f).
Proof.
  intros d. unfold query, on_table, statement. destruct (sq_fault _); [by destruct d|].
  case_bool_decide; by destruct d.
Qed.

Lemma reads_control : reads control.
Proof. intros d. unfold control, statement. destruct (sq_fault _); by destruct d. Qed.

Lemma reads_bind {A B} (c : SqlM A) (k : A → SqlM B) : reads c → (∀ a, reads (k a)) → reads (sql_bind c k).
Proof.
  intros Hc Hk d. unfold sql_bind. specialize (Hc d). destruct (c d) as [d' [a|e]]; [|done].
  eapply same_trans; [exact Hc|apply Hk].
Qed.

(** A failing statement has changed nothing. *)
Lemma atomic_on_table {A} table (f : Db → Db * result A string) :
  (∀ d, is_ok (f d).2 = false → (f d).1 = d) → atomic (on_table table f).
Proof.
  intros Hf d. unfold on_table, statement. destruct (sq_fault _); [intros _; by destruct d|].
  case_bool_decide; [|intros _; by destruct d]. fold (tick d). specialize (Hf (tick d)).
  destruct (f (tick d)) as [d' [a|e]]; cbn in *; [done|]. intros _. rewrite Hf by done. by destruct d.
Qed.

Lemma atomic_execute table f : atomic (execute table f).
Proof. by apply atomic_on_table. Qed.

Lemma atomic_bind {A B} (c : SqlM A) (k : A → SqlM B) : reads c → (∀ a, atomic (k a)) → atomic (sql_bind c k).
Proof.
  intros Hc Hk d. unfold sql_bind. specialize (Hc d). destruct (c d) as [d' [a|e]]; [|done].
  intros Hf. eapply same_trans; [exact Hc|by apply Hk].
Qed.

(** A write followed by steps that cannot fail. *)
Lemma atomic_then {A B} (c : SqlM A) (k : A → SqlM B) :
  atomic c → (∀ a d, is_ok (k a d).2 = true) → atomic (sql_bind c k).
Proof.
  intros Hc Hk d. unfold sql_bind. specialize (Hc d). destruct (c d) as [d' [a|e]]; [|done].
  by rewrite Hk.
Qed.

(** A guarded statement that is refused, by a failure or by its guard. *)
Lemma atomic_guarded run_id guard f : atomic (guarded run_id guard f).
Proof.
  intros d. unfold guarded, sql_bind, on_table, statement, sql_fail, sql_ret.
  destruct (sq_fault _); [intros _; by destruct d|]. case_bool_decide; [|intros _; by destruct d].
  fold (tick d). destruct (db_queue_entries (tick d) !! run_id) as [row|]; [destruct (guard row)|]; cbn;
    try done; intros _; by destruct d.
Qed.

Lemma rollback_same d d' : same_tables d (rollback d d').
Proof. by destruct d. Qed.

Lemma atomic_transaction {A} (body : SqlM (A + A)) : atomic (transaction body).
Proof.
  intros d. unfold transaction. pose proof (reads_control d) as Hc.
  destruct (control d) as [d1 [[]|e]]; [|done]. cbn in Hc.
  destruct (body d1) as [d2 [[a|a]|e]]; [done| |intros _; eapply same_trans; [exact Hc|apply rollback_same]].
  destruct (control d2) as [d3 [[]|e]]; [done|]. intros _. eapply same_trans; [exact Hc|apply rollback_same].
Qed.

Lemma reads_summaries recs : reads (sqlite_summaries recs).
Proof.
  induction recs as [|rec recs IH]; cbn [sqlite_summaries]; [apply reads_ret|].
  apply reads_bind; [apply reads_bind; [apply reads_query|intros; apply reads_ret]|].
  intros s. apply reads_bind; [exact IH|intros; apply reads_ret].
Qed.

(** Whether a reply reports a failure. *)
Definition failed {A} (c : StoreCall A) : A → bool :=
  match c in StoreCall A return A → bool with
  | LenQueue => fun _ => false
  | PutWorkflow _ | UpdateWorkflowVersion _ _ _ _ | GetWorkflow _ _ => fun r => negb (is_ok r)
  | ListWorkflows | ListWorkflowSummaries => fun r => negb (is_ok r)
  | PutRun _ | DeleteRun _ | PutTaskRun _ => fun r => negb (is_ok r)
  | GetRun _ => fun r => negb (is_ok r) | ListRuns _ => fun r => negb (is_ok r)
  | CountRuns _ => fun r => negb (is_ok r) | GetTaskRun _ => fun r => negb (is_ok r)
  | ListTaskRunsForRun _ => fun r => negb (is_ok r) | NextRunNumber _ => fun r => negb (is_ok r)
  | Enqueue _ | Claim _ _ _ _ | Ack _ _ | Release _ _ _ | FailClaim _ _ | RenewLease _ _ _ _ =>
      fun r => negb (is_ok r)
  | ScanReady _ _ => fun r => negb (is_ok r)
  | CancelRun _ _ => fun r => negb (is_ok r)
  | RecoverExpiredLeases _ => fun r => negb (is_ok r)
  end.

(** The two calls that run two statements outside a transaction. *)
Definition two_statements {A} (c : StoreCall A) : bool :=
  match c with DeleteRun _ | NextRunNumber _ => true | _ => false end.

Ltac atomic_call :=
  repeat first
    [ apply atomic_guarded | apply atomic_transaction | apply atomic_execute | apply reads_query | apply reads_ret
    | apply reads_fail | apply reads_summaries | apply atomic_bind | apply reads_bind | progress intros
    | case_match | apply reads_atomic ].

Lemma sqlite_call_atomic {A} (c : StoreCall A) d : two_statements c = false →
  failed c (sqlite_call c d).2 = true → same_tables d (sqlite_call c d).1.
Proof.
  intros Htwo Hf. destruct c; cbn [failed two_statements] in *; try done;
    apply negb_true_iff in Hf; revert d Hf; cbn [sqlite_call];
    match goal with |- ∀ d, is_ok (?c d).2 = false → _ => change (atomic c) end.
  - apply atomic_then; [apply atomic_execute|done].
  - apply atomic_bind; [apply reads_query|]. intros [v|]; [|apply reads_atomic, reads_fail].
    repeat case_match; try apply reads_atomic, reads_fail. apply atomic_then; [apply atomic_execute|done].
  - unfold sqlite_get_workflow. atomic_call.
  - unfold sqlite_list_workflows. atomic_call.
  - unfold sqlite_list_workflow_summaries, sqlite_list_workflows. atomic_call.
  - unfold sqlite_put_run. atomic_call.
  - unfold sqlite_get_run. atomic_call.
  - unfold sqlite_list_runs. atomic_call.
  - unfold sqlite_count_runs, sqlite_list_runs. atomic_call.
  - unfold sqlite_put_task_run. atomic_call.
  - unfold sqlite_get_task_run. atomic_call.
  - unfold sqlite_list_task_runs_for_run. atomic_call.
  - apply atomic_on_table. intros d. by case_match.
  - unfold sqlite_scan_ready. atomic_call.
  - unfold sqlite_claim. atomic_call.
  - unfold sqlite_ack. atomic_call.
  - unfold sqlite_release. atomic_call.
  - unfold sqlite_failclaim. atomic_call.
  - unfold sqlite_renew_lease. atomic_call.
  - unfold sqlite_cancel_run. atomic_call.
  - by apply atomic_on_table.
Qed.

(** *** Calls whose statements all succeed *)

(** The same database engine without failures. *)
Definition faultless : Sqlite := {|
  sq_fault _ := None; sq_unique := sq_unique; sq_conversion := sq_conversion; sq_no_table := sq_no_table;
  sq_no_rows := sq_no_rows; def_text := def_text; def_read := def_read; run_text := run_text; run_read := run_read;
  task_text := task_text; task_read := task_read |}.

(** One of the statements run from [d] to [d'] failed. *)
Definition statement_failed (d d' : Db) : Prop :=
  ∃ n, (db_statements d ≤ n < db_statements d')%nat ∧ is_Some (sq_fault n).

(** [c] does what [c'] does, or fails because a statement of it did. *)
Definition agrees {A} (c c' : SqlM A) : Prop := ∀ d,
  (db_statements d ≤ db_statements (c d).1)%nat ∧
  (c d = c' d ∨ is_ok (c d).2 = false ∧ statement_failed d (c d).1).

Lemma agrees_ret {A} (a : A) : agrees (sql_ret a) (sql_ret a).
Proof. intros d. by split; [|left]. Qed.

Lemma agrees_fail {A} e : agrees (sql_fail (A := A) e) (sql_fail e).
Proof. intros d. by split; [|left]. Qed.

Lemma agrees_statement {A} (f : Db → Db * result A string) : (∀ d, db_statements (f d).1 = db_statements d) →
  agrees (statement f) (statement (H := faultless) f).
Proof.
  intros Hf d. unfold statement. cbn [sq_fault faultless]. fold (tick d). specialize (Hf (tick d)).
  destruct (sq_fault (db_statements d)) as [text|] eqn:Hfault.
  - split; [cbn; lia|]. right. split; [done|]. exists (db_statements d). cbn. split; [lia|by eauto].
  - destruct (f (tick d)) as [d' r]. cbn in *. split; [lia|by left].
Qed.

Lemma agrees_on_table {A} table (f : Db → Db * result A string) : (∀ d, db_statements (f d).1 = db_statements d) →
  agrees (on_table table f) (on_table (H := faultless) table f).
Proof. intros Hf. apply agrees_statement. intros d. case_bool_decide; [apply Hf|done]. Qed.

Lemma agrees_execute table f : (∀ d, db_statements (f d) = db_statements d) →
  agrees (execute table f) (execute (H := faultless) table f).
Proof. intros Hf. apply agrees_on_table. apply Hf. Qed.

Lemma agrees_query {A} table (f : Db → result A string) : agrees (query table f) (query (H := faultless) table f).
Proof. by apply agrees_on_table. Qed.

Lemma agrees_control : agrees control (control (H := faultless)).
Proof. by apply agrees_statement. Qed.

Lemma failed_later d1 d2 d3 : (db_statements d1 ≤ db_statements d2)%nat → statement_failed d2 d3 → statement_failed d1 d3.
Proof. intros Hle (n&Hn&Hf). exists n. split; [lia|done]. Qed.

Lemma failed_earlier d1 d2 d3 : (db_statements d2 ≤ db_statements d3)%nat → statement_failed d1 d2 → statement_failed d1 d3.
Proof. intros Hle (n&Hn&Hf). exists n. split; [lia|done]. Qed.

Lemma agrees_bind {A B} (c c' : SqlM A) (k k' : A → SqlM B) :
  agrees c c' → (∀ a, agrees (k a) (k' a)) → agrees (sql_bind c k) (sql_bind c' k').
Proof.
  intros Hc Hk d. unfold sql_bind. destruct (Hc d) as [Hle [Heq|[Hbad Hf]]].
  - rewrite <-Heq. destruct (c d) as [d1 [a|e]]; cbn in Hle |- *; [|by split; [|left]].
    destruct (Hk a d1) as [Hle1 Ha]. split; [lia|]. destruct Ha as [Ha|[Hb Hf]]; [by left|].
    right. split; [done|]. by eapply failed_later.
  - destruct (c d) as [d1 [a|e]]; [done|]. cbn in *. split; [done|]. by right.
Qed.

Lemma agrees_guarded run_id guard f : agrees (guarded run_id guard f) (guarded (H := faultless) run_id guard f).
Proof.
  apply agrees_bind; [|intros n; case_match; [apply agrees_fail|apply agrees_ret]].
  apply agrees_on_table. intros d. by repeat case_match.
Qed.

Lemma agrees_transaction {A} (body body' : SqlM (A + A)) : agrees body body' →
  agrees (transaction body) (transaction (H := faultless) body').
Proof.
  intros Hb d. unfold transaction. destruct (agrees_control d) as [Hle [Heq|[Hbad Hf]]].
  2: { destruct (control d) as [d1 [[]|e]]; [done|]. cbn in *. split; [done|]. by right. }
  rewrite <-Heq. destruct (control d) as [d1 [[]|e]]; cbn [fst] in Hle |- *; [|by split; [|left]].
  destruct (Hb d1) as [Hle1 [Heq1|[Hbad Hf]]].
  2: { destruct (body d1) as [d2 [x|e]]; [done|]. cbn in *. split; [lia|]. right. split; [done|].
       by apply (failed_later d d1). }
  rewrite <-Heq1. destruct (body d1) as [d2 [[a|a]|e]]; cbn [fst] in Hle1 |- *; try (by split; [cbn; lia|left]).
  destruct (agrees_control d2) as [Hle2 [Heq2|[Hbad Hf]]].
  - rewrite <-Heq2. destruct (control d2) as [d3 [[]|e]]; cbn in *; (split; [lia|by left]).
  - destruct (control d2) as [d3 [[]|e]]; [done|]. cbn in *. split; [lia|]. right. split; [done|].
    by apply (failed_later d d2); [lia|].
Qed.

Lemma agrees_summaries recs : agrees (sqlite_summaries recs) (sqlite_summaries (H := faultless) recs).
Proof.
  induction recs as [|rec recs IH]; cbn [sqlite_summaries]; [apply agrees_ret|].
  apply agrees_bind; [apply agrees_bind; [apply agrees_query|intros; apply agrees_ret]|].
  intros s. apply agrees_bind; [exact IH|intros; apply agrees_ret].
Qed.

(** A call reports that it could not be carried out; the length of the queue is then zero. *)
Definition gave_up {A} (c : StoreCall A) : A → Prop :=
  match c in StoreCall A return A → Prop with
  | LenQueue => fun n => n = 0
  | c => fun r => failed c r = true
  end.

Ltac agree_call :=
  repeat first
    [ apply agrees_guarded | apply agrees_transaction | apply agrees_execute; done | apply agrees_query
    | apply agrees_ret | apply agrees_fail | apply agrees_summaries | apply agrees_bind | progress intros
    | apply agrees_on_table; intros; by repeat case_match | case_match ].

Lemma sqlite_call_agrees {A} (c : StoreCall A) d :
  sqlite_call c d = sqlite_call (H := faultless) c d ∨
  gave_up c (sqlite_call c d).2 ∧ statement_failed d (sqlite_call c d).1.
Proof.
  destruct c; cbn [sqlite_call gave_up failed];
    try (match goal with |- ?c d = ?c' d ∨ negb (is_ok (?c d).2) = true ∧ _ =>
           cut (agrees c c'); [intros Hc; destruct (Hc d) as [_ [Heq|[-> Hf]]]; auto|] end).
  24: { unfold sqlite_len_queue.
        match goal with |- context [query ?t ?f d] => destruct (agrees_query t f d) as [_ [<-|[Hbad Hf]]]; [by left|] end.
        right. destruct (query _ _ d) as [d' [n|e]]; [done|]. by split. }
  all: unfold sqlite_put_workflow, sqlite_update_workflow_version, sqlite_get_workflow, sqlite_list_workflow_summaries,
    sqlite_list_workflows, sqlite_put_run, sqlite_get_run, sqlite_delete_run, sqlite_count_runs, sqlite_list_runs,
    sqlite_put_task_run, sqlite_get_task_run, sqlite_list_task_runs_for_run, sqlite_next_run_number, sqlite_enqueue,
    sqlite_scan_ready, sqlite_claim, sqlite_ack, sqlite_release, sqlite_failclaim, sqlite_renew_lease,
    sqlite_cancel_run, sqlite_recover_expired_leases.
  all: solve [agree_call].
Qed.

Lemma rep_faultless d m : represents d m ↔ represents (H := faultless) d m.
Proof. split; intros []; by constructor. Qed.

Lemma rep_same d d' m : same_tables d d' → represents d m → represents d' m.
Proof. unfold same_tables. intros <-. by destruct 1. Qed.

(** A call that was given up leaves the records, but for the two calls of two statements. *)
Lemma gave_up_represents {A} (c : StoreCall A) d m : represents d m → gave_up c (sqlite_call c d).2 →
  two_statements c = false → represents (sqlite_call c d).1 m.
Proof.
  intros Hr Hg Ht. apply (rep_same d); [|done].
  destruct c; try (by apply sqlite_call_atomic).
  cbn [sqlite_call]. unfold sqlite_len_queue.
  match goal with |- context [query ?t ?f d] => pose proof (reads_query t f d) as Hq end.
  by destruct (query _ _ d) as [d' [n|e]].
Qed.

(** *** The queue under other calls *)

Definition no_queue {A} (c : SqlM A) : Prop := ∀ d, db_queue_entries (c d).1 = db_queue_entries d.

Lemma no_queue_reads {A} (c : SqlM A) : reads c → no_queue c.
Proof. intros Hc d. rewrite <-(Hc d). done. Qed.

Lemma no_queue_on_table {A} table (f : Db → Db * result A string) :
  (∀ d, db_queue_entries (f d).1 = db_queue_entries d) → no_queue (on_table table f).
Proof.
  intros Hf d. unfold on_table, statement. destruct (sq_fault _); [done|]. case_bool_decide; [|done].
  fold (tick d). specialize (Hf (tick d)). by destruct (f (tick d)).
Qed.

Lemma no_queue_bind {A B} (c : SqlM A) (k : A → SqlM B) :
  no_queue c → (∀ a, no_queue (k a)) → no_queue (sql_bind c k).
Proof.
  intros Hc Hk d. unfold sql_bind. specialize (Hc d). destruct (c d) as [d' [a|e]]; [|done].
  cbn in Hc. by rewrite Hk.
Qed.

(** Statements on the queue that leave one row alone. *)
Definition keeps_row (id : RunId) (row : QueueRow) {A} (c : SqlM A) : Prop :=
  ∀ d, db_queue_entries d !! id = Some row → db_queue_entries (c d).1 !! id = Some row.

Lemma keeps_no_queue id row {A} (c : SqlM A) : no_queue c → keeps_row id row c.
Proof. intros Hc d. by rewrite Hc. Qed.

Lemma keeps_on_table id row {A} table (f : Db → Db * result A string) :
  (∀ d, db_queue_entries d !! id = Some row → db_queue_entries (f d).1 !! id = Some row) →
  keeps_row id row (on_table table f).
Proof.
  intros Hf d Hd. unfold on_table, statement. destruct (sq_fault _); [done|]. case_bool_decide; [|done].
  fold (tick d). specialize (Hf (tick d) Hd). by destruct (f (tick d)).
Qed.

Lemma keeps_bind id row {A B} (c : SqlM A) (k : A → SqlM B) :
  keeps_row id row c → (∀ a, keeps_row id row (k a)) → keeps_row id row (sql_bind c k).
Proof.
  intros Hc Hk d Hd. unfold sql_bind. specialize (Hc d Hd). destruct (c d) as [d' [a|e]]; [|done].
  by apply Hk.
Qed.

Lemma keeps_guarded id row run_id guard f : (run_id = id → guard row = false) →
  keeps_row id row (guarded run_id guard f).
Proof.
  intros Hg. unfold guarded. apply keeps_bind.
  - apply keeps_on_table. intros d Hd. destruct (decide (run_id = id)) as [->|Hne].
    + by rewrite Hd, Hg.
    + repeat case_match; try done. cbn. by rewrite lookup_partial_alter_ne.
  - intros n. apply keeps_no_queue, no_queue_reads. case_match; [apply reads_fail|apply reads_ret].
Qed.

Lemma keeps_transaction id row {A} (body : SqlM (A + A)) : keeps_row id row body → keeps_row id row (transaction body).
Proof.
  intros Hb d Hd. unfold transaction. pose proof (no_queue_reads _ reads_control d) as Hc.
  destruct (control d) as [d1 [[]|e]]; cbn in *; [|by rewrite Hc].
  assert (Hd1 : db_queue_entries d1 !! id = Some row) by by rewrite Hc.
  specialize (Hb d1 Hd1). destruct (body d1) as [d2 [[a|a]|e]]; cbn; try done.
  pose proof (no_queue_reads _ reads_control d2) as Hc2. destruct (control d2) as [d3 [[]|e]]; cbn in *; [|done].
  by rewrite Hc2.
Qed.

(** A call by another thread: it does not present the token, does not cancel the run
    and does not sweep at or after the expiry. Claims are free to come later. *)
Definition sqlite_foreign (run_id : RunId) (token : ClaimToken) (exp : Z) (c : AnyCall) : Prop :=
  match c with
  | Any c =>
      match c with
      | Claim id tok _ _ => id = run_id → tok ≠ token
      | c => foreign_call run_id token exp (Any c)
      end
  end.

Lemma sqlite_keeps_row id row exp {A} (c : StoreCall A) d :
  qrow_lease_until_ms row = Some exp → sqlite_foreign id (qrow_token row) exp (Any c) →
  db_queue_entries d !! id = Some row → db_queue_entries (sqlite_call c d).1 !! id = Some row.
Proof.
  intros Hl Hf. revert d.
  assert (Hown : ∀ tok, tok ≠ qrow_token row → owns tok row = false)
    by (intros tok Ht; apply bool_decide_eq_false_2; congruence).
  destruct c; cbn [sqlite_foreign foreign_call sqlite_call] in *;
    try match goal with |- ∀ d, _ → db_queue_entries (?c d).1 !! _ = _ => change (keeps_row id row c) end;
    try (apply keeps_guarded; intros Hid; specialize (Hf Hid); rewrite ?Hown by done;
         try rewrite bool_decide_eq_false_2 by congruence; done);
    try (apply keeps_no_queue;
         repeat first [ apply no_queue_on_table; done | apply no_queue_bind | apply no_queue_reads; solve [atomic_call]
                      | progress intros | case_match ]; done).
  - apply keeps_on_table. intros d Hd. case_match eqn:Hq; [done|]. cbn. rewrite lookup_insert_ne; [done|congruence].
  - apply keeps_transaction, keeps_bind; [apply keeps_no_queue, no_queue_reads, reads_query|].
    intros [run|]; [|apply keeps_no_queue, no_queue_reads, reads_fail]. case_match; [apply keeps_no_queue, no_queue_reads, reads_ret|].
    apply keeps_bind; [by apply keeps_no_queue, no_queue_on_table|]. intros _.
    apply keeps_bind; [|intros; apply keeps_no_queue, no_queue_reads, reads_ret].
    apply keeps_on_table. intros d Hd. cbn. by rewrite lookup_delete_ne.
  - apply keeps_on_table. intros d Hd. cbn. rewrite lookup_fmap, Hd. cbn. unfold row_expired. rewrite Hl.
    by rewrite (proj2 (Z.leb_gt _ _) Hf).
  - intros d. unfold sqlite_len_queue.
    pose proof (no_queue_reads _ (reads_query "queue_entries" (fun d => Ok (Z.of_nat (size (db_queue_entries d))))) d) as Hq.
    destruct (query _ _ d) as [d' [n|e]]; cbn in *; by rewrite Hq.
Qed.
End Faults.

(** ** Opening *)

(** Indexes come after their tables. *)
Fixpoint ddl_ordered (seen : list string) (l : list Ddl) : bool :=
  match l with
  | [] => true
  | CreateTable name _ :: rest => ddl_ordered (name :: seen) rest
  | CreateIndex _ table _ :: rest => bool_decide (table ∈ seen) && ddl_ordered seen rest
  end.

Definition ddl_name (s : Ddl) : string := match s with CreateTable n _ | CreateIndex n _ _ => n end.

Section Opening.
Context `{Sqlite} (Hok : ∀ n, sq_fault n = None).

Lemma apply_ddls l : ∀ seen d, (∀ t, t ∈ seen → t ∈ db_objects d) → ddl_ordered seen l = true →
  ∃ n, sql_each apply_ddl l d
    = (with_statements n (with_objects (list_to_set (map ddl_name l) ∪ db_objects d) d), Ok tt).
Proof.
  induction l as [|s l IH]; intros seen d Hseen Ho; cbn [sql_each map list_to_set].
  { exists (db_statements d). rewrite (left_id_L ∅ (∪)). by destruct d. }
  unfold sql_bind, apply_ddl at 1, statement. rewrite Hok.
  set (d1 := with_objects ({[ddl_name s]} ∪ db_objects d) (tick d)).
  assert (Hstep : ∃ seen', (∀ t, t ∈ seen' → t ∈ db_objects d1) ∧ ddl_ordered seen' l = true ∧
    match s with
    | CreateTable name _ => (with_objects ({[name]} ∪ db_objects (tick d)) (tick d), Ok tt)
    | CreateIndex name table _ =>
        if bool_decide (table ∈ db_objects (tick d)) then (with_objects ({[name]} ∪ db_objects (tick d)) (tick d), Ok tt)
        else (tick d, Err (sq_no_table table))
    end = (d1, Ok tt)).
  { destruct s as [name cols|name table cols]; cbn [ddl_ordered] in Ho; to_prop.
    - exists (name :: seen). split; [|done]. intros t [->|Ht]%elem_of_cons; cbn; [set_solver|].
      apply Hseen in Ht. set_solver.
    - exists seen. split; [intros t Ht%Hseen; cbn; set_solver|]. split; [done|].
      rewrite bool_decide_eq_true_2; [done|]. cbn. by apply Hseen. }
  destruct Hstep as (seen'&Hs'&Ho'&He). fold (tick d). rewrite He. cbn [map_err].
  destruct (IH seen' d1 Hs' Ho') as [n Hn]. rewrite Hn. exists n. f_equal.
  unfold d1, with_statements at 1 2, with_objects.
  cbn [tick with_statements db_objects db_workflows db_runs db_task_runs db_queue_entries db_run_counters db_meta].
  f_equal. set_solver.
Qed.

(** What a successful opening leaves behind. *)
Definition migrated (d : Db) : Db :=
  with_meta_rows (<["schema_version"%string := pretty latest_version]> (db_meta d))
    (with_objects (list_to_set (map ddl_name (concat (map mg_statements MIGRATIONS))) ∪ db_objects d) d).

Lemma sql_each_app {A} (f : A → SqlM unit) l1 l2 d :
  sql_each f (l1 ++ l2) d = sql_bind (sql_each f l1) (fun _ => sql_each f l2) d.
Proof.
  revert d. induction l1 as [|x l1 IH]; intros d; [done|]. cbn [sql_each app]. unfold sql_bind in *.
  destruct (f x d) as [d' [[]|e]]; [apply IH|done].
Qed.

Lemma sql_each_concat {A B} (f : A → SqlM unit) (g : B → list A) ms d :
  sql_each (fun m => sql_each f (g m)) ms d = sql_each f (concat (map g ms)) d.
Proof.
  revert d. induction ms as [|m ms IH]; intros d; [done|]. cbn [sql_each map concat]. rewrite sql_each_app.
  unfold sql_bind. destruct (sql_each f (g m) d) as [d' [[]|e]]; [apply IH|done].
Qed.

Lemma sqlite_open_eq d : ∃ n, sqlite_open d = (with_statements n (migrated d), Ok tt).
Proof.
  unfold sqlite_open, apply_migrations, sql_bind, control, statement. rewrite Hok. cbn [map_err]. fold (tick d).
  rewrite sql_each_concat.
  destruct (apply_ddls (concat (map mg_statements MIGRATIONS)) [] (tick d)) as [n Hn]; [set_solver|reflexivity|].
  rewrite Hn. unfold execute, on_table, statement. rewrite Hok.
  rewrite bool_decide_eq_true_2; [by eexists|]. cbn [with_statements with_objects db_objects].
  apply elem_of_union_l, elem_of_list_to_set, list_elem_of_In. vm_compute. tauto.
Qed.

Lemma migrated_tables d t : t ∈ store_tables → t ∈ db_objects (migrated d).
Proof.
  intros Ht. cbn [migrated with_meta_rows with_objects db_objects]. apply elem_of_union_l, elem_of_list_to_set.
  revert t Ht. apply Forall_forall. unfold store_tables.
  repeat (apply Forall_cons_2; [apply list_elem_of_In; vm_compute; tauto|]). apply Forall_nil_2.
Qed.

(** A fresh database holds nothing. *)
Lemma opened_represents n : represents (with_statements n (migrated db_empty)) mem_new.
Proof.
  constructor; cbn; try apply map_Forall2_empty.
  - intros t Ht. by apply (migrated_tables db_empty).
  - done.
  - intros k n' Hk. by rewrite lookup_empty in Hk.
Qed.
End Opening.

(** A run is stored as its id, every definition as the default one. *)
Definition numbered (id : RunId) : Run := {|
  rn_id := id; rn_tenant := rn_tenant sample_run; rn_def_name := rn_def_name sample_run;
  rn_def_version := rn_def_version sample_run; rn_input := rn_input sample_run; rn_status := rn_status sample_run;
  rn_attempts := rn_attempts sample_run; rn_next_attempt_at_ms := None; rn_deadline_at_ms := None;
  rn_started_at_ms := None; rn_finished_at_ms := None; rn_error := None; rn_output := rn_output sample_run;
  rn_tags := ∅; rn_created_at_ms := 0; rn_run_number := 1 |}.

Definition task_stub (id : TaskRunId) : TaskRun := {|
  tr_id := id; tr_run_id := "rn_0"; tr_task_name := id; tr_status := TaskStatus.Pending; tr_attempts := 0;
  tr_last_error := None; tr_started_at_ms := None; tr_finished_at_ms := None; tr_output := None |}.

Definition plain_sqlite (fault : nat → option string) : Sqlite := {|
  sq_fault := fault; sq_unique id := "UNIQUE constraint failed"%string; sq_conversion e := e;
  sq_no_table t := t; sq_no_rows := "no rows"%string;
  def_text _ := EmptyString; def_read _ := Ok workflow_default;
  run_text := rn_id; run_read id := Ok (numbered id);
  task_text := tr_id; task_read id := Ok (task_stub id)
|}.

Definition no_fault (n : nat) : option string := None.

(** The opened database after some calls. *)
Definition after (fault : nat → option string) (cs : list AnyCall) : Db :=
  run_calls (H := SqliteStore (H := plain_sqlite fault)) cs (with_statements 0 (migrated db_empty)).

(** ** Properties *)

(** C8. The SQLite store implements the contract of the trait, whatever statements fail: on
    a database that represents some records, a call whose documents read back, that keeps
    the key columns of the record it replaces, and whose numbers fit SQLite's integers
    ([admissible]) is answered as the contract allows for those records, and the database
    represents the records the contract prescribes afterwards. There are two departures,
    both without an effect: a second enqueue of a run is a backend error and not a conflict,
    and a count with a limit or an offset counts the page. The only other outcome is that one
    of the call's own statements failed: then it reports an error (the queue length: zero),
    and the database still represents the same records, unless the call deletes a run or
    draws a run number. *)
Theorem sqlite_meets_contract `{Sqlite} `{HashIter} {A} (c : StoreCall A) d m :
  represents d m → admissible c m →
  let '(d', r) := call c d in
  (∃ m', contract c m m' r ∧ represents d' m') ∨
  (departs c m r ∧ represents d' m) ∨
  (statement_failed d d' ∧ gave_up c r ∧ (two_statements c = false → represents d' m)).
Proof.
  intros Hr Ha. change (call c d) with (sqlite_call c d).
  destruct (sqlite_call_agrees c d) as [Heq|[Hg Hf]].
  - pose proof (sqlite_answered (H := @faultless H) (fun _ => eq_refl) c d m (proj1 (rep_faultless d m) Hr) Ha) as Hans.
    unfold answered, departed in Hans. rewrite <-Heq in Hans. destruct (sqlite_call c d) as [d' r].
    setoid_rewrite <-rep_faultless in Hans. destruct Hans as [Hc|Hd]; [by left|right; by left].
  - pose proof (gave_up_represents c d m Hr Hg) as Hk. destruct (sqlite_call c d) as [d' r]. right. by right.
Qed.

Lemma sqlite_meets_contract_witness :
  let store := SqliteStore (H := plain_sqlite no_fault) in
  let d := after no_fault [] in
  let c := PutRun (numbered "rn_1") in
  (∃ m', contract c mem_new m' (call (Store := store) c d).2 ∧
     represents (H := plain_sqlite no_fault) (call (Store := store) c d).1 m') ∨
  (departs c mem_new (call (Store := store) c d).2 ∧
     represents (H := plain_sqlite no_fault) (call (Store := store) c d).1 mem_new) ∨
  (statement_failed (H := plain_sqlite no_fault) d (call (Store := store) c d).1 ∧
     gave_up c (call (Store := store) c d).2 ∧
     (two_statements c = false → represents (H := plain_sqlite no_fault) (call (Store := store) c d).1 mem_new)).
Proof.
  cbv zeta.
  pose proof (sqlite_meets_contract (H := plain_sqlite no_fault) (PutRun (numbered "rn_1")) (after no_fault []) mem_new) as Hc.
  destruct (call (PutRun (numbered "rn_1")) (after no_fault [])) as [d' r]. apply Hc.
  - exact (opened_represents (H := plain_sqlite no_fault) 0).
  - split; [reflexivity|]. intros old Hold. cbn [ms_runs mem_new] in Hold. rewrite lookup_empty in Hold. discriminate Hold.
Defined.

(** C10. Leases are exclusive on SQLite whatever statements fail: a leased row is
    changed only under its own token, by cancelling the run, or by a recovery sweep
    at or after the expiry. Even a claim that comes after the expiry is refused. *)
Theorem sqlite_lease_exclusive `{Sqlite} `{HashIter} id row exp cs d :
  db_queue_entries d !! id = Some row → qrow_lease_until_ms row = Some exp →
  Forall (sqlite_foreign id (qrow_token row) exp) cs →
  db_queue_entries (run_calls cs d) !! id = Some row.
Proof.
  intros Hd Hl. revert d Hd. induction cs as [|[A c] cs IH]; intros d Hd Hf; [done|].
  apply Forall_cons in Hf as [Hc Hf]. cbn [run_calls]. apply IH; [|done]. by eapply sqlite_keeps_row.
Qed.

(** The queue row of a run that is leased until 60, in a database whose fifth
    statement fails. *)
Definition fifth_fails (n : nat) : option string := if decide (n = 4)%nat then Some "disk I/O error"%string else None.

Definition leased_db : Db := after fifth_fails
  [Any (PutRun sample_run); Any (Enqueue (fresh_entry "rn_0" 5)); Any (Claim "rn_0" "mine" 10 50)].

Lemma sqlite_lease_exclusive_witness :
  db_queue_entries (run_calls (H := SqliteStore (H := plain_sqlite fifth_fails))
    [Any (Claim "rn_0" "thief" 90 50); Any (Ack "rn_0" "thief"); Any (DeleteRun "rn_0");
     Any (RecoverExpiredLeases 59)] leased_db) !! "rn_0"%string
  = Some {| qrow_token := "mine"; qrow_due_at_ms := 5; qrow_lease_until_ms := Some 60;
            qrow_claimed_by := Some "dispatcher"%string |}.
Proof.
  apply (sqlite_lease_exclusive (H := plain_sqlite fifth_fails) "rn_0" {| qrow_token := "mine"; qrow_due_at_ms := 5;
    qrow_lease_until_ms := Some 60; qrow_claimed_by := Some "dispatcher"%string |} 60).
  - vm_compute. reflexivity.
  - reflexivity.
  - constructor; [cbn; intros _; discriminate|]. constructor; [cbn; intros _; discriminate|].
    constructor; [exact I|]. constructor; [cbn; lia|constructor].
Defined.

(** C18. A call that fails leaves no trace: whichever statement fails, a call that
    reports an error has changed no table, the cancellation with its three statements
    included. Only deleting a run and drawing a run number, which run two statements
    outside a transaction, are exempt. *)
Theorem sqlite_failures_atomic `{Sqlite} `{HashIter} {A} (c : StoreCall A) d :
  two_statements c = false → failed c (call c d).2 = true → same_tables d (call c d).1.
Proof. apply sqlite_call_atomic. Qed.

Lemma sqlite_failures_atomic_witness :
  let store := SqliteStore (H := plain_sqlite fifth_fails) in
  let d := after fifth_fails [Any (PutRun sample_run)] in
  same_tables d (call (Store := store) (CancelRun "rn_0" 7) d).1.
Proof.
  cbv zeta. apply (sqlite_failures_atomic (H := plain_sqlite fifth_fails) (CancelRun "rn_0" 7)).
  - reflexivity.
  - vm_compute. reflexivity.
Defined.

(** Opening a database succeeds unless a statement fails, whatever migrations it has
    seen: the tables exist afterwards, every row is still there, the schema version
    reads 2, and opening it again changes nothing. *)
Theorem sqlite_open_migrates `{Sqlite} d : (∀ n, sq_fault n = None) →
  let '(d', r) := sqlite_open d in
  r = Ok tt ∧ (∀ t, t ∈ store_tables → t ∈ db_objects d') ∧
  db_workflows d' = db_workflows d ∧ db_runs d' = db_runs d ∧ db_task_runs d' = db_task_runs d ∧
  db_queue_entries d' = db_queue_entries d ∧ db_run_counters d' = db_run_counters d ∧
  (schema_version d').2 = Ok 2 ∧ same_tables d' (sqlite_open d').1.
Proof.
  intros Hok. destruct (sqlite_open_eq Hok d) as [n Hn]. rewrite Hn.
  split; [done|]. split; [intros t Ht; by apply (migrated_tables d)|]. do 5 (split; [done|]). split.
  - unfold schema_version, query, on_table, statement. rewrite Hok.
    rewrite bool_decide_eq_true_2 by (apply (migrated_tables d); set_solver).
    cbn [with_statements migrated with_meta_rows db_meta]. rewrite lookup_insert_eq. vm_compute. reflexivity.
  - destruct (sqlite_open_eq Hok (with_statements n (migrated d))) as [n' Hn']. rewrite Hn'. cbn [fst].
    unfold same_tables, migrated, with_meta_rows, with_objects, with_statements.
    cbn [db_objects db_workflows db_runs db_task_runs db_queue_entries db_run_counters db_meta db_statements].
    f_equal; [set_solver|]. by rewrite insert_insert_eq.
Qed.

Lemma sqlite_open_migrates_witness : (sqlite_open (H := plain_sqlite no_fault) db_empty).2 = Ok tt.
Proof.
  pose proof (sqlite_open_migrates (H := plain_sqlite no_fault) db_empty (fun _ => eq_refl)) as Ho.
  destruct (sqlite_open db_empty) as [d r]. exact (proj1 Ho).
Defined.

(** Where the backends differ. Once a lease has run out the memory store gives the
    entry to another token and SQLite refuses it. A count with a limit counts all
    matching runs in memory and one page on SQLite. A second enqueue is a conflict in
    memory and a backend error on SQLite. And a deletion whose second statement fails
    leaves a run without its task runs. *)
Theorem backends_differ :
  (let cs := [Any (Enqueue (fresh_entry "rn_0" 5)); Any (Claim "rn_0" "mine" 10 50)] in
   (call (Claim "rn_0" "late" 70 50) (run_calls cs mem_new)).2 = Ok tt ∧
   is_ok (call (Store := SqliteStore (H := plain_sqlite no_fault)) (Claim "rn_0" "late" 70 50) (after no_fault cs)).2 = false) ∧
  (let cs := [Any (PutRun (numbered "rn_1")); Any (PutRun (numbered "rn_2"))] in
   let f := {| rf_name := None; rf_name_prefix := None; rf_status := None; rf_status_in := []; rf_tenant := None;
     rf_tags := ∅; rf_has_tag_keys := []; rf_from_ms := None; rf_to_ms := None; rf_finished_from_ms := None;
     rf_finished_to_ms := None; rf_min_duration_ms := None; rf_limit := Some 1%nat; rf_offset := 0 |} in
   (call (CountRuns f) (run_calls cs mem_new)).2 = Ok 2 ∧
   (call (Store := SqliteStore (H := plain_sqlite no_fault)) (CountRuns f) (after no_fault cs)).2 = Ok 1) ∧
  (let cs := [Any (Enqueue (fresh_entry "rn_0" 5))] in
   (∃ t, (call (Enqueue (fresh_entry "rn_0" 5)) (run_calls cs mem_new)).2 = Err (StorageError.Conflict t)) ∧
   ∃ t, (call (Store := SqliteStore (H := plain_sqlite no_fault)) (Enqueue (fresh_entry "rn_0" 5)) (after no_fault cs)).2
        = Err (StorageError.Backend t)) ∧
  (let fault n := if decide (n = 3)%nat then Some "disk I/O error"%string else None in
   let d := after fault [Any (PutRun (numbered "rn_0")); Any (PutTaskRun (task_stub "tr_0"))] in
   let d' := (call (Store := SqliteStore (H := plain_sqlite fault)) (DeleteRun "rn_0") d).1 in
   is_Some (db_runs d' !! "rn_0"%string) ∧ is_Some (db_task_runs d !! "tr_0"%string) ∧
   db_task_runs d' !! "tr_0"%string = None).
Proof.
  split; [split; vm_compute; reflexivity|]. split; [split; vm_compute; reflexivity|].
  split; [split; eexists; vm_compute; reflexivity|].
  split; [eexists; vm_compute; reflexivity|]. split; [eexists; vm_compute; reflexivity|]. vm_compute. reflexivity.
Qed.
