(* ===== verification/TypedSql.v ===== *)
(** * The SQLite store keeps the records sound

    Whatever statements fail, and whatever documents fail to read back: a document that
    does read back is a sound record, and the integers of the queue table have their
    types. [DocCodec] is what serde_json promises of the documents: reading back the
    text of a sound record gives a sound record, if it gives one. *)
From S2P Require Import Prelude RustStrings Ids Status Errors Json RetryPolicy Workflow Dag Store Interference.
From S2P Require Import MemoryStore Typed Sqlite.
Local Open Scope Z_scope.

Definition reads_as {A} (read : string → result A string) (P : A → Prop) (document : string) : Prop :=
  ok_is P (read document).

Class DocCodec `{Sqlite} : Prop := {
  codec_def : ∀ d, def_sound d → reads_as def_read def_sound (def_text d);
  codec_run : ∀ r, run_typed r → reads_as run_read run_typed (run_text r);
  codec_task : ∀ t, task_run_typed t → reads_as task_read task_run_typed (task_text t)
}.

Record row_typed (row : QueueRow) : Prop := {
  rt_due : in_i64 (qrow_due_at_ms row);
  rt_lease : opt_i64 (qrow_lease_until_ms row)
}.

Section Db.
Context `{DocCodec} `{HashIter}.

Record db_sound (d : Db) : Prop := {
  dbs_defs : map_Forall (fun _ row => reads_as def_read def_sound (wrow_document row)) (db_workflows d);
  dbs_runs : map_Forall (fun _ row => reads_as run_read run_typed (rrow_document row)) (db_runs d);
  dbs_tasks : map_Forall (fun _ row => reads_as task_read task_run_typed (trow_document row)) (db_task_runs d);
  dbs_queue : map_Forall (fun _ => row_typed) (db_queue_entries d)
}.

Definition retains {A} (Q : A → Prop) (c : SqlM A) : Prop := ∀ d, db_sound d → db_sound (c d).1 ∧ ok_is Q (c d).2.

Lemma retains_bind {A B} (Q : A → Prop) (R : B → Prop) (c : SqlM A) (k : A → SqlM B) :
  retains Q c → (∀ a, Q a → retains R (k a)) → retains R (sql_bind c k).
Proof.
  intros Hc Hk d Hd. destruct (Hc d Hd) as [Hs Hq]. unfold sql_bind. destruct (c d) as [d' [a|e]]; cbn in *; [|done].
  by apply Hk.
Qed.

Lemma retains_ret {A} (Q : A → Prop) a : Q a → retains Q (sql_ret a).
Proof. by intros Ha d Hd. Qed.

Lemma retains_fail {A} (Q : A → Prop) e : retains Q (sql_fail e).
Proof. by intros d Hd. Qed.

Lemma retains_on_table {A} (Q : A → Prop) table f :
  (∀ d, db_sound d → db_sound (f d).1 ∧ ok_is Q (f d).2) → retains Q (on_table table f).
Proof.
  intros Hf d Hd. unfold on_table, statement. set (d' := with_statements _ d).
  assert (Hd' : db_sound d') by (by destruct Hd). destruct (sq_fault (db_statements d)); [done|].
  case_bool_decide; [|done]. specialize (Hf d' Hd'). destruct (f d') as [d2 [a|e]]; by cbn in *.
Qed.

Lemma retains_execute table f : (∀ d, db_sound d → db_sound (f d)) → retains (fun _ => True) (execute table f).
Proof. intros Hf. apply retains_on_table. intros d Hd. split; [by apply Hf|done]. Qed.

Lemma retains_query {A} (Q : A → Prop) table f : (∀ d, db_sound d → ok_is Q (f d)) → retains Q (query table f).
Proof. intros Hf. apply retains_on_table. intros d Hd. split; [done|by apply Hf]. Qed.

Lemma rollback_sound d d' : db_sound d → db_sound (rollback d d').
Proof. by destruct 1. Qed.

Lemma retains_statement {A} f : (∀ d, db_sound d → db_sound (f d).1) → retains (A := A) (fun _ => True) (statement f).
Proof.
  intros Hf d Hd. unfold statement. set (d' := with_statements _ d). assert (Hd' : db_sound d') by (by destruct Hd).
  destruct (sq_fault (db_statements d)); [done|]. specialize (Hf d' Hd'). by destruct (f d') as [d2 [a|e]].
Qed.

Lemma retains_transaction {A} (Q : A → Prop) (body : SqlM (A + A)) :
  retains (fun x => match x with inl a | inr a => Q a end) body → retains Q (transaction body).
Proof.
  intros Hb. assert (Hctl : ∀ d, db_sound d → db_sound (control d).1) by (intros d Hd; by apply retains_statement).
  intros d Hd. unfold transaction. pose proof (Hctl d Hd) as Hs1. destruct (control d) as [d1 [[]|]]; cbn in Hs1; [|done].
  destruct (Hb d1 Hs1) as [Hs2 Hq]. destruct (body d1) as [d2 [[a|a]|e]]; cbn in Hs2, Hq.
  - split; [by apply rollback_sound|done].
  - pose proof (Hctl d2 Hs2) as Hs3. destruct (control d2) as [d3 [[]|]]; cbn in Hs3; [done|].
    split; [by apply rollback_sound|done].
  - split; [by apply rollback_sound|done].
Qed.

(** *** Reading documents *)

Lemma decode_opt_sound {A} (read : string → result A string) (P : A → Prop) (o : option string) :
  from_option (reads_as read P) True o → ok_is (from_option P True) (decode_opt read o).
Proof.
  intros Ho. destruct o as [t|]; [|done]. cbn in *. unfold decode. unfold reads_as in Ho. by destruct (read t).
Qed.

Lemma decode_sound {A B} (read : string → result A string) (P : A → Prop) (doc : B → string) (l : list B) :
  Forall (fun b => reads_as read P (doc b)) l → ok_is (Forall P) (try_map (fun b => decode read (doc b)) l).
Proof.
  induction 1 as [|b l Hb _ IH]; cbn [try_map]; [constructor|]. unfold reads_as in Hb. unfold decode at 1.
  destruct (read (doc b)); [|done]. cbn [map_err rbind]. destruct (try_map _ l); [|done]. cbn in *. by constructor.
Qed.

Lemma rows_sound {B} (P : B → Prop) {K} `{Countable K} (m : gmap K B) :
  map_Forall (fun _ => P) m → Forall P (hash_values m).
Proof. intros Hm. apply Forall_forall. intros b [k Hk]%hash_values_elem. exact (Hm k b Hk). Qed.

Lemma lookup_doc {K B} `{Countable K} (P : string → Prop) (doc : B → string) (m : gmap K B) k :
  map_Forall (fun _ b => P (doc b)) m → from_option P True (doc <$> m !! k).
Proof. intros Hm. destruct (m !! k) as [b|] eqn:Hb; [|done]. exact (Hm k b Hb). Qed.

Lemma runs_where_sound p d : db_sound d → ok_is (Forall run_typed) (runs_where p d).
Proof. intros Hd. apply decode_sound, filter_Forall, (rows_sound (fun row => reads_as _ _ (rrow_document row))), Hd. Qed.

Lemma retains_select_run id : retains (from_option run_typed True) (query "runs" (select_run id)).
Proof. apply retains_query. intros d Hd. apply decode_opt_sound, (lookup_doc _ rrow_document), Hd. Qed.

Lemma retains_list_workflows : retains (Forall rec_sound) sqlite_list_workflows.
Proof.
  apply retains_query. intros d Hd.
  assert (Hl : ok_is (Forall def_sound) (try_map (fun kv => decode def_read (wrow_document kv.2))
    (sort_by row_key_le (hash_iter (db_workflows d))))).
  { apply decode_sound, sorted_Forall. apply Forall_forall. intros [k row] Hin.
    rewrite hash_iter_perm, elem_of_map_to_list in Hin. exact (dbs_defs d Hd k row Hin). }
  destruct (try_map _ _) as [defs|]; [|done]. cbn in *. by apply Forall_fmap.
Qed.

Lemma retains_summaries recs : Forall rec_sound recs → retains (Forall summary_sound) (sqlite_summaries recs).
Proof.
  induction 1 as [|rec recs Hrec _ IH]; cbn [sqlite_summaries]; [apply retains_ret; constructor|].
  apply (retains_bind summary_sound).
  { unfold sqlite_summary. apply (retains_bind (Forall run_typed)).
    { apply retains_query. intros d Hd. by apply runs_where_sound. }
    intros runs Hruns. apply retains_ret. split; [done|]. by apply head_Forall, sorted_Forall. }
  intros s Hs. eapply retains_bind; [exact IH|]. intros out Hout. apply retains_ret. by constructor.
Qed.

Lemma retains_list_summaries : retains (Forall summary_sound) sqlite_list_workflow_summaries.
Proof. eapply retains_bind; [apply retains_list_workflows|apply retains_summaries]. Qed.

Lemma retains_get_run id : retains run_typed (sqlite_get_run id).
Proof.
  eapply retains_bind; [apply retains_select_run|]. intros [run|] Hrun; [by apply retains_ret|apply retains_fail].
Qed.

Lemma retains_list_runs f : retains (Forall run_typed) (sqlite_list_runs f).
Proof.
  apply (retains_bind (Forall run_typed)).
  { apply retains_query. intros d Hd. destruct (rf_tenant f); by apply runs_where_sound. }
  intros runs Hr. apply retains_ret. by apply apply_order_Forall, filter_Forall.
Qed.

(** *** The queue *)

Lemma retains_guarded id guard f : (∀ row, row_typed row → from_option row_typed True (f row)) →
  retains (fun _ => True) (guarded id guard f).
Proof.
  intros Hf. apply (retains_bind (fun _ => True)).
  { apply retains_on_table. intros d Hd. destruct (db_queue_entries d !! id) as [row|] eqn:Hrow; [|done].
    destruct (guard row); [|done]. split; [|done]. pose proof (dbs_queue d Hd id row Hrow) as Hty. destruct Hd.
    constructor; try done. cbn. intros k r. rewrite lookup_partial_alter. case_decide; [|by eauto].
    intros Hr. cbn in Hr. specialize (Hf row Hty). rewrite Hr in Hf. exact Hf. }
  intros n _. destruct (n =? 0); [apply retains_fail|by apply retains_ret].
Qed.

Lemma unleased_row_typed due : in_i64 due → row_typed (row_unleased due).
Proof. by constructor. Qed.

Lemma retains_cancel id now : in_i64 now → retains (fun _ => True) (sqlite_cancel_run id now).
Proof.
  intros Hnow. apply retains_transaction. eapply retains_bind; [apply retains_select_run|]. intros [run|] Hrun; [|apply retains_fail].
  destruct (Run_is_terminal run); [by apply retains_ret|]. cbn zeta. cbn in Hrun.
  assert (Hdoc : reads_as run_read run_typed (run_text (run_set_error None (run_set_finished_at_ms (Some now)
    (run_set_status RunStatus.Cancelled run))))) by (apply codec_run; sound).
  apply (retains_bind (fun _ => True)).
  { apply retains_execute. intros d []. constructor; try done. cbn. intros k row.
    rewrite lookup_alter. case_decide; [|by eauto]. intros (r&_&->)%fmap_Some. exact Hdoc. }
  intros _ _. apply (retains_bind (fun _ => True)); [|intros _ _; by apply retains_ret].
  apply retains_execute. intros d []. constructor; try done. cbn. by apply map_Forall_delete.
Qed.

Lemma retains_put_workflow def : def_sound def → retains rec_sound (sqlite_put_workflow def).
Proof.
  intros Hdef. apply (retains_bind (fun _ => True)); [|intros _ _; by apply retains_ret].
  apply retains_execute. intros d []. constructor; try done. cbn. apply map_Forall_insert_2; [by apply codec_def|done].
Qed.

Lemma retains_update_workflow tenant name def v : def_sound def →
  retains rec_sound (sqlite_update_workflow_version tenant name def v).
Proof.
  intros Hdef. apply (retains_bind (fun _ => True)); [by apply retains_query|]. intros [stored|] _; [|apply retains_fail].
  destruct (negb (stored =? v)); [apply retains_fail|]. destruct (negb _); [apply retains_fail|].
  apply (retains_bind (fun _ => True)); [|intros _ _; by apply retains_ret].
  apply retains_execute. intros d []. constructor; try done. cbn. intros k row. rewrite lookup_alter.
  case_decide; [|by eauto]. intros (r&_&->)%fmap_Some. by apply codec_def.
Qed.

Lemma retains_get_workflow tenant name : retains rec_sound (sqlite_get_workflow tenant name).
Proof.
  apply (retains_bind (from_option def_sound True)).
  { apply retains_query. intros d Hd. apply decode_opt_sound, (lookup_doc _ wrow_document), Hd. }
  intros [def|] Hdef; [by apply retains_ret|apply retains_fail].
Qed.

Lemma retains_put_run run : run_typed run → retains (fun _ => True) (sqlite_put_run run).
Proof.
  intros Hrun. apply retains_execute. intros d []. constructor; try done. cbn.
  apply map_Forall_insert_2; [|done]. destruct (db_runs d !! rn_id run); by apply codec_run.
Qed.

Lemma retains_delete_run id : retains (fun _ => True) (sqlite_delete_run id).
Proof.
  apply (retains_bind (fun _ => True)); [|intros _ _].
  - apply retains_execute. intros d [? ? Ht ?]. constructor; try done. cbn.
    intros k row [Hk _]%map_lookup_filter_Some. exact (Ht k row Hk).
  - apply retains_execute. intros d []. constructor; try done. cbn. by apply map_Forall_delete.
Qed.

Lemma retains_put_task_run tr : task_run_typed tr → retains (fun _ => True) (sqlite_put_task_run tr).
Proof.
  intros Htr. apply retains_execute. intros d []. constructor; try done. cbn.
  apply map_Forall_insert_2; [|done]. destruct (db_task_runs d !! tr_id tr); by apply codec_task.
Qed.

Lemma retains_get_task_run id : retains task_run_typed (sqlite_get_task_run id).
Proof.
  apply (retains_bind (from_option task_run_typed True)).
  { apply retains_query. intros d Hd. apply decode_opt_sound, (lookup_doc _ trow_document), Hd. }
  intros [tr|] Htr; [by apply retains_ret|apply retains_fail].
Qed.

Lemma retains_list_task_runs id : retains (Forall task_run_typed) (sqlite_list_task_runs_for_run id).
Proof.
  apply retains_query. intros d Hd. apply decode_sound, sorted_Forall, filter_Forall.
  apply (rows_sound (fun row => reads_as _ _ (trow_document row))), Hd.
Qed.

Lemma retains_next_run_number name : retains in_u64 (sqlite_next_run_number name).
Proof.
  apply (retains_bind (fun _ => True)); [apply retains_execute; intros d []; by constructor|intros _ _].
  apply (retains_bind (fun _ => True)); [apply retains_query; intros d _; by case_match; [case_match|]|].
  intros n _. apply retains_ret. sound.
Qed.

Lemma retains_enqueue entry : entry_typed entry → retains (fun _ => True) (sqlite_enqueue entry).
Proof.
  intros []. apply retains_on_table. intros d Hd. destruct (db_queue_entries d !! _); [done|]. split; [|done].
  destruct Hd. constructor; try done. cbn. by apply map_Forall_insert_2.
Qed.

Lemma retains_scan_ready now limit : retains (Forall entry_typed) (sqlite_scan_ready now limit).
Proof.
  apply retains_query. intros d Hd. cbn. apply Forall_fmap.
  assert (Hrows : Forall (fun kv => entry_typed (entry_of kv.1 kv.2)) (hash_iter (db_queue_entries d))).
  { apply Forall_forall. intros [k row] Hin. rewrite hash_iter_perm, elem_of_map_to_list in Hin.
    destruct (dbs_queue d Hd k row Hin). by constructor. }
  unfold sql_limit. destruct (_ <? 0); [|apply Forall_take]; by apply sorted_Forall, filter_Forall.
Qed.

Lemma retains_recover now : retains (fun _ => True) (sqlite_recover_expired_leases now).
Proof.
  apply retains_on_table. intros d [? ? ? Hq]. split; [|done]. constructor; try done. cbn.
  apply map_Forall_fmap. intros k row Hrow. cbn. specialize (Hq k row Hrow). case_match; [|done].
  destruct Hq. by apply unleased_row_typed.
Qed.

Lemma sqlite_keeps {A} (c : StoreCall A) d : db_sound d → sound_call c →
  db_sound (call c d).1 ∧ sound_answer c (call c d).2.
Proof.
  assert (Hunit : ∀ B (q : SqlM B), retains (fun _ => True) q → db_sound d → db_sound (q d).1 ∧ True)
    by (intros B q Hq Hd; split; [by apply Hq|done]).
  intros Hd Hc. destruct c; cbn [call SqliteStore sqlite_call sound_call sound_answer] in *.
  - by apply retains_put_workflow.
  - by apply retains_update_workflow.
  - by apply retains_get_workflow.
  - by apply retains_list_workflows.
  - by apply retains_list_summaries.
  - by apply Hunit; [apply retains_put_run|].
  - by apply retains_get_run.
  - by apply Hunit; [apply retains_delete_run|].
  - by apply retains_list_runs.
  - apply Hunit; [|done]. eapply retains_bind; [apply retains_list_runs|]. intros runs _. by apply retains_ret.
  - by apply Hunit; [apply retains_put_task_run|].
  - by apply retains_get_task_run.
  - by apply retains_list_task_runs.
  - by apply retains_next_run_number.
  - by apply Hunit; [apply retains_enqueue|].
  - by apply retains_scan_ready.
  - apply Hunit; [|done]. apply retains_guarded. intros row []. constructor; cbn; sound.
  - apply Hunit; [|done]. by apply retains_guarded.
  - apply Hunit; [|done]. apply retains_guarded. intros row _. by apply unleased_row_typed.
  - apply Hunit; [|done]. apply retains_guarded. intros row []. by apply unleased_row_typed.
  - apply Hunit; [|done]. apply retains_guarded. intros row []. constructor; cbn; sound.
  - by apply Hunit; [apply retains_cancel|].
  - by apply Hunit; [apply retains_recover|].
  - split; [|done]. unfold sqlite_len_queue.
    destruct (retains_query (fun _ => True) "queue_entries" (fun d => Ok (Z.of_nat (size (db_queue_entries d))))
      ltac:(done) d Hd) as [Hs _]. by destruct (query _ _ d) as [d' []].
Qed.

#[export] Instance Sqlite_upholds : Upholds sound db_sound.
Proof. intros A c d. apply sqlite_keeps. Qed.

(** Opening creates tables and stamps the schema version. *)
Lemma retains_open : retains (fun _ => True) sqlite_open.
Proof.
  assert (Hddl : ∀ s, retains (fun _ => True) (apply_ddl s)).
  { intros s. apply retains_statement. intros d []. by destruct s; [|case_bool_decide]. }
  assert (Heach : ∀ B (f : B → SqlM unit) l, (∀ x, retains (fun _ => True) (f x)) → retains (fun _ => True) (sql_each f l)).
  { intros B f l Hf. induction l as [|x l IH]; cbn [sql_each]; [by apply retains_ret|]. by eapply retains_bind. }
  unfold sqlite_open, apply_migrations. apply (retains_bind (fun _ => True)); [by apply retains_statement|intros _ _].
  apply (retains_bind (fun _ => True)); [apply Heach; intros m; by apply Heach|intros _ _].
  apply retains_execute. intros d []. by constructor.
Qed.
End Db.
