(* ===== verification/LeaseModel.v ===== *)
(** * The model of the lease protocol the repository checks with loom
    (src/src/persistence/loom_model.rs)

    [LeaseBoard] is the miniature the loom tests explore: one entry under a mutex, so
    every method is one atomic step and an interleaving is an order of the calls. The
    miniature answers every sequence of claims and acknowledgements as the queue entry of
    the in-memory store does, up to the first acknowledgement that succeeds
    ([board_faithful]); the properties the three tests sample are proved for all tokens,
    instants and orders. The SQLite store is not what the miniature models: it refuses
    the claim the third test expects to win ([board_not_sqlite]). *)
From S2P Require Import Prelude RustStrings Ids Errors Workflow Store MemoryStore Sqlite SqliteSpec.
Local Open Scope Z_scope.

Module LeaseBoard.
Record LeaseState := { holder : option Z; lease_until : Z }.

Definition empty : LeaseState := {| holder := None; lease_until := 0 |}.

Definition claim (token now lease_ms : Z) (b : LeaseState) : LeaseState * bool :=
  let live_foreign := (now <? lease_until b) && negb (bool_decide (holder b = Some token)) in
  if live_foreign then (b, false)
  else ({| holder := Some token; lease_until := wrap_u64 (now + lease_ms) |}, true).

Definition ack (token : Z) (b : LeaseState) : bool := bool_decide (holder b = Some token).
End LeaseBoard.

(** ** Sequences of calls *)

Inductive LeaseOp :=
| OpClaim (token now lease_ms : Z)
| OpAck (token : Z).

(** The answers in order, up to the acknowledgement that ends the entry. *)
Fixpoint board_answers (ops : list LeaseOp) (b : LeaseBoard.LeaseState) : list bool :=
  match ops with
  | [] => []
  | OpClaim token now lease_ms :: rest =>
      let '(b, won) := LeaseBoard.claim token now lease_ms b in won :: board_answers rest b
  | OpAck token :: rest => if LeaseBoard.ack token b then [true] else false :: board_answers rest b
  end.

(** The same calls on the store, with the tokens as the store writes them. *)
Fixpoint store_answers (tok : Z → ClaimToken) (run_id : RunId) (ops : list LeaseOp) (s : MemoryState) : list bool :=
  match ops with
  | [] => []
  | OpClaim token now lease_ms :: rest =>
      let '(s, r) := mem_claim run_id (tok token) now lease_ms s in is_ok r :: store_answers tok run_id rest s
  | OpAck token :: rest =>
      let '(s, r) := mem_ack run_id (tok token) s in
      if is_ok r then [true] else false :: store_answers tok run_id rest s
  end.

(** Instants whose lease ends within the signed 64-bit range. *)
Definition op_in_range (op : LeaseOp) : Prop :=
  match op with OpClaim _ now lease_ms => 0 ≤ now ∧ 0 ≤ lease_ms ∧ now + lease_ms ≤ i64_max | OpAck _ => True end.

(** ** The miniature and the store *)

(** The entry of the store that a board stands for. *)
Definition stands_for (tok : Z → ClaimToken) (b : LeaseBoard.LeaseState) (e : QueueEntry) : Prop :=
  match LeaseBoard.holder b with
  | None => qe_token e = empty_token ∧ qe_lease_until_ms e = None ∧ LeaseBoard.lease_until b = 0
  | Some t => qe_token e = tok t ∧ qe_lease_until_ms e = Some (LeaseBoard.lease_until b)
  end.

Section Faithful.
Context (tok : Z → ClaimToken) (Hinj : ∀ t1 t2, tok t1 = tok t2 → t1 = t2) (Hne : ∀ t, is_empty (tok t) = false).
Context (run_id : RunId).

Lemma claim_faithful token now lease_ms b e s :
  0 ≤ now → 0 ≤ lease_ms → now + lease_ms ≤ i64_max → ms_queue s !! run_id = Some e → stands_for tok b e →
  let '(b', won) := LeaseBoard.claim token now lease_ms b in
  let '(s', r) := mem_claim run_id (tok token) now lease_ms s in
  is_ok r = won ∧ ∃ e', ms_queue s' !! run_id = Some e' ∧ stands_for tok b' e'.
Proof.
  intros Hnow Hl Hmax He Hb. unfold LeaseBoard.claim, mem_claim. rewrite He.
  assert (Hforeign : is_leased e now && negb (bool_decide (qe_token e = tok token)) =
    (now <? LeaseBoard.lease_until b) && negb (bool_decide (LeaseBoard.holder b = Some token))).
  { unfold stands_for, is_leased in *. destruct (LeaseBoard.holder b) as [t|].
    - destruct Hb as [-> ->]. f_equal. f_equal. apply bool_decide_ext. split; [intros ?%Hinj; congruence|congruence].
    - destruct Hb as (_&->&->). by destruct (Z.ltb_spec now 0); [lia|]. }
  rewrite Hforeign. destruct (_ && negb (bool_decide (LeaseBoard.holder b = Some token))); [by split; [|exists e]|].
  rewrite Hne, andb_false_r. cbn [andb]. split; [done|]. eexists. cbn. rewrite lookup_insert_eq. split; [done|].
  unfold stands_for. cbn. split; [done|]. f_equal.
  rewrite wrap_i64_id, wrap_u64_id; [done|..]; unfold in_i64, in_u64, i64_min, u64_max, i64_max in *; lia.
Qed.

Lemma ack_faithful token b e s : ms_queue s !! run_id = Some e → stands_for tok b e →
  is_ok (mem_ack run_id (tok token) s).2 = LeaseBoard.ack token b ∧
  (LeaseBoard.ack token b = false → (mem_ack run_id (tok token) s).1 = s).
Proof.
  intros He Hb. unfold mem_ack, owned_entry, LeaseBoard.ack. rewrite He.
  assert (Hown : bool_decide (qe_token e = tok token) = bool_decide (LeaseBoard.holder b = Some token)).
  { apply bool_decide_ext. unfold stands_for in Hb. destruct (LeaseBoard.holder b) as [t|].
    - destruct Hb as [-> _]. split; [intros ?%Hinj; congruence|congruence].
    - destruct Hb as (->&_). split; [|done]. intros Ht. pose proof (Hne token) as Hn. by rewrite <-Ht in Hn. }
  cbn. rewrite Hown. by destruct (bool_decide (LeaseBoard.holder b = Some token)).
Qed.

Lemma answers_faithful ops : ∀ b e s, Forall op_in_range ops → ms_queue s !! run_id = Some e → stands_for tok b e →
  board_answers ops b = store_answers tok run_id ops s.
Proof.
  induction ops as [|[token now lease_ms|token] ops IH]; intros b e s Hops He Hb; cbn [board_answers store_answers]; [done|..];
    apply Forall_cons in Hops as [Hop Hops].
  - destruct Hop as (Hnow&Hl&Hmax). pose proof (claim_faithful token now lease_ms b e s Hnow Hl Hmax He Hb) as Hc.
    destruct (LeaseBoard.claim token now lease_ms b) as [b' won], (mem_claim run_id (tok token) now lease_ms s) as [s' r].
    destruct Hc as (->&e'&He'&Hb'). f_equal. by eapply IH.
  - destruct (ack_faithful token b e s He Hb) as [Hok Hsame]. destruct (mem_ack run_id (tok token) s) as [s' r].
    cbn in Hok, Hsame. rewrite Hok. destruct (LeaseBoard.ack token b); [done|]. rewrite (Hsame eq_refl). f_equal.
    by eapply IH.
Qed.
End Faithful.

(** ** What the tests sample *)

Definition claims (tokens : list Z) (now lease_ms : Z) : list LeaseOp :=
  map (fun t => OpClaim t now lease_ms) tokens.

(** [concurrent_claim_has_a_single_winner], for any number of threads in any order: the
    first to reach the mutex wins and no other does. *)
Lemma losers_after token until tokens now lease_ms : now < until → token ∉ tokens →
  board_answers (claims tokens now lease_ms) {| LeaseBoard.holder := Some token; LeaseBoard.lease_until := until |}
  = replicate (length tokens) false.
Proof.
  intros Hu. induction tokens as [|t tokens IH]; intros Hin; [done|]. apply not_elem_of_cons in Hin as [Hne Hin].
  cbn [claims map board_answers length replicate]. unfold LeaseBoard.claim. cbn [LeaseBoard.lease_until LeaseBoard.holder].
  destruct (Z.ltb_spec now until); [|lia]. rewrite bool_decide_eq_false_2 by congruence. cbn. f_equal. by apply IH.
Qed.

Lemma single_winner token tokens now lease_ms : NoDup (token :: tokens) → 0 ≤ now → 0 < lease_ms → now + lease_ms ≤ u64_max →
  board_answers (claims (token :: tokens) now lease_ms) LeaseBoard.empty = true :: replicate (length tokens) false.
Proof.
  intros [Hin _]%NoDup_cons Hnow Hl Hmax. cbn [claims map board_answers]. unfold LeaseBoard.claim at 1.
  cbn [LeaseBoard.lease_until LeaseBoard.empty]. destruct (Z.ltb_spec now 0); [lia|]. cbn. f_equal.
  rewrite wrap_u64_id by (unfold in_u64; lia). apply losers_after; [lia|done].
Qed.

(** [foreign_lease_is_never_stolen_and_ack_is_holder_guarded]. *)
Lemma holder_guards token other until now lease_ms : other ≠ token → now < until →
  let b := {| LeaseBoard.holder := Some token; LeaseBoard.lease_until := until |} in
  LeaseBoard.claim other now lease_ms b = (b, false) ∧ LeaseBoard.ack other b = false ∧ LeaseBoard.ack token b = true.
Proof.
  intros Hne Hu. cbn zeta. unfold LeaseBoard.claim, LeaseBoard.ack. cbn.
  destruct (Z.ltb_spec now until); [|lia]. by rewrite bool_decide_eq_false_2, bool_decide_eq_true_2 by congruence.
Qed.

(** [expired_lease_is_reclaimable]. *)
Lemma expired_reclaimable token other until now lease_ms : other ≠ token → until ≤ now →
  let b := {| LeaseBoard.holder := Some token; LeaseBoard.lease_until := until |} in
  let '(b', won) := LeaseBoard.claim other now lease_ms b in won = true ∧ LeaseBoard.ack token b' = false.
Proof.
  intros Hne Hu. cbn zeta. unfold LeaseBoard.claim. cbn [LeaseBoard.lease_until LeaseBoard.holder].
  destruct (Z.ltb_spec now until); [lia|]. cbn [andb]. split; [done|].
  unfold LeaseBoard.ack. cbn. by rewrite bool_decide_eq_false_2 by congruence.
Qed.

(** ** Properties *)

(** The miniature is faithful to the in-memory store: whatever threads claim and
    acknowledge an entry, in whatever order and at whatever instants, the board and the
    store give the same answers up to the acknowledgement that removes the entry. *)
Theorem board_faithful tok run_id ops due s :
  (∀ t1 t2, tok t1 = tok t2 → t1 = t2) → (∀ t, is_empty (tok t) = false) → Forall op_in_range ops →
  ms_queue s !! run_id = Some (fresh_entry run_id due) →
  store_answers tok run_id ops s = board_answers ops LeaseBoard.empty.
Proof. intros Hinj Hne Hops He. symmetry. by eapply answers_faithful. Qed.

(** Tokens in unary. *)
Fixpoint marks_of (n : nat) : string := match n with O => EmptyString | S n => String "x"%char (marks_of n) end.

Definition unary (t : Z) : ClaimToken :=
  String (if t <? 0 then "n"%char else "p"%char) (marks_of (Z.to_nat (Z.abs t))).

Lemma unary_inj t1 t2 : unary t1 = unary t2 → t1 = t2.
Proof.
  unfold unary. intros [= Hs Ht].
  assert (Hlen : ∀ n, String.length (marks_of n) = n) by (intros n; induction n as [|n IH]; cbn; [done|by rewrite IH]).
  apply (f_equal String.length) in Ht. rewrite !Hlen in Ht.
  destruct (Z.ltb_spec t1 0), (Z.ltb_spec t2 0); try done; lia.
Qed.

(** The third loom test on both. *)
Definition expired_claims : list LeaseOp := [OpClaim 1 0 100; OpClaim 2 1000 100; OpAck 1].

Lemma board_faithful_witness :
  store_answers unary "rn_0" expired_claims (set_queue {["rn_0"%string := fresh_entry "rn_0" 0]} mem_new) = [true; true; false].
Proof.
  rewrite (board_faithful unary "rn_0" expired_claims 0); [vm_compute; reflexivity| | | |].
  - exact unary_inj.
  - reflexivity.
  - repeat constructor; cbn; unfold i64_max; lia.
  - reflexivity.
Defined.

(** On SQLite the second claim of that test is refused: the row of an expired lease is
    taken only by its own token, or after a recovery sweep. *)
Lemma board_not_sqlite :
  let d := after no_fault [Any (Enqueue (fresh_entry "rn_0" 0)); Any (Claim "rn_0" (unary 1) 0 100)] in
  (call (Store := SqliteStore (H := plain_sqlite no_fault)) (Claim "rn_0" (unary 2) 1000 100) d).2 =
    Err (StorageError.ClaimLost "run rn_0") ∧
  (snd <$> [LeaseBoard.claim 2 1000 100 {| LeaseBoard.holder := Some 1; LeaseBoard.lease_until := 100 |}]) = [true].
Proof. split; vm_compute; reflexivity. Qed.
