(* ===== verification/Events.v ===== *)
(** * Lifecycle events and hook delivery
    (src/src/events/mod.rs, src/src/events/dispatch.rs)

    Event kinds and documents, the selection of a definition's hooks for an
    event, and the dispatcher that sends the deliveries through a sink. The hash
    behind delivery ids and the JSON text of a document come from external
    crates and are the class [EventCodec]. *)
From stdpp Require Import pretty.
From S2P Require Import Prelude RustStrings Text Ids Status Json Workflow.
Local Open Scope Z_scope.

Inductive EventKind := RunStarted | RunSucceeded | RunFailed | RunTimedOut | RunCancelled.

#[export] Instance EventKind_eq_dec : EqDecision EventKind.
Proof. solve_decision. Defined.

Definition kind_code (k : EventKind) : string :=
  match k with
  | RunStarted => "run.started"
  | RunSucceeded => "run.succeeded"
  | RunFailed => "run.failed"
  | RunTimedOut => "run.timed_out"
  | RunCancelled => "run.cancelled"
  end.

Definition kind_is_terminal (k : EventKind) : bool :=
  match k with RunStarted => false | _ => true end.

Record RunEventDoc := {
  ev_kind : string;
  ev_run_id : string;
  ev_tenant : string;
  ev_def_name : string;
  ev_def_version : Z;
  ev_run_number : Z;
  ev_status : string;
  ev_started_at_ms : option Z;
  ev_finished_at_ms : option Z;
  ev_attempts : Z;
  ev_error : option string;
  ev_output : option Json;
  ev_created_at_ms : Z
}.

(** [RunEventDoc::from_run]; the status is the serde name of the variant, which
    is the lowercase one of [run_display]. *)
Definition from_run (run : Run) (kind : EventKind) (created_at_ms : Z) : RunEventDoc := {|
  ev_kind := kind_code kind;
  ev_run_id := rn_id run;
  ev_tenant := rn_tenant run;
  ev_def_name := rn_def_name run;
  ev_def_version := rn_def_version run;
  ev_run_number := rn_run_number run;
  ev_status := run_display (rn_status run);
  ev_started_at_ms := rn_started_at_ms run;
  ev_finished_at_ms := rn_finished_at_ms run;
  ev_attempts := rn_attempts run;
  ev_error := re_message <$> rn_error run;
  ev_output := match kind with RunSucceeded => rn_output run | _ => None end;
  ev_created_at_ms := created_at_ms |}.

Definition tags_snapshot (run : Run) : gmap string string := rn_tags run.

Definition terminal_kind_for (status : RunStatus) : option EventKind :=
  match status with
  | RunStatus.Succeeded => Some RunSucceeded
  | RunStatus.Failed => Some RunFailed
  | RunStatus.TimedOut => Some RunTimedOut
  | RunStatus.Cancelled => Some RunCancelled
  | _ => None
  end.

(** SHA-256 in hexadecimal, and [serde_json::to_string] of a document. *)
Class EventCodec := {
  sha256_hex : string → string;
  event_text : RunEventDoc → string
}.

Definition delivery_key (run_id : RunId) (kind : EventKind) (tenant def_name : string) : string :=
  tenant +:+ "/" +:+ def_name +:+ "/" +:+ run_id +:+ "/" +:+ kind_code kind.

Definition delivery_id `{EventCodec} (run_id : RunId) (kind : EventKind) (tenant def_name : string)
    : string :=
  sha256_hex (delivery_key run_id kind tenant def_name).

(** ** Matching *)

Record Delivery := {
  dl_id : string;
  dl_url : string;
  dl_headers : gmap string string;
  dl_body_json : string
}.

Record MatchStats := { ms_matched : nat; ms_filtered : nat; ms_no_url : nat }.

(** [str::trim_start_matches] with a string pattern. *)
Fixpoint trim_start_matches (fuel : nat) (p s : string) : string :=
  match fuel, strip_prefix p s with
  | S fuel, Some rest => trim_start_matches fuel p rest
  | _, _ => s
  end.

Definition hook_slice (h : Hooks) (kind : EventKind) : list HookSpec :=
  match kind with
  | RunStarted => on_start h
  | RunSucceeded => on_success h
  | RunFailed | RunTimedOut => on_failure h
  | RunCancelled => on_cancel h
  end.

(** The guard of the first match arm: a filter that is neither the code nor the
    code without its prefix. *)
Definition filtered_out (kind : EventKind) (spec : HookSpec) : bool :=
  let event_code := kind_code kind in
  match event_filter spec with
  | Some filter =>
      negb (bool_decide (filter = event_code)) &&
      negb (bool_decide (filter = trim_start_matches (String.length event_code) "run." event_code))
  | None => false
  end.

Definition match_spec (kind : EventKind) (acc : list HookSpec * MatchStats) (spec : HookSpec)
    : list HookSpec * MatchStats :=
  let '(matched, st) := acc in
  if filtered_out kind spec then
    (matched, {| ms_matched := ms_matched st; ms_filtered := S (ms_filtered st); ms_no_url := ms_no_url st |})
  else match webhook_url spec with
  | None =>
      (matched, {| ms_matched := ms_matched st; ms_filtered := ms_filtered st; ms_no_url := S (ms_no_url st) |})
  | Some _ =>
      (matched ++ [spec],
       {| ms_matched := S (ms_matched st); ms_filtered := ms_filtered st; ms_no_url := ms_no_url st |})
  end.

Definition match_hooks (def : WorkflowDef) (kind : EventKind) : list HookSpec * MatchStats :=
  foldl (match_spec kind) ([], {| ms_matched := 0; ms_filtered := 0; ms_no_url := 0 |})
    (hook_slice (wd_hooks def) kind).

(** A matched specification as a delivery; [None] is the panic of the
    [expect] on its URL. *)
Definition build_delivery `{EventCodec} (kind : EventKind) (ev : RunEventDoc) (spec : HookSpec)
    : option Delivery :=
  match webhook_url spec with
  | None => None
  | Some url =>
      Some {| dl_id := delivery_id (ev_run_id ev) kind (ev_tenant ev) (ev_def_name ev);
              dl_url := url; dl_headers := headers spec; dl_body_json := event_text ev |}
  end.

Definition build_deliveries `{EventCodec} (def : WorkflowDef) (kind : EventKind) (ev : RunEventDoc)
    : option (list Delivery) * MatchStats :=
  let '(matched, stats) := match_hooks def kind in
  (mapM (build_delivery kind ev) matched, stats).

(** ** Sinks and the dispatcher *)

(** The trait: a delivery attempt may change the sink's state. *)
Class WebhookSink (K : Type) := deliver : K → Delivery → K * result unit string.

(** [RecordingSink]: the deliveries in order. *)
#[export] Instance recording_sink : WebhookSink (list Delivery) := fun k d => (k ++ [d], Ok tt).

(** [LoggingSink] *)
#[export] Instance logging_sink : WebhookSink unit := fun k _ => (k, Ok tt).

(** [HttpSink::supports] *)
Definition http_supports (url : string) : bool := starts_with "http://" url.

Record Dispatcher (K : Type) := { ds_sink : K; ds_delivered : Z }.
Arguments ds_sink {K}.
Arguments ds_delivered {K}.

Definition dispatcher_new {K} (sink : K) : Dispatcher K := {| ds_sink := sink; ds_delivered := 0 |}.

(** One delivery: counted when accepted, only logged when refused. *)
Definition send {K} `{WebhookSink K} (d : Dispatcher K) (delivery : Delivery) : Dispatcher K :=
  match deliver (ds_sink d) delivery with
  | (k, Ok _) => {| ds_sink := k; ds_delivered := wrap_u64 (ds_delivered d + 1) |}
  | (k, Err _) => {| ds_sink := k; ds_delivered := ds_delivered d |}
  end.

Definition dispatch {K} `{WebhookSink K, EventCodec} (d : Dispatcher K) (def : WorkflowDef)
    (kind : EventKind) (ev : RunEventDoc) : option (Dispatcher K * MatchStats) :=
  match build_deliveries def kind ev with
  | (Some deliveries, stats) => Some (foldl send d deliveries, stats)
  | (None, _) => None
  end.

(** ** Matching *)

(** A hook fires: its filter admits the event and it has a target. *)
Definition fires_for (kind : EventKind) (spec : HookSpec) : bool :=
  negb (filtered_out kind spec) && bool_decide (is_Some (webhook_url spec)).

Lemma match_hooks_fold kind specs matched st :
  let r := foldl (match_spec kind) (matched, st) specs in
  r.1 = matched ++ List.filter (fires_for kind) specs ∧
  ms_matched r.2 = (ms_matched st + length (List.filter (fires_for kind) specs))%nat ∧
  ms_filtered r.2 = (ms_filtered st + length (List.filter (filtered_out kind) specs))%nat ∧
  (ms_matched r.2 + ms_filtered r.2 + ms_no_url r.2 =
   ms_matched st + ms_filtered st + ms_no_url st + length specs)%nat.
Proof.
  revert matched st. induction specs as [|s specs IH]; intros matched st; cbn [foldl List.filter length].
  { cbn. rewrite app_nil_r. split_and!; try done; lia. }
  destruct (match_spec kind (matched, st) s) as [m' st'] eqn:E.
  destruct (IH m' st') as (H1 & H2 & H3 & H4). cbv zeta in *. rewrite H1, H2, H3.
  unfold match_spec in E. destruct (filtered_out kind s) eqn:Hf.
  - assert (fires_for kind s = false) as -> by (unfold fires_for; by rewrite Hf).
    simplify_eq. cbn [ms_matched ms_filtered ms_no_url length] in *. split_and!; try done; lia.
  - destruct (webhook_url s) as [url|] eqn:Hu.
    + assert (fires_for kind s = true) as ->.
      { unfold fires_for. rewrite Hf, Hu. by rewrite bool_decide_eq_true_2. }
      simplify_eq. cbn [ms_matched ms_filtered ms_no_url length] in *. rewrite <- app_assoc.
      split_and!; try done; lia.
    + assert (fires_for kind s = false) as ->.
      { unfold fires_for. rewrite Hf, Hu. rewrite bool_decide_eq_false_2; [done|]. by intros [? ?]. }
      simplify_eq. cbn [ms_matched ms_filtered ms_no_url length] in *. split_and!; try done; lia.
Qed.

Section Deliveries.
Context `{EventCodec}.

Lemma build_deliveries_spec def kind ev : ∃ ds stats,
  build_deliveries def kind ev = (Some ds, stats) ∧
  dl_url <$> ds = omap webhook_url (List.filter (fires_for kind) (hook_slice (wd_hooks def) kind)) ∧
  dl_headers <$> ds = headers <$> List.filter (fires_for kind) (hook_slice (wd_hooks def) kind) ∧
  Forall (fun d => dl_id d = delivery_id (ev_run_id ev) kind (ev_tenant ev) (ev_def_name ev) ∧
                   dl_body_json d = event_text ev) ds ∧
  ms_matched stats = length ds ∧
  (ms_matched stats + ms_filtered stats + ms_no_url stats = length (hook_slice (wd_hooks def) kind))%nat.
Proof.
  unfold build_deliveries, match_hooks.
  destruct (match_hooks_fold kind (hook_slice (wd_hooks def) kind) []
    {| ms_matched := 0; ms_filtered := 0; ms_no_url := 0 |}) as (H1 & H2 & _ & H4).
  destruct (foldl _ _ _) as [matched stats]. cbn [fst snd ms_matched ms_filtered ms_no_url app] in *.
  rewrite H1. clear H1.
  set (l := List.filter (fires_for kind) _) in *. assert (Forall (fun s => fires_for kind s = true) l) as Hl.
  { apply Forall_forall. intros s Hs%list_elem_of_In. by apply filter_In in Hs as [_ Hs]. }
  clearbody l.
  assert (∃ ds, mapM (build_delivery kind ev) l = Some ds ∧ dl_url <$> ds = omap webhook_url l ∧
    dl_headers <$> ds = headers <$> l ∧ length ds = length l ∧
    Forall (fun d => dl_id d = delivery_id (ev_run_id ev) kind (ev_tenant ev) (ev_def_name ev) ∧
                     dl_body_json d = event_text ev) ds) as (ds & -> & ? & ? & Hlen & ?).
  { clear H2 H4. induction Hl as [|s l Hs _ IH]; [by exists []|].
    destruct IH as (ds & E & Hu & Hh & Hn & Hf). unfold fires_for in Hs.
    apply andb_true_iff in Hs as [_ [url Hurl]%bool_decide_eq_true].
    set (d := {| dl_id := delivery_id (ev_run_id ev) kind (ev_tenant ev) (ev_def_name ev);
                 dl_url := url; dl_headers := headers s; dl_body_json := event_text ev |}).
    assert (build_delivery kind ev s = Some d) as Hd by (unfold build_delivery; by rewrite Hurl).
    exists (d :: ds). split_and!.
    - change (mapM (build_delivery kind ev) (s :: l)) with
        (x ← build_delivery kind ev s; k ← mapM (build_delivery kind ev) l; Some (x :: k)).
      by rewrite Hd, E.
    - cbn. by rewrite Hurl, Hu.
    - cbn. by rewrite Hh.
    - cbn. by rewrite Hn.
    - by constructor. }
  exists ds, stats. split_and!; try done; lia.
Qed.
End Deliveries.

(** ** Delivery keys *)

Lemma app_last_sep (x : Z) (a1 a2 b1 b2 : list Z) : x ∉ b1 → x ∉ b2 →
  a1 ++ x :: b1 = a2 ++ x :: b2 → a1 = a2 ∧ b1 = b2.
Proof.
  intros H1 H2 E. apply app_eq_app in E as (l & [[-> E]|[-> E]]); destruct l as [|y l]; cbn in E;
    rewrite ?app_nil_r; try (injection E as ->; done); injection E as -> E; exfalso.
  - apply H2. rewrite E. apply elem_of_app. right. left.
  - apply H1. rewrite E. apply elem_of_app. right. left.
Qed.

Lemma kind_code_inj k1 k2 : kind_code k1 = kind_code k2 → k1 = k2.
Proof. by destruct k1, k2. Qed.

Lemma kind_code_slash k : 47 ∉ as_bytes (kind_code k).
Proof. apply (bool_decide_eq_true_1 _). by destruct k. Qed.

Lemma delivery_key_bytes r k t n : as_bytes (delivery_key r k t n) =
  ((as_bytes t ++ 47 :: as_bytes n) ++ 47 :: as_bytes r) ++ 47 :: as_bytes (kind_code k).
Proof.
  unfold delivery_key. rewrite !as_bytes_app. change (as_bytes "/") with [47].
  by rewrite <- !app_assoc.
Qed.

(** ** Properties *)

(** Dispatching an event never panics, sends one delivery per hook of the
    event's slice that has a URL and whose filter admits the event, in definition
    order and to its own URL, all under the delivery id of the run and event, and
    the statistics account for every hook of the slice. *)
Theorem dispatch_hooks {K} `{WebhookSink K, EventCodec} (d : Dispatcher K) def kind ev :
  ∃ ds stats, dispatch d def kind ev = Some (foldl send d ds, stats) ∧
  dl_url <$> ds = omap webhook_url (List.filter (fires_for kind) (hook_slice (wd_hooks def) kind)) ∧
  Forall (fun x => dl_id x = delivery_id (ev_run_id ev) kind (ev_tenant ev) (ev_def_name ev)) ds ∧
  ms_matched stats = length ds ∧
  (ms_matched stats + ms_filtered stats + ms_no_url stats =
   length (hook_slice (wd_hooks def) kind))%nat.
Proof.
  destruct (build_deliveries_spec def kind ev) as (ds & stats & E & Hu & _ & Hf & Hm & Hs).
  exists ds, stats. unfold dispatch. rewrite E. split_and!; try done.
  eapply Forall_impl; [exact Hf|]. by intros x [? _].
Qed.

(** The key behind a delivery id determines the run and the event: runs and
    kinds never share an id unless the hash collides, since neither run ids nor
    event codes contain the separator. *)
Theorem delivery_key_inj r1 r2 k1 k2 t1 t2 n1 n2 :
  contains_byte 47 r1 = false → contains_byte 47 r2 = false →
  delivery_key r1 k1 t1 n1 = delivery_key r2 k2 t2 n2 → r1 = r2 ∧ k1 = k2.
Proof.
  intros H1 H2 E. apply (f_equal as_bytes) in E.
  assert (∀ r, contains_byte 47 r = false → 47 ∉ as_bytes r) as Hr.
  { intros r Hr Hin%contains_byte_spec. congruence. }
  rewrite !delivery_key_bytes in E.
  apply app_last_sep in E as [E Ek]; [|apply kind_code_slash..].
  apply app_last_sep in E as [_ Er]; [|by apply Hr..].
  split; [by apply as_bytes_inj|by apply kind_code_inj, as_bytes_inj].
Qed.

Lemma delivery_key_inj_witness :
  delivery_key "rn_1" RunFailed "acme" "ship" = delivery_key "rn_1" RunFailed "acme" "ship" ∧
  "rn_1" = "rn_1" ∧ RunFailed = RunFailed.
Proof.
  split; [reflexivity|]. apply (delivery_key_inj "rn_1" "rn_1" RunFailed RunFailed "acme" "acme" "ship" "ship");
    reflexivity.
Defined.

(** A hook filtered on the status name of a timed-out run does not fire for
    the time-out, although the matching rules admit the status name: the code
    without its prefix is [timed_out], the status name [timedout]. *)
Theorem timed_out_filter_ignored url hs :
  filtered_out RunTimedOut {| webhook_url := url;
    event_filter := Some (run_display RunStatus.TimedOut); headers := hs |} = true.
Proof. reflexivity. Qed.
