(* ===== verification/HttpSink.v ===== *)
(** * Delivering webhooks over HTTP (src/src/events/dispatch.rs, HttpSink)

    The sink that posts a delivery over a plain TCP connection. The URL parser and the
    stream operations, each of which may fail with a message, are the class [Tcp]. *)
From stdpp Require Import pretty.
From S2P Require Import Prelude RustStrings Text Ids Status Workflow Events.
Local Open Scope Z_scope.

(** The parts of a parsed URL the sink reads. *)
Record SinkUrl := { hu_scheme : string; hu_host : option string; hu_port : option Z; hu_path : string }.

(** [tcp_read limit] is [take(limit).read_to_end]. *)
Class Tcp := {
  TcpStream : Type;
  tcp_url : string → result SinkUrl string;
  tcp_connect : string → Z → result TcpStream string;
  tcp_read_timeout : TcpStream → Z → result TcpStream string;
  tcp_write_timeout : TcpStream → Z → result TcpStream string;
  tcp_write : TcpStream → list Z → result TcpStream string;
  tcp_read : Z → TcpStream → result (list Z) string;
  tcp_debug : string → string
}.

(** [HttpSink]: the timeout in nanoseconds. *)
Record HttpSink := { hs_timeout : Z }.
Definition http_sink_default : HttpSink := {| hs_timeout := 3 * 1000000000 |}.

Definition cr_lf : string := of_bytes [13; 10].

Definition request_lines (path host : string) (headers : gmap string string) (body : string) : list string :=
  ["POST " +:+ path +:+ " HTTP/1.1"; "Host: " +:+ host; "User-Agent: runvane-events/1";
   "Content-Type: application/json"; "Accept: application/json"] ++
  map (fun '(k, v) => k +:+ ": " +:+ v) (bt_iter headers) ++
  ["Content-Length: " +:+ pretty (str_len body); "Connection: close"].

(** The head of the request, up to the blank line. *)
Definition request_head (path host : string) (headers : gmap string string) (body : string) : string :=
  foldr (fun line rest => line +:+ cr_lf +:+ rest) cr_lf (request_lines path host headers body).

Definition first_line (text : string) : string := default EmptyString (head (lines text)).

(** The verdict on a response. *)
Definition accepted (status_line : string) : bool :=
  bool_decide (is_Some (find " 2" status_line)) || bool_decide (is_Some (find " 3" status_line)).

Section Sink.
Context `{Tcp}.

Definition sink_request (sink : HttpSink) (d : Delivery) : result unit string :=
  let? url := map_err (fun e => "invalid webhook url " +:+ dl_url d +:+ ": " +:+ e) (tcp_url (dl_url d)) in
  if negb (bool_decide (hu_scheme url = "http"%string)) then Err ("unsupported webhook scheme " +:+ tcp_debug (hu_scheme url))
  else
    let? host := ok_or (hu_host url) ("webhook url " +:+ dl_url d +:+ " has no host") in
    let port := default 80 (hu_port url) in
    let path := if is_empty (hu_path url) then "/"%string else hu_path url in
    let peer := host +:+ ":" +:+ pretty port in
    let? stream := map_err (fun e => "cannot connect to " +:+ peer +:+ ": " +:+ e) (tcp_connect host port) in
    let? stream := tcp_read_timeout stream (hs_timeout sink) in
    let? stream := tcp_write_timeout stream (hs_timeout sink) in
    let? stream := map_err (fun e => "write to " +:+ peer +:+ " failed: " +:+ e)
      (let? stream := tcp_write stream (as_bytes (request_head path host (dl_headers d) (dl_body_json d))) in
       tcp_write stream (as_bytes (dl_body_json d))) in
    let? response := map_err (fun e => "read from " +:+ peer +:+ " failed: " +:+ e) (tcp_read (4 * 1024) stream) in
    let status_line := first_line (from_utf8_lossy response) in
    if accepted status_line then Ok tt
    else Err ("webhook " +:+ peer +:+ " responded " +:+ tcp_debug status_line).

#[export] Instance http_sink : WebhookSink HttpSink := fun sink d =>
  (sink, if negb (http_supports (dl_url d)) then Err ("unsupported webhook url " +:+ dl_url d)
         else sink_request sink d).
End Sink.

(** ** The head as the receiver reads it *)

(** The pieces between the CRLF pairs. *)
Fixpoint split_crlf (s : string) : list string :=
  match s with
  | EmptyString => [EmptyString]
  | String c rest =>
      match rest with
      | String c' rest' =>
          if bool_decide (c = ascii_of 13) && bool_decide (c' = ascii_of 10) then EmptyString :: split_crlf rest'
          else match split_crlf rest with [] => [] | l :: ls => String c l :: ls end
      | EmptyString => [String c EmptyString]
      end
  end.

Definition no_cr (s : string) : Prop := lacks 13 s.

Lemma split_crlf_step s rest : no_cr s → split_crlf (s +:+ cr_lf +:+ rest) = s :: split_crlf rest.
Proof.
  induction s as [|c s IH]; intros Hs; [done|].
  unfold no_cr, lacks in *. cbn [as_bytes] in Hs. apply not_elem_of_cons in Hs as [Hc Hs].
  change (String c s +:+ cr_lf +:+ rest) with (String c (s +:+ cr_lf +:+ rest)). specialize (IH Hs).
  destruct (s +:+ cr_lf +:+ rest) as [|c' t] eqn:Heq; [by destruct s|].
  cbn [split_crlf]. rewrite (bool_decide_eq_false_2 (c = _)) by (by intros ->). cbn [andb]. cbn [split_crlf] in IH.
  rewrite IH. done.
Qed.

Lemma split_crlf_lines ls : Forall no_cr ls →
  split_crlf (foldr (fun line rest => line +:+ cr_lf +:+ rest) cr_lf ls) = ls ++ [EmptyString; EmptyString].
Proof.
  induction ls as [|l ls IH]; intros Hl; [reflexivity|]. apply Forall_cons in Hl as [Hl Hls].
  cbn [foldr]. rewrite split_crlf_step by done. rewrite IH by done. done.
Qed.

(** Constant text without a carriage return. *)
Ltac no_cr_const := unfold no_cr, lacks; cbn; apply (bool_decide_unpack _); vm_compute; exact I.

(** ** Properties *)

(** The request is framed as intended when path, host and headers hold no carriage return: read
    piece by piece, its head is the request line, the five fixed headers and the hook's
    headers in key order, each once and nothing else, then the blank line; and the
    announced length is the number of bytes sent after it. *)
Theorem request_framed path host headers body :
  no_cr path → no_cr host → map_Forall (fun k v => no_cr k ∧ no_cr v) headers →
  split_crlf (request_head path host headers body) = request_lines path host headers body ++ [EmptyString; EmptyString] ∧
  request_lines path host headers body !! (5 + size headers)%nat = Some ("Content-Length: " +:+ pretty (Z.of_nat (length (as_bytes body)))).
Proof.
  intros Hp Hh Hm. split.
  - apply split_crlf_lines. unfold request_lines. rewrite !Forall_app. split_and!.
    + repeat (apply Forall_cons_2; [unfold no_cr in *; rewrite ?lacks_app; split_and?; first [assumption|no_cr_const]|]). constructor.
    + apply Forall_map, Forall_forall. intros [k v] Hkv. unfold bt_iter in Hkv. apply sort_by_elem, elem_of_map_to_list in Hkv.
      destruct (Hm k v Hkv). unfold no_cr in *. rewrite !lacks_app. split_and!; first [assumption|no_cr_const].
    + assert (Hn : no_cr (pretty (str_len body))) by (apply lacks_pretty; lia).
      repeat (apply Forall_cons_2; [unfold no_cr in *; rewrite ?lacks_app; split_and?; first [assumption|no_cr_const]|]). constructor.
  - unfold request_lines. rewrite lookup_app_r by (cbn; lia). cbn [length Nat.sub]. rewrite lookup_app_r.
    + rewrite length_map. unfold bt_iter. rewrite sort_by_length, length_map_to_list.
      replace (5 + size headers - 5 - size headers)%nat with 0%nat by lia. cbn. unfold str_len. by rewrite length_as_bytes.
    + rewrite length_map. unfold bt_iter. rewrite sort_by_length, length_map_to_list. lia.
Qed.

Lemma request_framed_witness :
  split_crlf (request_head "/hook" "127.0.0.1" {["X-Team" := "data"]} "{}") =
  request_lines "/hook" "127.0.0.1" {["X-Team" := "data"]} "{}" ++ [EmptyString; EmptyString].
Proof.
  destruct (request_framed "/hook" "127.0.0.1" {["X-Team"%string := "data"%string]} "{}") as [Hs _].
  - no_cr_const.
  - no_cr_const.
  - apply map_Forall_singleton. split; no_cr_const.
  - exact Hs.
Defined.

(** Without that guard a hook's header can add lines of its own, a second announced length
    included; nothing checks the headers of a definition. *)
Theorem header_injection :
  "Content-Length: 999"%string ∈
    split_crlf (request_head "/hook" "127.0.0.1"
      {["X-Team"%string := ("data" +:+ cr_lf +:+ "Content-Length: 999")%string]} "{}").
Proof. apply (bool_decide_unpack _). vm_compute. exact I. Qed.

(** A refusal counts as accepted when its reason phrase holds a word that starts with 2 or 3. *)
Theorem refusal_accepted : accepted "HTTP/1.1 500 retry in 30 seconds" = true.
Proof. reflexivity. Qed.

(** An encrypted webhook passes validation of its definition and can never be delivered by this
    sink. *)
Theorem https_never_delivered `{Tcp} (sink : HttpSink) d rest :
  dl_url d = ("https://" +:+ rest)%string → is_ok (deliver sink d).2 = false.
Proof. intros Hu. unfold deliver, http_sink. rewrite Hu. reflexivity. Qed.
