(* ===== verification/Outbox.v ===== *)
(** * The webhook outbox (src/src/events/outbox.rs)

    The buffer of deliveries with its counters, and the processor that drains
    what is due through a sink with exponential backoff. *)
From S2P Require Import Prelude RustStrings Ids Status Json Workflow Events.
Local Open Scope Z_scope.

Inductive OutboxStatus := Pending | Delivered | DeadLetter.

#[export] Instance OutboxStatus_eq_dec : EqDecision OutboxStatus.
Proof. solve_decision. Defined.

Record OutboxItem := {
  it_id : string;
  it_delivery : Delivery;
  it_attempts : Z;
  it_max_attempts : Z;
  it_next_attempt_at_ms : Z;
  it_last_error : option string;
  it_status : OutboxStatus
}.

Record OutboxStats := { os_pending : nat; os_delivered : Z; os_dead_letter : Z }.

Record WebhookOutbox := {
  ob_items : gmap string OutboxItem;
  ob_delivered_count : Z;
  ob_dead_letter_count : Z
}.

Definition outbox_new : WebhookOutbox :=
  {| ob_items := ∅; ob_delivered_count := 0; ob_dead_letter_count := 0 |}.

Definition with_items (o : WebhookOutbox) (items : gmap string OutboxItem) : WebhookOutbox :=
  {| ob_items := items; ob_delivered_count := ob_delivered_count o;
     ob_dead_letter_count := ob_dead_letter_count o |}.

Definition enqueue (o : WebhookOutbox) (delivery : Delivery) (max_attempts now_ms : Z)
    : WebhookOutbox :=
  match ob_items o !! dl_id delivery with
  | Some _ => o
  | None =>
      with_items o (<[dl_id delivery := {|
        it_id := dl_id delivery; it_delivery := delivery; it_attempts := 0;
        it_max_attempts := Z.max max_attempts 1; it_next_attempt_at_ms := now_ms;
        it_last_error := None; it_status := Pending |}]> (ob_items o))
  end.

Definition is_due (now_ms : Z) (item : OutboxItem) : bool :=
  bool_decide (it_status item = Pending) && (it_next_attempt_at_ms item <=? now_ms).

(** The sort key [(next_attempt_at_ms, attempts)]. *)
Definition due_before (a b : OutboxItem) : bool :=
  (it_next_attempt_at_ms a <? it_next_attempt_at_ms b) ||
  ((it_next_attempt_at_ms a =? it_next_attempt_at_ms b) && (it_attempts a <=? it_attempts b)).

Definition ready_items `{HashIter} (o : WebhookOutbox) (now_ms : Z) : list OutboxItem :=
  sort_by due_before (List.filter (is_due now_ms) (hash_values (ob_items o))).

Definition set_status (item : OutboxItem) (st : OutboxStatus) : OutboxItem :=
  {| it_id := it_id item; it_delivery := it_delivery item; it_attempts := it_attempts item;
     it_max_attempts := it_max_attempts item; it_next_attempt_at_ms := it_next_attempt_at_ms item;
     it_last_error := it_last_error item; it_status := st |}.

Definition mark_success (o : WebhookOutbox) (id : string) : WebhookOutbox * bool :=
  match ob_items o !! id with
  | Some item =>
      if bool_decide (it_status item = Pending) then
        ({| ob_items := <[id := set_status item Delivered]> (ob_items o);
            ob_delivered_count := wrap_u64 (ob_delivered_count o + 1);
            ob_dead_letter_count := ob_dead_letter_count o |}, true)
      else (o, false)
  | None => (o, false)
  end.

(** The item after a refused attempt, and whether it was parked. *)
Definition failed_item (item : OutboxItem) (error : string) (now_ms backoff_ms : Z)
    : OutboxItem * bool :=
  let attempts := wrap_u32 (it_attempts item + 1) in
  let exhausted := it_max_attempts item <=? attempts in
  ({| it_id := it_id item; it_delivery := it_delivery item; it_attempts := attempts;
      it_max_attempts := it_max_attempts item;
      it_next_attempt_at_ms :=
        if exhausted then it_next_attempt_at_ms item else wrap_i64 (now_ms + backoff_ms);
      it_last_error := Some error;
      it_status := if exhausted then DeadLetter else it_status item |}, exhausted).

Definition mark_failure (o : WebhookOutbox) (id error : string) (now_ms backoff_ms : Z)
    : WebhookOutbox * OutboxStatus :=
  match ob_items o !! id with
  | Some item =>
      let '(item', exhausted) := failed_item item error now_ms backoff_ms in
      ({| ob_items := <[id := item']> (ob_items o);
          ob_delivered_count := ob_delivered_count o;
          ob_dead_letter_count :=
            if exhausted : bool then wrap_u64 (ob_dead_letter_count o + 1) else ob_dead_letter_count o |},
       it_status item')
  | None => (o, Pending)
  end.

Definition with_status `{HashIter} (o : WebhookOutbox) (st : OutboxStatus) : list OutboxItem :=
  List.filter (fun item => bool_decide (it_status item = st)) (hash_values (ob_items o)).

Definition dead_letter_items `{HashIter} (o : WebhookOutbox) : list OutboxItem := with_status o DeadLetter.

Definition outbox_stats `{HashIter} (o : WebhookOutbox) : OutboxStats :=
  {| os_pending := length (with_status o Pending);
     os_delivered := ob_delivered_count o; os_dead_letter := ob_dead_letter_count o |}.

(** ** The processor *)

(** [OutboxProcessor::new] keeps the base backoff at ten milliseconds or more. *)
Definition processor_base (base_backoff_ms : Z) : Z := Z.max base_backoff_ms 10.

(** [base.saturating_mul(1 << attempts.min(10))] *)
Definition backoff (base_backoff_ms attempts : Z) : Z :=
  sat_i64 (base_backoff_ms * 2 ^ Z.min attempts 10).

Section Processor.
Context {K : Type} `{WebhookSink K} `{HashIter}.

Definition process_item (base now : Z) (st : K * WebhookOutbox) (item : OutboxItem)
    : K * WebhookOutbox :=
  let '(sink, o) := st in
  match deliver sink (it_delivery item) with
  | (sink, Ok _) => (sink, (mark_success o (it_id item)).1)
  | (sink, Err err) =>
      (sink, (mark_failure o (it_id item) err now (backoff base (it_attempts item))).1)
  end.

Definition outbox_step (base now : Z) (st : K * WebhookOutbox) : (K * WebhookOutbox) * nat :=
  let ready := ready_items st.2 now in
  (foldl (process_item base now) st ready, length ready).

(** Steps at the given times. *)
Fixpoint outbox_steps (base : Z) (nows : list Z) (st : K * WebhookOutbox) : K * WebhookOutbox :=
  match nows with
  | [] => st
  | now :: rest => outbox_steps base rest (outbox_step base now st).1
  end.
End Processor.

(** ** The invariant *)

(** What a pending item becomes after an attempt with the given answer. *)
Definition attempted (base now : Z) (r : result unit string) (item : OutboxItem) : OutboxItem :=
  match r with
  | Ok _ => set_status item Delivered
  | Err e => (failed_item item e now (backoff base (it_attempts item))).1
  end.

(** Items carry the id of their delivery and never exceed their attempts; only
    the parked ones have used them all. *)
Record item_ok (k : string) (it : OutboxItem) : Prop := {
  io_id : it_id it = k ∧ dl_id (it_delivery it) = k;
  io_max : 1 ≤ it_max_attempts it ≤ u32_max;
  io_attempts : 0 ≤ it_attempts it ≤ it_max_attempts it;
  io_status : it_status it = DeadLetter ↔ it_attempts it = it_max_attempts it
}.

Definition count_status (st : OutboxStatus) (m : gmap string OutboxItem) : Z :=
  Z.of_nat (size (filter (fun kv => it_status kv.2 = st) m)).

Record outbox_ok (o : WebhookOutbox) : Prop := {
  oo_items : map_Forall item_ok (ob_items o);
  oo_delivered : ob_delivered_count o = wrap_u64 (count_status Delivered (ob_items o));
  oo_dead : ob_dead_letter_count o = wrap_u64 (count_status DeadLetter (ob_items o))
}.

Lemma count_status_fresh st m k it : m !! k = None →
  count_status st (<[k := it]> m) =
  count_status st m + (if bool_decide (it_status it = st) then 1 else 0).
Proof.
  intros Hk. unfold count_status. case_bool_decide as Hs.
  - rewrite map_filter_insert_True by done. rewrite map_size_insert_None; [lia|].
    apply map_lookup_filter_None. by left.
  - rewrite map_filter_insert_False by done. rewrite delete_id by done. lia.
Qed.

Lemma count_status_update st m k old it : m !! k = Some old →
  count_status st (<[k := it]> m) =
  count_status st m + (if bool_decide (it_status it = st) then 1 else 0)
                    - (if bool_decide (it_status old = st) then 1 else 0).
Proof.
  intros Hk. rewrite <- (insert_delete_id m k old Hk) at 2.
  rewrite (count_status_fresh st (delete k m)) by apply lookup_delete_eq.
  rewrite <- insert_delete_eq.
  rewrite (count_status_fresh st (delete k m)) by apply lookup_delete_eq. lia.
Qed.

Lemma failed_item_exhausted item e now b : item_ok (it_id item) item → it_status item = Pending →
  let r := failed_item item e now b in
  item_ok (it_id item) r.1 ∧ it_attempts r.1 = it_attempts item + 1 ∧
  r.2 = bool_decide (it_status r.1 = DeadLetter) ∧ (it_status r.1 = Pending ∨ it_status r.1 = DeadLetter) ∧
  (it_status r.1 = Pending → it_next_attempt_at_ms r.1 = wrap_i64 (now + b)).
Proof.
  intros [Hid Hmax Hatt Hst] Hp. rewrite Hp in Hst.
  assert (it_attempts item ≠ it_max_attempts item) by (intros E; by apply Hst in E).
  unfold failed_item. cbv zeta. cbn [fst snd it_attempts it_status it_next_attempt_at_ms].
  rewrite wrap_u32_id by (unfold in_u32; lia).
  destruct (Z.leb_spec (it_max_attempts item) (it_attempts item + 1)); split_and!; try done; try by right.
  - split; cbn; [done..|lia|]. split; [lia|done].
  - split; cbn; [done..|lia|]. rewrite Hp. split; [done|lia].
  - by rewrite Hp.
  - by left.
Qed.

Section Steps.
Context {K : Type} `{WebhookSink K} `{HashIter}.

(** One attempt on an item that is pending in the buffer. *)
Lemma process_item_spec base now sink o item :
  outbox_ok o → ob_items o !! it_id item = Some item → it_status item = Pending →
  ∃ sink' o' r, process_item base now (sink, o) item = (sink', o') ∧ outbox_ok o' ∧
  ob_items o' = <[it_id item := attempted base now r item]> (ob_items o).
Proof.
  intros [Hitems Hdel Hdead] Hl Hp. unfold process_item.
  pose proof (Hitems _ _ Hl) as Hok.
  destruct (deliver sink (it_delivery item)) as [sink' [[]|e]] eqn:Hd.
  - unfold mark_success. rewrite Hl, bool_decide_eq_true_2 by done. cbn [fst].
    eexists sink', _, (Ok tt). split; [done|]. split; [|done]. split; cbn [ob_items ob_delivered_count ob_dead_letter_count].
    + apply map_Forall_insert_2; [|done]. destruct Hok as [Hid Hmax Hatt Hst].
      split; cbn; [done..|]. rewrite Hp in Hst. split; [done|]. intros E. by apply Hst in E.
    + rewrite (count_status_update _ _ _ _ _ Hl), Hp, Hdel. cbn [set_status it_status].
      rewrite bool_decide_eq_true_2, bool_decide_eq_false_2 by done.
      unfold wrap_u64. rewrite Zplus_mod_idemp_l. f_equal. lia.
    + rewrite (count_status_update _ _ _ _ _ Hl), Hp, Hdead. cbn [set_status it_status].
      rewrite !bool_decide_eq_false_2 by done. f_equal. lia.
  - unfold mark_failure. rewrite Hl.
    destruct (failed_item_exhausted item e now (backoff base (it_attempts item)) Hok Hp)
      as (Hok' & _ & Hex & Hcases & _).
    destruct (failed_item item e now _) as [item' ex] eqn:Hf. cbn [fst snd] in *.
    eexists sink', _, (Err e). split; [done|].
    split; [|cbn [ob_items attempted]; by rewrite Hf].
    split; cbn [ob_items ob_delivered_count ob_dead_letter_count].
    + by apply map_Forall_insert_2.
    + rewrite (count_status_update _ _ _ _ _ Hl), Hp, Hdel.
      rewrite !bool_decide_eq_false_2 by (done || by destruct Hcases as [-> | ->]). f_equal. lia.
    + rewrite (count_status_update _ _ _ _ _ Hl), Hp, Hdead.
      rewrite (bool_decide_eq_false_2 (Pending = DeadLetter)) by done. subst ex.
      case_bool_decide; unfold wrap_u64; rewrite ?Zplus_mod_idemp_l; f_equal; lia.
Qed.

Lemma process_items_spec base now ready sink o : outbox_ok o → NoDup (it_id <$> ready) →
  (∀ it, it ∈ ready → ob_items o !! it_id it = Some it ∧ it_status it = Pending) →
  ∃ sink' o', foldl (process_item base now) (sink, o) ready = (sink', o') ∧ outbox_ok o' ∧
  (∀ k, k ∉ it_id <$> ready → ob_items o' !! k = ob_items o !! k) ∧
  ∀ it, it ∈ ready → ∃ r, ob_items o' !! it_id it = Some (attempted base now r it).
Proof.
  revert sink o. induction ready as [|it ready IH]; intros sink o Hok Hnd Hin; cbn [foldl].
  { exists sink, o. split_and!; [done..|]. by intros ? ?%elem_of_nil. }
  cbn [fmap list_fmap] in Hnd. apply NoDup_cons in Hnd as [Hfresh Hnd].
  destruct (Hin it) as [Hl Hp]; [left|].
  destruct (process_item_spec base now sink o it Hok Hl Hp) as (sink1 & o1 & r & -> & Hok1 & Hi1).
  destruct (IH sink1 o1 Hok1 Hnd) as (sink2 & o2 & -> & Hok2 & Hother & Hdone).
  { intros it' Hit'. destruct (Hin it') as [? ?]; [by right|]. split; [|done].
    rewrite Hi1, lookup_insert_ne; [done|]. intros E. apply Hfresh. rewrite E.
    by apply list_elem_of_fmap_2. }
  exists sink2, o2. split_and!; [done..| |].
  - intros k Hk. cbn [fmap list_fmap] in Hk. apply not_elem_of_cons in Hk as [Hne Hk].
    by rewrite Hother, Hi1, lookup_insert_ne.
  - intros it' [->|Hit']%elem_of_cons; [|by apply Hdone].
    exists r. by rewrite Hother, Hi1, lookup_insert_eq.
Qed.

Lemma ready_items_elem o now it : outbox_ok o →
  it ∈ ready_items o now ↔ ob_items o !! it_id it = Some it ∧ is_due now it = true.
Proof.
  intros [Hitems _ _]. unfold ready_items. rewrite sort_by_elem, list_elem_of_In, filter_In.
  rewrite <- list_elem_of_In, hash_values_elem. split.
  - intros [(k & Hk) Hdue]. by rewrite (proj1 (io_id _ _ (Hitems _ _ Hk))).
  - intros [Hl Hdue]. eauto.
Qed.

Lemma ready_items_NoDup o now : outbox_ok o → NoDup (it_id <$> ready_items o now).
Proof.
  intros [Hitems _ _]. unfold ready_items. rewrite sort_by_perm.
  assert (NoDup (it_id <$> hash_values (ob_items o))) as Hnd.
  { unfold hash_values. rewrite hash_iter_perm.
    assert ((it_id <$> (map_to_list (ob_items o)).*2) = (map_to_list (ob_items o)).*1) as ->.
    { rewrite <- list_fmap_compose. apply list_fmap_ext. intros i [k it] Hi. cbn.
      apply list_elem_of_lookup_2, elem_of_map_to_list in Hi. apply (io_id _ _ (Hitems _ _ Hi)). }
    apply NoDup_fst_map_to_list. }
  revert Hnd. generalize (hash_values (ob_items o)). intros l.
  induction l as [|it l IH]; cbn; intros Hnd; [constructor|].
  apply NoDup_cons in Hnd as [Hf Hnd]. destruct (is_due now it); cbn; [|by apply IH].
  constructor; [|by apply IH]. intros (y & Ey & Hy)%list_elem_of_fmap. apply Hf. rewrite Ey.
  apply list_elem_of_fmap_2. apply list_elem_of_In, filter_In in Hy as [Hy _]. by apply list_elem_of_In.
Qed.

(** A step attempts exactly the due items and leaves the others alone. *)
Lemma outbox_step_spec base now st : outbox_ok st.2 →
  let st' := (outbox_step base now st).1 in outbox_ok st'.2 ∧
  (∀ k, ob_items st.2 !! k = None → ob_items st'.2 !! k = None) ∧
  ∀ k it, ob_items st.2 !! k = Some it →
    if is_due now it then ∃ r, ob_items st'.2 !! k = Some (attempted base now r it)
    else ob_items st'.2 !! k = Some it.
Proof.
  destruct st as [sink o]. cbn [snd]. intros Hok. unfold outbox_step. cbn [fst snd].
  pose proof (ready_items_elem o now) as Hr.
  destruct (process_items_spec base now (ready_items o now) sink o Hok (ready_items_NoDup o now Hok))
    as (sink' & o' & -> & Hok' & Hother & Hdone).
  { intros it [Hl Hd]%Hr; [|done]. split; [done|]. unfold is_due in Hd. to_prop.
    done. }
  cbn [fst snd]. split; [done|].
  assert (∀ k, k ∈ it_id <$> ready_items o now → ∃ it, k = it_id it ∧ ob_items o !! k = Some it ∧ is_due now it = true) as Hin.
  { intros k (it & -> & [Hl Hd]%Hr)%list_elem_of_fmap; [|done]. eauto. }
  split.
  - intros k Hk. rewrite Hother; [done|]. intros (it & _ & Hl & _)%Hin. congruence.
  - intros k it Hk. pose proof (proj1 (io_id _ _ (oo_items _ Hok _ _ Hk))) as Hid.
    destruct (is_due now it) eqn:Hd.
    + rewrite <- Hid. apply Hdone, Hr; [done|]. by rewrite Hid.
    + rewrite Hother; [done|]. intros (it' & _ & Hl & Hd')%Hin. congruence.
Qed.

(** A pending item after one more refusal, with its next due time. *)
Lemma attempted_pending base now r k it : item_ok k it → is_due now it = true →
  it_status (attempted base now r it) = Pending →
  it_attempts (attempted base now r it) = it_attempts it + 1 ∧
  it_next_attempt_at_ms (attempted base now r it) = wrap_i64 (now + backoff base (it_attempts it)).
Proof.
  intros Hok Hd. unfold is_due in Hd. apply andb_true_iff in Hd as [Hp%bool_decide_eq_true _].
  rewrite <- (proj1 (io_id _ _ Hok)) in Hok. destruct r as [[]|e]; cbn [attempted]; [done|].
  destruct (failed_item_exhausted it e now (backoff base (it_attempts it)) Hok Hp) as (_ & Ha & _ & _ & Hn).
  auto.
Qed.

Lemma attempted_max base now r it : it_max_attempts (attempted base now r it) = it_max_attempts it.
Proof. by destruct r. Qed.

Lemma backoff_bound base a : 10 ≤ base → base * 1024 ≤ i64_max → 0 ≤ a →
  0 ≤ backoff base a ≤ base * 1024.
Proof.
  intros Hb Hm Ha. unfold backoff, sat_i64.
  assert (0 < 2 ^ Z.min a 10) by (apply Z.pow_pos_nonneg; lia).
  assert (2 ^ Z.min a 10 ≤ 2 ^ 10) by (apply Z.pow_le_mono_r; lia).
  change (2 ^ 10) with 1024 in *. assert (i64_min < 0) by (unfold i64_min; lia). nia.
Qed.

(** Every pending item is due by [t] and has failed [n] times at least. *)
Definition pressed (t n cap : Z) (o : WebhookOutbox) : Prop :=
  ∀ k it, ob_items o !! k = Some it → it_max_attempts it ≤ cap ∧
    (it_status it = Pending → it_next_attempt_at_ms it ≤ t ∧ n ≤ it_attempts it).

Lemma step_presses base t gap n cap st : outbox_ok st.2 → 10 ≤ base → base * 1024 ≤ gap →
  0 ≤ t → t + gap ≤ i64_max → pressed t n cap st.2 →
  pressed (t + gap) (n + 1) cap (outbox_step base t st).1.2.
Proof.
  intros Hok Hb Hg Ht Hmax Hpr. destruct (outbox_step_spec base t st Hok) as (_ & Hnone & Hsome).
  cbv zeta in *. intros k it' Hk'.
  destruct (ob_items st.2 !! k) as [it|] eqn:Hk; [|rewrite Hnone in Hk' by done; done].
  destruct (Hpr k it Hk) as [Hcap Hpend]. specialize (Hsome k it Hk).
  pose proof (oo_items _ Hok _ _ Hk) as Hio.
  destruct (is_due t it) eqn:Hd.
  - destruct Hsome as [r Hr]. rewrite Hk' in Hr. injection Hr as ->. rewrite attempted_max.
    split; [done|]. intros Hp. destruct (attempted_pending base t r k it Hio Hd Hp) as [-> ->].
    unfold is_due in Hd. apply andb_true_iff in Hd as [Hp0%bool_decide_eq_true _].
    destruct (Hpend Hp0). destruct (io_attempts _ _ Hio).
    pose proof (backoff_bound base (it_attempts it) Hb ltac:(lia) ltac:(lia)).
    rewrite wrap_i64_id by (unfold in_i64, i64_min in *; lia). lia.
  - rewrite Hk' in Hsome. injection Hsome as ->. split; [done|]. intros Hp. destruct (Hpend Hp) as [Hdue _].
    exfalso. unfold is_due in Hd. rewrite bool_decide_eq_true_2 in Hd by done. cbn in Hd. to_prop. lia.
Qed.

(** Times [gap] apart. *)
Fixpoint spaced (n : nat) (t gap : Z) : list Z :=
  match n with O => [] | S n => t :: spaced n (t + gap) gap end.

Lemma steps_press base gap cap n t0 k st : outbox_ok st.2 → 10 ≤ base → base * 1024 ≤ gap →
  0 ≤ t0 → t0 + Z.of_nat n * gap ≤ i64_max → pressed t0 k cap st.2 →
  let st' := outbox_steps base (spaced n t0 gap) st in
  outbox_ok st'.2 ∧ pressed (t0 + Z.of_nat n * gap) (k + Z.of_nat n) cap st'.2.
Proof.
  revert t0 k st. induction n as [|n IH]; intros t0 k st Hok Hb Hg Ht Hmax Hp; cbn [spaced outbox_steps].
  { split; [done|]. by rewrite Z.mul_0_l, !Z.add_0_r. }
  destruct (outbox_step_spec base t0 st Hok) as (Hok' & _ & _).
  assert (0 ≤ Z.of_nat n * gap) by nia.
  destruct (IH (t0 + gap) (k + 1) (outbox_step base t0 st).1) as [Ho Hq]; [done|lia..| |].
  - apply step_presses; try done; lia.
  - split; [done|]. replace (t0 + Z.of_nat (S n) * gap) with (t0 + gap + Z.of_nat n * gap) by lia.
    by replace (k + Z.of_nat (S n)) with (k + 1 + Z.of_nat n) by lia.
Qed.

(** ** Properties *)

(** A drain step attempts every due pending delivery and no other: an
    accepted one becomes delivered, a refused one is rescheduled or, its attempts
    used up, parked; the counters stay the numbers of delivered and parked items
    and no item exceeds its attempts. *)
Theorem outbox_step_attempts base now st : outbox_ok st.2 →
  let st' := (outbox_step base now st).1 in outbox_ok st'.2 ∧
  (∀ k, ob_items st.2 !! k = None → ob_items st'.2 !! k = None) ∧
  ∀ k it, ob_items st.2 !! k = Some it →
    if is_due now it then ∃ r, ob_items st'.2 !! k = Some (attempted base now r it)
    else ob_items st'.2 !! k = Some it.
Proof. apply outbox_step_spec. Qed.

(** C19. The outbox drains whatever the receiver answers: after as many steps as
    the largest attempt limit, spaced by the longest backoff, no delivery is
    pending any more. Each one was delivered, or parked with all its attempts
    used. *)
Theorem outbox_drains base gap t0 cap st : outbox_ok st.2 → 10 ≤ base → base * 1024 ≤ gap →
  0 ≤ t0 → t0 + Z.of_nat cap * gap ≤ i64_max →
  (∀ k it, ob_items st.2 !! k = Some it → it_max_attempts it ≤ Z.of_nat cap ∧
     (it_status it = Pending → it_next_attempt_at_ms it ≤ t0)) →
  ∀ k it, ob_items (outbox_steps base (spaced cap t0 gap) st).2 !! k = Some it →
    it_status it = Delivered ∨ (it_status it = DeadLetter ∧ it_attempts it = it_max_attempts it).
Proof.
  intros Hok Hb Hg Ht Hmax Hall k it Hk.
  destruct (steps_press base gap (Z.of_nat cap) cap t0 0 st) as [Hok' Hp]; try done.
  { intros k' it' Hk'. destruct (Hall k' it' Hk') as [? Hn]. split; [done|]. intros Hpend.
    split; [by apply Hn|]. by destruct (io_attempts _ _ (oo_items _ Hok _ _ Hk')). }
  pose proof (oo_items _ Hok' _ _ Hk) as [_ _ Ha Hs]. destruct (Hp k it Hk) as [Hc Hpend].
  destruct (it_status it); [|by left|right; split; [done|by apply Hs]].
  destruct Hpend as [_ Hn]; [done|].
  assert (it_attempts it = it_max_attempts it) as E%Hs by lia. done.
Qed.
End Steps.

Lemma outbox_new_ok : outbox_ok outbox_new.
Proof. split; [apply map_Forall_empty|done..]. Qed.

Lemma enqueue_ok o d m now : outbox_ok o → m ≤ u32_max → outbox_ok (enqueue o d m now).
Proof.
  intros [Hi Hd Hl] Hm. unfold enqueue. destruct (ob_items o !! dl_id d) as [it|] eqn:E; [done|].
  split; cbn [with_items ob_items ob_delivered_count ob_dead_letter_count].
  - apply map_Forall_insert_2; [|done]. split; cbn [it_id it_delivery it_max_attempts it_attempts it_status];
      [done|unfold u32_max in *; lia..|]. split; [done|lia].
  - rewrite count_status_fresh, Hd by done. cbn [it_status].
    rewrite bool_decide_eq_false_2 by done. by rewrite Z.add_0_r.
  - rewrite count_status_fresh, Hl by done. cbn [it_status].
    rewrite bool_decide_eq_false_2 by done. by rewrite Z.add_0_r.
Qed.

(** A sink that refuses everything, counting. *)
#[local] Instance refusing_sink : WebhookSink Z := fun k _ => (k + 1, Err "connection refused").

Definition sample_delivery (id url : string) : Delivery :=
  {| dl_id := id; dl_url := url; dl_headers := ∅; dl_body_json := "{}" |}.

Definition one_queued : WebhookOutbox := enqueue outbox_new (sample_delivery "dlv_1" "http://h/a") 3 1000.

Lemma one_queued_ok : outbox_ok one_queued.
Proof. apply enqueue_ok; [apply outbox_new_ok|done]. Qed.

Lemma one_queued_item k it : ob_items one_queued !! k = Some it →
  it_max_attempts it = 3 ∧ it_next_attempt_at_ms it = 1000.
Proof.
  unfold one_queued, enqueue. cbn [outbox_new ob_items]. rewrite lookup_empty. cbn [with_items ob_items].
  intros [[_ <-]|[_ []%lookup_empty_Some]]%lookup_insert_Some. done.
Qed.

Lemma outbox_step_attempts_witness :
  outbox_ok (outbox_step 100 1000 (0, one_queued)).1.2 ∧
  it_attempts <$> ob_items (outbox_step 100 1000 (0, one_queued)).1.2 !! "dlv_1" = Some 1.
Proof.
  split; [|vm_compute; reflexivity].
  exact (proj1 (outbox_step_attempts 100 1000 (0, one_queued) one_queued_ok)).
Defined.

Lemma outbox_drains_witness :
  match ob_items (outbox_steps 100 (spaced 3 1000 102400) (0, one_queued)).2 !! "dlv_1" with
  | Some it => it_status it = Delivered ∨ (it_status it = DeadLetter ∧ it_attempts it = it_max_attempts it)
  | None => False
  end.
Proof.
  assert (∀ k it, ob_items (outbox_steps 100 (spaced 3 1000 102400) (0, one_queued)).2 !! k = Some it →
    it_status it = Delivered ∨ (it_status it = DeadLetter ∧ it_attempts it = it_max_attempts it)) as Hd.
  { apply (outbox_drains 100 102400 1000 3 (0, one_queued)).
    - exact one_queued_ok.
    - discriminate.
    - discriminate.
    - discriminate.
    - vm_compute. discriminate.
    - intros k it Hk. destruct (one_queued_item k it Hk) as [-> ->]. split; [discriminate|].
      intros _. discriminate. }
  specialize (Hd "dlv_1"). destruct (ob_items _ !! "dlv_1") as [it|] eqn:E; [exact (Hd it eq_refl)|].
  vm_compute in E. discriminate.
Defined.

(** All hooks of one event share a delivery id, and the outbox keeps the
    first delivery of an id: with two webhooks on an event, the second target is
    never queued. *)
Theorem second_hook_dropped `{EventCodec} def kind ev ds stats o m now d1 d2 rest :
  build_deliveries def kind ev = (Some ds, stats) → ds = d1 :: d2 :: rest →
  let o' := enqueue (enqueue o d1 m now) d2 m now in
  dl_id d2 = dl_id d1 ∧ o' = enqueue o d1 m now.
Proof.
  intros E ->. destruct (build_deliveries_spec def kind ev) as (ds & st & E' & _ & _ & Hf & _).
  rewrite E in E'. injection E' as <- <-. apply Forall_cons in Hf as [[H1 _] Hf].
  apply Forall_cons in Hf as [[H2 _] _]. assert (dl_id d2 = dl_id d1) as Hid by congruence.
  cbv zeta. split; [done|]. unfold enqueue at 1. rewrite Hid.
  assert (is_Some (ob_items (enqueue o d1 m now) !! dl_id d1)) as [it ->]; [|done].
  unfold enqueue. destruct (ob_items o !! dl_id d1) as [it|] eqn:Ei; [by rewrite Ei|].
  cbn [with_items ob_items]. by rewrite lookup_insert_eq.
Qed.

Definition two_hooks : WorkflowDef := {|
  wd_id := "wf_0"; wd_tenant := "acme"; wd_name := "ship"; wd_version := 1; wd_description := "";
  wd_tasks := []; wd_timeout_ms := wd_timeout_ms workflow_default;
  wd_retry := wd_retry workflow_default;
  wd_default_priority := wd_default_priority workflow_default;
  wd_hooks := {| on_start := [];
    on_success := [{| webhook_url := Some "http://h/a"; event_filter := None; headers := ∅ |};
                   {| webhook_url := Some "http://h/b"; event_filter := None; headers := ∅ |}];
    on_failure := []; on_cancel := [] |};
  wd_tags := ∅; wd_spec_version := 1; wd_created_at_ms := 0; wd_updated_at_ms := 0 |}.

Lemma second_hook_dropped_witness :
  let codec := {| sha256_hex := fun s => s; event_text := ev_kind |} in
  let ev := from_run sample_run RunSucceeded 0 in
  ∃ d1 d2, dl_url d1 = "http://h/a" ∧ dl_url d2 = "http://h/b" ∧
  enqueue (enqueue outbox_new d1 3 0) d2 3 0 = enqueue outbox_new d1 3 0.
Proof.
  intros codec ev.
  pose (d u := {| dl_id := delivery_id (H := codec) (ev_run_id ev) RunSucceeded (ev_tenant ev) (ev_def_name ev);
                  dl_url := u; dl_headers := ∅ : gmap string string; dl_body_json := "run.succeeded" |}).
  exists (d "http://h/a"), (d "http://h/b"). split; [reflexivity|]. split; [reflexivity|].
  exact (proj2 (second_hook_dropped (H := codec) two_hooks RunSucceeded ev
    [d "http://h/a"; d "http://h/b"] {| ms_matched := 2; ms_filtered := 0; ms_no_url := 0 |}
    outbox_new 3 0 (d "http://h/a") (d "http://h/b") [] eq_refl eq_refl)).
Defined.
