(* ===== verification/Watcher.v ===== *)
(** * The event watcher (src/src/events/watcher.rs)

    A poll compares the listed runs with two watermarks, dispatches the starts
    and then the finishes that crossed them, and moves the watermarks to the
    newest timestamps of the batch. *)
From S2P Require Import Prelude RustStrings Text Ids Status Errors Json Workflow Store MemoryStore Events.
Local Open Scope Z_scope.

Record WatchStats := { wt_started : nat; wt_finished : nat; wt_dispatched : nat }.
Definition watch_default : WatchStats := {| wt_started := 0; wt_finished := 0; wt_dispatched := 0 |}.

Record Cursor := { cu_started_ms : Z; cu_finished_ms : Z }.

Record Watcher (K : Type) := { wa_dispatcher : Dispatcher K; wa_cursor : Cursor }.
Arguments wa_dispatcher {K}.
Arguments wa_cursor {K}.

Definition watcher_new {K} (d : Dispatcher K) (boot_ms : Z) : Watcher K :=
  {| wa_dispatcher := d; wa_cursor := {| cu_started_ms := boot_ms; cu_finished_ms := boot_ms |} |}.

(** [with_sink], with the clock's reading. *)
Definition with_sink {K} (sink : K) (now_ms : Z) : Watcher K := watcher_new (dispatcher_new sink) now_ms.

(** An event to dispatch: its timestamp, kind and run. *)
Definition Event : Type := Z * EventKind * Run.

Definition ev_at (e : Event) : Z := e.1.1.

(** The sort keys [(at, r.id.clone())]. *)
Definition event_le (a b : Event) : bool :=
  (ev_at a <? ev_at b) || ((ev_at a =? ev_at b) && String.leb (rn_id a.2) (rn_id b.2)).

Definition started_event (r : Run) : option Event :=
  if bool_decide (rn_status r = RunStatus.Running)
  then (fun at_ms => (at_ms, RunStarted, r)) <$> rn_started_at_ms r else None.

Definition finished_event (r : Run) : option Event :=
  match rn_finished_at_ms r with
  | Some at_ms => (fun kind => (at_ms, kind, r)) <$> terminal_kind_for (rn_status r)
  | None => None
  end.

(** The candidates of a poll past a watermark, in delivery order. *)
Definition candidates (select : Run → option Event) (mark : Z) (runs : list Run) : list Event :=
  sort_by event_le (List.filter (fun e => mark <? ev_at e) (omap select runs)).

(** [if let Some((at, _)) = batch.last() { mark = *at }] *)
Definition advance_mark (mark : Z) (batch : list Event) : Z :=
  match last batch with Some e => ev_at e | None => mark end.

Section Poll.
Context {S K : Type} `{Store S} `{WebhookSink K} `{EventCodec}.

(** [Watcher::dispatch]: without a definition the event is dropped. [None] is a
    panic inside the dispatcher. *)
Definition dispatch_event (now_ms : Z) (st : option (S * Dispatcher K)) (e : Event)
    : option (S * Dispatcher K) :=
  match st with
  | None => None
  | Some (s, d) =>
      let '(_, kind, run) := e in
      match call (GetWorkflow (rn_tenant run) (rn_def_name run)) s with
      | (s, Ok rec) =>
          match dispatch d (wr_def rec) kind (from_run run kind now_ms) with
          | Some (d, _) => Some (s, d)
          | None => None
          end
      | (s, Err _) => Some (s, d)
      end
  end.

Definition poll (w : Watcher K) (now_ms : Z) (s : S) : option (S * Watcher K * WatchStats) :=
  match call (ListRuns filter_default) s with
  | (s, Err _) => Some (s, w, watch_default)
  | (s, Ok runs) =>
      let started := candidates started_event (cu_started_ms (wa_cursor w)) runs in
      let finished := candidates finished_event (cu_finished_ms (wa_cursor w)) runs in
      match foldl (dispatch_event now_ms) (Some (s, wa_dispatcher w)) (started ++ finished) with
      | None => None
      | Some (s, d) =>
          Some (s,
            {| wa_dispatcher := d;
               wa_cursor := {| cu_started_ms := advance_mark (cu_started_ms (wa_cursor w)) started;
                               cu_finished_ms := advance_mark (cu_finished_ms (wa_cursor w)) finished |} |},
            {| wt_started := length started; wt_finished := length finished;
               wt_dispatched := length started + length finished |})
      end
  end.
End Poll.

(** ** Watermarks over a sequence of polls *)

(** The batches of one stream over successive listings. *)
Fixpoint batches (select : Run → option Event) (mark : Z) (polls : list (list Run)) : list (list Event) :=
  match polls with
  | [] => []
  | runs :: rest =>
      let batch := candidates select mark runs in
      batch :: batches select (advance_mark mark batch) rest
  end.

#[local] Instance event_le_trans : Transitive (fun a b => Is_true (event_le a b)).
Proof.
  intros a b c. unfold event_le. rewrite !Is_true_true, !orb_true_iff, !andb_true_iff, !Z.ltb_lt, !Z.eqb_eq.
  intros [?|[? H1]] [?|[? H2]]; [left; lia..|right]. split; [lia|].
  apply Is_true_true_1. eapply (leb_trans (rn_id a.2)); apply Is_true_true_2; done.
Qed.

#[local] Instance event_le_total : Total (fun a b => Is_true (event_le a b)).
Proof.
  intros a b. unfold event_le. rewrite !Is_true_true, !orb_true_iff, !andb_true_iff, !Z.ltb_lt, !Z.eqb_eq.
  destruct (Z.lt_trichotomy (ev_at a) (ev_at b)) as [?|[?|?]]; [left; by left| |right; by left].
  destruct (leb_total_inst (rn_id a.2) (rn_id b.2)) as [Hl|Hl]; apply Is_true_true_1 in Hl;
    [left|right]; right; split; (done || lia).
Qed.

Lemma candidates_elem select mark runs e :
  e ∈ candidates select mark runs ↔ (∃ r, r ∈ runs ∧ select r = Some e) ∧ mark < ev_at e.
Proof.
  unfold candidates. rewrite sort_by_elem, list_elem_of_In, filter_In, <- list_elem_of_In, list_elem_of_omap.
  by rewrite Z.ltb_lt.
Qed.

(** The watermark reaches every timestamp of the batch and never moves back. *)
Lemma advance_mark_spec select mark runs :
  mark ≤ advance_mark mark (candidates select mark runs) ∧
  (∀ e, e ∈ candidates select mark runs → ev_at e ≤ advance_mark mark (candidates select mark runs)) ∧
  (advance_mark mark (candidates select mark runs) = mark ∨
   ∃ e, e ∈ candidates select mark runs ∧ ev_at e = advance_mark mark (candidates select mark runs)).
Proof.
  unfold advance_mark. destruct (last (candidates select mark runs)) as [e|] eqn:E.
  2: { apply last_None in E. rewrite E. split_and!; [lia|by intros ? ?%elem_of_nil|by left]. }
  assert (e ∈ candidates select mark runs) as He by (by apply last_Some_elem_of).
  split_and!; [apply candidates_elem in He as [_ ?]; lia| |right; eauto].
  intros e' He'.
  assert (StronglySorted (fun a b => Is_true (event_le a b)) (candidates select mark runs)) as Hs.
  { apply sort_by_sorted; apply _. }
  apply last_Some in E as [l E]. rewrite E in Hs, He'. apply elem_of_app in He' as [He'|He'].
  - pose proof (StronglySorted_app_1_elem_of _ _ _ _ _ Hs He' (list_elem_of_here _ _)) as Hle.
    apply Is_true_true_1 in Hle. unfold event_le in Hle. lia.
  - apply list_elem_of_singleton in He' as ->. lia.
Qed.

Lemma batches_above select mark polls j e :
  e ∈ batches select mark polls !!! j → mark < ev_at e.
Proof.
  revert mark j. induction polls as [|runs polls IH]; intros mark j He; [by apply elem_of_nil in He|].
  destruct j as [|j]; [by apply candidates_elem in He as [_ ?]|].
  change (e ∈ batches select (advance_mark mark (candidates select mark runs)) polls !!! j) in He.
  apply IH in He. destruct (advance_mark_spec select mark runs) as [? _]. lia.
Qed.

(** Later batches are strictly newer. *)
Lemma batches_increase select mark polls i j e e' : (i < j)%nat →
  e ∈ batches select mark polls !!! i → e' ∈ batches select mark polls !!! j → ev_at e < ev_at e'.
Proof.
  revert mark i j. induction polls as [|runs polls IH]; intros mark i j Hij He He'; [by apply elem_of_nil in He|].
  destruct j as [|j]; [lia|].
  change (e' ∈ batches select (advance_mark mark (candidates select mark runs)) polls !!! j) in He'.
  destruct i as [|i]; [|exact (IH _ i j (proj2 (Nat.succ_lt_mono _ _) Hij) He He')].
  change (e ∈ candidates select mark runs) in He. apply batches_above in He'.
  destruct (advance_mark_spec select mark runs) as (_ & Hle & _). specialize (Hle e He). lia.
Qed.

(** An event that crosses the mark is in the first batch whose listing has it,
    when earlier listings only hold older events. *)
Lemma batches_complete select mark polls j r e : r ∈ polls !!! j → select r = Some e → mark < ev_at e →
  (∀ i r' e', (i < j)%nat → r' ∈ polls !!! i → select r' = Some e' → r ∈ polls !!! i ∨ ev_at e' < ev_at e) →
  ∃ i, (i ≤ j)%nat ∧ e ∈ batches select mark polls !!! i.
Proof.
  revert mark j. induction polls as [|runs polls IH]; intros mark j Hr Hs Hm Hlate; [by apply elem_of_nil in Hr|].
  assert (r ∈ runs → ∃ i, (i ≤ j)%nat ∧ e ∈ batches select mark (runs :: polls) !!! i) as Hnow.
  { intros Hin. exists 0%nat. split; [lia|].
    change (e ∈ candidates select mark runs). apply candidates_elem. eauto. }
  destruct j as [|j]; [by apply Hnow|].
  destruct (decide (Forall (fun e' => ev_at e' < ev_at e) (omap select runs))) as [Hold|Hnew].
  - change (r ∈ polls !!! j) in Hr. rewrite Forall_forall in Hold.
    destruct (IH (advance_mark mark (candidates select mark runs)) j) as (i & Hi & He); [done..| | |].
    + destruct (advance_mark_spec select mark runs) as (_ & _ & [->|(e' & He' & <-)]); [done|].
      apply Hold, list_elem_of_omap. by apply candidates_elem in He' as [? _].
    + intros i r' e' Hi Hr' Hs'. apply (Hlate (S i) r' e'); [lia|done..].
    + exists (S i). split; [lia|done].
  - apply not_Forall_Exists, Exists_exists in Hnew as (e' & (r' & Hr' & Hs')%list_elem_of_omap & Hge); [|apply _].
    destruct (Hlate 0%nat r' e') as [Hin|]; [lia|done..|by apply Hnow|done].
Qed.

Section Polls.
Context {S K : Type} `{Store S} `{WebhookSink K} `{EventCodec}.

Lemma dispatch_events_total now evs s (d : Dispatcher K) :
  ∃ s' d', foldl (dispatch_event now) (Some (s, d)) evs = Some (s', d').
Proof.
  revert s d. induction evs as [|[[at_ms kind] run] evs IH]; intros s d; cbn [foldl]; [eauto|].
  unfold dispatch_event at 2. destruct (call _ s) as [s1 [rec|err]]; [|apply IH].
  unfold dispatch.
  destruct (build_deliveries_spec (wr_def rec) kind (from_run run kind now)) as (ds & st & -> & _). apply IH.
Qed.

Lemma poll_total (w : Watcher K) now s : ∃ s' w' st, poll w now s = Some (s', w', st).
Proof.
  unfold poll. destruct (call (ListRuns filter_default) s) as [s1 [runs|err]]; [|eauto].
  destruct (dispatch_events_total now
    (candidates started_event (cu_started_ms (wa_cursor w)) runs ++
     candidates finished_event (cu_finished_ms (wa_cursor w)) runs) s1 (wa_dispatcher w)) as (s' & d' & ->).
  eauto.
Qed.

Lemma poll_stats (w : Watcher K) now s s1 runs s' w' st :
  call (ListRuns filter_default) s = (s1, Ok runs) → poll w now s = Some (s', w', st) →
  wt_started st = length (candidates started_event (cu_started_ms (wa_cursor w)) runs) ∧
  wt_finished st = length (candidates finished_event (cu_finished_ms (wa_cursor w)) runs) ∧
  wt_dispatched st = (wt_started st + wt_finished st)%nat ∧
  cu_started_ms (wa_cursor w') = advance_mark (cu_started_ms (wa_cursor w))
    (candidates started_event (cu_started_ms (wa_cursor w)) runs) ∧
  cu_finished_ms (wa_cursor w') = advance_mark (cu_finished_ms (wa_cursor w))
    (candidates finished_event (cu_finished_ms (wa_cursor w)) runs).
Proof.
  intros Hl. unfold poll. rewrite Hl. destruct (foldl _ _ _) as [[s2 d2]|]; [|done].
  intros [= <- <- <-]. done.
Qed.

Lemma candidates_again select mark runs :
  candidates select (advance_mark mark (candidates select mark runs)) runs = [].
Proof.
  apply elem_of_nil_inv. intros e [Hs Hgt]%candidates_elem.
  destruct (advance_mark_spec select mark runs) as (Hm & Hle & _).
  assert (e ∈ candidates select mark runs) as He%Hle by (apply candidates_elem; split; [done|lia]). lia.
Qed.

(** ** Properties *)

(** C20. A poll never panics, and a second poll over the same runs dispatches
    nothing, whatever the sink answered and whether or not the definitions were
    found: each event is offered once, and a refused delivery is not observed
    again. *)
Theorem poll_offers_once (w : Watcher K) now s s1 runs :
  call (ListRuns filter_default) s = (s1, Ok runs) →
  ∃ s' w' st, poll w now s = Some (s', w', st) ∧
  ∀ now2 s2, call (ListRuns filter_default) s' = (s2, Ok runs) →
  ∃ s'' w'' st2, poll w' now2 s' = Some (s'', w'', st2) ∧ wt_dispatched st2 = 0%nat.
Proof.
  intros Hl. destruct (poll_total w now s) as (s' & w' & st & Hp). exists s', w', st. split; [done|].
  intros now2 s2 Hl2. destruct (poll_total w' now2 s') as (s'' & w'' & st2 & Hp2).
  exists s'', w'', st2. split; [done|].
  destruct (poll_stats w now s s1 runs s' w' st Hl Hp) as (_ & _ & _ & Hc1 & Hc2).
  destruct (poll_stats w' now2 s' s2 runs s'' w'' st2 Hl2 Hp2) as (Hs & Hf & -> & _).
  rewrite Hc1, candidates_again in Hs. rewrite Hc2, candidates_again in Hf. by rewrite Hs, Hf.
Qed.
End Polls.

(** Over successive polls a stream of events (starts or finishes) is emitted
    in strictly increasing timestamps from one poll to the next, so nothing is
    emitted twice, and every event newer than the boot watermark is emitted by
    the first poll that lists its run, provided no run shows up behind a
    timestamp that was already listed. *)
Theorem watch_stream select boot polls :
  (∀ i j e e', (i < j)%nat → e ∈ batches select boot polls !!! i → e' ∈ batches select boot polls !!! j →
     ev_at e < ev_at e') ∧
  (∀ j r e, r ∈ polls !!! j → select r = Some e → boot < ev_at e →
     (∀ i r' e', (i < j)%nat → r' ∈ polls !!! i → select r' = Some e' →
        r ∈ polls !!! i ∨ ev_at e' < ev_at e) →
     ∃ i, (i ≤ j)%nat ∧ e ∈ batches select boot polls !!! i).
Proof.
  split; [intros i j e e'; apply batches_increase|]. intros j r e Hr Hs Hb Hl.
  exact (batches_complete select boot polls j r e Hr Hs Hb Hl).
Qed.

(** A run that finished at the given time. *)
Definition done_run (id : string) (at_ms : Z) : Run :=
  {| rn_id := id; rn_tenant := "acme"; rn_def_name := "ship"; rn_def_version := 1; rn_input := JNull;
     rn_status := RunStatus.Succeeded; rn_attempts := 1; rn_next_attempt_at_ms := None;
     rn_deadline_at_ms := None; rn_started_at_ms := Some (at_ms - 10); rn_finished_at_ms := Some at_ms;
     rn_error := None; rn_output := None; rn_tags := ∅; rn_created_at_ms := 0; rn_run_number := 1 |}.

(** Two events are lost. A run that finishes in the same millisecond as one
    already seen but is stored after that poll is never announced; and a run that
    both starts and finishes between two polls gets no start event. *)
Theorem watch_misses :
  (finished_event (done_run "rn_b" 100) = Some (100, RunSucceeded, done_run "rn_b" 100) ∧
   batches finished_event 0 [[done_run "rn_a" 100]; [done_run "rn_a" 100; done_run "rn_b" 100]] =
     [[(100, RunSucceeded, done_run "rn_a" 100)]; []]) ∧
  (∀ mark, candidates started_event mark [done_run "rn_a" 100] = []).
Proof. split; [split; reflexivity|]. intros mark. reflexivity. Qed.

(** A store with one finished run and no definition; a sink that refuses. *)
Definition watched : MemoryState := set_runs {["rn_a"%string := done_run "rn_a" 100]} mem_new.

Lemma poll_offers_once_witness :
  ∃ s' w' st, poll (S := MemoryState) (H1 := {| sha256_hex := fun s => s; event_text := ev_kind |})
    (with_sink (@nil Delivery) 0) 200 watched = Some (s', w', st) ∧ wt_dispatched st = 1%nat ∧
  ∃ s'' w'' st2, poll (S := MemoryState) (H1 := {| sha256_hex := fun s => s; event_text := ev_kind |})
    w' 300 s' = Some (s'', w'', st2) ∧ wt_dispatched st2 = 0%nat.
Proof.
  destruct (poll_offers_once (S := MemoryState) (H1 := {| sha256_hex := fun s => s; event_text := ev_kind |})
    (with_sink (@nil Delivery) 0) 200 watched watched [done_run "rn_a" 100] eq_refl)
    as (s' & w' & st & Hp & Hnext).
  exists s', w', st. split; [exact Hp|].
  assert (s' = watched ∧ wt_dispatched st = 1%nat) as [-> Hst].
  { vm_compute in Hp. injection Hp as <- <- <-. split; reflexivity. }
  split; [exact Hst|]. exact (Hnext 300 watched eq_refl).
Defined.
