(* ===== verification/AuditLog.v ===== *)
(** * The audit trail (src/src/audit/mod.rs, src/src/audit/memory.rs, src/src/audit/file.rs)

    Audit records, the query filter, and the two loggers behind the
    [AuditLogger] trait: a bounded ring buffer and an append-only file of JSON
    lines. The JSON text of a record is serde_json's, the class [RecordCodec]. *)
From S2P Require Import Prelude RustStrings Text Ids Json.
Local Open Scope Z_scope.

Inductive AuditActor :=
| System (component : string)
| User (username role : string)
| Token (token_id tenant_id role : string)
| Anonymous (client_ip : option string).

Definition kind_str (a : AuditActor) : string :=
  match a with
  | System _ => "system"
  | User _ _ => "user"
  | Token _ _ _ => "token"
  | Anonymous _ => "anonymous"
  end.

Inductive AuditAction :=
| WorkflowCreated (name : string) (version : Z)
| WorkflowUpdated (name : string) (version : Z)
| WorkflowDeleted (name : string)
| RunSubmitted (run_id workflow_name : string)
| AuditRunCancelled (run_id reason : string)
| RunRetried (run_id : string) (attempt : Z)
| AuthFailed (reason : string) (client_ip : option string)
| TokenCreated (token_id role : string)
| TokenRevoked (token_id : string)
| LeaseReaped (count : Z)
| RetentionPurged (count : Z)
| Custom (name : string).

Definition action_name (a : AuditAction) : string :=
  match a with
  | WorkflowCreated _ _ => "workflow_created"
  | WorkflowUpdated _ _ => "workflow_updated"
  | WorkflowDeleted _ => "workflow_deleted"
  | RunSubmitted _ _ => "run_submitted"
  | AuditRunCancelled _ _ => "run_cancelled"
  | RunRetried _ _ => "run_retried"
  | AuthFailed _ _ => "auth_failed"
  | TokenCreated _ _ => "token_created"
  | TokenRevoked _ => "token_revoked"
  | LeaseReaped _ => "lease_reaped"
  | RetentionPurged _ => "retention_purged"
  | Custom _ => "custom"
  end.

Inductive AuditOutcome :=
| Success
| Denied (reason : string)
| AuditErr (message : string).

Definition is_success (o : AuditOutcome) : bool := match o with Success => true | _ => false end.

Definition status_str (o : AuditOutcome) : string :=
  match o with Success => "success" | Denied _ => "denied" | AuditErr _ => "error" end.

Record AuditRecord := {
  au_id : string;
  au_timestamp_ms : Z;
  au_tenant : option string;
  au_actor : AuditActor;
  au_action : AuditAction;
  au_outcome : AuditOutcome;
  au_resource_type : string;
  au_resource_id : option string;
  au_metadata : gmap string Json
}.

Definition record_new (id : string) (timestamp_ms : Z) (actor : AuditActor)
    (action : AuditAction) (outcome : AuditOutcome) (resource_type : string) : AuditRecord :=
  {| au_id := id; au_timestamp_ms := timestamp_ms; au_tenant := None; au_actor := actor;
     au_action := action; au_outcome := outcome; au_resource_type := resource_type;
     au_resource_id := None; au_metadata := ∅ |}.

Definition record_with_tenant (r : AuditRecord) (tenant : string) : AuditRecord :=
  {| au_id := au_id r; au_timestamp_ms := au_timestamp_ms r; au_tenant := Some tenant;
     au_actor := au_actor r; au_action := au_action r; au_outcome := au_outcome r;
     au_resource_type := au_resource_type r; au_resource_id := au_resource_id r;
     au_metadata := au_metadata r |}.

Definition record_with_resource_id (r : AuditRecord) (resource_id : string) : AuditRecord :=
  {| au_id := au_id r; au_timestamp_ms := au_timestamp_ms r; au_tenant := au_tenant r;
     au_actor := au_actor r; au_action := au_action r; au_outcome := au_outcome r;
     au_resource_type := au_resource_type r; au_resource_id := Some resource_id;
     au_metadata := au_metadata r |}.

Definition record_with_meta (r : AuditRecord) (key : string) (value : Json) : AuditRecord :=
  {| au_id := au_id r; au_timestamp_ms := au_timestamp_ms r; au_tenant := au_tenant r;
     au_actor := au_actor r; au_action := au_action r; au_outcome := au_outcome r;
     au_resource_type := au_resource_type r; au_resource_id := au_resource_id r;
     au_metadata := <[key := value]> (au_metadata r) |}.

(** ** Filters *)

Record AuditFilter := {
  af_tenant : option string;
  af_actor_kind : option string;
  af_action_name : option string;
  af_status : option string;
  af_resource_type : option string;
  af_resource_id : option string;
  af_since_ms : option Z;
  af_until_ms : option Z;
  af_limit : nat;
  af_offset : nat
}.

(** [#[derive(Default)]], and [AuditFilter::new] with its limit of 50. *)
Definition audit_filter_default : AuditFilter :=
  {| af_tenant := None; af_actor_kind := None; af_action_name := None; af_status := None;
     af_resource_type := None; af_resource_id := None; af_since_ms := None; af_until_ms := None;
     af_limit := 0; af_offset := 0 |}.

Definition audit_filter_new : AuditFilter :=
  {| af_tenant := None; af_actor_kind := None; af_action_name := None; af_status := None;
     af_resource_type := None; af_resource_id := None; af_since_ms := None; af_until_ms := None;
     af_limit := 50; af_offset := 0 |}.

Definition filter_with_tenant (f : AuditFilter) (tenant : string) : AuditFilter :=
  {| af_tenant := Some tenant; af_actor_kind := af_actor_kind f;
     af_action_name := af_action_name f; af_status := af_status f;
     af_resource_type := af_resource_type f; af_resource_id := af_resource_id f;
     af_since_ms := af_since_ms f; af_until_ms := af_until_ms f; af_limit := af_limit f;
     af_offset := af_offset f |}.

Definition filter_with_actor_kind (f : AuditFilter) (kind : string) : AuditFilter :=
  {| af_tenant := af_tenant f; af_actor_kind := Some kind; af_action_name := af_action_name f;
     af_status := af_status f; af_resource_type := af_resource_type f;
     af_resource_id := af_resource_id f; af_since_ms := af_since_ms f;
     af_until_ms := af_until_ms f; af_limit := af_limit f; af_offset := af_offset f |}.

Definition filter_with_action_name (f : AuditFilter) (action : string) : AuditFilter :=
  {| af_tenant := af_tenant f; af_actor_kind := af_actor_kind f;
     af_action_name := Some action; af_status := af_status f;
     af_resource_type := af_resource_type f; af_resource_id := af_resource_id f;
     af_since_ms := af_since_ms f; af_until_ms := af_until_ms f; af_limit := af_limit f;
     af_offset := af_offset f |}.

Definition filter_with_status (f : AuditFilter) (status : string) : AuditFilter :=
  {| af_tenant := af_tenant f; af_actor_kind := af_actor_kind f;
     af_action_name := af_action_name f; af_status := Some status;
     af_resource_type := af_resource_type f; af_resource_id := af_resource_id f;
     af_since_ms := af_since_ms f; af_until_ms := af_until_ms f; af_limit := af_limit f;
     af_offset := af_offset f |}.

Definition filter_with_resource_type (f : AuditFilter) (rtype : string) : AuditFilter :=
  {| af_tenant := af_tenant f; af_actor_kind := af_actor_kind f;
     af_action_name := af_action_name f; af_status := af_status f;
     af_resource_type := Some rtype; af_resource_id := af_resource_id f;
     af_since_ms := af_since_ms f; af_until_ms := af_until_ms f; af_limit := af_limit f;
     af_offset := af_offset f |}.

(** [filter.resource_id = Some(id)] *)
Definition filter_set_resource_id (f : AuditFilter) (id : string) : AuditFilter :=
  {| af_tenant := af_tenant f; af_actor_kind := af_actor_kind f; af_action_name := af_action_name f;
     af_status := af_status f; af_resource_type := af_resource_type f; af_resource_id := Some id;
     af_since_ms := af_since_ms f; af_until_ms := af_until_ms f; af_limit := af_limit f;
     af_offset := af_offset f |}.

Definition with_time_range (f : AuditFilter) (since until_ : option Z) : AuditFilter :=
  {| af_tenant := af_tenant f; af_actor_kind := af_actor_kind f;
     af_action_name := af_action_name f; af_status := af_status f;
     af_resource_type := af_resource_type f; af_resource_id := af_resource_id f;
     af_since_ms := since; af_until_ms := until_; af_limit := af_limit f;
     af_offset := af_offset f |}.

Definition with_pagination (f : AuditFilter) (limit offset : nat) : AuditFilter :=
  {| af_tenant := af_tenant f; af_actor_kind := af_actor_kind f; af_action_name := af_action_name f;
     af_status := af_status f; af_resource_type := af_resource_type f;
     af_resource_id := af_resource_id f; af_since_ms := af_since_ms f; af_until_ms := af_until_ms f;
     af_limit := Nat.min (Nat.max limit 1) (Z.to_nat 1000); af_offset := offset |}.

Definition opt_is {A} `{EqDecision A} (o : option A) (a : A) : bool := bool_decide (o = Some a).

(** [AuditFilter::matches]: every condition that is set must hold. *)
Definition audit_matches (f : AuditFilter) (r : AuditRecord) : bool :=
  match af_tenant f with Some t => opt_is (au_tenant r) t | None => true end &&
  match af_actor_kind f with Some k => bool_decide (kind_str (au_actor r) = k) | None => true end &&
  match af_action_name f with Some a => bool_decide (action_name (au_action r) = a) | None => true end &&
  match af_status f with Some s => bool_decide (status_str (au_outcome r) = s) | None => true end &&
  match af_resource_type f with Some t => bool_decide (au_resource_type r = t) | None => true end &&
  match af_resource_id f with Some i => opt_is (au_resource_id r) i | None => true end &&
  match af_since_ms f with Some s => negb (au_timestamp_ms r <? s) | None => true end &&
  match af_until_ms f with Some u => negb (u <? au_timestamp_ms r) | None => true end.

(** [iter().skip(offset).take(limit)] *)
Definition page (f : AuditFilter) (l : list AuditRecord) : list AuditRecord :=
  take (af_limit f) (drop (af_offset f) l).

(** ** The trait and its backends *)

(** [AuditError], with the texts of the wrapped errors. *)
Inductive AuditError := AuditIo (e : string) | AuditSerialization (e : string) | AuditStorage (e : string).

Definition audit_error_text (e : AuditError) : string :=
  match e with
  | AuditIo e => "audit I/O error: " +:+ e
  | AuditSerialization e => "audit serialization error: " +:+ e
  | AuditStorage e => "audit storage failure: " +:+ e
  end.

Class AuditLogger (L : Type) := {
  al_record : L → AuditRecord → L * result unit AuditError;
  al_query : L → AuditFilter → result (list AuditRecord) AuditError;
  al_count : L → AuditFilter → result nat AuditError
}.

(** [MemoryAuditLogger]: newest at the front. *)
Record MemoryAuditLogger := { ma_max_capacity : nat; ma_records : list AuditRecord }.

Definition memory_logger_new (max_capacity : nat) : MemoryAuditLogger :=
  {| ma_max_capacity := Nat.max max_capacity 1; ma_records := [] |}.

Definition memory_record (l : MemoryAuditLogger) (r : AuditRecord) : MemoryAuditLogger * result unit AuditError :=
  let kept := if (ma_max_capacity l <=? length (ma_records l))%nat
              then pop_back (ma_records l) else ma_records l in
  ({| ma_max_capacity := ma_max_capacity l; ma_records := r :: kept |}, Ok tt).

Definition memory_clear (l : MemoryAuditLogger) : MemoryAuditLogger :=
  {| ma_max_capacity := ma_max_capacity l; ma_records := [] |}.

Definition memory_len (l : MemoryAuditLogger) : nat := length (ma_records l).

Definition memory_query (l : MemoryAuditLogger) (f : AuditFilter) : result (list AuditRecord) AuditError :=
  Ok (page f (List.filter (audit_matches f) (ma_records l))).

Definition memory_count (l : MemoryAuditLogger) (f : AuditFilter) : result nat AuditError :=
  Ok (length (List.filter (audit_matches f) (ma_records l))).

#[export] Instance memory_logger : AuditLogger MemoryAuditLogger := {|
  al_record := memory_record; al_query := memory_query; al_count := memory_count
|}.

(** serde_json on records: [to_string] and [from_str]. *)
Class RecordCodec := {
  record_text : AuditRecord → result string string;
  record_parse : string → option AuditRecord
}.

(** How the operating system answers one attempt to append bytes: it takes them all,
    or stops short after [n] of them with an error. *)
Inductive WriteOutcome := Wrote | FailedAfter (n : nat) (e : string).

(** How it answers the next reading of the file: normally, there is no file at the
    path, the file does not open, or the [n]th attempt to read a line fails. *)
Inductive ReadCondition := Readable | Missing | OpenFails (e : string) | BreaksAt (n : nat) (e : string).

(** The log file: its bytes, the answers to the writes to come (all succeed once they
    are used up) and to the next reading. *)
Record AuditDisk := { ad_text : string; ad_writes : list WriteOutcome; ad_read : ReadCondition }.

(** The file and the buffer of its [BufWriter]. *)
Record FileAuditLogger := { fa_disk : AuditDisk; fa_buffer : string }.

(** [FileAuditLogger::open] of a file that opens. *)
Definition file_open (disk : AuditDisk) : FileAuditLogger := {| fa_disk := disk; fa_buffer := EmptyString |}.

(** [File::write_all] on a file opened for appending: no bytes, no system call. *)
Definition os_append (d : AuditDisk) (bytes : string) : AuditDisk * option (nat * string) :=
  if is_empty bytes then (d, None)
  else match ad_writes d with
       | FailedAfter n e :: ws =>
           let n := Nat.min n (String.length bytes - 1) in
           ({| ad_text := ad_text d +:+ str_take n bytes; ad_writes := ws; ad_read := ad_read d |}, Some (n, e))
       | ws => ({| ad_text := ad_text d +:+ bytes; ad_writes := tail ws; ad_read := ad_read d |}, None)
       end.

(** The capacity of [BufWriter::new]. *)
Definition BUF_CAPACITY : Z := 8192.

(** [BufWriter::flush]: what was written leaves the buffer, also when it stops short. *)
Definition buf_flush (l : FileAuditLogger) : FileAuditLogger * result unit AuditError :=
  match os_append (fa_disk l) (fa_buffer l) with
  | (d, None) => ({| fa_disk := d; fa_buffer := EmptyString |}, Ok tt)
  | (d, Some (n, e)) => ({| fa_disk := d; fa_buffer := str_drop n (fa_buffer l) |}, Err (AuditIo e))
  end.

(** [f(..)?; k] on a logger. *)
Definition then_log (c : FileAuditLogger * result unit AuditError)
    (k : FileAuditLogger → FileAuditLogger * result unit AuditError) : FileAuditLogger * result unit AuditError :=
  match c with (l, Ok _) => k l | (l, Err e) => (l, Err e) end.

Definition buffered (l : FileAuditLogger) (bytes : string) : FileAuditLogger :=
  {| fa_disk := fa_disk l; fa_buffer := fa_buffer l +:+ bytes |}.

(** [BufWriter::write_all]: bytes that do not fit flush the buffer first, bytes as long
    as the whole buffer go around it. *)
Definition buf_write_all (l : FileAuditLogger) (bytes : string) : FileAuditLogger * result unit AuditError :=
  let spare := BUF_CAPACITY - str_len (fa_buffer l) in
  if str_len bytes <? spare then (buffered l bytes, Ok tt)
  else
    then_log (if spare <? str_len bytes then buf_flush l else (l, Ok tt)) (fun l =>
    if BUF_CAPACITY <=? str_len bytes then
      match os_append (fa_disk l) bytes with
      | (d, None) => ({| fa_disk := d; fa_buffer := fa_buffer l |}, Ok tt)
      | (d, Some (_, e)) => ({| fa_disk := d; fa_buffer := fa_buffer l |}, Err (AuditIo e))
      end
    else (buffered l bytes, Ok tt)).

Section File.
Context `{RecordCodec}.

Definition file_record (l : FileAuditLogger) (r : AuditRecord) : FileAuditLogger * result unit AuditError :=
  match record_text r with
  | Err e => (l, Err (AuditSerialization e))
  | Ok serialized =>
      then_log (buf_write_all l serialized) (fun l =>
      then_log (buf_write_all l lf_text) buf_flush)
  end.

(** The body of the reading loop: blank lines and lines that do not parse are
    skipped. *)
Definition read_line (f : AuditFilter) (line : string) : list AuditRecord :=
  let trimmed := trim line in
  if is_empty trimmed then []
  else match record_parse trimmed with
       | Some r => if audit_matches f r then [r] else []
       | None => []
       end.

(** [reader.lines()] with [line?]: a line must be UTF-8, and reading it can fail
    ([breaks] counts the attempts left before that). *)
Fixpoint read_lines (f : AuditFilter) (breaks : option (nat * string)) (ls : list string)
    : result (list AuditRecord) AuditError :=
  match breaks, ls with
  | Some (O, e), _ => Err (AuditIo e)
  | _, [] => Ok []
  | _, line :: ls =>
      if valid_utf8 line then
        let? rest := read_lines f (match breaks with Some (n, e) => Some (pred n, e) | None => None end) ls in
        Ok (read_line f line ++ rest)
      else Err (AuditIo "stream did not contain valid UTF-8")
  end.

Definition read_all_matching (l : FileAuditLogger) (f : AuditFilter) : result (list AuditRecord) AuditError :=
  let text := lines (ad_text (fa_disk l)) in
  match ad_read (fa_disk l) with
  | Missing => Ok []
  | OpenFails e => Err (AuditIo e)
  | Readable => let? matching := read_lines f None text in Ok (rev matching)
  | BreaksAt n e => let? matching := read_lines f (Some (n, e)) text in Ok (rev matching)
  end.

Definition file_query (l : FileAuditLogger) (f : AuditFilter) : result (list AuditRecord) AuditError :=
  let? matching := read_all_matching l f in Ok (page f matching).

Definition file_count (l : FileAuditLogger) (f : AuditFilter) : result nat AuditError :=
  let? matching := read_all_matching l f in Ok (length matching).

#[export] Instance file_logger : AuditLogger FileAuditLogger := {|
  al_record := file_record; al_query := file_query; al_count := file_count
|}.
End File.

(** A trail of records, oldest first, with what each call returned. *)
Fixpoint record_all {L} `{AuditLogger L} (l : L) (rs : list AuditRecord) : L * list (result unit AuditError) :=
  match rs with
  | [] => (l, [])
  | r :: rs =>
      let '(l, a) := al_record l r in
      let '(l, rest) := record_all l rs in (l, a :: rest)
  end.

(** What the trait promises of a trail: matching records newest first, paged,
    and their number without paging. *)
Definition trail_query (rs : list AuditRecord) (f : AuditFilter) : list AuditRecord :=
  page f (List.filter (audit_matches f) (rev rs)).

Definition trail_count (rs : list AuditRecord) (f : AuditFilter) : nat :=
  length (List.filter (audit_matches f) rs).

(** The last [n] records of a trail. *)
Definition newest (n : nat) (rs : list AuditRecord) : list AuditRecord := drop (length rs - n) rs.

(** What a reading of a trail on disk sees. *)
Definition seen (c : ReadCondition) (rs : list AuditRecord) : result (list AuditRecord) AuditError :=
  match c with
  | Readable => Ok rs
  | Missing => Ok []
  | OpenFails e => Err (AuditIo e)
  | BreaksAt n e => if (n <=? length rs)%nat then Err (AuditIo e) else Ok rs
  end.

(** ** The ring buffer *)

Lemma memory_records l rs : (length (ma_records l) ≤ ma_max_capacity l)%nat → (1 ≤ ma_max_capacity l)%nat →
  (record_all l rs).2 = map (fun _ => Ok tt) rs ∧
  ma_records (record_all l rs).1 = take (ma_max_capacity l) (rev rs ++ ma_records l).
Proof.
  revert l. induction rs as [|r rs IH]; intros l Hlen Hcap; cbn [record_all rev app map].
  { split; [done|]. by rewrite take_ge. }
  destruct (al_record l r) as [l' a] eqn:El. injection El as El <-.
  assert (ma_records l' = take (ma_max_capacity l) (r :: ma_records l)) as Hr.
  { rewrite <- El. cbn [ma_records].
    destruct (ma_max_capacity l) as [|c] eqn:E; [lia|]. cbn [take]. f_equal.
    destruct (Nat.leb_spec (S c) (length (ma_records l))).
    - unfold pop_back. f_equal. lia.
    - by rewrite take_ge by lia. }
  assert (ma_max_capacity l' = ma_max_capacity l) as Hc by (by rewrite <- El).
  destruct (IH l') as [Hres Hrec]; [rewrite Hr, length_take, Hc; lia|by rewrite Hc|].
  destruct (record_all l' rs) as [l2 rest]. cbn [fst snd] in *. rewrite Hres, Hrec, Hc, Hr. split; [done|].
  rewrite <- app_assoc. cbn [app].
  destruct (decide (ma_max_capacity l ≤ length (rev rs))%nat).
  - rewrite !take_app_le by done. done.
  - rewrite !take_app_ge, take_take by lia. do 2 f_equal. lia.
Qed.

Lemma rev_newest n rs : rev (newest n rs) = take n (rev rs).
Proof.
  unfold newest. rewrite <- (take_drop (length rs - n) rs) at 3.
  rewrite rev_app_distr. destruct (decide (n ≤ length rs)%nat).
  - rewrite take_app_length'; [done|]. rewrite length_rev, length_drop. lia.
  - replace (length rs - n)%nat with O by lia. cbn [drop take rev]. rewrite app_nil_r.
    symmetry. apply take_ge. rewrite length_rev, ?length_drop. lia.
Qed.

Lemma filter_rev_length {A} (p : A → bool) l : length (List.filter p (rev l)) = length (List.filter p l).
Proof.
  induction l as [|x l IH]; [done|]. cbn [rev List.filter].
  rewrite List.filter_app, length_app, IH. cbn. destruct (p x); cbn; lia.
Qed.

(** ** The file *)

Lemma split_on_piece sep a t : contains_byte (byte_of sep) a = false →
  split_on sep (a +:+ String sep t) = a :: split_on sep t.
Proof.
  induction a as [|c a IH]; intros Ha.
  { change ("" +:+ String sep t) with (String sep t). cbn [split_on]. by rewrite bool_decide_eq_true_2. }
  unfold contains_byte in Ha. cbn [as_bytes existsb] in Ha. apply orb_false_iff in Ha as [Hc Ha].
  change (String c a +:+ String sep t) with (String c (a +:+ String sep t)). cbn [split_on].
  rewrite bool_decide_eq_false_2.
  - by rewrite IH.
  - intros ->. by rewrite Z.eqb_refl in Hc.
Qed.

(** Everything handed over so far: on disk or waiting in the buffer. *)
Definition handed_over (l : FileAuditLogger) : string := ad_text (fa_disk l) +:+ fa_buffer l.

Lemma os_append_ok d bytes d' : os_append d bytes = (d', None) →
  ad_text d' = ad_text d +:+ bytes ∧ ad_read d' = ad_read d.
Proof.
  unfold os_append. destruct (is_empty bytes) eqn:E.
  - intros [= <-]. apply bool_decide_eq_true in E as ->. by rewrite str_app_nil.
  - destruct (ad_writes d) as [|[] ?]; intros [= <-]; done.
Qed.

Lemma buf_flush_ok l l' : buf_flush l = (l', Ok tt) →
  ad_text (fa_disk l') = handed_over l ∧ fa_buffer l' = EmptyString ∧ ad_read (fa_disk l') = ad_read (fa_disk l).
Proof.
  unfold buf_flush. destruct (os_append _ _) as [d [[n e]|]] eqn:E; intros [= <-].
  apply os_append_ok in E as [E1 E2]. done.
Qed.

Lemma buffered_handed_over l bytes : handed_over (buffered l bytes) = handed_over l +:+ bytes.
Proof. unfold handed_over, buffered. cbn [fa_disk fa_buffer]. by rewrite str_app_assoc. Qed.

Lemma then_log_ok c k l : then_log c k = (l, Ok tt) → ∃ l1, c = (l1, Ok tt) ∧ k l1 = (l, Ok tt).
Proof. destruct c as [l1 [[]|e]]; cbn; [by exists l1|done]. Qed.

Lemma buf_write_all_ok l bytes l' : buf_write_all l bytes = (l', Ok tt) →
  handed_over l' = handed_over l +:+ bytes ∧ ad_read (fa_disk l') = ad_read (fa_disk l).
Proof.
  unfold buf_write_all. cbv zeta. destruct (_ <? _).
  { intros [= <-]. by rewrite buffered_handed_over. }
  intros (l1 & E1 & E2)%then_log_ok.
  assert (handed_over l1 = handed_over l ∧ ad_read (fa_disk l1) = ad_read (fa_disk l) ∧
          (fa_buffer l1 = EmptyString ∨ l1 = l ∧ str_len bytes ≤ BUF_CAPACITY - str_len (fa_buffer l)))
    as (<- & <- & Hbuf).
  { destruct (Z.ltb_spec (BUF_CAPACITY - str_len (fa_buffer l)) (str_len bytes)).
    - apply buf_flush_ok in E1 as (Ha & Hb & Hr). unfold handed_over at 1. rewrite Ha, Hb, str_app_nil. auto.
    - simplify_eq. auto. }
  destruct (Z.leb_spec BUF_CAPACITY (str_len bytes)); [|by simplify_eq; rewrite buffered_handed_over].
  assert (fa_buffer l1 = EmptyString) as Hb.
  { destruct Hbuf as [|[-> Hle]]; [done|]. destruct (fa_buffer l) as [|c b]; [done|].
    unfold str_len in *. cbn [String.length] in Hle. lia. }
  destruct (os_append _ _) as [d [[n e]|]] eqn:E; simplify_eq. apply os_append_ok in E as [E3 E4].
  unfold handed_over. cbn [fa_disk fa_buffer]. by rewrite E3, E4, Hb, !str_app_nil.
Qed.

Section FileLemmas.
Context `{RecordCodec}.
(** What serde_json documents of its compact text of a record: it is written, it is
    UTF-8 and reads back, control characters are escaped, and there are no blanks
    around it. *)
Record codec_ok (r : AuditRecord) (text : string) : Prop := {
  co_text : record_text r = Ok text;
  co_round : record_parse text = Some r;
  co_utf8 : valid_utf8 text = true;
  co_lf : contains_byte 10 text = false;
  co_cr : contains_byte 13 text = false;
  co_trim : trim text = text;
  co_some : text ≠ EmptyString
}.

(** The contents of a file of such records, one a line. *)
Definition file_text (texts : list string) : string := collect (map (fun t => t +:+ lf_text) texts).

Lemma file_text_cons t ts : file_text (t :: ts) = t +:+ String lf (file_text ts).
Proof. unfold file_text. cbn [map collect foldr]. by rewrite str_app_assoc. Qed.

Lemma file_text_app ts ts' : file_text (ts ++ ts') = file_text ts +:+ file_text ts'.
Proof.
  induction ts as [|t ts IH]; [done|]. cbn [app]. rewrite !file_text_cons, IH.
  change (String lf ?a) with (lf_text +:+ a). by rewrite !str_app_assoc.
Qed.

(** A call that returns [Ok] has put everything accepted before and its own line on
    disk. *)
Lemma file_record_ok l r t l' : codec_ok r t → file_record l r = (l', Ok tt) →
  ad_text (fa_disk l') = handed_over l +:+ file_text [t] ∧ fa_buffer l' = EmptyString ∧
  ad_read (fa_disk l') = ad_read (fa_disk l).
Proof.
  intros Hr. unfold file_record. rewrite (co_text _ _ Hr).
  intros (l1 & [E1 R1]%buf_write_all_ok & (l2 & [E2 R2]%buf_write_all_ok & E3)%then_log_ok)%then_log_ok.
  apply buf_flush_ok in E3 as (-> & -> & ->). rewrite E2, E1, R2, R1, file_text_cons. split_and!; [|done..].
  by rewrite str_app_assoc.
Qed.

Lemma file_records l rs ts : Forall2 codec_ok rs ts → fa_buffer l = EmptyString →
  Forall (fun a => is_ok a = true) (record_all l rs).2 →
  ad_text (fa_disk (record_all l rs).1) = ad_text (fa_disk l) +:+ file_text ts ∧
  ad_read (fa_disk (record_all l rs).1) = ad_read (fa_disk l).
Proof.
  intros Hrs. revert l. induction Hrs as [|r t rs ts Hr _ IH]; intros l Hl; cbn [record_all].
  { intros _. cbn [fst]. by rewrite str_app_nil. }
  destruct (al_record l r) as [l1 a] eqn:E1. specialize (IH l1).
  destruct (record_all l1 rs) as [l2 rest]. cbn [fst snd] in *.
  intros [Ha Hrest]%Forall_cons. destruct a as [[]|]; [|done].
  apply (file_record_ok _ _ _ _ Hr) in E1 as (Ht & Hb & Hc).
  destruct (IH Hb Hrest) as [-> ->]. rewrite Ht, Hc. split; [|done].
  unfold handed_over. by rewrite Hl, str_app_nil, str_app_assoc, <- file_text_app.
Qed.

Lemma file_pieces rs ts : Forall2 codec_ok rs ts → split_on lf (file_text ts) = ts ++ [EmptyString].
Proof.
  induction 1 as [|r t rs ts Hr _ IH]; [done|]. rewrite file_text_cons, split_on_piece by apply Hr.
  by rewrite IH.
Qed.

Lemma strip_cr_text r t : codec_ok r t → strip_cr t = t.
Proof.
  intros Hr. unfold strip_cr. destruct (ends_with _ _) eqn:E; [|done]. unfold ends_with in E.
  apply andb_true_iff in E as [_ E%bool_decide_eq_true].
  assert (13 ∈ as_bytes t) as Hin.
  { assert (∀ n s x, x ∈ as_bytes (str_drop n s) → x ∈ as_bytes s) as Hdrop.
    { intros n. induction n as [|n IH]; intros [|c s] x Hx; cbn in *; try done. right. by apply IH. }
    eapply Hdrop. rewrite E. left. }
  apply contains_byte_spec in Hin. by rewrite (co_cr _ _ Hr) in Hin.
Qed.

Lemma file_lines rs ts : Forall2 codec_ok rs ts → lines (file_text ts) = ts.
Proof.
  intros Hrs. unfold lines. erewrite file_pieces by done. rewrite last_snoc. unfold pop_back.
  rewrite length_app, Nat.add_sub, take_app_length.
  induction Hrs as [|r t rs ts Hr _ IH]; [done|]. cbn [map]. by rewrite (strip_cr_text _ _ Hr), IH.
Qed.

Lemma read_line_text f r t : codec_ok r t → read_line f t = List.filter (audit_matches f) [r].
Proof.
  intros [_ Hround _ _ _ Htrim Hne]. unfold read_line. cbv zeta. rewrite Htrim. unfold is_empty.
  rewrite bool_decide_eq_false_2, Hround by done. cbn [List.filter]. by destruct (audit_matches f r).
Qed.

Lemma read_lines_texts f b rs ts : Forall2 codec_ok rs ts →
  read_lines f b ts = match b with
                      | Some (n, e) => if (n <=? length rs)%nat then Err (AuditIo e)
                                       else Ok (List.filter (audit_matches f) rs)
                      | None => Ok (List.filter (audit_matches f) rs)
                      end.
Proof.
  intros Hrs. revert b. induction Hrs as [|r t rs ts Hr _ IH]; intros b; cbn [read_lines].
  { by destruct b as [[[|n] e]|]. }
  rewrite (co_utf8 _ _ Hr), (read_line_text f _ _ Hr).
  destruct b as [[[|n] e]|]; [done|..]; rewrite IH; cbn [pred length].
  - change (S n <=? S (length rs))%nat with (n <=? length rs)%nat.
    destruct (_ <=? _)%nat; cbn [rbind]; [done|]. by rewrite <- List.filter_app.
  - cbn [rbind]. by rewrite <- List.filter_app.
Qed.

Lemma file_reads l rs ts f : Forall2 codec_ok rs ts → ad_text (fa_disk l) = file_text ts →
  read_all_matching l f =
  (let? visible := seen (ad_read (fa_disk l)) rs in Ok (List.filter (audit_matches f) (rev visible))).
Proof.
  intros Hrs Ht. unfold read_all_matching, seen. rewrite Ht. erewrite file_lines by done. cbv zeta.
  destruct (ad_read (fa_disk l)) as [| |e|n e]; try done;
    rewrite (read_lines_texts f _ rs) by done; [|destruct (n <=? length rs)%nat; [done|]];
    cbn [rbind]; by rewrite List.filter_rev.
Qed.
End FileLemmas.

(** ** Properties *)

(** C29. Both loggers keep the trail. The ring buffer accepts every record and answers
    every query and count from the newest records up to its capacity (one at least).
    The file, opened over the lines of earlier records, answers from the whole trail,
    earlier runs included, once every call to record has returned [Ok], whatever the
    disk did before; when it is then read, a missing file is an empty trail and a
    file that does not open, or breaks while a line is read, is the error. *)
Theorem loggers_keep_trail `{RecordCodec} cap old old_texts disk rs texts f :
  Forall2 codec_ok old old_texts → Forall2 codec_ok rs texts → ad_text disk = file_text old_texts →
  let '(m, accepted) := record_all (memory_logger_new cap) rs in
  let '(l, written) := record_all (file_open disk) rs in
  Forall (fun a => is_ok a = true) accepted ∧
  al_query m f = Ok (trail_query (newest (Nat.max cap 1) rs) f) ∧
  al_count m f = Ok (trail_count (newest (Nat.max cap 1) rs) f) ∧
  (Forall (fun a => is_ok a = true) written →
   al_query l f = (let? visible := seen (ad_read disk) (old ++ rs) in Ok (trail_query visible f)) ∧
   al_count l f = (let? visible := seen (ad_read disk) (old ++ rs) in Ok (trail_count visible f))).
Proof.
  intros Hold Hrs Hdisk.
  destruct (memory_records (memory_logger_new cap) rs) as [Hres Hm]; [cbn; lia..|].
  pose proof (file_records (file_open disk) rs texts Hrs eq_refl) as Hf.
  destruct (record_all (memory_logger_new cap) rs) as [m accepted].
  destruct (record_all (file_open disk) rs) as [l written]. cbn [fst snd] in *.
  cbn [memory_logger_new ma_records ma_max_capacity] in Hm. rewrite app_nil_r, <- rev_newest in Hm.
  cbn [al_query al_count memory_logger file_logger]. unfold memory_query, memory_count, file_query, file_count.
  rewrite Hm, filter_rev_length. split_and!; [|done..|].
  { rewrite Hres. apply Forall_forall. intros a Ha. by apply list_elem_of_fmap in Ha as (? & -> & _). }
  intros Hw. destruct (Hf Hw) as [Ht Hr]. cbn [file_open fa_disk] in Ht, Hr.
  rewrite Hdisk, <- file_text_app in Ht.
  rewrite (file_reads l (old ++ rs) (old_texts ++ texts)), Hr by (done || by apply Forall2_app).
  destruct (seen _ _) as [visible|e]; cbn [rbind]; [|done]. unfold trail_count. by rewrite filter_rev_length.
Qed.

(** Whatever the disk does, recording only appends to the file. *)
Theorem file_append_only `{RecordCodec} l r :
  ∃ added, ad_text (fa_disk (al_record l r).1) = ad_text (fa_disk l) +:+ added.
Proof.
  assert (∀ d bytes, ∃ added, ad_text (os_append d bytes).1 = ad_text d +:+ added) as Hos.
  { intros d bytes. unfold os_append. destruct (is_empty bytes); [exists EmptyString; by rewrite str_app_nil|].
    destruct (ad_writes d) as [|[] ?]; by eexists. }
  assert (∀ l, ∃ added, ad_text (fa_disk (buf_flush l).1) = ad_text (fa_disk l) +:+ added) as Hflush.
  { intros l0. unfold buf_flush. destruct (Hos (fa_disk l0) (fa_buffer l0)) as [x Hx].
    destruct (os_append _ _) as [d [[n e]|]]; by exists x. }
  assert (∀ c k l, (∃ a, ad_text (fa_disk c.1) = ad_text (fa_disk l) +:+ a) →
    (∀ l, ∃ a, ad_text (fa_disk (k l).1) = ad_text (fa_disk l) +:+ a) →
    ∃ a, ad_text (fa_disk (then_log c k).1) = ad_text (fa_disk l) +:+ a) as Hthen.
  { intros [l1 [[]|e]] k l0 [a Ha] Hk; cbn [then_log fst] in *; [|by exists a].
    destruct (Hk l1) as [b ->]. exists (a +:+ b). by rewrite Ha, str_app_assoc. }
  assert (∀ l bytes, ∃ added, ad_text (fa_disk (buf_write_all l bytes).1) = ad_text (fa_disk l) +:+ added) as Hwrite.
  { intros l0 bytes. unfold buf_write_all. cbv zeta.
    destruct (_ <? _); [exists EmptyString; by rewrite str_app_nil|]. apply Hthen.
    - destruct (_ <? _); [apply Hflush|]. exists EmptyString. by rewrite str_app_nil.
    - intros l1. destruct (_ <=? _); [|exists EmptyString; by rewrite str_app_nil].
      destruct (Hos (fa_disk l1) bytes) as [x Hx]. destruct (os_append _ _) as [d [[n e]|]]; by exists x. }
  cbn [al_record file_logger]. unfold file_record. destruct (record_text r).
  - apply Hthen; [apply Hwrite|]. intros l1. apply Hthen; [apply Hwrite|]. apply Hflush.
  - exists EmptyString. by rewrite str_app_nil.
Qed.

Definition sample_record (id : string) (t : Z) : AuditRecord :=
  record_new id t (System "scheduler") (LeaseReaped 1) Success "system".

(** A codec for two records. *)
Definition sample_codec : RecordCodec := {|
  record_text := fun r => Ok ("{" +:+ au_id r +:+ "}");
  record_parse := fun s =>
    if bool_decide (s = "{au_1}") then Some (sample_record "au_1" 10)
    else if bool_decide (s = "{au_2}") then Some (sample_record "au_2" 20) else None |}.

(** A disk with one line, whose next write succeeds and whose second fails half way. *)
Definition sample_disk : AuditDisk :=
  {| ad_text := "{au_1}" +:+ lf_text; ad_writes := [Wrote; FailedAfter 3 "No space left on device"];
     ad_read := Readable |}.

Lemma loggers_keep_trail_witness :
  al_query (AuditLogger := @file_logger sample_codec)
    (record_all (H := @file_logger sample_codec) (file_open sample_disk) [sample_record "au_2" 20]).1
    audit_filter_new = Ok [sample_record "au_2" 20; sample_record "au_1" 10].
Proof.
  pose proof (loggers_keep_trail (H := sample_codec) 1 [sample_record "au_1" 10] ["{au_1}"] sample_disk
    [sample_record "au_2" 20] ["{au_2}"] audit_filter_new) as E.
  apply E; [..|reflexivity|].
  - repeat constructor; discriminate.
  - repeat constructor; discriminate.
  - repeat constructor.
Defined.
