(* ===== verification/Auth.v ===== *)
(** * API-token authorization (src/src/auth.rs)

    The two levels, the token configuration and the timing-safe comparison. *)
From S2P Require Import Prelude RustStrings.
Local Open Scope Z_scope.

Inductive Level := Operator | Admin.

#[export] Instance Level_eq_dec : EqDecision Level.
Proof. solve_decision. Defined.

Record AuthConfig := { operator_token : option string; admin_token : option string }.

Definition from_config (operator admin : option string) : AuthConfig :=
  {| operator_token := operator; admin_token := admin |}.

Definition enabled (c : AuthConfig) : bool :=
  bool_decide (is_Some (operator_token c)) || bool_decide (is_Some (admin_token c)).

(** [for (x, y) in a.iter().zip(b.iter()) { diff |= x ^ y; }] *)
Fixpoint ct_diff (diff : Z) (a b : list Z) : Z :=
  match a, b with
  | x :: a, y :: b => ct_diff (Z.lor diff (Z.lxor x y)) a b
  | _, _ => diff
  end.

Definition ct_eq (a b : string) : bool :=
  let a := as_bytes a in
  let b := as_bytes b in
  if negb (length a =? length b)%nat then false else ct_diff 0 a b =? 0.

Definition authorized (c : AuthConfig) (presented : option string) (level : Level) : bool :=
  match operator_token c with
  | None => negb (enabled c)
  | Some operator =>
      let presented := default EmptyString presented in
      match level with
      | Operator => ct_eq presented operator
      | Admin =>
          match admin_token c with
          | Some admin => ct_eq presented admin
          | None => ct_eq presented operator
          end
      end
  end.

(** ** The comparison *)

Lemma ct_diff_zero diff a b : length a = length b → ct_diff diff a b = 0 ↔ diff = 0 ∧ a = b.
Proof.
  revert diff b. induction a as [|x a IH]; intros diff [|y b] Hlen; try discriminate; cbn [ct_diff].
  { naive_solver. }
  rewrite IH by (cbn in Hlen; lia). rewrite Z.lor_eq_0_iff, Z.lxor_eq_0_iff. naive_solver.
Qed.

Lemma ct_eq_spec a b : ct_eq a b = true ↔ a = b.
Proof.
  unfold ct_eq. cbv zeta. destruct (Nat.eqb_spec (length (as_bytes a)) (length (as_bytes b))) as [Hl|Hl]; cbn [negb].
  - rewrite Z.eqb_eq, ct_diff_zero by done. split; [intros [_ ?]; by apply as_bytes_inj|by intros ->].
  - split; [done|]. by intros ->.
Qed.

(** What the module promises: an open surface admits everyone, a guarded one
    asks for the secret of the level. *)
Definition secret_for (c : AuthConfig) (level : Level) : option string :=
  match level with
  | Operator => operator_token c
  | Admin => match admin_token c with Some a => Some a | None => operator_token c end
  end.

(** ** Properties *)

(** With an operator secret configured a request is admitted exactly when it
    presents the secret of the level (the admin secret where there is one, else
    the operator's), compared byte for byte over the whole length; with no secret
    at all everything is admitted. *)
Theorem authorized_spec c presented level :
  (operator_token c = None → admin_token c = None → authorized c presented level = true) ∧
  (is_Some (operator_token c) →
   authorized c presented level = true ↔ secret_for c level = Some (default EmptyString presented)).
Proof.
  unfold authorized, enabled. split; [intros -> ->; reflexivity|].
  intros [op Hop]. rewrite Hop. destruct level; cbn [secret_for].
  - rewrite Hop, ct_eq_spec. naive_solver.
  - destruct (admin_token c) as [adm|]; rewrite ?Hop, ct_eq_spec; naive_solver.
Qed.

(** With only an admin secret configured nobody is admitted to an admin
    route, not even with that secret. *)
Theorem admin_only_locks_admin secret presented :
  authorized (from_config None (Some secret)) presented Admin = false.
Proof. reflexivity. Qed.

(** An empty operator secret guards nothing: a request without a token is
    admitted although the surface counts as guarded. *)
Theorem empty_secret_opens :
  enabled (from_config (Some EmptyString) None) = true ∧
  authorized (from_config (Some EmptyString) None) None Operator = true.
Proof. split; reflexivity. Qed.
