(* ===== verification/Artifacts.v ===== *)
(** * Artifact storage and its garbage collection
    (src/src/storage/artifacts.rs, src/src/storage/gc.rs)

    The content-addressed store in memory and on disk behind the
    [ArtifactStore] trait, and the retention sweep over any such store. The
    SHA-256 digest is the class [Digest]; the file system is a map from paths to
    contents whose operations do not fail. The trait's operations may fail, and the
    sweep stops at the first error of the store it runs on. *)
From stdpp Require Import pretty.
From S2P Require Import Prelude RustStrings Text.
Local Open Scope Z_scope.

Inductive ArtifactError :=
| ArtifactIo (e : string)
| IntegrityMismatch (expected actual : string)
| SizeLimitExceeded (size limit : Z)
| ArtifactNotFound (id : string).

Definition artifact_error_text (e : ArtifactError) : string :=
  match e with
  | ArtifactIo e => "artifact I/O error: " +:+ e
  | IntegrityMismatch expected actual =>
      "integrity verification failed: expected sha256 '" +:+ expected +:+ "', calculated '" +:+ actual +:+ "'"
  | SizeLimitExceeded size limit =>
      "artifact size (" +:+ pretty size +:+ " bytes) exceeds maximum limit (" +:+ pretty limit +:+ " bytes)"
  | ArtifactNotFound id => "artifact '" +:+ id +:+ "' not found"
  end.

Record ArtifactDescriptor := {
  ad_id : string;
  ad_tenant : string;
  ad_name : string;
  ad_content_type : string;
  ad_size_bytes : Z;
  ad_created_at_ms : Z
}.

(** [hex::encode(Sha256::digest(data))] *)
Class Digest := sha256 : list Z → string.

(** The trait: what a store does to its state and returns. *)
Class ArtifactStore (S : Type) := {
  as_put : S → string → string → list Z → string → Z → S * result ArtifactDescriptor ArtifactError;
  as_get : S → string → result (option (list Z)) ArtifactError;
  as_describe : S → string → result (option ArtifactDescriptor) ArtifactError;
  as_delete : S → string → S * result bool ArtifactError;
  as_list_by_tenant : S → string → result (list ArtifactDescriptor) ArtifactError
}.

Definition descriptor_of `{Digest} (tenant name : string) (data : list Z) (content_type : string)
    (now_ms : Z) : ArtifactDescriptor :=
  {| ad_id := sha256 data; ad_tenant := tenant; ad_name := name; ad_content_type := content_type;
     ad_size_bytes := Z.of_nat (length data); ad_created_at_ms := now_ms |}.

(** ** In memory *)

Record MemoryArtifacts := {
  blobs : gmap string (list Z);
  descriptors : gmap string ArtifactDescriptor
}.

Definition memory_artifacts_new : MemoryArtifacts := {| blobs := ∅; descriptors := ∅ |}.

Section Memory.
Context `{Digest} `{HashIter}.

Definition mem_put (s : MemoryArtifacts) (tenant name : string) (data : list Z) (content_type : string)
    (now_ms : Z) : MemoryArtifacts * ArtifactDescriptor :=
  let descriptor := descriptor_of tenant name data content_type now_ms in
  let id := ad_id descriptor in
  ({| blobs := <[id := data]> (blobs s); descriptors := <[id := descriptor]> (descriptors s) |}, descriptor).

Definition mem_get (s : MemoryArtifacts) (id : string) : result (option (list Z)) ArtifactError :=
  Ok (blobs s !! id).

Definition mem_describe (s : MemoryArtifacts) (id : string) : option ArtifactDescriptor :=
  descriptors s !! id.

Definition mem_delete (s : MemoryArtifacts) (id : string) : MemoryArtifacts * bool :=
  ({| blobs := delete id (blobs s); descriptors := delete id (descriptors s) |},
   bool_decide (is_Some (blobs s !! id))).

Definition mem_list_by_tenant (s : MemoryArtifacts) (tenant : string) : list ArtifactDescriptor :=
  List.filter (fun d => bool_decide (ad_tenant d = tenant)) (hash_values (descriptors s)).

(** None of its operations fails. *)
#[export] Instance memory_artifacts : ArtifactStore MemoryArtifacts := {|
  as_put s tenant name data ct now := let '(s', d) := mem_put s tenant name data ct now in (s', Ok d);
  as_get := mem_get;
  as_describe s id := Ok (mem_describe s id);
  as_delete s id := let '(s', removed) := mem_delete s id in (s', Ok removed);
  as_list_by_tenant s tenant := Ok (mem_list_by_tenant s tenant)
|}.
End Memory.

(** ** On disk *)

Record DiskArtifacts := {
  root_dir : string;
  files : gmap string (list Z);
  metadata : gmap string ArtifactDescriptor
}.

(** [PathBuf::join]: an absolute path replaces what it is joined to. *)
Definition path_join (base p : string) : string :=
  if starts_with "/" p then p
  else if is_empty base || ends_with "/" base then base +:+ p
  else base +:+ "/" +:+ p.

(** [split_at]: [None] is the panic inside a character. *)
Definition split_at (n : nat) (s : string) : option (string * string) :=
  if on_boundary (str_drop n s) then Some (str_take n s, str_drop n s) else None.

Definition blob_path (root id : string) : option string :=
  match split_at (Nat.min 2 (String.length id)) id with
  | None => None
  | Some (prefix1, remainder) =>
      match split_at (Nat.min 2 (String.length remainder)) remainder with
      | None => None
      | Some (prefix2, _) => Some (path_join (path_join (path_join root prefix1) prefix2) id)
      end
  end.

Section Disk.
Context `{Digest} `{HashIter}.

Definition disk_put (s : DiskArtifacts) (tenant name : string) (data : list Z) (content_type : string)
    (now_ms : Z) : option (DiskArtifacts * ArtifactDescriptor) :=
  let id := sha256 data in
  match blob_path (root_dir s) id with
  | None => None
  | Some target =>
      let descriptor := descriptor_of tenant name data content_type now_ms in
      Some ({| root_dir := root_dir s; files := <[target := data]> (files s);
               metadata := <[id := descriptor]> (metadata s) |}, descriptor)
  end.

Definition disk_get (s : DiskArtifacts) (id : string) : option (result (option (list Z)) ArtifactError) :=
  match blob_path (root_dir s) id with
  | None => None
  | Some target =>
      match files s !! target with
      | None => Some (Ok None)
      | Some buf =>
          let actual := sha256 buf in
          if bool_decide (actual = id) then Some (Ok (Some buf))
          else Some (Err (IntegrityMismatch id actual))
      end
  end.

Definition disk_describe (s : DiskArtifacts) (id : string) : option ArtifactDescriptor := metadata s !! id.

Definition disk_delete (s : DiskArtifacts) (id : string) : option (DiskArtifacts * bool) :=
  match blob_path (root_dir s) id with
  | None => None
  | Some target =>
      Some ({| root_dir := root_dir s; files := delete target (files s);
               metadata := delete id (metadata s) |},
            bool_decide (is_Some (files s !! target)))
  end.

Definition disk_list_by_tenant (s : DiskArtifacts) (tenant : string) : list ArtifactDescriptor :=
  List.filter (fun d => bool_decide (ad_tenant d = tenant)) (hash_values (metadata s)).
End Disk.

(** ** Garbage collection *)

Record ArtifactGcOptions := {
  retention_ms : Z;
  dry_run : bool;
  gc_tenants : list string
}.

Definition gc_options_default : ArtifactGcOptions :=
  {| retention_ms := 7 * 24 * 3600 * 1000; dry_run := false; gc_tenants := [] |}.

Record ArtifactGcStats := {
  scanned_count : Z;
  scanned_bytes : Z;
  reclaimed_count : Z;
  reclaimed_bytes : Z;
  purged_ids : list string
}.

Definition gc_stats_default : ArtifactGcStats :=
  {| scanned_count := 0; scanned_bytes := 0; reclaimed_count := 0; reclaimed_bytes := 0; purged_ids := [] |}.

(** [(now_ms - created_at_ms).max(0) as u64] *)
Definition age_ms (now_ms : Z) (d : ArtifactDescriptor) : Z :=
  Z.max (wrap_i64 (now_ms - ad_created_at_ms d)) 0.

Section Sweep.
Context {S : Type} `{ArtifactStore S}.
Context (options : ArtifactGcOptions) (active_refs : gset string) (now_ms : Z).

Record SweepState := { sw_store : S; sw_stats : ArtifactGcStats; sw_seen : gset string }.

(** The counters are [usize]. *)
Definition count_scanned (st : ArtifactGcStats) (d : ArtifactDescriptor) : ArtifactGcStats :=
  {| scanned_count := wrap_u64 (scanned_count st + 1);
     scanned_bytes := wrap_u64 (scanned_bytes st + ad_size_bytes d);
     reclaimed_count := reclaimed_count st; reclaimed_bytes := reclaimed_bytes st;
     purged_ids := purged_ids st |}.

Definition count_reclaimed (st : ArtifactGcStats) (d : ArtifactDescriptor) : ArtifactGcStats :=
  {| scanned_count := scanned_count st; scanned_bytes := scanned_bytes st;
     reclaimed_count := wrap_u64 (reclaimed_count st + 1);
     reclaimed_bytes := wrap_u64 (reclaimed_bytes st + ad_size_bytes d);
     purged_ids := purged_ids st ++ [ad_id d] |}.

(** The body of the inner loop. *)
Definition sweep_descriptor (w : SweepState) (d : ArtifactDescriptor) : SweepState * result unit ArtifactError :=
  if bool_decide (ad_id d ∈ sw_seen w) then (w, Ok tt)
  else
    let seen := {[ad_id d]} ∪ sw_seen w in
    let stats := count_scanned (sw_stats w) d in
    if bool_decide (ad_id d ∈ active_refs) then
      ({| sw_store := sw_store w; sw_stats := stats; sw_seen := seen |}, Ok tt)
    else if retention_ms options <=? age_ms now_ms d then
      let stats := count_reclaimed stats d in
      if dry_run options then ({| sw_store := sw_store w; sw_stats := stats; sw_seen := seen |}, Ok tt)
      else
        let '(s, r) := as_delete (sw_store w) (ad_id d) in
        ({| sw_store := s; sw_stats := stats; sw_seen := seen |},
         match r with Ok _ => Ok tt | Err e => Err e end)
    else ({| sw_store := sw_store w; sw_stats := stats; sw_seen := seen |}, Ok tt).

(** [for x in l { ... ? }]: the loop returns at the first error. *)
Fixpoint sweep_each {A} (body : SweepState → A → SweepState * result unit ArtifactError) (w : SweepState)
    (l : list A) : SweepState * result unit ArtifactError :=
  match l with
  | [] => (w, Ok tt)
  | x :: rest =>
      match body w x with
      | (w, Ok _) => sweep_each body w rest
      | (w, Err e) => (w, Err e)
      end
  end.

Definition sweep_tenant (w : SweepState) (tenant : string) : SweepState * result unit ArtifactError :=
  match as_list_by_tenant (sw_store w) tenant with
  | Err e => (w, Err e)
  | Ok ds => sweep_each sweep_descriptor w ds
  end.

Definition target_tenants : list string :=
  match gc_tenants options with [] => ["default"; "acme"] | ts => ts end.

Definition sweep_artifacts (s : S) : S * result ArtifactGcStats ArtifactError :=
  let '(w, r) := sweep_each sweep_tenant
    {| sw_store := s; sw_stats := gc_stats_default; sw_seen := ∅ |} target_tenants in
  (sw_store w, match r with Ok _ => Ok (sw_stats w) | Err e => Err e end).
End Sweep.

(** ** Content addressing *)

Section Addressing.
Context `{Digest} `{HashIter}.

(** Blobs sit under their digest, and each has a descriptor under the same id. *)
Record artifacts_ok (s : MemoryArtifacts) : Prop := {
  ao_hash : ∀ id data, blobs s !! id = Some data → sha256 data = id;
  ao_desc : ∀ id d, descriptors s !! id = Some d → ad_id d = id;
  ao_dom : ∀ id, is_Some (blobs s !! id) ↔ is_Some (descriptors s !! id)
}.

Lemma mem_put_ok s tenant name data ct now : artifacts_ok s →
  artifacts_ok (mem_put s tenant name data ct now).1.
Proof.
  intros [Hh Hd Hdom]. split; cbn [mem_put fst blobs descriptors descriptor_of ad_id].
  - intros id x [[<- <-]|[_ ?]]%lookup_insert_Some; [done|by apply Hh].
  - intros id x [[<- <-]|[_ ?]]%lookup_insert_Some; [done|by apply Hd].
  - intros id. rewrite !lookup_insert_is_Some'. by rewrite Hdom.
Qed.

Lemma mem_delete_ok s id : artifacts_ok s → artifacts_ok (mem_delete s id).1.
Proof.
  intros [Hh Hd Hdom]. split; cbn [mem_delete fst blobs descriptors].
  - intros i x [_ ?]%lookup_delete_Some. by apply Hh.
  - intros i x [_ ?]%lookup_delete_Some. by apply Hd.
  - intros i. rewrite !lookup_delete_is_Some. by rewrite Hdom.
Qed.

(** Operations of the store's clients. *)
Inductive artifact_op :=
| OpPut (tenant name : string) (data : list Z) (content_type : string) (now_ms : Z)
| OpDelete (id : string).

Definition artifact_apply (s : MemoryArtifacts) (op : artifact_op) : MemoryArtifacts :=
  match op with
  | OpPut tenant name data ct now => (mem_put s tenant name data ct now).1
  | OpDelete id => (mem_delete s id).1
  end.

Lemma artifact_ops_ok ops : artifacts_ok (foldl artifact_apply memory_artifacts_new ops).
Proof.
  assert (artifacts_ok memory_artifacts_new) as Hnew.
  { split; cbn [memory_artifacts_new blobs descriptors]; intros *; by rewrite ?lookup_empty. }
  revert Hnew. generalize memory_artifacts_new. induction ops as [|op ops IH]; intros s Hs; [done|].
  cbn [foldl]. apply IH. destruct op; [by apply mem_put_ok|by apply mem_delete_ok].
Qed.

(** ** The sweep *)

Context (options : ArtifactGcOptions) (active : gset string) (now : Z).

(** Past retention and not referenced. *)
Definition stale (d : ArtifactDescriptor) : Prop :=
  (ad_id d ∉ active) ∧ retention_ms options ≤ age_ms now d.

#[local] Instance stale_dec d : Decision (stale d).
Proof. unfold stale. apply _. Defined.

(** After the ids of [seen] were handled: the stale ones of them are listed once
    and, unless it is a dry run, gone; everything else is untouched. *)
Record sweep_inv (s0 : MemoryArtifacts) (w : SweepState (S := MemoryArtifacts)) : Prop := {
  sv_seen : ∀ id, id ∈ sw_seen w → is_Some (descriptors s0 !! id);
  sv_desc : ∀ id d, descriptors s0 !! id = Some d →
    descriptors (sw_store w) !! id =
      (if decide (dry_run options = false ∧ id ∈ sw_seen w ∧ stale d) then None else Some d);
  sv_blob : ∀ id d, descriptors s0 !! id = Some d →
    blobs (sw_store w) !! id =
      (if decide (dry_run options = false ∧ id ∈ sw_seen w ∧ stale d) then None else blobs s0 !! id);
  sv_none : ∀ id, descriptors s0 !! id = None → descriptors (sw_store w) !! id = None;
  sv_nodup : NoDup (purged_ids (sw_stats w));
  sv_purged : ∀ id, id ∈ purged_ids (sw_stats w) ↔
    id ∈ sw_seen w ∧ ∃ d, descriptors s0 !! id = Some d ∧ stale d
}.

Lemma sweep_inv_start s0 : sweep_inv s0 {| sw_store := s0; sw_stats := gc_stats_default; sw_seen := ∅ |}.
Proof.
  split; cbn [sw_store sw_stats sw_seen gc_stats_default purged_ids]; try set_solver.
  - intros id d Hd. rewrite decide_False by set_solver. done.
  - intros id d Hd. rewrite decide_False by set_solver. done.
  - constructor.
Qed.

(** The two ways a descriptor is handled. *)
Definition kept (w : SweepState) (d : ArtifactDescriptor) : SweepState (S := MemoryArtifacts) :=
  {| sw_store := sw_store w; sw_stats := count_scanned (sw_stats w) d;
     sw_seen := {[ad_id d]} ∪ sw_seen w |}.

Definition purged (w : SweepState) (d : ArtifactDescriptor) : SweepState (S := MemoryArtifacts) :=
  {| sw_store := if dry_run options then sw_store w else (mem_delete (sw_store w) (ad_id d)).1;
     sw_stats := count_reclaimed (count_scanned (sw_stats w) d) d;
     sw_seen := {[ad_id d]} ∪ sw_seen w |}.

Definition swept (w : SweepState) (d : ArtifactDescriptor) : SweepState (S := MemoryArtifacts) :=
  if decide (ad_id d ∈ sw_seen w) then w else if decide (stale d) then purged w d else kept w d.

Lemma sweep_cases w d : sweep_descriptor options active now w d = (swept w d, Ok tt).
Proof.
  unfold sweep_descriptor, swept. case_bool_decide; [by rewrite decide_True|]. rewrite decide_False by done.
  case_bool_decide as Ha; [rewrite decide_False; [done|]; by intros [? _]|].
  destruct (Z.leb_spec (retention_ms options) (age_ms now d)).
  - rewrite decide_True by done. unfold purged. by destruct (dry_run options).
  - rewrite decide_False; [done|]. intros [_ ?]. lia.
Qed.

(** On this store no error ends a loop early. *)
Lemma sweep_each_ok {A} body (step : SweepState (S := MemoryArtifacts) → A → SweepState) w l :
  (∀ w x, body w x = (step w x, Ok tt)) → sweep_each body w l = (foldl step w l, Ok tt).
Proof. intros Hb. revert w. induction l as [|x l IH]; intros w; cbn; [done|]. by rewrite Hb. Qed.

Definition swept_tenant (w : SweepState (S := MemoryArtifacts)) (tenant : string) : SweepState :=
  foldl swept w (mem_list_by_tenant (sw_store w) tenant).

Lemma sweep_tenant_ok w tenant : sweep_tenant options active now w tenant = (swept_tenant w tenant, Ok tt).
Proof. apply sweep_each_ok, sweep_cases. Qed.

Section Step.
Context (s0 : MemoryArtifacts) (w : SweepState (S := MemoryArtifacts)) (d : ArtifactDescriptor).
Context (Hw : sweep_inv s0 w) (Hd : descriptors s0 !! ad_id d = Some d).

Lemma seen_stale id d' : descriptors s0 !! id = Some d' →
  id ∈ {[ad_id d]} ∪ sw_seen w ∧ stale d' ↔ (id = ad_id d ∧ stale d) ∨ (id ∈ sw_seen w ∧ stale d').
Proof.
  intros Hd'. rewrite elem_of_union, elem_of_singleton. split; [|naive_solver].
  intros [[->|?] ?]; [left; split; [done|]; congruence|by right].
Qed.

Lemma seen_known id : id ∈ {[ad_id d]} ∪ sw_seen w → is_Some (descriptors s0 !! id).
Proof.
  rewrite elem_of_union, elem_of_singleton. intros [->|?]; [by rewrite Hd|by apply (sv_seen _ _ Hw)].
Qed.

Lemma kept_inv : ¬ stale d → sweep_inv s0 (kept w d).
Proof.
  intros Hst. pose proof seen_stale as Hsplit. destruct Hw as [Vseen Vdesc Vblob Vnone Vnd Vp].
  split; cbn [kept sw_store sw_stats sw_seen count_scanned purged_ids]; [apply seen_known|..|done|done|].
  - intros id d' Hd'. rewrite (Vdesc id d' Hd'). apply decide_ext. specialize (Hsplit id d' Hd'). naive_solver.
  - intros id d' Hd'. rewrite (Vblob id d' Hd'). apply decide_ext. specialize (Hsplit id d' Hd'). naive_solver.
  - intros id. rewrite Vp, elem_of_union, elem_of_singleton. naive_solver.
Qed.

(** Deleting the stale id from a map that has lost the earlier ones. *)
Lemma purge_lookup {A} (m : gmap string A) id d' (v : option A) : stale d →
  descriptors s0 !! id = Some d' →
  m !! id = (if decide (dry_run options = false ∧ id ∈ sw_seen w ∧ stale d') then None else v) →
  (if dry_run options then m else delete (ad_id d) m) !! id =
  (if decide (dry_run options = false ∧ id ∈ {[ad_id d]} ∪ sw_seen w ∧ stale d') then None else v).
Proof.
  intros Hst Hd' Hm. pose proof (seen_stale id d' Hd') as Hsplit. destruct (dry_run options).
  - rewrite decide_False in Hm by naive_solver. rewrite Hm. by rewrite decide_False by naive_solver.
  - destruct (decide (id = ad_id d)) as [->|Hne].
    + rewrite lookup_delete_eq, decide_True; [done|]. split; [done|]. apply Hsplit. by left.
    + rewrite lookup_delete_ne, Hm by done. apply decide_ext. naive_solver.
Qed.

Lemma purged_inv : stale d → ad_id d ∉ sw_seen w → sweep_inv s0 (purged w d).
Proof.
  intros Hst Hnew. pose proof (@purge_lookup) as Hlook. destruct Hw as [Vseen Vdesc Vblob Vnone Vnd Vp].
  split; cbn [purged sw_stats sw_seen count_reclaimed count_scanned purged_ids]; [apply seen_known|..].
  - intros id d' Hd'. rewrite <- (Hlook _ _ id d' _ Hst Hd' (Vdesc id d' Hd')).
    cbn [purged sw_store]. by destruct (dry_run options).
  - intros id d' Hd'. rewrite <- (Hlook _ _ id d' _ Hst Hd' (Vblob id d' Hd')).
    cbn [purged sw_store]. by destruct (dry_run options).
  - intros id Hid. cbn [purged sw_store]. destruct (dry_run options); [by apply Vnone|].
    apply lookup_delete_None. right. by apply Vnone.
  - apply NoDup_app. split_and!; [done| |apply NoDup_singleton].
    intros id Hid ->%list_elem_of_singleton. by apply Vp in Hid as [? _].
  - intros id. rewrite elem_of_app, list_elem_of_singleton, Vp, elem_of_union, elem_of_singleton.
    naive_solver.
Qed.

Lemma sweep_step_inv : sweep_inv s0 (swept w d) ∧ sw_seen (swept w d) = {[ad_id d]} ∪ sw_seen w.
Proof.
  unfold swept. destruct (decide (ad_id d ∈ sw_seen w)); [split; [done|set_solver]|].
  destruct (decide (stale d)); (split; [|done]); [by apply purged_inv|by apply kept_inv].
Qed.
End Step.

Lemma sweep_list_inv s0 ds w : sweep_inv s0 w →
  (∀ d, d ∈ ds → descriptors s0 !! ad_id d = Some d) →
  sweep_inv s0 (foldl swept w ds) ∧
  sw_seen (foldl swept w ds) = list_to_set (ad_id <$> ds) ∪ sw_seen w.
Proof.
  revert w. induction ds as [|d ds IH]; intros w Hw Hds; cbn [foldl fmap list_fmap list_to_set].
  { split; [done|]. set_solver. }
  destruct (sweep_step_inv s0 w d Hw) as [Hw' Hseen]; [apply Hds; left|].
  destruct (IH _ Hw') as [Hi Hs]; [intros d' ?; apply Hds; by right|].
  split; [done|]. rewrite Hs, Hseen. set_solver.
Qed.

Lemma sweep_tenants_inv s0 ts w T : artifacts_ok s0 → sweep_inv s0 w →
  (∀ id, id ∈ sw_seen w ↔ ∃ d, descriptors s0 !! id = Some d ∧ ad_tenant d ∈ T) →
  let w' := foldl swept_tenant w ts in
  sweep_inv s0 w' ∧ ∀ id, id ∈ sw_seen w' ↔ ∃ d, descriptors s0 !! id = Some d ∧ ad_tenant d ∈ T ++ ts.
Proof.
  intros Hok. revert w T. induction ts as [|t ts IH]; intros w T Hw HT; cbn [foldl].
  { by rewrite app_nil_r. }
  rewrite (cons_middle t T ts), app_assoc. unfold swept_tenant at 2 4.
  set (ds := mem_list_by_tenant (sw_store w) t).
  assert (∀ d, d ∈ ds ↔ descriptors (sw_store w) !! ad_id d = Some d ∧ ad_tenant d = t) as Hds.
  { intros d. unfold ds, mem_list_by_tenant.
    rewrite list_elem_of_In, filter_In, <- list_elem_of_In, hash_values_elem, bool_decide_eq_true.
    split; [|naive_solver]. intros [[k Hk] ?]. split; [|done].
    destruct (descriptors s0 !! k) as [d0|] eqn:E0; [|by rewrite (sv_none _ _ Hw) in Hk].
    rewrite (sv_desc _ _ Hw _ _ E0) in Hk. destruct (decide _) eqn:Edec; [done|]. injection Hk as ->.
    rewrite (ao_desc _ Hok _ _ E0), (sv_desc _ _ Hw _ _ E0), Edec. done. }
  assert (∀ d, descriptors (sw_store w) !! ad_id d = Some d → descriptors s0 !! ad_id d = Some d) as Hback.
  { intros d Hd. destruct (descriptors s0 !! ad_id d) as [d0|] eqn:E0; [|by rewrite (sv_none _ _ Hw) in Hd].
    rewrite (sv_desc _ _ Hw _ _ E0) in Hd. case_decide; [done|]. by injection Hd as ->. }
  destruct (sweep_list_inv s0 ds w Hw) as [Hw' Hseen]; [intros d [? _]%Hds; by apply Hback|].
  apply IH; [done|]. intros id. rewrite Hseen, elem_of_union, elem_of_list_to_set, HT.
  setoid_rewrite elem_of_app. setoid_rewrite list_elem_of_singleton. split.
  - intros [(d & -> & [Hd Ht]%Hds)%list_elem_of_fmap|(d & ? & ?)]; [|by eauto]. exists d. split; [by apply Hback|by right].
  - intros (d & Hd & [Ht|Ht]); [right; eauto|].
    destruct (decide (id ∈ sw_seen w)) as [Hin|Hout]; [right; by apply HT|]. left.
    apply list_elem_of_fmap. exists d. rewrite (ao_desc _ Hok _ _ Hd). split; [done|]. apply Hds.
    rewrite (ao_desc _ Hok _ _ Hd), (sv_desc _ _ Hw _ _ Hd), decide_False by naive_solver. done.
Qed.

(** The sweep of a consistent store: it succeeds, in a state the invariant describes. *)
Lemma sweep_artifacts_ok s : artifacts_ok s → ∃ w,
  sweep_artifacts options active now s = (sw_store w, Ok (sw_stats w)) ∧ sweep_inv s w ∧
  ∀ id, id ∈ sw_seen w ↔ ∃ d, descriptors s !! id = Some d ∧ ad_tenant d ∈ target_tenants options.
Proof.
  intros Hok. eexists. split.
  - unfold sweep_artifacts. by rewrite (sweep_each_ok _ _ _ _ sweep_tenant_ok).
  - apply (sweep_tenants_inv s (target_tenants options) _ [] Hok (sweep_inv_start s)).
    intros id. cbn. split; [by intros ?%elem_of_empty|]. by intros (d & _ & ?%elem_of_nil).
Qed.
End Addressing.

(** ** Properties *)

(** C30. A sweep of a consistent in-memory store succeeds and purges exactly the
    artifacts of the target tenants that are past retention and not referenced, each
    once; the others keep their contents, and a dry run reports the same ids and
    deletes nothing. *)
Theorem sweep_purges_stale `{Digest} `{HashIter} options active now s : artifacts_ok s →
  ∃ s' stats, sweep_artifacts options active now s = (s', Ok stats) ∧
  NoDup (purged_ids stats) ∧
  (∀ id, id ∈ purged_ids stats ↔ ∃ d, descriptors s !! id = Some d ∧
     ad_tenant d ∈ target_tenants options ∧ stale options active now d) ∧
  ∀ id data, blobs s !! id = Some data →
    blobs s' !! id = if decide (dry_run options = false ∧ id ∈ purged_ids stats) then None else Some data.
Proof.
  intros Hok. destruct (sweep_artifacts_ok options active now s Hok) as (w&Hs&Hw&Hseen).
  exists (sw_store w), (sw_stats w). destruct Hw as [_ _ Vblob _ Vnd Vp]. split_and!; [done|done| |].
  - intros id. rewrite Vp, Hseen. naive_solver.
  - intros id data Hb. destruct (proj1 (ao_dom _ Hok id) (mk_is_Some _ _ Hb)) as [d Hd].
    rewrite (Vblob id d Hd), Hb. apply decide_ext. rewrite Vp. naive_solver.
Qed.

#[local] Instance length_digest : Digest := fun data => pretty (Z.of_nat (length data)).

Definition one_artifact : MemoryArtifacts := (mem_put memory_artifacts_new "acme" "a.bin" [1; 2; 3] "x" 0).1.

Lemma sweep_purges_stale_witness :
  ∃ s' stats, sweep_artifacts gc_options_default ∅ 604800000 one_artifact = (s', Ok stats) ∧
    purged_ids stats = ["3"] ∧ NoDup (purged_ids stats).
Proof.
  destruct (sweep_purges_stale gc_options_default ∅ 604800000 one_artifact) as (s'&stats&Hs&Hnd&_).
  - exact (artifact_ops_ok [OpPut "acme" "a.bin" [1; 2; 3] "x" 0]).
  - exists s', stats. split; [exact Hs|]. split; [|exact Hnd]. vm_compute in Hs. injection Hs as _ <-. reflexivity.
Defined.

(** A blob read from disk has the digest it was asked for, whatever happened
    to the files, and reading what was just stored returns it. *)
Theorem disk_integrity `{Digest} s :
  (∀ id data, disk_get s id = Some (Ok (Some data)) → sha256 data = id) ∧
  (∀ tenant name data ct now s' d, disk_put s tenant name data ct now = Some (s', d) →
     ad_id d = sha256 data ∧ disk_get s' (ad_id d) = Some (Ok (Some data))).
Proof.
  split.
  - intros id data. unfold disk_get. repeat case_match; try done. case_bool_decide; [|done].
    by intros [= ->].
  - intros tenant name data ct now s' d. unfold disk_put.
    destruct (blob_path (root_dir s) (sha256 data)) as [target|] eqn:Hp; [|done]. intros [= <- <-].
    split; [done|]. unfold disk_get. cbn [root_dir files descriptor_of ad_id]. rewrite Hp, lookup_insert_eq.
    by rewrite bool_decide_eq_true_2.
Qed.

(** The store keeps one descriptor per content: when a second tenant stores
    the same bytes, the artifact leaves the first tenant's listing, and the
    second tenant's deletion removes the bytes of both. *)
Theorem shared_content_changes_owner `{Digest} `{HashIter} s a b n m data ct now now' : a ≠ b →
  let s1 := (mem_put s a n data ct now).1 in
  let s2 := (mem_put s1 b m data ct now').1 in
  let s3 := (mem_delete s2 (sha256 data)).1 in
  (∃ d, d ∈ mem_list_by_tenant s1 a ∧ ad_id d = sha256 data) ∧
  (∀ d, d ∈ mem_list_by_tenant s2 a → descriptors s2 !! sha256 data ≠ Some d) ∧
  mem_get s3 (sha256 data) = Ok None.
Proof.
  intros Hab s1 s2 s3. unfold mem_list_by_tenant.
  setoid_rewrite list_elem_of_In. setoid_rewrite filter_In. setoid_rewrite <- list_elem_of_In.
  setoid_rewrite hash_values_elem. setoid_rewrite bool_decide_eq_true. split_and!.
  - exists (descriptor_of a n data ct now). split; [|done]. split; [|done].
    exists (sha256 data). unfold s1. cbn. by rewrite lookup_insert_eq.
  - intros d [_ Ht] Hd. unfold s2 in Hd. cbn in Hd. rewrite lookup_insert_eq in Hd.
    injection Hd as <-. by cbn in Ht.
  - unfold mem_get, s3. cbn [mem_delete fst blobs]. by rewrite lookup_delete_eq.
Qed.

Lemma shared_content_changes_owner_witness :
  let s1 := (mem_put memory_artifacts_new "acme" "x" [7] "t" 0).1 in
  let s2 := (mem_put s1 "beta" "y" [7] "t" 1).1 in
  mem_list_by_tenant s2 "acme" = [] ∧ mem_get (mem_delete s2 (sha256 [7])).1 (sha256 [7]) = Ok None.
Proof.
  intros s1 s2. split; [vm_compute; reflexivity|].
  exact (proj2 (proj2 (shared_content_changes_owner memory_artifacts_new "acme" "beta" "x" "y" [7] "t" 0 1
    ltac:(discriminate)))).
Defined.

(** A sweep with default options visits the tenants [default] and [acme]
    only: however old, an artifact of another tenant is never collected. *)
Theorem default_sweep_misses_tenants `{Digest} `{HashIter} active now s id d : artifacts_ok s →
  descriptors s !! id = Some d → ad_tenant d ≠ "default" → ad_tenant d ≠ "acme" →
  ∃ stats, (sweep_artifacts gc_options_default active now s).2 = Ok stats ∧ id ∉ purged_ids stats.
Proof.
  intros Hok Hd H1 H2. destruct (sweep_artifacts_ok gc_options_default active now s Hok) as (w&Hs&Hw&Hseen).
  exists (sw_stats w). rewrite Hs, (sv_purged _ _ _ _ _ Hw), Hseen. split; [done|].
  intros [(d' & Hd' & Ht) _]. simplify_eq. cbn in Ht. rewrite !elem_of_cons, elem_of_nil in Ht. naive_solver.
Qed.

Lemma default_sweep_misses_tenants_witness :
  let s := (mem_put memory_artifacts_new "beta" "a.bin" [1; 2; 3] "x" 0).1 in
  ∃ stats, (sweep_artifacts gc_options_default ∅ 1000000000000 s).2 = Ok stats ∧ "3" ∉ purged_ids stats.
Proof.
  intros s.
  apply (default_sweep_misses_tenants ∅ 1000000000000 s "3" (descriptor_of "beta" "a.bin" [1; 2; 3] "x" 0)).
  - exact (artifact_ops_ok [OpPut "beta" "a.bin" [1; 2; 3] "x" 0]).
  - reflexivity.
  - discriminate.
  - discriminate.
Defined.

(** The path of a blob is built from the id as given: an absolute id is its
    own path, so a deletion removes that file, wherever the store is rooted. *)
Theorem disk_delete_escapes `{Digest} root meta data :
  let s := {| root_dir := root; files := {["/etc/hosts"%string := data]}; metadata := meta |} in
  ∃ s', disk_delete s "/etc/hosts" = Some (s', true) ∧ files s' = ∅.
Proof.
  intros s. unfold disk_delete. change (blob_path (root_dir s) "/etc/hosts") with (Some "/etc/hosts").
  eexists. split; [unfold s; cbn [files]; rewrite lookup_singleton_eq; by rewrite bool_decide_eq_true_2|].
  cbn [files]. apply delete_singleton_eq.
Qed.
