(* ===== verification/Config.v ===== *)
(** * Configuration (src/src/config.rs, the layering of src/src/cli/serve.rs)

    Four layers resolve to one [Config]: the defaults, a TOML file, [RUNVANE_*]
    variables and the flags of [serve]. The TOML parser and the reading of the file
    are arguments; the environment is a map. *)
From stdpp Require Import pretty.
From S2P Require Import Prelude RustStrings Text Ids Errors.
Local Open Scope Z_scope.

Definition DEFAULT_HTTP_PORT : Z := 8080.
Definition DEFAULT_GRPC_PORT : Z := 9090.
Definition DEFAULT_WORKERS : Z := 4.
Definition DEFAULT_LEASE_MS : Z := 60000.
Definition DEFAULT_REAP_MS : Z := 5000.
Definition DEFAULT_LIST_LIMIT : Z := 100.

Record Config := {
  cf_host : string;
  cf_http_port : Z;
  cf_grpc_port : Z;
  cf_workers : Z;
  cf_sqlite_path : option string;
  cf_log_filter : string;
  cf_auth_token : option string;
  cf_admin_token : option string;
  cf_lease_ms : Z;
  cf_reap_interval_ms : Z;
  cf_retention_ms : option Z;
  cf_default_list_limit : Z;
  cf_audit_log_path : option string
}.

Definition config_default : Config := {|
  cf_host := "127.0.0.1"; cf_http_port := DEFAULT_HTTP_PORT; cf_grpc_port := DEFAULT_GRPC_PORT;
  cf_workers := DEFAULT_WORKERS; cf_sqlite_path := None; cf_log_filter := "info"; cf_auth_token := None;
  cf_admin_token := None; cf_lease_ms := DEFAULT_LEASE_MS; cf_reap_interval_ms := DEFAULT_REAP_MS;
  cf_retention_ms := None; cf_default_list_limit := DEFAULT_LIST_LIMIT; cf_audit_log_path := None
|}.

(** The TOML document, with the names of the keys it does not know. *)
Record ConfigFile := {
  fl_host : option string;
  fl_http_port : option Z;
  fl_grpc_port : option Z;
  fl_workers : option Z;
  fl_sqlite_path : option string;
  fl_log_filter : option string;
  fl_auth_token : option string;
  fl_admin_token : option string;
  fl_lease_ms : option Z;
  fl_reap_interval_ms : option Z;
  fl_retention_ms : option Z;
  fl_default_list_limit : option Z;
  fl_audit_log_path : option string;
  fl_unknown : gset string
}.

Record ServeArgs := {
  sa_config : option string;
  sa_host : option string;
  sa_http_port : option Z;
  sa_grpc_port : option Z;
  sa_workers : option Z;
  sa_sqlite : option string;
  sa_log_filter : option string;
  sa_lease_ms : option Z;
  sa_reap_ms : option Z;
  sa_retention_ms : option Z
}.

Definition config_error {A} (text : string) : result A RunvaneError := Err (RunvaneError.Config text).

Definition unknown_key_error (keys : gset string) : option RunvaneError :=
  if bool_decide (keys = ∅) then None
  else Some (RunvaneError.Config ("unknown config key(s): " +:+ join ", " (bt_elems keys))).

Definition config_validate (c : Config) : result unit RunvaneError :=
  if cf_http_port c =? 0 then config_error "http_port must not be 0"
  else if cf_grpc_port c =? 0 then config_error "grpc_port must not be 0"
  else if cf_lease_ms c <=? 0 then config_error "lease_ms must be a positive duration"
  else if cf_reap_interval_ms c <=? 0 then config_error "reap_interval_ms must be a positive duration"
  else if bool_decide (cf_retention_ms c = Some 0) then config_error "retention_ms must be a positive duration"
  else Ok tt.

(** [if let Some(v) = layer { field = v }], and for an optional field. *)
Definition over {A} (layer : option A) (field : A) : A := default field layer.
Definition over_opt {A} (layer field : option A) : option A :=
  match layer with Some v => Some v | None => field end.

Definition file_layer (f : ConfigFile) (c : Config) : Config := {|
  cf_host := over (fl_host f) (cf_host c);
  cf_http_port := over (fl_http_port f) (cf_http_port c);
  cf_grpc_port := over (fl_grpc_port f) (cf_grpc_port c);
  cf_workers := over (fl_workers f) (cf_workers c);
  cf_sqlite_path := over_opt (fl_sqlite_path f) (cf_sqlite_path c);
  cf_log_filter := over (fl_log_filter f) (cf_log_filter c);
  cf_auth_token := over_opt (fl_auth_token f) (cf_auth_token c);
  cf_admin_token := over_opt (fl_admin_token f) (cf_admin_token c);
  cf_lease_ms := over (fl_lease_ms f) (cf_lease_ms c);
  cf_reap_interval_ms := over (fl_reap_interval_ms f) (cf_reap_interval_ms c);
  cf_retention_ms := over_opt (fl_retention_ms f) (cf_retention_ms c);
  cf_default_list_limit := over (fl_default_list_limit f) (cf_default_list_limit c);
  cf_audit_log_path := over_opt (fl_audit_log_path f) (cf_audit_log_path c)
|}.

Section Config.
(** [toml::from_str], [std::fs::read_to_string] and the [Debug] text of a string. *)
Context (toml_parse : string → result ConfigFile string) (read_file : string → result string string).
Context (str_debug : string → string).

Definition from_toml_str (toml : string) : result Config RunvaneError :=
  let? file := map_err (fun e => RunvaneError.Config ("config file does not parse: " +:+ e)) (toml_parse toml) in
  match unknown_key_error (fl_unknown file) with
  | Some e => Err e
  | None =>
      let cfg := file_layer file config_default in
      let? _ := config_validate cfg in Ok cfg
  end.

Definition from_file (path : string) : result Config RunvaneError :=
  let? text := map_err (fun e => RunvaneError.Config ("cannot read config file " +:+ path +:+ ": " +:+ e))
                 (read_file path) in
  from_toml_str text.

Definition parse_required (parse : string → result Z ParseIntError) (name raw : string) : result Z RunvaneError :=
  map_err (fun _ => RunvaneError.Config (name +:+ " (" +:+ str_debug raw +:+
    ") does not parse as the expected type")) (parse raw).

(** One [if let Some(v) = env.get(name)] with a parsed value. *)
Definition env_number (env : gmap string string) (parse : string → result Z ParseIntError) (name : string)
    : result (option Z) RunvaneError :=
  match env !! name with
  | None => Ok None
  | Some raw => let? n := parse_required parse name raw in Ok (Some n)
  end.

Definition apply_env_map (env : gmap string string) (c : Config) : result Config RunvaneError :=
  let? http := env_number env parse_u16 "RUNVANE_HTTP_PORT" in
  let? grpc := env_number env parse_u16 "RUNVANE_GRPC_PORT" in
  let? workers := env_number env parse_u64 "RUNVANE_WORKERS" in
  let? lease := env_number env parse_i64 "RUNVANE_LEASE_MS" in
  let? reap := env_number env parse_i64 "RUNVANE_REAP_MS" in
  let? retention := env_number env parse_u64 "RUNVANE_RETENTION_MS" in
  let c := {|
    cf_host := over (env !! "RUNVANE_HOST"%string) (cf_host c);
    cf_http_port := over http (cf_http_port c);
    cf_grpc_port := over grpc (cf_grpc_port c);
    cf_workers := over workers (cf_workers c);
    cf_sqlite_path := over_opt (env !! "RUNVANE_SQLITE_PATH"%string) (cf_sqlite_path c);
    cf_log_filter := over (env !! "RUNVANE_LOG_FILTER"%string) (cf_log_filter c);
    cf_auth_token := over_opt (env !! "RUNVANE_AUTH_TOKEN"%string) (cf_auth_token c);
    cf_admin_token := over_opt (env !! "RUNVANE_ADMIN_TOKEN"%string) (cf_admin_token c);
    cf_lease_ms := over lease (cf_lease_ms c);
    cf_reap_interval_ms := over reap (cf_reap_interval_ms c);
    cf_retention_ms := over_opt retention (cf_retention_ms c);
    cf_default_list_limit := cf_default_list_limit c;
    cf_audit_log_path := over_opt (env !! "RUNVANE_AUDIT_LOG_PATH"%string) (cf_audit_log_path c)
  |} in
  let? _ := config_validate c in Ok c.

Definition flag_layer (args : ServeArgs) (c : Config) : Config := {|
  cf_host := over (sa_host args) (cf_host c);
  cf_http_port := over (sa_http_port args) (cf_http_port c);
  cf_grpc_port := over (sa_grpc_port args) (cf_grpc_port c);
  cf_workers := over (sa_workers args) (cf_workers c);
  cf_sqlite_path := over_opt (sa_sqlite args) (cf_sqlite_path c);
  cf_log_filter := over (sa_log_filter args) (cf_log_filter c);
  cf_auth_token := cf_auth_token c;
  cf_admin_token := cf_admin_token c;
  cf_lease_ms := over (sa_lease_ms args) (cf_lease_ms c);
  cf_reap_interval_ms := over (sa_reap_ms args) (cf_reap_interval_ms c);
  cf_retention_ms := over_opt (sa_retention_ms args) (cf_retention_ms c);
  cf_default_list_limit := cf_default_list_limit c;
  cf_audit_log_path := cf_audit_log_path c
|}.

Definition apply_config_layers (c : Config) (env : gmap string string) (args : ServeArgs)
    : result Config RunvaneError :=
  let? c := apply_env_map env c in
  let c := flag_layer args c in
  let? _ := config_validate c in Ok c.

Definition resolved_config (env : gmap string string) (args : ServeArgs) : result Config RunvaneError :=
  let? c := match sa_config args with
            | Some path => from_file path
            | None => Ok config_default
            end in
  apply_config_layers c env args.
End Config.

Definition http_addr (c : Config) : string := cf_host c +:+ ":" +:+ pretty (cf_http_port c).
Definition grpc_addr (c : Config) : string := cf_host c +:+ ":" +:+ pretty (cf_grpc_port c).

(** ** Specification *)

(** The first layer that sets a value, the highest first. *)
Definition first_set {A} (layers : list (option A)) : option A := head (omap id layers).

Definition no_file : ConfigFile := {|
  fl_host := None; fl_http_port := None; fl_grpc_port := None; fl_workers := None; fl_sqlite_path := None;
  fl_log_filter := None; fl_auth_token := None; fl_admin_token := None; fl_lease_ms := None;
  fl_reap_interval_ms := None; fl_retention_ms := None; fl_default_list_limit := None;
  fl_audit_log_path := None; fl_unknown := ∅
|}.

Definition no_args : ServeArgs := {|
  sa_config := None; sa_host := None; sa_http_port := None; sa_grpc_port := None; sa_workers := None;
  sa_sqlite := None; sa_log_filter := None; sa_lease_ms := None; sa_reap_ms := None; sa_retention_ms := None
|}.

(** The number a variable holds, if it is set and is one. *)
Definition env_value (env : gmap string string) (parse : string → result Z ParseIntError) (name : string) : option Z :=
  raw ← env !! name; match parse raw with Ok n => Some n | Err _ => None end.

Definition effective (file : ConfigFile) (env : gmap string string) (args : ServeArgs) : Config := {|
  cf_host := default (cf_host config_default) (first_set [sa_host args; env !! "RUNVANE_HOST"%string; fl_host file]);
  cf_http_port := default DEFAULT_HTTP_PORT
    (first_set [sa_http_port args; env_value env parse_u16 "RUNVANE_HTTP_PORT"; fl_http_port file]);
  cf_grpc_port := default DEFAULT_GRPC_PORT
    (first_set [sa_grpc_port args; env_value env parse_u16 "RUNVANE_GRPC_PORT"; fl_grpc_port file]);
  cf_workers := default DEFAULT_WORKERS
    (first_set [sa_workers args; env_value env parse_u64 "RUNVANE_WORKERS"; fl_workers file]);
  cf_sqlite_path := first_set [sa_sqlite args; env !! "RUNVANE_SQLITE_PATH"%string; fl_sqlite_path file];
  cf_log_filter := default (cf_log_filter config_default)
    (first_set [sa_log_filter args; env !! "RUNVANE_LOG_FILTER"%string; fl_log_filter file]);
  cf_auth_token := first_set [env !! "RUNVANE_AUTH_TOKEN"%string; fl_auth_token file];
  cf_admin_token := first_set [env !! "RUNVANE_ADMIN_TOKEN"%string; fl_admin_token file];
  cf_lease_ms := default DEFAULT_LEASE_MS
    (first_set [sa_lease_ms args; env_value env parse_i64 "RUNVANE_LEASE_MS"; fl_lease_ms file]);
  cf_reap_interval_ms := default DEFAULT_REAP_MS
    (first_set [sa_reap_ms args; env_value env parse_i64 "RUNVANE_REAP_MS"; fl_reap_interval_ms file]);
  cf_retention_ms :=
    first_set [sa_retention_ms args; env_value env parse_u64 "RUNVANE_RETENTION_MS"; fl_retention_ms file];
  cf_default_list_limit := default DEFAULT_LIST_LIMIT (fl_default_list_limit file);
  cf_audit_log_path := first_set [env !! "RUNVANE_AUDIT_LOG_PATH"%string; fl_audit_log_path file]
|}.

Definition config_ok (c : Config) : Prop :=
  cf_http_port c ≠ 0 ∧ cf_grpc_port c ≠ 0 ∧ 0 < cf_lease_ms c ∧ 0 < cf_reap_interval_ms c ∧
  cf_retention_ms c ≠ Some 0.

(** Every numeric variable that is set is a number of its type. *)
Definition env_parses (env : gmap string string) : Prop :=
  Forall (fun '(parse, name) => ∀ raw, env !! name = Some raw → is_ok (parse raw) = true)
    [(parse_u16, "RUNVANE_HTTP_PORT"); (parse_u16, "RUNVANE_GRPC_PORT"); (parse_u64, "RUNVANE_WORKERS");
     (parse_i64, "RUNVANE_LEASE_MS"); (parse_i64, "RUNVANE_REAP_MS"); (parse_u64, "RUNVANE_RETENTION_MS")]%string.

Lemma config_validate_iff c : config_validate c = Ok tt ↔ config_ok c.
Proof.
  unfold config_validate, config_error, config_ok.
  repeat match goal with |- context [if ?b then _ else _] => destruct b eqn:? end; to_prop; naive_solver lia.
Qed.

Lemma validated {A} c (k : result A RunvaneError) a :
  (let? _ := config_validate c in k) = Ok a ↔ config_ok c ∧ k = Ok a.
Proof.
  rewrite <-config_validate_iff. destruct (config_validate c) as [[]|e]; cbn; [tauto|].
  split; [done|intros [? _]; done].
Qed.

Lemma env_number_bind {A} str_debug env parse name (k : option Z → result A RunvaneError) a :
  (let? o := env_number str_debug env parse name in k o) = Ok a ↔
  (∀ raw, env !! name = Some raw → is_ok (parse raw) = true) ∧ k (env_value env parse name) = Ok a.
Proof.
  unfold env_number, env_value, parse_required. destruct (env !! name) as [raw|]; cbn; [|naive_solver].
  destruct (parse raw) as [n|e] eqn:Hp; cbn; split; [intros Hk; split; [intros ? [= <-]; by rewrite Hp|done]
    |by intros [_ ?]|done|intros [Hr _]; specialize (Hr raw eq_refl); by rewrite Hp in Hr].
Qed.

(** The environment's layer, once its numbers have parsed. *)
Definition env_layer (env : gmap string string) (c : Config) : Config := {|
  cf_host := over (env !! "RUNVANE_HOST"%string) (cf_host c);
  cf_http_port := over (env_value env parse_u16 "RUNVANE_HTTP_PORT") (cf_http_port c);
  cf_grpc_port := over (env_value env parse_u16 "RUNVANE_GRPC_PORT") (cf_grpc_port c);
  cf_workers := over (env_value env parse_u64 "RUNVANE_WORKERS") (cf_workers c);
  cf_sqlite_path := over_opt (env !! "RUNVANE_SQLITE_PATH"%string) (cf_sqlite_path c);
  cf_log_filter := over (env !! "RUNVANE_LOG_FILTER"%string) (cf_log_filter c);
  cf_auth_token := over_opt (env !! "RUNVANE_AUTH_TOKEN"%string) (cf_auth_token c);
  cf_admin_token := over_opt (env !! "RUNVANE_ADMIN_TOKEN"%string) (cf_admin_token c);
  cf_lease_ms := over (env_value env parse_i64 "RUNVANE_LEASE_MS") (cf_lease_ms c);
  cf_reap_interval_ms := over (env_value env parse_i64 "RUNVANE_REAP_MS") (cf_reap_interval_ms c);
  cf_retention_ms := over_opt (env_value env parse_u64 "RUNVANE_RETENTION_MS") (cf_retention_ms c);
  cf_default_list_limit := cf_default_list_limit c;
  cf_audit_log_path := over_opt (env !! "RUNVANE_AUDIT_LOG_PATH"%string) (cf_audit_log_path c)
|}.

Lemma apply_env_iff str_debug env c c' :
  apply_env_map str_debug env c = Ok c' ↔ env_parses env ∧ config_ok (env_layer env c) ∧ c' = env_layer env c.
Proof.
  unfold env_parses. rewrite !Forall_cons, Forall_nil. unfold apply_env_map.
  rewrite !env_number_bind, validated. fold (env_layer env c). naive_solver.
Qed.

Lemma effective_layers file env args :
  flag_layer args (env_layer env (file_layer file config_default)) = effective file env args.
Proof.
  unfold flag_layer, env_layer, file_layer, effective. cbn [cf_host cf_http_port cf_grpc_port cf_workers
    cf_sqlite_path cf_log_filter cf_auth_token cf_admin_token cf_lease_ms cf_reap_interval_ms cf_retention_ms
    cf_default_list_limit cf_audit_log_path config_default].
  f_equal; repeat match goal with
    | |- context [over ?x _] => destruct x; cbn [over default first_set omap list_omap head id]; try done
    | |- context [over_opt ?x _] => destruct x; cbn [over_opt first_set omap list_omap head id]; try done
    end.
Qed.

(** The document a set of arguments names: none, or a file without unknown keys. *)
Definition file_of (toml_parse : string → result ConfigFile string) (read_file : string → result string string)
    (args : ServeArgs) (file : ConfigFile) : Prop :=
  match sa_config args with
  | None => file = no_file
  | Some path => ∃ text, read_file path = Ok text ∧ toml_parse text = Ok file ∧ fl_unknown file = ∅
  end.

Lemma from_toml_iff toml_parse text c :
  from_toml_str toml_parse text = Ok c ↔
  ∃ file, toml_parse text = Ok file ∧ fl_unknown file = ∅ ∧ config_ok (file_layer file config_default) ∧
    c = file_layer file config_default.
Proof.
  unfold from_toml_str. destruct (toml_parse text) as [file|e]; cbn [map_err rbind]; [|naive_solver].
  unfold unknown_key_error. case_bool_decide as Hu.
  - rewrite validated. split; [intros [? [= <-]]; eauto|]. by intros (?&[= <-]&_&?&->).
  - split; [done|]. by intros (?&[= <-]&?&_).
Qed.

(** ** Property *)

(** C37. The configuration resolves exactly when the named file reads and has no
    unknown key, every numeric variable parses, and the values are in range after
    the file, after the environment and after the flags; every field then has the
    value of the highest layer that sets it, flags over variables over the file over
    the defaults. *)
Theorem config_precedence toml_parse read_file str_debug env args cfg :
  resolved_config toml_parse read_file str_debug env args = Ok cfg ↔
  ∃ file, file_of toml_parse read_file args file ∧ env_parses env ∧ cfg = effective file env args ∧
    config_ok (effective file ∅ no_args) ∧ config_ok (effective file env no_args) ∧ config_ok cfg.
Proof.
  assert (Hbase : ∀ c, match sa_config args with
      | Some path => from_file toml_parse read_file path | None => Ok config_default end = Ok c ↔
    ∃ file, file_of toml_parse read_file args file ∧ config_ok (effective file ∅ no_args) ∧
      c = file_layer file config_default).
  { assert (He : ∀ file, effective file ∅ no_args = file_layer file config_default)
      by (intros file; rewrite <-effective_layers; by destruct file).
    intros c. setoid_rewrite He. unfold file_of. destruct (sa_config args) as [path|].
    - unfold from_file. destruct (read_file path) as [text|e]; cbn [map_err rbind];
        [|split; [done|by intros (?&(?&?&_)&_)]].
      rewrite from_toml_iff. split.
      + intros (file&?&?&?&->). exists file. split; [by exists text|done].
      + intros (file&(?&[= <-]&?&?)&?&->). by exists file.
    - split; [intros [= <-]; exists no_file; by repeat split|]. by intros (?&->&_&->). }
  unfold resolved_config. 
  destruct (match sa_config args with Some path => from_file toml_parse read_file path | None => Ok config_default end)
    as [c|e]; cbn [rbind].
  - destruct (proj1 (Hbase c) eq_refl) as (file&Hf&Hok&->). unfold apply_config_layers.
    assert (Hu : ∀ file', file_of toml_parse read_file args file' → file' = file).
    { unfold file_of in *. destruct (sa_config args); [|congruence].
      destruct Hf as (?&?&?&_). intros file' (?&?&?&_). congruence. }
    destruct (apply_env_map str_debug env (file_layer file config_default)) as [c1|e1] eqn:Ha; cbn [rbind].
    + apply apply_env_iff in Ha as (Hp&Hok1&->). rewrite validated, effective_layers. split.
      * intros [? [= <-]]. exists file. rewrite <-(effective_layers file env no_args). by split_and!.
      * intros (file'&Hf'&_&->&_&_&?). by rewrite (Hu file' Hf') in *.
    + split; [done|]. intros (file'&Hf'&Hp&_&_&Hok1&_). rewrite (Hu file' Hf') in *.
      rewrite <-effective_layers in Hok1.
      assert (Hc : apply_env_map str_debug env (file_layer file config_default) = Ok (env_layer env (file_layer file config_default)))
        by by apply apply_env_iff. congruence.
  - split; [done|]. intros (file&Hf&_&_&Hok&_).
    assert (Hc : Err e = Ok (file_layer file config_default)) by (apply Hbase; by exists file). discriminate Hc.
Qed.
