(* ===== verification/Pick.v ===== *)
(** * Ready-set selection (src/src/scheduler/pick.rs)

    Which tasks of a run may dispatch, and which can never run. [pending_to_skip]
    iterates a pass over the tasks until nothing changes; its fuel of two passes
    is enough ([pending_to_skip_spec]): the test looks at [Succeeded] only, which
    a pass never changes, so the second pass is always idle. *)
From S2P Require Import Prelude Status Errors Json RetryPolicy Workflow Dag.

(** [states.get(name).copied().unwrap_or(TaskStatus::Pending)] *)
Definition status_of (states : gmap string TaskStatus) (name : string) : TaskStatus :=
  default TaskStatus.Pending (states !! name).

(** [matches!(states.get(dep).copied(), Some(TaskStatus::Succeeded))] *)
Definition succeeded (states : gmap string TaskStatus) (dep : string) : bool :=
  bool_decide (states !! dep = Some TaskStatus.Succeeded).

Definition ready_tasks (tasks : list TaskSpec) (states : gmap string TaskStatus) : list string :=
  sort_by String.leb (omap (fun task =>
    match status_of states (ts_name task) with
    | TaskStatus.Failed => Some (ts_name task)
    | TaskStatus.Pending =>
        if forallb (succeeded states) (ts_depends_on task) then Some (ts_name task) else None
    | _ => None
    end) tasks).

Definition dep_blocked (states : gmap string TaskStatus) (task : TaskSpec) : bool :=
  existsb (fun dep => negb (succeeded states dep)) (ts_depends_on task).

(** One pass of the inner [for], with its [changed] flag. *)
Fixpoint skip_pass (tasks : list TaskSpec) (next : gmap string TaskStatus) (changed : bool)
    : gmap string TaskStatus * bool :=
  match tasks with
  | [] => (next, changed)
  | task :: rest =>
      if negb (bool_decide (status_of next (ts_name task) = TaskStatus.Pending))
      then skip_pass rest next changed
      else if dep_blocked next task
      then skip_pass rest (<[ts_name task := TaskStatus.Skipped]> next) true
      else skip_pass rest next changed
  end.

Fixpoint skip_loop (fuel : nat) (tasks : list TaskSpec) (next : gmap string TaskStatus)
    : option (gmap string TaskStatus) :=
  match fuel with
  | O => None
  | S fuel =>
      let '(next, changed) := skip_pass tasks next false in
      if negb changed then Some next else skip_loop fuel tasks next
  end.

Definition pending_to_skip (tasks : list TaskSpec) (states : gmap string TaskStatus)
    : option (gmap string TaskStatus) := skip_loop 2 tasks states.

(** ** Specification vocabulary *)

(** A task called [n] waits for a dependency that has not succeeded. *)
Definition blocked (tasks : list TaskSpec) (states : gmap string TaskStatus) (n : string) : Prop :=
  ∃ t, t ∈ tasks ∧ ts_name t = n ∧ dep_blocked states t = true.

#[export] Instance blocked_dec tasks states n : Decision (blocked tasks states n).
Proof.
  refine (cast_if (decide (Exists (fun t => ts_name t = n ∧ dep_blocked states t = true) tasks)));
    rewrite Exists_exists in *; unfold blocked; naive_solver.
Defined.

(** The outcome of the fixpoint, in one step. *)
Definition skipped_states (tasks : list TaskSpec) (states : gmap string TaskStatus)
    (n : string) : option TaskStatus :=
  if decide (status_of states n = TaskStatus.Pending ∧ blocked tasks states n)
  then Some TaskStatus.Skipped else states !! n.

(** ** Lemmas *)

Lemma ready_tasks_elem tasks states n :
  n ∈ ready_tasks tasks states ↔
  ∃ t, t ∈ tasks ∧ ts_name t = n ∧
    (status_of states n = TaskStatus.Failed ∨
     status_of states n = TaskStatus.Pending ∧ Forall (fun d => states !! d = Some TaskStatus.Succeeded) (ts_depends_on t)).
Proof.
  unfold ready_tasks. rewrite sort_by_elem, list_elem_of_omap.
  assert (Hall : ∀ t, forallb (succeeded states) (ts_depends_on t) = true ↔
    Forall (fun d => states !! d = Some TaskStatus.Succeeded) (ts_depends_on t)).
  { intros t. unfold succeeded. rewrite forallb_forall, Forall_forall.
    setoid_rewrite list_elem_of_In. by setoid_rewrite bool_decide_eq_true. }
  split.
  - intros (t&Ht&Hs). exists t. split; [done|].
    destruct (status_of states (ts_name t)) eqn:Hst; try done.
    + destruct (forallb _ _) eqn:Hf; [|done]. simplify_eq. split; [done|]. right. by rewrite <-Hall.
    + simplify_eq. auto.
  - intros (t&Ht&<-&[Hst|[Hst Hf]]); exists t; (split; [done|]); rewrite Hst; [done|].
    apply Hall in Hf. by rewrite Hf.
Qed.

Lemma succeeded_insert states n d : status_of states n = TaskStatus.Pending →
  succeeded (<[n := TaskStatus.Skipped]> states) d = succeeded states d.
Proof.
  intros Hn. unfold succeeded. apply bool_decide_ext. destruct (decide (d = n)) as [->|Hne].
  - rewrite lookup_insert_eq. unfold status_of in Hn. destruct (states !! n); naive_solver.
  - by rewrite lookup_insert_ne.
Qed.

Lemma dep_blocked_insert states n t : status_of states n = TaskStatus.Pending →
  dep_blocked (<[n := TaskStatus.Skipped]> states) t = dep_blocked states t.
Proof.
  intros Hn. unfold dep_blocked. induction (ts_depends_on t) as [|d l IH]; cbn; [done|].
  by rewrite succeeded_insert, IH.
Qed.

Lemma status_insert states n s k :
  status_of (<[n := s]> states) k = if decide (k = n) then s else status_of states k.
Proof.
  unfold status_of. case_decide; [by subst; rewrite lookup_insert_eq|by rewrite lookup_insert_ne].
Qed.

(** A pass skips the blocked pending tasks it visits and nothing else. *)
Lemma skip_pass_lookup tasks : ∀ next changed,
  (∀ k, (skip_pass tasks next changed).1 !! k =
    if decide (status_of next k = TaskStatus.Pending ∧ blocked tasks next k)
    then Some TaskStatus.Skipped else next !! k) ∧
  ((skip_pass tasks next changed).2 = changed ∨ (skip_pass tasks next changed).2 = true) ∧
  ((∀ k, status_of next k = TaskStatus.Pending → ¬ blocked tasks next k) →
    skip_pass tasks next changed = (next, changed)).
Proof.
  induction tasks as [|t tasks IH]; intros next changed; cbn [skip_pass].
  { split; [|by auto]. intros k. rewrite decide_False; [done|]. intros [_ (t&Ht&_)]. set_solver. }
  assert (Hcons : ∀ st k, blocked (t :: tasks) st k ↔
    (ts_name t = k ∧ dep_blocked st t = true) ∨ blocked tasks st k) by (unfold blocked; set_solver).
  case_bool_decide as Hp; cbn [negb].
  - destruct (dep_blocked next t) eqn:Hb.
    + assert (Hbl : ∀ k, blocked tasks (<[ts_name t := TaskStatus.Skipped]> next) k ↔ blocked tasks next k).
      { intros k. unfold blocked. by setoid_rewrite (dep_blocked_insert next _ _ Hp). }
      destruct (IH (<[ts_name t := TaskStatus.Skipped]> next) true) as (H1&H2&H3). split; [|split].
      * intros k. rewrite H1, status_insert. destruct (decide (k = ts_name t)) as [->|Hk].
        -- rewrite decide_False by (intros [? _]; done). rewrite lookup_insert_eq.
           rewrite decide_True; [done|]. rewrite Hcons. auto.
        -- rewrite lookup_insert_ne by done. apply decide_ext. rewrite Hbl, Hcons. naive_solver.
      * right. by destruct H2.
      * intros Hno. destruct (Hno (ts_name t) Hp). rewrite Hcons. auto.
    + destruct (IH next changed) as (H1&H2&H3). split; [|split; [done|]].
      * intros k. rewrite H1. apply decide_ext. rewrite Hcons, Hb. naive_solver.
      * intros Hno. apply H3. intros k Hk Hbk. apply (Hno k Hk). rewrite Hcons. auto.
  - destruct (IH next changed) as (H1&H2&H3). split; [|split; [done|]].
    + intros k. rewrite H1. apply decide_ext. rewrite Hcons. naive_solver.
    + intros Hno. apply H3. intros k Hk Hbk. apply (Hno k Hk). rewrite Hcons. auto.
Qed.

Lemma pending_to_skip_spec tasks states :
  ∃ next, pending_to_skip tasks states = Some next ∧ ∀ n, next !! n = skipped_states tasks states n.
Proof.
  unfold pending_to_skip. cbn [skip_loop].
  destruct (skip_pass_lookup tasks states false) as (H1&_&_).
  destruct (skip_pass tasks states false) as [next [|]]; cbn [negb fst] in *; [|by exists next].
  exists next. split; [|done].
  assert (Hsucc : ∀ d, succeeded next d = succeeded states d).
  { intros d. unfold succeeded. rewrite H1. apply bool_decide_ext. case_decide as Hd; [|done].
    destruct Hd as [Hd _]. unfold status_of in Hd. destruct (states !! d); naive_solver. }
  assert (Hblk : ∀ t, dep_blocked next t = dep_blocked states t).
  { intros t. unfold dep_blocked. induction (ts_depends_on t) as [|d l IH]; cbn; [done|].
    by rewrite Hsucc, IH. }
  destruct (skip_pass_lookup tasks next false) as (_&_&H3). rewrite H3; [done|].
  intros k Hk (t&Ht&Hn&Hb). unfold status_of in Hk. rewrite H1 in Hk. case_decide as Hd; [done|].
  destruct Hd. split; [done|]. exists t. by rewrite <-Hblk.
Qed.

Lemma dep_blocked_false states t :
  dep_blocked states t = false ↔ Forall (fun d => states !! d = Some TaskStatus.Succeeded) (ts_depends_on t).
Proof.
  unfold dep_blocked, succeeded. induction (ts_depends_on t) as [|d l IH]; cbn; [done|].
  rewrite orb_false_iff, IH, Forall_cons, negb_false_iff, bool_decide_eq_true. done.
Qed.

Lemma ready_tasks_NoDup tasks states : NoDup (map ts_name tasks) → NoDup (ready_tasks tasks states).
Proof.
  intros Hnd. apply sort_by_NoDup. induction tasks as [|t tasks IH]; [constructor|].
  cbn [map] in Hnd. apply NoDup_cons in Hnd as [Ht Hnd]. specialize (IH Hnd).
  assert (Hnew : ∀ f : TaskSpec → option string, (∀ t', f t' = Some (ts_name t') ∨ f t' = None) →
    ts_name t ∉ omap f tasks).
  { intros f Hf Hin. apply list_elem_of_omap in Hin as (t'&Ht'&Hft'). destruct Ht.
    destruct (Hf t') as [Hs|Hs]; rewrite Hft' in Hs; [|done]. injection Hs as ->.
    apply list_elem_of_In, in_map, list_elem_of_In, Ht'. }
  cbn [omap list_omap]. destruct (status_of states (ts_name t)); try done.
  - destruct (forallb _ _); [|done]. apply NoDup_cons. split; [|done]. apply Hnew.
    intros t'. repeat case_match; auto.
  - apply NoDup_cons. split; [|done]. apply Hnew. intros t'. repeat case_match; auto.
Qed.

(** ** Properties *)

(** The dispatch list is sorted by name and lists exactly the tasks that
    failed before, or are pending with every dependency succeeded. *)
Theorem ready_tasks_spec tasks states :
  StronglySorted String.le (ready_tasks tasks states) ∧
  ∀ n, n ∈ ready_tasks tasks states ↔
    ∃ t, t ∈ tasks ∧ ts_name t = n ∧
      (status_of states n = TaskStatus.Failed ∨
       status_of states n = TaskStatus.Pending ∧
       Forall (fun d => states !! d = Some TaskStatus.Succeeded) (ts_depends_on t)).
Proof. split; [apply sort_by_sorted; apply _|apply ready_tasks_elem]. Qed.

(** Skipping terminates within two passes and loses no task: statuses other
    than [Pending] are kept, a pending task becomes [Skipped] exactly when one
    of its dependencies has not succeeded, and every task left pending is in
    the ready list. *)
Theorem pending_to_skip_complete tasks states :
  ∃ next, pending_to_skip tasks states = Some next ∧
    (∀ n, status_of states n ≠ TaskStatus.Pending → next !! n = states !! n) ∧
    (∀ n, status_of states n = TaskStatus.Pending →
      (next !! n = Some TaskStatus.Skipped ↔ blocked tasks states n)) ∧
    (∀ t, t ∈ tasks → status_of next (ts_name t) = TaskStatus.Pending →
      ts_name t ∈ ready_tasks tasks states).
Proof.
  destruct (pending_to_skip_spec tasks states) as (next&Hn&Hl). exists next. split; [done|].
  unfold skipped_states in Hl. split; [|split].
  - intros n Hst. rewrite Hl. by rewrite decide_False by naive_solver.
  - intros n Hst. rewrite Hl. case_decide as Hd; [naive_solver|]. split; [|naive_solver].
    unfold status_of in Hst. destruct (states !! n); naive_solver.
  - intros t Ht Hst. unfold status_of in Hst. rewrite Hl in Hst. case_decide as Hd; [done|].
    apply ready_tasks_elem. exists t. split; [done|]. split; [done|]. right. split; [done|].
    apply dep_blocked_false. destruct (dep_blocked states t) eqn:Hb; [|done]. destruct Hd.
    split; [done|]. by exists t.
Qed.
