(* ===== verification/Executor.v ===== *)
(** * The run-attempt executor (src/src/scheduler/executor.rs, src/src/plugins/handler.rs)

    One attempt of a run as a computation over a [World]: the store, the number of
    clock readings so far, the cancellation token of the attempt and the log of
    handler calls. A computation returns a value, fails with an [ExecutorError],
    panics, or runs out of the fuel of its loop (shown impossible).

    A registered handler (the built-in ones are in [Handlers]) takes the context and
    the store and returns its outcome, or a panic, together with the store as the
    other threads of the process left it while the handler ran; other threads are
    not modelled between two statements of the executor itself. The clock is a
    sequence of readings, [powf] and [rng] are those of [RetryPolicy]. *)
From S2P Require Import Prelude RustStrings Ids Status Errors StateMachine Float64 Json RetryPolicy.
From S2P Require Import Workflow Dag Store Pick.
Local Open Scope Z_scope.

(** ** Types *)

Inductive RunAction :=
| AckEntry
| ReleaseEntry (release_at_ms : Z).

Record AttemptOutcome := {
  ao_run_status : RunStatus;
  ao_failed_tasks : list string;
  ao_action : RunAction;
  ao_error : option RunError
}.

Inductive ExecutorError :=
| RunLost (run : string)
| DefinitionLost (run : string)
| StoreFailure (e : StorageError)
| Invariant (message : string).

Record TaskContext := {
  tc_tenant : string;
  tc_def_name : string;
  tc_run_id : string;
  tc_task_name : string;
  tc_input : Json;
  tc_attempt : Z;
  tc_cancelled : bool
}.

Record HandlerError := { he_kind : FailureKind; he_message : string }.

Definition handler_transient (message : string) : HandlerError :=
  {| he_kind := FailureKind.TransientFailure; he_message := message |}.

Definition handler_cancelled (message : string) : HandlerError :=
  {| he_kind := FailureKind.Cancelled; he_message := message |}.

Definition handler_permanent (message : string) : HandlerError :=
  {| he_kind := FailureKind.Rejected; he_message := message |}.

(** What [Handler::execute] does: return, or unwind. *)
Inductive HandlerOutcome :=
| Returned (r : result Json HandlerError)
| Unwound.

Definition Handler (S : Type) := TaskContext → S → S * HandlerOutcome.

(** One entry of the call log. *)
Record HandlerCall := { hc_ctx : TaskContext; hc_outcome : HandlerOutcome }.

Record World (S : Type) := {
  w_store : S;
  w_reads : nat;
  w_cancel : bool;
  w_log : list HandlerCall
}.
Arguments w_store {S}.
Arguments w_reads {S}.
Arguments w_cancel {S}.
Arguments w_log {S}.

(** The world an attempt starts in. *)
Definition world0 {S} (s : S) : World S :=
  {| w_store := s; w_reads := 0; w_cancel := false; w_log := [] |}.

Inductive failure :=
| Raise (e : ExecutorError)
| Panicked
| OutOfFuel.

Inductive outcome (A : Type) :=
| Val (a : A)
| Abort (f : failure).
Arguments Val {A} a.
Arguments Abort {A} f.

(** ** The monad *)

Definition M (S A : Type) := World S → World S * outcome A.

Definition mret {S A} (a : A) : M S A := fun w => (w, Val a).

Definition mbind {S A B} (c : M S A) (k : A → M S B) : M S B := fun w =>
  match c w with
  | (w, Val a) => k a w
  | (w, Abort f) => (w, Abort f)
  end.

Notation "'let!' x ':=' c 'in' k" := (mbind c (fun x => k))
  (at level 10, x pattern, c at level 100, k at level 200) : runvane_scope.

Definition throw {S A} (e : ExecutorError) : M S A := fun w => (w, Abort (Raise e)).
Definition panic {S A} : M S A := fun w => (w, Abort Panicked).
Definition out_of_fuel {S A} : M S A := fun w => (w, Abort OutOfFuel).

(** [r.map_err(f)?] *)
Definition or_throw {S A E} (f : E → ExecutorError) (r : result A E) : M S A :=
  match r with Ok a => mret a | Err e => throw (f e) end.

Definition set_store {S} (s : S) (w : World S) : World S :=
  {| w_store := s; w_reads := w_reads w; w_cancel := w_cancel w; w_log := w_log w |}.

Fixpoint filterM {S A} (p : A → M S bool) (l : list A) : M S (list A) :=
  match l with
  | [] => mret []
  | x :: rest =>
      let! b := p x in
      let! rest := filterM p rest in
      mret (if b : bool then x :: rest else rest)
  end.

(** [iter().all(p)]: stops at the first failure. *)
Fixpoint allM {S A} (p : A → M S bool) (l : list A) : M S bool :=
  match l with
  | [] => mret true
  | x :: rest => let! b := p x in if b : bool then allM p rest else mret false
  end.

(** ** Identifiers *)

Definition task_run_id (run_id task_name : string) : TaskRunId :=
  "tr_" +:+ encode_base32hex (as_bytes (run_id +:+ "::" +:+ task_name)).

(** [e.to_string()] of the error [run_fsm::validate] returns. *)
Definition illegal_text (from to : RunStatus) : string :=
  "illegal state transition " +:+ run_debug from +:+ " -> " +:+ run_debug to.

Section Executor.
Context {S : Type} `{Store S}.
Context (registry : gmap HandlerId (Handler S)) (clock : nat → Z) (seed : Z).
Context (powf : f64 → f64 → f64) (rng : Z → Z → Z).

Definition do_call {A} (c : StoreCall A) : M S A := fun w =>
  let '(s, r) := call c (w_store w) in (set_store s w, Val r).

Definition now_ms : M S Z := fun w =>
  ({| w_store := w_store w; w_reads := Datatypes.S (w_reads w); w_cancel := w_cancel w;
      w_log := w_log w |}, Val (clock (w_reads w))).

(** [CancellationToken::new], [cancel] and [is_cancelled] on the attempt's token. *)
Definition cancel_token_new : M S unit := fun w =>
  ({| w_store := w_store w; w_reads := w_reads w; w_cancel := false; w_log := w_log w |}, Val tt).

Definition cancel_token_cancel : M S unit := fun w =>
  ({| w_store := w_store w; w_reads := w_reads w; w_cancel := true; w_log := w_log w |}, Val tt).

Definition cancel_token_is_cancelled : M S bool := fun w => (w, Val (w_cancel w)).

Definition load_task (run_id : RunId) (task_name : string) : M S TaskRun :=
  let id := task_run_id run_id task_name in
  let! r := do_call (GetTaskRun id) in
  mret (match r with
        | Ok tr => tr
        | Err _ => {| tr_id := id; tr_run_id := run_id; tr_task_name := task_name;
                      tr_status := TaskStatus.Pending; tr_attempts := 0; tr_last_error := None;
                      tr_started_at_ms := None; tr_finished_at_ms := None; tr_output := None |}
        end).

Definition put_task_run (tr : TaskRun) : M S unit :=
  let! r := do_call (PutTaskRun tr) in or_throw StoreFailure r.

Definition put_run (run : Run) : M S unit :=
  let! r := do_call (PutRun run) in or_throw StoreFailure r.

Definition loaded_states (run_id : RunId) (def : WorkflowDef) : M S (gmap string TaskStatus) :=
  let! r := do_call (ListTaskRunsForRun run_id) in
  let stored := match r with Ok l => l | Err _ => [] end in
  let states := foldl (fun m t => <[tr_task_name t := tr_status t]> m) ∅ stored in
  mret (foldl (fun m task =>
    match m !! ts_name task with
    | Some _ => m
    | None => <[ts_name task := TaskStatus.Pending]> m
    end) states (wd_tasks def)).

Definition run_handler (handler_id : HandlerId) (task_name : string) (ctx : TaskContext)
    : M S (result Json HandlerError) := fun w =>
  match registry !! handler_id with
  | None => (w, Val (Err (handler_permanent
      ("unknown handler " +:+ handler_id +:+ " for " +:+ task_name))))
  | Some h =>
      let '(s, o) := h ctx (w_store w) in
      let w := {| w_store := s; w_reads := w_reads w; w_cancel := w_cancel w;
                  w_log := w_log w ++ [{| hc_ctx := ctx; hc_outcome := o |}] |} in
      match o with
      | Returned r => (w, Val r)
      | Unwound => (w, Abort Panicked)
      end
  end.

(** [def.tasks.iter().find(|t| t.name == name)] *)
Definition find_task (def : WorkflowDef) (name : string) : option TaskSpec :=
  List.find (fun t => bool_decide (ts_name t = name)) (wd_tasks def).

Definition task_policy (def : WorkflowDef) (name : string) : RetryPolicy :=
  match find_task def name with
  | Some t => effective_retry t (wd_retry def)
  | None => wd_retry def
  end.

(** Whether a failed task still has attempts of its own left. *)
Definition budget_left (run_id : RunId) (def : WorkflowDef) (name : string) : M S bool :=
  let! tr := load_task run_id name in
  mret (tr_attempts tr <? max_attempts (task_policy def name)).

Definition ready_now (run_id : RunId) (def : WorkflowDef) (states : gmap string TaskStatus)
    (executed : gset string) : M S (list string) :=
  filterM (fun name =>
    if bool_decide (name ∈ executed) then mret false
    else if negb (bool_decide (states !! name = Some TaskStatus.Failed)) then mret true
    else budget_left run_id def name) (ready_tasks (wd_tasks def) states).

(** The renewal before a task runs; its result is discarded. *)
Definition heartbeat (run_id : RunId) (token : option ClaimToken) (lease_ms : Z) : M S unit :=
  match token with
  | None => mret tt
  | Some t =>
      let! now := now_ms in
      let! _ := do_call (RenewLease run_id t now lease_ms) in mret tt
  end.

(** The task record after a successful or failed handler call. *)
Definition record_result (run_id : RunId) (name : string) (r : result Json HandlerError) : M S TaskStatus :=
  let! tr := load_task run_id name in
  match r with
  | Ok output =>
      if negb (TaskFsm.task_is_legal (tr_status tr) TaskStatus.Succeeded) then
        throw (Invariant ("illegal task transition " +:+ task_display (tr_status tr) +:+ " -> Succeeded"))
      else
        let! now := now_ms in
        let! _ := put_task_run (task_set_output (Some output) (task_set_finished_at_ms (Some now)
          (task_set_status TaskStatus.Succeeded tr))) in
        mret TaskStatus.Succeeded
  | Err e =>
      if negb (TaskFsm.task_is_legal (tr_status tr) TaskStatus.Failed) then
        throw (Invariant ("illegal task transition " +:+ task_display (tr_status tr) +:+ " -> Failed"))
      else
        let! now := now_ms in
        let! _ := put_task_run (task_set_last_error (Some (he_message e))
          (task_set_finished_at_ms (Some now) (task_set_status TaskStatus.Failed tr))) in
        mret TaskStatus.Failed
  end.

(** The body of the [for name in ready] loop. *)
Definition execute_task (run_id : RunId) (run : Run) (def : WorkflowDef) (token : option ClaimToken) (lease_ms : Z)
    (name : string) : M S TaskStatus :=
  match find_task def name with
  | None => panic
  | Some task =>
      let! _ := heartbeat (rn_id run) token lease_ms in
      let! tr := load_task (rn_id run) name in
      let tr := task_set_attempts (wrap_u32 (tr_attempts tr + 1)) (task_set_status TaskStatus.Running tr) in
      let! now := now_ms in
      let tr := task_set_started_at_ms (Some now) tr in
      let! _ := put_task_run tr in
      let! cancelled := cancel_token_is_cancelled in
      let! r := run_handler (ts_handler task) name
        {| tc_tenant := rn_tenant run; tc_def_name := rn_def_name run; tc_run_id := run_id;
           tc_task_name := name; tc_input := ts_input task; tc_attempt := tr_attempts tr;
           tc_cancelled := cancelled |} in
      record_result (rn_id run) name r
  end.

Fixpoint execute_ready (run_id : RunId) (run : Run) (def : WorkflowDef) (token : option ClaimToken) (lease_ms : Z)
    (ready : list string) (states : gmap string TaskStatus) (executed : gset string)
    : M S (gmap string TaskStatus * gset string) :=
  match ready with
  | [] => mret (states, executed)
  | name :: rest =>
      let! st := execute_task run_id run def token lease_ms name in
      execute_ready run_id run def token lease_ms rest (<[name := st]> states) ({[name]} ∪ executed)
  end.

(** The poll at the top of the loop: the outcome of a cancelled run, if it is. *)
Definition poll_cancelled (run_id : RunId) : M S (option AttemptOutcome) :=
  let! r := do_call (GetRun run_id) in
  match r with
  | Ok current =>
      if bool_decide (rn_status current = RunStatus.Cancelled) then
        let! _ := cancel_token_cancel in
        mret (Some {| ao_run_status := RunStatus.Cancelled; ao_failed_tasks := [];
                      ao_action := AckEntry; ao_error := rn_error current |})
      else mret None
  | Err _ => mret None
  end.

(** [loop { ... }]: either an early return or the states it broke out with. *)
Fixpoint attempt_loop (fuel : nat) (run_id : RunId) (run : Run) (def : WorkflowDef) (token : option ClaimToken)
    (lease_ms : Z) (states : gmap string TaskStatus) (executed : gset string)
    : M S (AttemptOutcome + gmap string TaskStatus) :=
  match fuel with
  | O => out_of_fuel
  | Datatypes.S fuel =>
      let! early := poll_cancelled run_id in
      match early with
      | Some o => mret (inl o)
      | None =>
          let! ready := ready_now (rn_id run) def states executed in
          match ready with
          | [] => mret (inr states)
          | _ =>
              let! next := execute_ready run_id run def token lease_ms ready states executed in
              let '(states, executed) := next in
              attempt_loop fuel run_id run def token lease_ms states executed
          end
      end
  end.

Fixpoint persist_skipped (run_id : RunId) (states : gmap string TaskStatus)
    (collapsed : list (string * TaskStatus)) : M S unit :=
  match collapsed with
  | [] => mret tt
  | (name, status) :: rest =>
      let! _ := if bool_decide (status = TaskStatus.Skipped) &&
                   negb (bool_decide (states !! name = Some TaskStatus.Skipped))
                then
                  let! tr := load_task run_id name in
                  let! now := now_ms in
                  put_task_run (task_set_finished_at_ms (Some now) (task_set_status TaskStatus.Skipped tr))
                else mret tt in
      persist_skipped run_id states rest
  end.

(** [run_fsm::validate(from, to).map_err(Invariant)?] *)
Definition validate_edge (from to : RunStatus) : M S unit :=
  or_throw (fun _ => Invariant (illegal_text from to)) (RunFsm.run_validate from to).

(** The names with a given status, in key order. *)
Definition names_with (st : TaskStatus) (states : gmap string TaskStatus) : list string :=
  map fst (List.filter (fun kv => bool_decide (kv.2 = st)) (bt_iter states)).

Definition finalize (run : Run) (def : WorkflowDef) (states : gmap string TaskStatus)
    : M S AttemptOutcome :=
  let any_failed := existsb (fun kv => bool_decide (kv.2 = TaskStatus.Failed)) (bt_iter states) in
  let all_terminal := forallb (fun kv => task_is_terminal kv.2) (bt_iter states) in
  if negb all_terminal then throw (Invariant "attempt ended with non-terminal tasks")
  else if negb any_failed then
    let! _ := validate_edge (rn_status run) RunStatus.Succeeded in
    let! now := now_ms in
    let! _ := put_run (run_set_error None (run_set_finished_at_ms (Some now)
      (run_set_status RunStatus.Succeeded run))) in
    mret {| ao_run_status := RunStatus.Succeeded; ao_failed_tasks := []; ao_action := AckEntry;
            ao_error := None |}
  else
    let failing := names_with TaskStatus.Failed states in
    let! reason := match failing with
      | name :: _ => let! tr := load_task (rn_id run) name in
                     mret (default "task failed"%string (tr_last_error tr))
      | [] => mret "task failed"%string
      end in
    let failing_task := head failing in
    let run_budget_ok := allows_attempt (wd_retry def) (wrap_u32 (rn_attempts run + 1)) in
    let! task_budget_ok := allM (budget_left (rn_id run) def) failing in
    if run_budget_ok && task_budget_ok then
      let! _ := validate_edge (rn_status run) RunStatus.Failed in
      let! _ := validate_edge RunStatus.Failed RunStatus.Queued in
      let attempts := wrap_u32 (rn_attempts run + 1) in
      let! now := now_ms in
      match next_attempt_at_ms powf rng (wd_retry def) attempts true now seed with
      | None => panic
      | Some planned =>
          let! fallback := now_ms in
          let delay := default fallback planned in
          let! _ := put_run (run_set_error None (run_set_next_attempt_at_ms (Some delay)
            (run_set_status RunStatus.Queued (run_set_attempts attempts run)))) in
          mret {| ao_run_status := RunStatus.Queued; ao_failed_tasks := failing;
                  ao_action := ReleaseEntry delay; ao_error := None |}
      end
    else
      let! _ := validate_edge (rn_status run) RunStatus.Failed in
      let! now := now_ms in
      let error := {| re_message := reason; re_kind := FailureKind.Exhausted; re_task := failing_task;
                      re_depth := 0; re_attempts := rn_attempts run |} in
      let! _ := put_run (run_set_error (Some error) (run_set_finished_at_ms (Some now)
        (run_set_status RunStatus.Failed run))) in
      mret {| ao_run_status := RunStatus.Failed; ao_failed_tasks := failing; ao_action := AckEntry;
              ao_error := Some error |}.

(** The deadline test reads the clock only when a deadline is set. *)
Definition deadline_passed (run : Run) : M S bool :=
  match rn_deadline_at_ms run with
  | Some d => let! now := now_ms in mret (d <? now)
  | None => mret false
  end.

Definition time_out (run_id : RunId) (run : Run) : M S AttemptOutcome :=
  let! _ := validate_edge RunStatus.Running RunStatus.TimedOut in
  let! now := now_ms in
  let error := {| re_message := "run " +:+ run_id +:+ " exceeded its deadline";
                  re_kind := FailureKind.Timeout; re_task := None; re_depth := 0;
                  re_attempts := rn_attempts run |} in
  let! _ := put_run (run_set_error (Some error) (run_set_finished_at_ms (Some now)
    (run_set_status RunStatus.TimedOut run))) in
  mret {| ao_run_status := RunStatus.TimedOut; ao_failed_tasks := []; ao_action := AckEntry;
          ao_error := Some error |}.

(** The work of an attempt once the run is known to be running and in time. *)
Definition attempt_tasks (run_id : RunId) (run : Run) (def : WorkflowDef)
    (token : option ClaimToken) (lease_ms : Z) : M S AttemptOutcome :=
  let! states := loaded_states (rn_id run) def in
  let! _ := cancel_token_new in
  let! exit := attempt_loop (Datatypes.S (length (wd_tasks def))) run_id run def token lease_ms states ∅ in
  match exit with
  | inl o => mret o
  | inr states =>
      match pending_to_skip (wd_tasks def) states with
      | None => out_of_fuel
      | Some collapsed =>
          let! _ := persist_skipped (rn_id run) states (bt_iter collapsed) in
          finalize run def collapsed
      end
  end.

Definition attempt_with_token (run_id : RunId) (token : option ClaimToken) (lease_ms : Z)
    : M S AttemptOutcome :=
  let! r := do_call (GetRun run_id) in
  let! run := or_throw (fun _ => RunLost run_id) r in
  let! d := do_call (GetWorkflow (rn_tenant run) (rn_def_name run)) in
  let! rec := or_throw (fun _ => DefinitionLost run_id) d in
  if negb (bool_decide (rn_status run = RunStatus.Running)) then
    if bool_decide (rn_status run = RunStatus.Cancelled) then
      mret {| ao_run_status := RunStatus.Cancelled; ao_failed_tasks := []; ao_action := AckEntry;
              ao_error := rn_error run |}
    else throw (Invariant ("run " +:+ run_id +:+ " is " +:+ run_display (rn_status run)
      +:+ " on attempt; expected Running"))
  else
    let! late := deadline_passed run in
    if late : bool then time_out run_id run
    else attempt_tasks run_id run (wr_def rec) token lease_ms.

Definition attempt (run_id : RunId) : M S AttemptOutcome := attempt_with_token run_id None 60000.
End Executor.
