(* ===== verification/ExecutorLogic.v ===== *)
(** * Reasoning about executor computations

    [tame] computations neither call handlers nor touch the cancellation token,
    and can only stop by raising an error: everything but the handler call itself,
    the cancellation poll and the backoff is tame. The hint database [tame]
    composes these facts along the structure of a definition. *)
From S2P Require Import Prelude Status Errors StateMachine Json RetryPolicy Workflow Dag Store Pick.
From S2P Require Import Executor.
Local Open Scope Z_scope.

Definition raised {A} (o : outcome A) : Prop :=
  match o with Abort Panicked | Abort OutOfFuel => False | _ => True end.

Definition tame {S A} (c : M S A) : Prop := ∀ w,
  w_log (c w).1 = w_log w ∧ w_cancel (c w).1 = w_cancel w ∧ raised (c w).2.

Create HintDb tame discriminated.

(** ** Composition *)

Lemma tame_ret {S A} (a : A) : tame (S := S) (mret a).
Proof. done. Qed.

Lemma tame_throw {S A} e : tame (S := S) (A := A) (throw e).
Proof. done. Qed.

Lemma tame_bind {S A B} (c : M S A) (k : A → M S B) :
  tame c → (∀ a, tame (k a)) → tame (mbind c k).
Proof.
  intros Hc Hk w. unfold mbind. specialize (Hc w). destruct (c w) as [w1 [a|f]]; cbn in *.
  - destruct Hc as (H1&H2&_). specialize (Hk a w1). rewrite <-H1, <-H2. exact Hk.
  - destruct Hc as (H1&H2&H3). by destruct f.
Qed.

Lemma tame_or_throw {S A E} (f : E → ExecutorError) (r : result A E) : tame (S := S) (or_throw f r).
Proof. by destruct r. Qed.

Lemma tame_if {S A} (b : bool) (c1 c2 : M S A) : tame c1 → tame c2 → tame (if b then c1 else c2).
Proof. by destruct b. Qed.

Lemma tame_filterM {S A} (p : A → M S bool) l : (∀ x, tame (p x)) → tame (filterM p l).
Proof.
  intros Hp. induction l as [|x l IH]; cbn [filterM]; [apply tame_ret|].
  apply tame_bind; [done|]. intros b. apply tame_bind; [done|]. intros rest. apply tame_ret.
Qed.

Lemma tame_allM {S A} (p : A → M S bool) l : (∀ x, tame (p x)) → tame (allM p l).
Proof.
  intros Hp. induction l as [|x l IH]; cbn [allM]; [apply tame_ret|].
  apply tame_bind; [done|]. intros b. apply tame_if; [done|apply tame_ret].
Qed.

Section Tame.
Context {S : Type} `{Store S} (clock : nat → Z).

Lemma tame_call {A} (c : StoreCall A) : tame (S := S) (do_call c).
Proof. intros w. unfold do_call. by destruct (call c (w_store w)). Qed.

Lemma tame_now : tame (S := S) (now_ms clock).
Proof. done. Qed.

Lemma tame_is_cancelled : tame (S := S) cancel_token_is_cancelled.
Proof. done. Qed.
End Tame.

#[export] Hint Resolve tame_ret tame_throw tame_or_throw tame_call tame_now tame_is_cancelled : tame.
#[export] Hint Extern 4 (tame (mbind _ _)) => apply tame_bind; [|intros ?] : tame.
#[export] Hint Extern 4 (tame (if _ then _ else _)) => apply tame_if : tame.
#[export] Hint Extern 4 (tame (filterM _ _)) => apply tame_filterM; intros ? : tame.
#[export] Hint Extern 4 (tame (allM _ _)) => apply tame_allM; intros ? : tame.
#[export] Hint Extern 5 (tame (match ?x with _ => _ end)) => destruct x : tame.

Ltac tame := eauto 30 with tame.

Section TameOps.
Context {S : Type} `{Store S} (clock : nat → Z).

Lemma tame_load_task run_id name : tame (S := S) (load_task run_id name).
Proof. unfold load_task. tame. Qed.
Local Hint Resolve tame_load_task : tame.

Lemma tame_put_task_run tr : tame (S := S) (put_task_run tr).
Proof. unfold put_task_run. tame. Qed.
Local Hint Resolve tame_put_task_run : tame.

Lemma tame_put_run run : tame (S := S) (put_run run).
Proof. unfold put_run. tame. Qed.

Lemma tame_loaded_states run_id def : tame (S := S) (loaded_states run_id def).
Proof. unfold loaded_states. tame. Qed.

Lemma tame_budget_left run_id def name : tame (S := S) (budget_left run_id def name).
Proof. unfold budget_left. tame. Qed.
Local Hint Resolve tame_budget_left : tame.

Lemma tame_ready_now run_id def states executed : tame (S := S) (ready_now run_id def states executed).
Proof. unfold ready_now. tame. Qed.

Lemma tame_heartbeat run_id token lease : tame (S := S) (heartbeat clock run_id token lease).
Proof. unfold heartbeat. tame. Qed.

Lemma tame_record_result run_id name r : tame (S := S) (record_result clock run_id name r).
Proof. unfold record_result. destruct r; tame. Qed.

Lemma tame_persist_skipped run_id states l : tame (S := S) (persist_skipped clock run_id states l).
Proof.
  induction l as [|[n st] l IH]; cbn [persist_skipped]; [tame|].
  apply tame_bind; [tame|intros _; exact IH].
Qed.

Lemma tame_validate_edge from to : tame (S := S) (validate_edge from to).
Proof. unfold validate_edge. tame. Qed.

Lemma tame_deadline run : tame (S := S) (deadline_passed clock run).
Proof. unfold deadline_passed. tame. Qed.
End TameOps.

#[export] Hint Resolve tame_load_task tame_put_task_run tame_put_run tame_loaded_states tame_budget_left
  tame_ready_now tame_heartbeat tame_record_result tame_persist_skipped tame_validate_edge
  tame_deadline : tame.

(** ** Binding *)

Lemma mbind_val {S A B} (c : M S A) (k : A → M S B) w w1 a :
  c w = (w1, Val a) → mbind c k w = k a w1.
Proof. unfold mbind. by intros ->. Qed.

Lemma mbind_abort {S A B} (c : M S A) (k : A → M S B) w w1 f :
  c w = (w1, Abort f) → mbind c k w = (w1, Abort f).
Proof. unfold mbind. by intros ->. Qed.

Lemma mbind_inv {S A B} (c : M S A) (k : A → M S B) w w' b :
  mbind c k w = (w', Val b) → ∃ w1 a, c w = (w1, Val a) ∧ k a w1 = (w', Val b).
Proof. unfold mbind. destruct (c w) as [w1 [a|]]; [|done]. intros Hk. by exists w1, a. Qed.

(** What a bind establishes, from what its continuation establishes in a world
    with the same log and token. *)
Lemma tame_bind_post {S A B} (c : M S A) (k : A → M S B) (w : World S)
    (Q : World S → outcome B → Prop) :
  tame c →
  (∀ w1 e, w_log w1 = w_log w → w_cancel w1 = w_cancel w → Q w1 (Abort (Raise e))) →
  (∀ w1 a, c w = (w1, Val a) → w_log w1 = w_log w → w_cancel w1 = w_cancel w →
    Q (k a w1).1 (k a w1).2) →
  Q (mbind c k w).1 (mbind c k w).2.
Proof.
  intros Hc HE HV. unfold mbind. specialize (Hc w). destruct (c w) as [w1 [a|f]]; cbn in *.
  - destruct Hc as (H1&H2&_). by apply HV.
  - destruct Hc as (H1&H2&H3). destruct f; [by apply HE|done..].
Qed.

(** ** Monadic filtering *)

Lemma filterM_val {S A} (p : A → M S bool) l : ∀ w w' l',
  filterM p l w = (w', Val l') →
  l' `sublist_of` l ∧ (∀ x, x ∈ l' → ∃ w1 w2, p x w1 = (w2, Val true)) ∧
  (∀ x, x ∈ l → x ∉ l' → ∃ w1 w2, p x w1 = (w2, Val false)).
Proof.
  induction l as [|x l IH]; intros w w' l' H; cbn [filterM] in H.
  { unfold mret in H. simplify_eq. split; [constructor|]. set_solver. }
  unfold mbind in H. destruct (p x w) as [w1 [b|]] eqn:Hp; [|done].
  destruct (filterM p l w1) as [w2 [rest|]] eqn:Hr; [|done]. unfold mret in H. simplify_eq.
  destruct (IH _ _ _ Hr) as (H1&H2&H3). destruct b.
  - split; [by constructor|]. split.
    + intros y [->|Hy]%elem_of_cons; eauto.
    + intros y [->|Hy]%elem_of_cons Hn; [set_solver|]. apply H3; [done|set_solver].
  - split; [by constructor|]. split; [done|].
    intros y [->|Hy]%elem_of_cons Hn; eauto.
Qed.
