(* ===== verification/ExecutorFrame.v ===== *)
(** * What an attempt preserves

    A predicate on the store that is kept by the few calls an attempt makes, and by
    the handlers, is kept by the whole attempt, whatever its outcome. The calls are
    reads, writes of the run and of task runs, and renewals of the attempt's own
    lease: [attempt_call] says which. Instances: well-formedness of the store
    ([ExecutorOutcome]) and ownership of the queue entry ([Pool]). *)
From S2P Require Import Prelude Ids Status Errors StateMachine Float64 Json RetryPolicy Workflow Dag.
From S2P Require Import Store Pick Executor ExecutorLogic.
Local Open Scope Z_scope.

(** The calls an attempt of [rid] under [token] makes. *)
Definition attempt_call (rid : RunId) (token : option ClaimToken) {A} (c : StoreCall A) : Prop :=
  match c with
  | GetRun _ | GetWorkflow _ _ | GetTaskRun _ | ListTaskRunsForRun _ | PutTaskRun _ => True
  | PutRun run => rn_id run = rid
  | RenewLease id t _ _ => id = rid ∧ token = Some t
  | _ => False
  end.

(** Those it makes before the write of the run with which it ends. *)
Definition quiet_call (rid : RunId) (token : option ClaimToken) {A} (c : StoreCall A) : Prop :=
  match c with PutRun _ => False | c => attempt_call rid token c end.

Create HintDb kept discriminated.

Section Kept.
Context {S : Type} `{Store S} (P : S → Prop).

Definition kept {A} (c : M S A) : Prop := ∀ w, P (w_store w) → P (w_store (c w).1).

Lemma kept_bind {A B} (c : M S A) (k : A → M S B) : kept c → (∀ a, kept (k a)) → kept (mbind c k).
Proof.
  intros Hc Hk w Hw. specialize (Hc w Hw). destruct (c w) as [w1 [a|f]] eqn:Hcw.
  - rewrite (mbind_val _ _ _ _ _ Hcw). by apply Hk.
  - by rewrite (mbind_abort _ _ _ _ _ Hcw).
Qed.

Lemma kept_ret {A} (a : A) : kept (mret a).
Proof. by intros w. Qed.

Lemma kept_throw {A} e : kept (A := A) (throw e).
Proof. by intros w. Qed.

Lemma kept_or_throw {A E} (f : E → ExecutorError) (r : result A E) : kept (or_throw f r).
Proof. by destruct r; intros w. Qed.

Lemma kept_now clock : kept (now_ms clock).
Proof. by intros w. Qed.

Lemma kept_panic {A} : kept (A := A) panic.
Proof. by intros w. Qed.

Lemma kept_fuel {A} : kept (A := A) out_of_fuel.
Proof. by intros w. Qed.

Lemma kept_token : kept cancel_token_is_cancelled ∧ kept cancel_token_cancel ∧ kept cancel_token_new.
Proof. by split_and!; intros w. Qed.

Lemma kept_validate_edge from to : kept (validate_edge from to).
Proof. unfold validate_edge. apply kept_or_throw. Qed.

Lemma kept_allM {A} (p : A → M S bool) l : (∀ x, kept (p x)) → kept (allM p l).
Proof.
  intros Hp. induction l as [|x l IH]; cbn [allM]; [apply kept_ret|].
  apply kept_bind; [done|]. intros []; [done|apply kept_ret].
Qed.

Lemma kept_filterM {A} (p : A → M S bool) l : (∀ x, kept (p x)) → kept (filterM p l).
Proof.
  intros Hp. induction l as [|x l IH]; cbn [filterM]; [apply kept_ret|].
  apply kept_bind; [done|]. intros b. apply kept_bind; [done|]. intros rest. apply kept_ret.
Qed.
End Kept.

#[export] Hint Resolve kept_ret kept_throw kept_or_throw kept_now kept_panic kept_fuel kept_validate_edge : kept.
#[export] Hint Extern 1 (kept _ cancel_token_is_cancelled) => apply kept_token : kept.
#[export] Hint Extern 1 (kept _ cancel_token_cancel) => apply kept_token : kept.
#[export] Hint Extern 1 (kept _ cancel_token_new) => apply kept_token : kept.
#[export] Hint Extern 4 (kept _ (mbind _ _)) => apply kept_bind; [|intros ?] : kept.
#[export] Hint Extern 4 (kept _ (allM _ _)) => apply kept_allM; intros ? : kept.
#[export] Hint Extern 4 (kept _ (filterM _ _)) => apply kept_filterM; intros ? : kept.
#[export] Hint Extern 5 (kept _ (match ?x with _ => _ end)) => destruct x : kept.

Ltac kept := eauto 40 with kept.

Section KeptOps.
Context {S : Type} `{Store S} (P : S → Prop).
Context (registry : gmap HandlerId (Handler S)) (clock : nat → Z) (seed : Z).
Context (powf : f64 → f64 → f64) (rng : Z → Z → Z).
Context (rid : RunId) (token : option ClaimToken) (lease_ms : Z).

(** [P] survives the calls of the attempt and the handlers, or all but the last write. *)
Record framed : Prop := {
  fr_call : ∀ A (c : StoreCall A) s, attempt_call rid token c → P s → P (call c s).1;
  fr_handler : ∀ id h ctx s, registry !! id = Some h → P s → P (h ctx s).1
}.

Record quiet : Prop := {
  qt_call : ∀ A (c : StoreCall A) s, quiet_call rid token c → P s → P (call c s).1;
  qt_handler : ∀ id h ctx s, registry !! id = Some h → P s → P (h ctx s).1
}.

Lemma framed_quiet : framed → quiet.
Proof. intros [Hc Hh]. split; [|exact Hh]. intros A c s Hq. apply Hc. by destruct c. Qed.

Context (Hfr : quiet).

Lemma kept_call {A} (c : StoreCall A) : quiet_call rid token c → kept P (do_call c).
Proof.
  intros Hc w Hw. unfold do_call. pose proof (qt_call Hfr A c _ Hc Hw). by destruct (call c (w_store w)).
Qed.
Local Hint Extern 1 (kept P (do_call _)) => apply kept_call; exact I : kept.

Lemma kept_load_task run_id name : kept P (load_task run_id name).
Proof. unfold load_task. kept. Qed.
Local Hint Resolve kept_load_task : kept.

Lemma kept_put_task_run tr : kept P (put_task_run tr).
Proof. unfold put_task_run. kept. Qed.
Local Hint Resolve kept_put_task_run : kept.

Lemma kept_budget_left run_id def name : kept P (budget_left run_id def name).
Proof. unfold budget_left. kept. Qed.
Local Hint Resolve kept_budget_left : kept.

Lemma kept_ready_now run_id def states executed : kept P (ready_now run_id def states executed).
Proof. unfold ready_now. kept. Qed.
Local Hint Resolve kept_ready_now : kept.

Lemma kept_heartbeat : kept P (heartbeat clock rid token lease_ms).
Proof.
  unfold heartbeat. destruct token as [t|] eqn:Ht; [|kept]. apply kept_bind; [kept|intros now].
  apply kept_bind; [by apply kept_call|kept].
Qed.

Lemma kept_record_result run_id name r : kept P (record_result clock run_id name r).
Proof. unfold record_result. kept. Qed.
Local Hint Resolve kept_record_result : kept.

Lemma kept_poll id : kept P (poll_cancelled id).
Proof. unfold poll_cancelled. kept. Qed.
Local Hint Resolve kept_poll : kept.

Lemma kept_loaded_states run_id def : kept P (loaded_states run_id def).
Proof. unfold loaded_states. kept. Qed.

Lemma kept_persist run_id states l : kept P (persist_skipped clock run_id states l).
Proof.
  induction l as [|[n st] l IH]; cbn [persist_skipped]; [kept|].
  apply kept_bind; [kept|intros _; exact IH].
Qed.

Lemma kept_run_handler id name ctx : kept P (run_handler registry id name ctx).
Proof.
  intros w Hw. unfold run_handler. destruct (registry !! id) as [h|] eqn:Hh; [|done].
  pose proof (qt_handler Hfr id h ctx _ Hh Hw). by destruct (h ctx (w_store w)) as [s []].
Qed.
Local Hint Resolve kept_run_handler : kept.

Context (run : Run) (def : WorkflowDef) (Hid : rn_id run = rid).

Lemma kept_execute_task run_id name : kept P (execute_task registry clock run_id run def token lease_ms name).
Proof.
  unfold execute_task. destruct (find_task def name); [|kept]. rewrite Hid.
  apply kept_bind; [apply kept_heartbeat|kept].
Qed.

Lemma kept_execute_ready run_id ready : ∀ states executed,
  kept P (execute_ready registry clock run_id run def token lease_ms ready states executed).
Proof.
  induction ready as [|n ready IH]; intros states executed; cbn [execute_ready]; [kept|].
  apply kept_bind; [apply kept_execute_task|auto].
Qed.
Local Hint Resolve kept_execute_ready : kept.

Lemma kept_attempt_loop run_id fuel : ∀ states executed,
  kept P (attempt_loop registry clock fuel run_id run def token lease_ms states executed).
Proof.
  induction fuel as [|fuel IH]; intros states executed; cbn [attempt_loop]; [kept|].
  apply kept_bind; [kept|]. intros [o|]; [kept|]. apply kept_bind; [kept|].
  intros [|n ready]; [kept|]. apply kept_bind; [kept|]. intros [st ex]. apply IH.
Qed.

Context (Hput : ∀ run s, rn_id run = rid → P s → P (call (PutRun run) s).1).

Lemma kept_put_run r : rn_id r = rid → kept P (put_run r).
Proof.
  intros Hr. unfold put_run. apply kept_bind; [|kept]. intros w Hw. unfold do_call.
  pose proof (Hput r _ Hr Hw). by destruct (call (PutRun r) (w_store w)).
Qed.
Local Hint Extern 2 (kept P (put_run _)) => apply kept_put_run; exact Hid : kept.

Lemma kept_finalize states : kept P (finalize clock seed powf rng run def states).
Proof. unfold finalize. kept. Qed.

Lemma kept_time_out run_id : kept P (time_out clock run_id run).
Proof. unfold time_out. kept. Qed.

Lemma kept_attempt_tasks run_id :
  kept P (attempt_tasks registry clock seed powf rng run_id run def token lease_ms).
Proof.
  unfold attempt_tasks. apply kept_bind; [apply kept_loaded_states|intros states].
  apply kept_bind; [kept|intros _]. apply kept_bind; [apply kept_attempt_loop|].
  intros [o|st]; [kept|]. destruct (pending_to_skip _ st); [|kept].
  apply kept_bind; [apply kept_persist|intros _; apply kept_finalize].
Qed.
End KeptOps.

(** The whole attempt keeps a framed predicate that lets the run be read only under
    its own id. *)
Lemma kept_attempt {S} `{Store S} (P : S → Prop) registry clock seed powf rng rid token lease_ms :
  framed P registry rid token → (∀ s run, P s → (call (GetRun rid) s).2 = Ok run → rn_id run = rid) →
  kept P (attempt_with_token registry clock seed powf rng rid token lease_ms).
Proof.
  intros Hfr Hread w Hw. unfold attempt_with_token. pose proof (framed_quiet _ _ _ _ Hfr) as Hq.
  assert (Hput : ∀ run s, rn_id run = rid → P s → P (call (PutRun run) s).1) by (intros; by apply (fr_call _ _ _ _ Hfr)).
  pose proof (kept_call P registry rid token Hq (GetRun rid) I w Hw) as Hw1.
  assert (Hrun : ∀ w1 run, do_call (GetRun rid) w = (w1, Val (Ok run)) → rn_id run = rid).
  { intros w1 run Hc. apply (Hread (w_store w)); [done|]. unfold do_call in Hc.
    destruct (call _ _). by simplify_eq. }
  destruct (do_call (GetRun rid) w) as [w1 [r|f]] eqn:Hg; [|by rewrite (mbind_abort _ _ _ _ _ Hg)].
  rewrite (mbind_val _ _ _ _ _ Hg). destruct r as [run|e]; [|done].
  specialize (Hrun w1 run eq_refl). rewrite (mbind_val _ _ w1 w1 run eq_refl).
  cbn in Hw1. revert w1 Hw1 Hg. intros w1 Hw1 _. revert w1 Hw1.
  change (kept P (let! d := do_call (GetWorkflow (rn_tenant run) (rn_def_name run)) in
    let! rec := or_throw (fun _ => DefinitionLost rid) d in
    if negb (bool_decide (rn_status run = RunStatus.Running)) then
      if bool_decide (rn_status run = RunStatus.Cancelled) then
        mret {| ao_run_status := RunStatus.Cancelled; ao_failed_tasks := []; ao_action := AckEntry;
                ao_error := rn_error run |}
      else throw (Invariant ("run " +:+ rid +:+ " is " +:+ run_display (rn_status run)
        +:+ " on attempt; expected Running"))
    else
      let! late := deadline_passed clock run in
      if late : bool then time_out clock rid run
      else attempt_tasks registry clock seed powf rng rid run (wr_def rec) token lease_ms)).
  apply kept_bind; [by apply (kept_call P registry rid token Hq)|intros d].
  apply kept_bind; [kept|intros rec]. case_bool_decide; cbn [negb]; [|kept].
  apply kept_bind; [unfold deadline_passed; kept|]. intros []; [by apply (kept_time_out P clock rid)|].
  by apply (kept_attempt_tasks P registry clock seed powf rng rid token lease_ms Hq).
Qed.
