(* ===== verification/ExecutorOrder.v ===== *)
(** * What an attempt executes, and that it ends

    Results that hold for every store, even one that fails or whose contents other
    threads change arbitrarily: the attempt loop ends within its fuel, a task runs
    at most once per attempt and only after its dependencies, and handlers never
    see the cancellation token set. *)
From S2P Require Import Prelude Ids Status Errors StateMachine Float64 Json RetryPolicy Workflow Dag.
From S2P Require Import Store Pick MemoryStore Executor ExecutorLogic.
Local Open Scope Z_scope.

Definition call_name (c : HandlerCall) : string := tc_task_name (hc_ctx c).

(** The call returned a result. *)
Definition call_ok (c : HandlerCall) : Prop := ∃ out, hc_outcome c = Returned (Ok out).

Definition task_names (def : WorkflowDef) : gset string := list_to_set (map ts_name (wd_tasks def)).

(** [d] succeeded before the attempt, or in a call of [log]. *)
Definition dep_ok (states0 : gmap string TaskStatus) (log : list HandlerCall) (d : string) : Prop :=
  states0 !! d = Some TaskStatus.Succeeded ∨ ∃ c, c ∈ log ∧ call_name c = d ∧ call_ok c.

(** [name] may be called after [log]: it failed in an earlier attempt, or all its
    dependencies succeeded. *)
Definition dispatchable (def : WorkflowDef) (states0 : gmap string TaskStatus)
    (log : list HandlerCall) (name : string) : Prop :=
  status_of states0 name = TaskStatus.Failed ∨
  ∃ t, t ∈ wd_tasks def ∧ ts_name t = name ∧ Forall (dep_ok states0 log) (ts_depends_on t).

(** A well-behaved call log. *)
Record log_ok (def : WorkflowDef) (states0 : gmap string TaskStatus) (log : list HandlerCall) : Prop := {
  lo_names : ∀ c, c ∈ log → call_name c ∈ task_names def;
  lo_once : NoDup (map call_name log);
  lo_order : ∀ l1 c l2, log = l1 ++ c :: l2 → dispatchable def states0 l1 (call_name c);
  lo_token : ∀ c, c ∈ log → tc_cancelled (hc_ctx c) = false
}.

Record loop_inv {S} (def : WorkflowDef) (states0 states : gmap string TaskStatus)
    (executed : gset string) (w : World S) : Prop := {
  li_log : log_ok def states0 (w_log w);
  li_cancel : w_cancel w = false;
  li_exec : executed ⊆ task_names def;
  li_called : ∀ c, c ∈ w_log w → call_name c ∈ executed;
  li_same : ∀ n, n ∉ executed → states !! n = states0 !! n;
  li_done : ∀ n, n ∈ executed → states !! n = Some TaskStatus.Succeeded ∨ states !! n = Some TaskStatus.Failed;
  li_succ : ∀ n, states !! n = Some TaskStatus.Succeeded → dep_ok states0 (w_log w) n;
  li_from : ∀ n, n ∈ executed → status_of states0 n = TaskStatus.Failed ∨ status_of states0 n = TaskStatus.Pending
}.

(** How a computation of the attempt may stop early. *)
Definition stop_ok {S} (def : WorkflowDef) (states0 : gmap string TaskStatus) (f : failure)
    (w : World S) : Prop :=
  log_ok def states0 (w_log w) ∧
  match f with
  | Raise _ => True
  | Panicked => ∃ c, c ∈ w_log w ∧ hc_outcome c = Unwound
  | OutOfFuel => False
  end.

(** ** A concrete attempt *)

(** A definition with the given tasks, and a handler that always succeeds. *)
Definition def_with (tasks : list TaskSpec) : WorkflowDef := {|
  wd_id := "wf_0"; wd_tenant := "acme"; wd_name := "etl"; wd_version := 1; wd_description := "";
  wd_tasks := tasks; wd_timeout_ms := 3600000; wd_retry := retry_fixed 3 10;
  wd_default_priority := priority_default; wd_hooks := hooks_default; wd_tags := ∅;
  wd_spec_version := SPEC_VERSION; wd_created_at_ms := 0; wd_updated_at_ms := 0
|}.

Definition noop_handler {S} : Handler S := fun _ s =>
  (s, Returned (Ok (json_object [("ok"%string, JBool true)]))).

Definition noop_registry {S} : gmap HandlerId (Handler S) := {["runvane.noop"%string := noop_handler]}.

(** A handler that panics. *)
Definition panic_registry {S} : gmap HandlerId (Handler S) :=
  {["runvane.noop"%string := fun _ s => (s, Unwound)]}.

(** The store with a running run of one task, and what a panicking attempt leaves. *)
Definition running_store : MemoryState :=
  run_calls [Any (PutWorkflow (def_with [bare_task "a" []]));
    Any (PutRun (run_set_status RunStatus.Running sample_run))] mem_new.

Definition after_panic : World MemoryState :=
  world0 (w_store (attempt_with_token panic_registry (fun n => Z.of_nat n) 0 (fun x _ => x) (fun _ u => u)
    "rn_0" None 1000 (world0 running_store)).1).

(** ** One task *)

(** The log grows by at most one call, of this task, and the status says how the
    call went. *)
Definition task_post {S} (name : string) (w w' : World S) (o : outcome TaskStatus) : Prop :=
  w_cancel w' = w_cancel w ∧
  ∃ calls, w_log w' = w_log w ++ calls ∧
    (calls = [] ∨ ∃ c, calls = [c] ∧ call_name c = name ∧ tc_cancelled (hc_ctx c) = w_cancel w) ∧
    match o with
    | Val TaskStatus.Succeeded => ∃ c, calls = [c] ∧ call_ok c
    | Val st => st = TaskStatus.Failed
    | Abort (Raise _) => True
    | Abort Panicked => ∃ c, calls = [c] ∧ hc_outcome c = Unwound
    | Abort OutOfFuel => False
    end.

Section Task.
Context {S : Type} `{Store S}.
Context (registry : gmap HandlerId (Handler S)) (clock : nat → Z).

Lemma record_result_val run_id name r w w' st :
  record_result clock run_id name r w = (w', Val st) →
  st = if is_ok r then TaskStatus.Succeeded else TaskStatus.Failed.
Proof.
  unfold record_result, mbind. destruct (load_task run_id name w) as [w1 [tr|]]; [|done].
  destruct r as [out|e]; cbn [is_ok]; destruct (TaskFsm.task_is_legal _ _); cbn [negb]; try done.
  all: destruct (now_ms clock w1) as [w2 [now|]]; [|done].
  all: destruct (put_task_run _ w2) as [w3 [[]|]]; [|done].
  all: unfold mret; congruence.
Qed.

(** The post-handler bookkeeping, from the call to the recorded status. *)
Lemma handler_then_record handler name ctx run_id (w : World S) :
  tc_task_name ctx = name → tc_cancelled ctx = w_cancel w →
  let c := let! r := run_handler registry handler name ctx in record_result clock run_id name r in
  task_post name w (c w).1 (c w).2.
Proof.
  intros Hn Hcan c. subst c. unfold mbind, run_handler.
  destruct (registry !! handler) as [h|].
  - destruct (h ctx (w_store w)) as [s [r|]].
    + set (w1 := {| w_store := s |}).
      pose proof (tame_record_result clock run_id name r w1) as (H1&H2&H3).
      destruct (record_result clock run_id name r w1) as [w2 o] eqn:Hr. cbn in *. split; [done|].
      exists [{| hc_ctx := ctx; hc_outcome := Returned r |}]. rewrite H1. split; [done|].
      split; [right; eexists; split; [reflexivity|done]|].
      destruct o as [st|[]]; try done. apply record_result_val in Hr. subst st.
      destruct r as [out|]; cbn; [|done]. eexists. split; [done|]. by exists out.
    + cbn. split; [done|]. eexists. split; [reflexivity|]. split; [right; by eexists|by eexists].
  - set (r := Err _). pose proof (tame_record_result clock run_id name r w) as (H1&H2&H3).
    destruct (record_result clock run_id name r w) as [w2 o] eqn:Hr. cbn in *. split; [done|].
    exists []. rewrite app_nil_r. split; [done|]. split; [by left|].
    destruct o as [st|[]]; try done. apply record_result_val in Hr. by subst st.
Qed.

Lemma task_post_weaken name w0 w w' (o : outcome TaskStatus) :
  w_log w = w_log w0 → w_cancel w = w_cancel w0 → task_post (S := S) name w w' o → task_post name w0 w' o.
Proof. unfold task_post. by intros -> ->. Qed.

Lemma execute_task_post run_id run def token lease name t w :
  find_task def name = Some t →
  let r := execute_task registry clock run_id run def token lease name w in
  task_post name w r.1 r.2.
Proof.
  intros Ht r. subst r. unfold execute_task. rewrite Ht.
  assert (HE : ∀ w1 e, w_log w1 = w_log w → w_cancel w1 = w_cancel w →
    task_post name w w1 (Abort (Raise e))).
  { intros w1 e H1 H2. split; [done|]. exists []. rewrite app_nil_r. auto. }
  apply tame_bind_post; [tame|done|]. intros w1 _ _ L1 C1.
  apply tame_bind_post; [tame|intros w2 e L C; apply HE; congruence|]. intros w2 tr _ L2 C2.
  apply tame_bind_post; [tame|intros w3 e L C; apply HE; congruence|]. intros w3 now _ L3 C3.
  apply tame_bind_post; [tame|intros w4 e L C; apply HE; congruence|]. intros w4 _ _ L4 C4.
  apply tame_bind_post; [tame|intros w5 e L C; apply HE; congruence|]. intros w5 can Hcan L5 C5.
  unfold cancel_token_is_cancelled in Hcan. injection Hcan as <- <-.
  eapply (task_post_weaken _ _ w4); [congruence|congruence|].
  by apply (handler_then_record (ts_handler t)).
Qed.
End Task.

(** ** Logs *)

Lemma dep_ok_app states0 log calls d : dep_ok states0 log d → dep_ok states0 (log ++ calls) d.
Proof. unfold dep_ok. set_solver. Qed.

Lemma dispatchable_app def states0 log calls n :
  dispatchable def states0 log n → dispatchable def states0 (log ++ calls) n.
Proof.
  intros [?|(t&?&?&Hd)]; [by left|right]. exists t. split_and!; [done..|].
  eapply Forall_impl; [exact Hd|]. intros d. apply dep_ok_app.
Qed.

Lemma log_ok_nil def states0 : log_ok def states0 [].
Proof. constructor; [set_solver|constructor|by intros []|set_solver]. Qed.

Lemma log_ok_snoc def states0 log c :
  log_ok def states0 log → call_name c ∈ task_names def → call_name c ∉ map call_name log →
  dispatchable def states0 log (call_name c) → tc_cancelled (hc_ctx c) = false →
  log_ok def states0 (log ++ [c]).
Proof.
  intros [Hn Ho Hord Htok] Hin Hnew Hd Hc. constructor.
  - intros c'. rewrite elem_of_app. intros [?|He%list_elem_of_singleton]; subst; auto.
  - rewrite map_app. apply NoDup_app. split; [done|]. split; [|apply NoDup_singleton].
    intros x Hx He%list_elem_of_singleton. by subst.
  - intros l1 c' l2 Heq. destruct l2 as [|x l2 _] using rev_ind.
    + apply app_inj_tail in Heq as [<- <-]. done.
    + rewrite app_comm_cons, (assoc_L (++)) in Heq. apply app_inj_tail in Heq as [-> _].
      by apply (Hord l1 c' l2).
  - intros c'. rewrite elem_of_app. intros [?|He%list_elem_of_singleton]; subst; auto.
Qed.

Lemma find_task_name def name : name ∈ task_names def → ∃ t, find_task def name = Some t.
Proof.
  unfold task_names, find_task. rewrite elem_of_list_to_set, list_elem_of_In, in_map_iff.
  intros (t&<-&Ht). destruct (List.find _ _) as [t'|] eqn:Hf; [by exists t'|].
  pose proof (find_none _ _ Hf t Ht) as Hn. cbn in Hn. by apply bool_decide_eq_false in Hn.
Qed.

(** ** The loop *)

(** A name that the loop is about to execute. *)
Definition runnable (def : WorkflowDef) (states0 : gmap string TaskStatus) (executed : gset string)
    (log : list HandlerCall) (n : string) : Prop :=
  n ∈ task_names def ∧ (n ∉ executed) ∧ dispatchable def states0 log n ∧
  (status_of states0 n = TaskStatus.Failed ∨ status_of states0 n = TaskStatus.Pending).

Section Loop.
Context {S : Type} `{Store S}.
Context (registry : gmap HandlerId (Handler S)) (clock : nat → Z).
Context (run_id : RunId) (run : Run) (def : WorkflowDef) (token : option ClaimToken) (lease_ms : Z).
Context (states0 : gmap string TaskStatus).

(** The log part of a step, whatever its outcome. *)
Lemma task_step_log name states executed (w w' : World S) o :
  loop_inv def states0 states executed w → runnable def states0 executed (w_log w) name →
  task_post name w w' o → log_ok def states0 (w_log w') ∧ w_cancel w' = false ∧
    (∀ c, c ∈ w_log w' → call_name c ∈ {[name]} ∪ executed) ∧
    (∀ d, dep_ok states0 (w_log w) d → dep_ok states0 (w_log w') d).
Proof.
  intros Hinv (Hname&Hnew&Hdisp&_) (Hcan&calls&Hlog&Hcalls&_). rewrite Hcan, Hlog.
  pose proof (li_cancel _ _ _ _ _ Hinv) as Hc0. pose proof (li_called _ _ _ _ _ Hinv) as Hcalled.
  destruct Hcalls as [->|(c&->&Hcn&Htok)].
  - rewrite app_nil_r. split_and!; [apply Hinv|done|set_solver|done].
  - split_and!; [|done| |intros d; apply dep_ok_app].
    + subst name. apply log_ok_snoc; [apply Hinv|done| |done|congruence].
      intros (c'&Heq&Hin)%list_elem_of_In%in_map_iff. apply list_elem_of_In, Hcalled in Hin.
      rewrite Heq in Hin. done.
    + intros c'. rewrite elem_of_app. rewrite elem_of_union.
      intros [Hin%Hcalled|He%list_elem_of_singleton]; [by right|left]. subst. apply elem_of_singleton_2. done.
Qed.

Lemma task_step_inv name states executed (w w' : World S) st :
  loop_inv def states0 states executed w → runnable def states0 executed (w_log w) name →
  task_post name w w' (Val st) → loop_inv def states0 (<[name := st]> states) ({[name]} ∪ executed) w'.
Proof.
  intros Hinv Hrun Hpost. destruct (task_step_log _ _ _ _ _ _ Hinv Hrun Hpost) as (Hl&Hc&Hcalled&Hdep).
  destruct Hpost as (_&calls&Hlog&Hcalls&Hst). destruct Hrun as (Hname&Hnew&_&Hfrom).
  constructor; [done|done| |done| | | |].
  - pose proof (li_exec _ _ _ _ _ Hinv). set_solver.
  - intros n Hn. rewrite lookup_insert_ne by set_solver. apply (li_same _ _ _ _ _ Hinv). set_solver.
  - intros n Hn. destruct (decide (n = name)) as [->|Hne].
    + rewrite lookup_insert_eq. destruct st; naive_solver.
    + rewrite lookup_insert_ne by done. apply (li_done _ _ _ _ _ Hinv). set_solver.
  - intros n Hn. destruct (decide (n = name)) as [->|Hne].
    + rewrite lookup_insert_eq in Hn. simplify_eq. destruct Hst as (c&->&Hok). right. exists c.
      rewrite Hlog. split; [set_solver|]. split; [|done].
      destruct Hcalls as [?|(c'&?&?&_)]; by simplify_eq.
    + rewrite lookup_insert_ne in Hn by done. by apply Hdep, (li_succ _ _ _ _ _ Hinv).
  - intros n [He%elem_of_singleton|Hn]%elem_of_union; [by subst|]. by apply (li_from _ _ _ _ _ Hinv).
Qed.

Lemma execute_ready_inv ready : ∀ states executed w,
  loop_inv def states0 states executed w → NoDup ready →
  (∀ n, n ∈ ready → runnable def states0 executed (w_log w) n) →
  match execute_ready registry clock run_id run def token lease_ms ready states executed w with
  | (w', Val (states', executed')) =>
      loop_inv def states0 states' executed' w' ∧ executed' = list_to_set ready ∪ executed
  | (w', Abort f) => stop_ok def states0 f w'
  end.
Proof.
  induction ready as [|name ready IH]; intros states executed w Hinv Hnd Hready; cbn [execute_ready].
  { split; [done|set_solver]. }
  apply NoDup_cons in Hnd as [Hni Hnd]. pose proof (Hready name ltac:(set_solver)) as Hrun.
  destruct (find_task_name def name) as [t Ht]; [apply Hrun|].
  pose proof (execute_task_post registry clock run_id run def token lease_ms name t w Ht) as Hpost.
  unfold mbind. destruct (execute_task _ _ _ _ _ _ _ _ _) as [w1 [st|f]]; cbn in Hpost.
  - pose proof (task_step_inv _ _ _ _ _ _ Hinv Hrun Hpost) as Hinv1.
    specialize (IH _ _ w1 Hinv1 Hnd). destruct (execute_ready _ _ _ _ _ _ _ _ _ _ _) as [w2 [[st2 ex2]|f]].
    + destruct IH as [H1 ->]; [|split; [done|set_solver]].
      intros n Hn. destruct (Hready n) as (Hn1&Hn2&Hn3&Hn4); [set_solver|]. split; [done|].
      split; [set_solver|]. split; [|done]. destruct Hpost as (_&calls&->&_). by apply dispatchable_app.
    + apply IH. intros n Hn. destruct (Hready n) as (Hn1&Hn2&Hn3&Hn4); [set_solver|]. split; [done|].
      split; [set_solver|]. split; [|done]. destruct Hpost as (_&calls&->&_). by apply dispatchable_app.
  - destruct (task_step_log _ _ _ _ _ _ Hinv Hrun Hpost) as (Hl&_). split; [done|].
    destruct Hpost as (_&calls&->&_&Hf). destruct f; [done| |done].
    destruct Hf as (c&->&Hc). exists c. split; [set_solver|done].
Qed.

Lemma ready_now_val states executed (w w' : World S) ready :
  ready_now (rn_id run) def states executed w = (w', Val ready) →
  (NoDup (map ts_name (wd_tasks def)) → NoDup ready) ∧
  (∀ n, n ∈ ready → n ∈ ready_tasks (wd_tasks def) states ∧ n ∉ executed) ∧
  (∀ n, n ∈ ready_tasks (wd_tasks def) states → n ∉ ready →
    n ∈ executed ∨ states !! n = Some TaskStatus.Failed).
Proof.
  intros Hr. apply filterM_val in Hr as (Hsub&Htrue&Hfalse). split_and!.
  - intros Hnd. eapply sublist_NoDup; [|exact Hsub]. by apply ready_tasks_NoDup.
  - intros n Hn. split; [by eapply elem_of_submseteq; [|apply sublist_submseteq]|].
    destruct (Htrue n Hn) as (w1&w2&Hp). case_bool_decide; [done|]. done.
  - intros n Hn Hni. destruct (Hfalse n Hn Hni) as (w1&w2&Hp).
    case_bool_decide; [by left|]. case_bool_decide; [by right|]. done.
Qed.

Lemma ready_now_runnable states executed (w : World S) n :
  loop_inv def states0 states executed w → n ∈ ready_tasks (wd_tasks def) states → n ∉ executed →
  runnable def states0 executed (w_log w) n.
Proof.
  intros Hinv (t&Ht&Hn&Hs)%ready_tasks_elem Hne.
  assert (Hst : status_of states n = status_of states0 n)
    by (unfold status_of; by rewrite (li_same _ _ _ _ _ Hinv)).
  split_and!; [|done| |rewrite <-Hst; tauto].
  - subst n. apply elem_of_list_to_set, list_elem_of_In, in_map, list_elem_of_In, Ht.
  - destruct Hs as [Hs|[_ Hs]].
    + left. by rewrite <-Hst.
    + right. exists t. split_and!; [done..|]. eapply Forall_impl; [exact Hs|].
      intros d. apply (li_succ _ _ _ _ _ Hinv).
Qed.

Lemma poll_cancelled_post id (w : World S) :
  w_log (poll_cancelled id w).1 = w_log w ∧
  match (poll_cancelled id w).2 with
  | Val None => w_cancel (poll_cancelled id w).1 = w_cancel w
  | Val (Some o) => ao_run_status o = RunStatus.Cancelled ∧ ao_action o = AckEntry
  | Abort _ => False
  end.
Proof.
  unfold poll_cancelled, mbind, do_call. destruct (call (GetRun id) (w_store w)) as [s [r|e]]; [|done].
  by case_bool_decide.
Qed.

Lemma loop_inv_world states executed (w w' : World S) :
  w_log w' = w_log w → w_cancel w' = w_cancel w →
  loop_inv def states0 states executed w → loop_inv def states0 states executed w'.
Proof. intros Hl Hc [? ? ? ? ? ? ? ?]. constructor; rewrite ?Hl, ?Hc; done. Qed.

(** Every round executes a new task. *)
Lemma executed_grows executed n (ready : list string) :
  n ∈ task_names def → n ∉ executed →
  (size (task_names def ∖ (list_to_set (n :: ready) ∪ executed)) < size (task_names def ∖ executed))%nat.
Proof.
  intros Hn Hne. apply subset_size. split; [set_solver|]. intros Hsub.
  specialize (Hsub n). set_solver.
Qed.

(** What the loop establishes however it ends. *)
Definition loop_post (w' : World S) (o : outcome (AttemptOutcome + gmap string TaskStatus)) : Prop :=
  match o with
  | Val (inl o) => log_ok def states0 (w_log w') ∧ ao_run_status o = RunStatus.Cancelled ∧ ao_action o = AckEntry
  | Val (inr states') => ∃ executed', loop_inv def states0 states' executed' w' ∧
      ∀ n, n ∈ ready_tasks (wd_tasks def) states' → n ∈ executed' ∨ states' !! n = Some TaskStatus.Failed
  | Abort f => stop_ok def states0 f w'
  end.

Lemma attempt_loop_post fuel : ∀ states executed w,
  NoDup (map ts_name (wd_tasks def)) → loop_inv def states0 states executed w →
  (size (task_names def ∖ executed) < fuel)%nat →
  let r := attempt_loop registry clock fuel run_id run def token lease_ms states executed w in
  loop_post r.1 r.2.
Proof.
  induction fuel as [|fuel IH]; intros states executed w Hnd Hinv Hf; [lia|]. cbn [attempt_loop].
  cbn zeta. pose proof (poll_cancelled_post run_id w) as [Hpl Hpo].
  destruct (poll_cancelled run_id w) as [w1 [[o|]|f]] eqn:Hp; cbn in Hpl, Hpo; [| |done];
    rewrite (mbind_val _ _ _ _ _ Hp).
  { unfold loop_post, mret; cbn. rewrite Hpl. split; [apply Hinv|done]. }
  pose proof (loop_inv_world _ _ w w1 Hpl Hpo Hinv) as Hinv1.
  apply (tame_bind_post _ _ w1 loop_post); [tame| |].
  { intros w2 e Hl _. split; [rewrite Hl; apply Hinv1|done]. }
  intros w2 ready Hready Hl2 Hc2. pose proof (loop_inv_world _ _ w1 w2 Hl2 Hc2 Hinv1) as Hinv2.
  apply ready_now_val in Hready as (Hrnd&Hrin&Hrout). destruct ready as [|n ready].
  { exists executed. split; [done|]. intros m Hm. apply Hrout; [done|]. set_solver. }
  pose proof (execute_ready_inv (n :: ready) states executed w2 Hinv2 (Hrnd Hnd)) as Hex.
  assert (Hrun : ∀ m, m ∈ n :: ready → runnable def states0 executed (w_log w2) m).
  { intros m Hm. apply Hrin in Hm as [Hm1 Hm2]. by apply (ready_now_runnable states). }
  specialize (Hex Hrun).
  destruct (execute_ready _ _ _ _ _ _ _ _ _ _ _) as [w3 [[states3 executed3]|f]] eqn:Her;
    [rewrite (mbind_val _ _ _ _ _ Her)|by rewrite (mbind_abort _ _ _ _ _ Her)].
  destruct Hex as [Hinv3 ->]. apply IH; [done..|].
  destruct (Hrun n) as (Hn1&Hn2&_); [apply list_elem_of_here|].
  pose proof (executed_grows executed n ready Hn1 Hn2). lia.
Qed.
End Loop.

(** ** Ending *)

(** Fuel never runs out; a panic comes from a handler or from the backoff clamp of
    the definition's own policy. *)
Definition ends {S A} (p : RetryPolicy) (w' : World S) (o : outcome A) : Prop :=
  match o with
  | Abort OutOfFuel => False
  | Abort Panicked => (∃ c, c ∈ w_log w' ∧ hc_outcome c = Unwound) ∨ effective_max p < base_delay_ms p
  | _ => True
  end.

Lemma next_attempt_panic powf rng p a retry now seed :
  next_attempt_at_ms powf rng p a retry now seed = None → effective_max p < base_delay_ms p.
Proof.
  unfold next_attempt_at_ms, next_delay, raw_delay, clamp_u64.
  destruct (negb _); [done|]. destruct (Z.ltb_spec (effective_max p) (base_delay_ms p)); [done|].
  by destruct (jitter p).
Qed.

Section Ending.
Context {S : Type} `{Store S}.
Context (registry : gmap HandlerId (Handler S)) (clock : nat → Z) (seed : Z).
Context (powf : f64 → f64 → f64) (rng : Z → Z → Z).

Lemma ends_bind {A B} p (c : M S A) (k : A → M S B) w :
  ends p (c w).1 (c w).2 → (∀ w1 a, c w = (w1, Val a) → ends p (k a w1).1 (k a w1).2) →
  ends p (mbind c k w).1 (mbind c k w).2.
Proof.
  intros Hc Hk. destruct (c w) as [w1 [a|f]] eqn:Hcw.
  - rewrite (mbind_val _ _ _ _ _ Hcw). by apply Hk.
  - by rewrite (mbind_abort _ _ _ _ _ Hcw).
Qed.

Lemma tame_ends {A} p (c : M S A) w : tame c → ends p (c w).1 (c w).2.
Proof. intros Hc. destruct (Hc w) as (_&_&Hr). by destruct (c w) as [w1 [a|[]]]. Qed.

Lemma ends_bind_tame {A B} p (c : M S A) (k : A → M S B) w :
  tame c → (∀ w1 a, ends p (k a w1).1 (k a w1).2) → ends p (mbind c k w).1 (mbind c k w).2.
Proof. intros Hc Hk. apply ends_bind; [by apply tame_ends|auto]. Qed.

Lemma finalize_ends run def states w :
  let r := finalize clock seed powf rng run def states w in ends (wd_retry def) r.1 r.2.
Proof.
  cbn zeta. unfold finalize. destruct (forallb _ _); cbn [negb]; [|done].
  destruct (existsb _ _); cbn [negb]; [|apply tame_ends; tame].
  apply ends_bind_tame; [tame|intros w1 reason]. apply ends_bind_tame; [tame|intros w2 b].
  destruct (_ && b); [|apply tame_ends; tame].
  apply ends_bind_tame; [tame|intros w3 _]. apply ends_bind_tame; [tame|intros w4 _].
  apply ends_bind_tame; [tame|intros w5 now].
  destruct (next_attempt_at_ms _ _ _ _ _ _ _) as [planned|] eqn:Hn; [apply tame_ends; tame|].
  right. by apply next_attempt_panic in Hn.
Qed.

Lemma finalize_log run def states w :
  w_log (finalize (S := S) clock seed powf rng run def states w).1 = w_log w.
Proof.
  assert (Hb : ∀ A B (c : M S A) (k : A → M S B) w, tame c →
    (∀ w1 a, w_log (k a w1).1 = w_log w1) → w_log (mbind c k w).1 = w_log w).
  { intros A B c k w0 Hc Hk. apply (tame_bind_post c k w0 (fun w' _ => w_log w' = w_log w0)); [done|done|].
    intros w1 a _ <- _. apply Hk. }
  unfold finalize. destruct (forallb _ _); cbn [negb]; [|done].
  destruct (existsb _ _); cbn [negb]; [|repeat (apply Hb; [tame|intros ? ?]); done].
  apply Hb; [tame|intros w1 reason]. apply Hb; [tame|intros w2 b].
  destruct (_ && b); repeat (apply Hb; [tame|intros ? ?]); try done.
  destruct (next_attempt_at_ms _ _ _ _ _ _ _); repeat (apply Hb; [tame|intros ? ?]); done.
Qed.

Context (run_id : RunId) (run : Run) (def : WorkflowDef) (token : option ClaimToken) (lease_ms : Z).

Lemma execute_ready_ends ready : ∀ states executed w,
  (∀ n, n ∈ ready → n ∈ task_names def) →
  let r := execute_ready registry clock run_id run def token lease_ms ready states executed w in
  ends (wd_retry def) r.1 r.2 ∧
  ∀ st ex, r.2 = Val (st, ex) → ex = list_to_set ready ∪ executed.
Proof.
  cbn zeta. induction ready as [|name ready IH]; intros states executed w Hin; cbn [execute_ready].
  { split; [done|]. intros st ex [= <- <-]. set_solver. }
  destruct (find_task_name def name) as [t Ht]; [set_solver|].
  pose proof (execute_task_post registry clock run_id run def token lease_ms name t w Ht) as Hpost.
  destruct (execute_task _ _ _ _ _ _ _ _ _) as [w1 [st|f]] eqn:He; cbn in Hpost.
  - rewrite (mbind_val _ _ _ _ _ He).
    destruct (IH (<[name := st]> states) ({[name]} ∪ executed) w1) as [H1 H2]; [set_solver|].
    split; [done|]. intros st' ex Hr. rewrite (H2 _ _ Hr). set_solver.
  - rewrite (mbind_abort _ _ _ _ _ He). split; [|done].
    destruct Hpost as (_&calls&Hl&_&Hf). destruct f; cbn; [done| |done]. left.
    destruct Hf as (c&->&Hc). exists c. cbn. rewrite Hl. set_solver.
Qed.

Lemma attempt_loop_ends fuel : ∀ states executed w,
  (size (task_names def ∖ executed) < fuel)%nat →
  let r := attempt_loop registry clock fuel run_id run def token lease_ms states executed w in
  ends (wd_retry def) r.1 r.2.
Proof.
  cbn zeta. induction fuel as [|fuel IH]; intros states executed w Hf; [lia|]. cbn [attempt_loop].
  pose proof (poll_cancelled_post run_id w) as [_ Hpo].
  destruct (poll_cancelled run_id w) as [w1 [[o|]|f]] eqn:Hp; cbn in Hpo; [| |done];
    rewrite (mbind_val _ _ _ _ _ Hp); [done|].
  apply ends_bind; [apply tame_ends; tame|]. intros w2 ready Hready.
  apply ready_now_val in Hready as (_&Hrin&_). destruct ready as [|n ready]; [done|].
  assert (Hnames : ∀ m, m ∈ n :: ready → m ∈ task_names def).
  { intros m Hm. apply Hrin in Hm as [(t&Ht&Hn&_)%ready_tasks_elem _]. subst m.
    apply elem_of_list_to_set, list_elem_of_In, in_map, list_elem_of_In, Ht. }
  destruct (execute_ready_ends (n :: ready) states executed w2 Hnames) as [H1 H2].
  apply ends_bind; [done|]. intros w3 [st ex] Her. rewrite Her in H2. rewrite (H2 st ex eq_refl).
  apply IH. destruct (Hrin n) as [_ Hn]; [apply list_elem_of_here|].
  pose proof (executed_grows def executed n ready (Hnames n ltac:(apply list_elem_of_here)) Hn). lia.
Qed.

Lemma task_names_size : (size (task_names def) ≤ length (wd_tasks def))%nat.
Proof.
  unfold task_names. rewrite <-(length_map ts_name).
  induction (map ts_name (wd_tasks def)) as [|n l IH]; cbn; [by rewrite size_empty|].
  destruct (decide (n ∈ (list_to_set l : gset string))).
  - rewrite subseteq_union_1_L by set_solver. lia.
  - rewrite size_union, size_singleton by set_solver. lia.
Qed.

Lemma attempt_tasks_ends w :
  let r := attempt_tasks registry clock seed powf rng run_id run def token lease_ms w in
  ends (wd_retry def) r.1 r.2.
Proof.
  cbn zeta. unfold attempt_tasks. apply ends_bind_tame; [tame|intros w1 states].
  apply ends_bind; [done|]. intros w2 _ _. apply ends_bind.
  { apply attempt_loop_ends. replace (task_names def ∖ ∅) with (task_names def) by set_solver.
    pose proof task_names_size. lia. }
  intros w3 [o|st] _; [done|]. destruct (pending_to_skip_spec (wd_tasks def) st) as (next&->&_).
  apply ends_bind_tame; [tame|intros w4 _]. apply finalize_ends.
Qed.
End Ending.

(** ** Non-terminal tasks *)

Lemma finalize_nonterminal {S} `{Store S} clock seed powf rng run def states w n st :
  states !! n = Some st → task_is_terminal st = false →
  (finalize (S := S) clock seed powf rng run def states w).2
  = Abort (Raise (Invariant "attempt ended with non-terminal tasks")).
Proof.
  intros Hn Hst. unfold finalize. destruct (forallb _ _) eqn:Hf; [|done].
  rewrite forallb_forall in Hf. specialize (Hf (n, st)). cbn in Hf. rewrite Hst in Hf.
  discriminate Hf. by apply list_elem_of_In, bt_iter_elem.
Qed.

(** The start of an attempt: the loop begins with the loaded states. *)
Lemma attempt_tasks_start {S} `{Store S} registry clock seed powf rng run_id run def token lease_ms
    (w w' : World S) o :
  NoDup (map ts_name (wd_tasks def)) → w_log w = [] →
  attempt_tasks registry clock seed powf rng run_id run def token lease_ms w = (w', Val o) →
  ∃ w1 states0 w3 exit, loaded_states (rn_id run) def w = (w1, Val states0) ∧
    attempt_loop registry clock (Datatypes.S (length (wd_tasks def))) run_id run def token lease_ms
      states0 ∅ (cancel_token_new w1).1 = (w3, Val exit) ∧
    loop_post def states0 w3 (Val exit) ∧
    match exit with
    | inl o' => o = o' ∧ w' = w3
    | inr st => ∃ next w4, pending_to_skip (wd_tasks def) st = Some next ∧
        persist_skipped clock (rn_id run) st (bt_iter next) w3 = (w4, Val tt) ∧
        finalize clock seed powf rng run def next w4 = (w', Val o)
    end.
Proof.
  intros Hnd Hlog Hrun. unfold attempt_tasks in Hrun. apply mbind_inv in Hrun as (w1&states0&Hls&Hrun).
  pose proof (tame_loaded_states (rn_id run) def w) as (Hl1&_&_). rewrite Hls in Hl1. cbn in Hl1.
  apply mbind_inv in Hrun as (w2&[]&Hnew&Hrun). injection Hnew as <-.
  apply mbind_inv in Hrun as (w3&exit&Hloop&Hrun).
  exists w1, states0, w3, exit. split; [done|]. split; [done|].
  set (w2 := (cancel_token_new w1).1) in *.
  assert (Hinv : loop_inv def states0 states0 ∅ w2).
  { constructor; cbn; rewrite ?Hl1, ?Hlog; try done; [apply log_ok_nil|set_solver..|by left]. }
  pose proof (attempt_loop_post registry clock run_id run def token lease_ms states0
    (Datatypes.S (length (wd_tasks def))) states0 ∅ w2 Hnd Hinv) as Hpost. cbn zeta in Hpost.
  specialize (Hpost ltac:(replace (task_names def ∖ ∅) with (task_names def) by set_solver;
    pose proof (task_names_size def); lia)).
  change (attempt_loop registry clock (Datatypes.S (length (wd_tasks def))) run_id run def token lease_ms
    states0 ∅ w2 = (w3, Val exit)) in Hloop. rewrite Hloop in Hpost. split; [exact Hpost|].
  destruct exit as [o'|st]; [unfold mret in Hrun; by simplify_eq|].
  destruct (pending_to_skip _ st) as [next|]; [|done].
  apply mbind_inv in Hrun as (w4&[]&Hps&Hrun). by exists next, w4.
Qed.

(** What [attempt_terminates] states, for the components that build on it. *)
Lemma attempt_ends {S} `{Store S} registry clock seed powf rng run_id token lease_ms (w : World S) :
  let r := attempt_with_token registry clock seed powf rng run_id token lease_ms w in
  r.2 ≠ Abort OutOfFuel ∧
  (r.2 = Abort Panicked →
    (∃ c, c ∈ w_log r.1 ∧ hc_outcome c = Unwound) ∨
    ∃ run rec, (call (GetRun run_id) (w_store w)).2 = Ok run ∧
      (call (GetWorkflow (rn_tenant run) (rn_def_name run)) (call (GetRun run_id) (w_store w)).1).2 = Ok rec ∧
      effective_max (wd_retry (wr_def rec)) < base_delay_ms (wd_retry (wr_def rec))).
Proof.
  cbn zeta. unfold attempt_with_token.
  destruct (do_call (GetRun run_id) w) as [w1 [r|f]] eqn:H1;
    [rewrite (mbind_val _ _ _ _ _ H1)|unfold do_call in H1; by destruct (call _ _)].
  destruct r as [run|e]; [|done]. cbn [or_throw]. rewrite (mbind_val _ _ _ w1 run eq_refl).
  assert (Hrun : (call (GetRun run_id) (w_store w)).2 = Ok run ∧
    w_store w1 = (call (GetRun run_id) (w_store w)).1).
  { unfold do_call in H1. destruct (call (GetRun run_id) (w_store w)) as [s r]. injection H1 as <- ->. done. }
  set (c := do_call (GetWorkflow (rn_tenant run) (rn_def_name run))).
  destruct (c w1) as [w2 [d|f]] eqn:H2; [rewrite (mbind_val _ _ _ _ _ H2)|
    unfold c, do_call in H2; by destruct (call _ (w_store w1))].
  destruct d as [rec|e]; [|done]. cbn [or_throw]. rewrite (mbind_val _ _ _ w2 rec eq_refl).
  assert (Hrec : (call (GetWorkflow (rn_tenant run) (rn_def_name run)) (w_store w1)).2 = Ok rec).
  { unfold c, do_call in H2. destruct (call _ (w_store w1)). by simplify_eq/=. }
  case_bool_decide; cbn [negb]; [|case_bool_decide; by split].
  set (k := fun late : bool => _).
  assert (Hends : ends (wd_retry (wr_def rec)) (mbind (deadline_passed clock run) k w2).1
    (mbind (deadline_passed clock run) k w2).2).
  { apply ends_bind_tame; [tame|]. intros w3 late. subst k. destruct late; [|apply attempt_tasks_ends].
    apply tame_ends. unfold time_out. tame. }
  unfold ends in Hends. destruct (mbind _ k w2).2 as [a|[]]; try (by split); [].
  split; [done|]. intros _. destruct Hends as [?|?]; [by left|right]. destruct Hrun as [Hrun Hst].
  exists run, rec. by rewrite <-Hst.
Qed.

(** An attempt's tasks, with one of them loaded as [Running]: only a cancellation ends them. *)
Lemma running_task_stuck {S} `{Store S} registry clock seed powf rng run_id run def token lease_ms
    (w : World S) states0 n :
  NoDup (map ts_name (wd_tasks def)) → w_log w = [] →
  (loaded_states (rn_id run) def w).2 = Val states0 → states0 !! n = Some TaskStatus.Running →
  match (attempt_tasks registry clock seed powf rng run_id run def token lease_ms w).2 with
  | Val o => ao_run_status o = RunStatus.Cancelled ∧ ao_action o = AckEntry
  | Abort _ => True
  end.
Proof.
  intros Hnd Hlog Hls Hn.
  destruct (attempt_tasks registry clock seed powf rng run_id run def token lease_ms w) as [w' [o|]] eqn:Ha;
    [cbn|done]. apply attempt_tasks_start in Ha as (w1&st0&w3&exit&Hls'&_&Hpost&Hexit); [|done..].
  rewrite Hls' in Hls. cbn in Hls. simplify_eq. destruct exit as [o'|st].
  - destruct Hexit as [-> _]. split; apply Hpost.
  - destruct Hpost as (ex&Hinv&_). destruct Hexit as (next&w4&Hskip&_&Hfin).
    assert (Hnex : n ∉ ex).
    { intros Hin. destruct (li_from _ _ _ _ _ Hinv n Hin) as [Hf|Hf]; unfold status_of in Hf; by rewrite Hn in Hf. }
    destruct (pending_to_skip_spec (wd_tasks def) st) as (next'&Hs'&Hl). rewrite Hs' in Hskip. simplify_eq.
    assert (Hnn : next !! n = Some TaskStatus.Running).
    { rewrite Hl. unfold skipped_states. rewrite decide_False.
      - by rewrite (li_same _ _ _ _ _ Hinv).
      - intros [Hp _]. unfold status_of in Hp. by rewrite (li_same _ _ _ _ _ Hinv), Hn in Hp. }
    pose proof (finalize_nonterminal clock seed powf rng run def next w4 n _ Hnn eq_refl) as Hab.
    rewrite Hfin in Hab. done.
Qed.

Lemma do_call_log {S} `{Store S} {A} (c : StoreCall A) (w w' : World S) r :
  do_call c w = (w', r) → w_log w' = w_log w.
Proof. unfold do_call. destruct (call c (w_store w)). by intros [= <- _]. Qed.

(** ** Properties *)

(** C16. An attempt always ends: for every store (failing ones and ones that other
    threads change at will included), every handler and every definition, the
    loop needs no more rounds than there are tasks, the lookup of a ready task
    never fails, and a panic can only come out of a handler or out of the
    backoff of a definition whose base delay exceeds its maximum. *)
Theorem attempt_terminates {S} `{Store S} registry clock seed powf rng run_id token lease_ms (w : World S) :
  let r := attempt_with_token registry clock seed powf rng run_id token lease_ms w in
  r.2 ≠ Abort OutOfFuel ∧
  (r.2 = Abort Panicked →
    (∃ c, c ∈ w_log r.1 ∧ hc_outcome c = Unwound) ∨
    ∃ run rec, (call (GetRun run_id) (w_store w)).2 = Ok run ∧
      (call (GetWorkflow (rn_tenant run) (rn_def_name run)) (call (GetRun run_id) (w_store w)).1).2 = Ok rec ∧
      effective_max (wd_retry (wr_def rec)) < base_delay_ms (wd_retry (wr_def rec))).
Proof. apply attempt_ends. Qed.

(** C3. Execution discipline of one attempt of a definition with distinct task
    names, whatever the store answers: every handler call is for a task of the
    definition, no task is called twice, a task is called only after each of
    its dependencies succeeded (earlier in this attempt or in the recorded
    statuses the attempt started from) unless it is the retry of a task recorded
    as failed, and the cancellation token a handler is given is never set. *)
Theorem attempt_discipline {S} `{Store S} registry clock seed powf rng run_id run def token lease_ms
    (w : World S) :
  NoDup (map ts_name (wd_tasks def)) → w_log w = [] →
  ∃ states0, (loaded_states (rn_id run) def w).2 = Val states0 ∧
    log_ok def states0
      (w_log (attempt_tasks registry clock seed powf rng run_id run def token lease_ms w).1).
Proof.
  intros Hnd Hlog. unfold attempt_tasks. pose proof (tame_loaded_states (rn_id run) def w) as (Hl1&_&_).
  destruct (loaded_states (rn_id run) def w) as [w1 [states0|f]] eqn:Hls; cbn in Hl1;
    [|unfold loaded_states, mbind, do_call in Hls; by destruct (call _ _)].
  exists states0. split; [done|]. rewrite (mbind_val _ _ _ _ _ Hls).
  set (w2 := (cancel_token_new w1).1). rewrite (mbind_val _ _ _ w2 tt eq_refl).
  assert (Hinv : loop_inv def states0 states0 ∅ w2).
  { constructor; cbn; rewrite ?Hl1, ?Hlog; try done; [apply log_ok_nil|set_solver..|by left]. }
  pose proof (attempt_loop_post registry clock run_id run def token lease_ms states0
    (Datatypes.S (length (wd_tasks def))) states0 ∅ w2 Hnd Hinv) as Hpost.
  cbn zeta in Hpost.
  specialize (Hpost ltac:(replace (task_names def ∖ ∅) with (task_names def) by set_solver;
    pose proof (task_names_size def); lia)).
  destruct (attempt_loop _ _ _ _ _ _ _ _ _ _ w2) as [w3 [[o|st]|f]] eqn:Hloop;
    [rewrite (mbind_val _ _ _ _ _ Hloop)..|rewrite (mbind_abort _ _ _ _ _ Hloop)].
  - apply Hpost.
  - destruct Hpost as (ex&Hinv3&_). destruct (pending_to_skip_spec (wd_tasks def) st) as (next&->&_).
    assert (Hfin : w_log ((let! _ := persist_skipped clock (rn_id run) st (bt_iter next) in
      finalize clock seed powf rng run def next) w3).1 = w_log w3).
    { apply (tame_bind_post _ _ w3 (fun w' _ => w_log w' = w_log w3)); [tame|done|].
      intros w4 _ _ Hl4 _. rewrite <-Hl4. apply finalize_log. }
    rewrite Hfin. apply Hinv3.
  - apply Hpost.
Qed.

Lemma attempt_discipline_witness :
  ∃ states0, log_ok (def_with diamond) states0
    (w_log (attempt_tasks (S := MemoryState) noop_registry (fun n => Z.of_nat n) 0 (fun x _ => x) (fun _ u => u)
      "rn_0" sample_run (def_with diamond) None 1000 (world0 mem_new)).1).
Proof.
  destruct (attempt_discipline (S := MemoryState) noop_registry (fun n => Z.of_nat n) 0 (fun x _ => x)
    (fun _ u => u) "rn_0" sample_run (def_with diamond) None 1000 (world0 mem_new)) as (st&_&H).
  - apply (bool_decide_unpack _). vm_compute. exact I.
  - reflexivity.
  - exists st. exact H.
Defined.

(** C40. A task that the store records as [Running] when an attempt starts can
    never finish. Let the attempt read the run and its definition, whose task names
    are distinct, and load [Running] for the task [n]. Then the attempt ends, and
    returns an outcome in two cases only: the run was cancelled, or its deadline had
    passed when the attempt started, which reports [TimedOut]. Both acknowledge the
    entry. In every other case it aborts, whatever the store and the handlers do. *)
Theorem running_task_wedges {S} `{Store S} registry clock seed powf rng run_id run rec token lease_ms
    (w w1 w2 : World S) states0 n :
  w_log w = [] → do_call (GetRun run_id) w = (w1, Val (Ok run)) →
  do_call (GetWorkflow (rn_tenant run) (rn_def_name run)) w1 = (w2, Val (Ok rec)) →
  NoDup (map ts_name (wd_tasks (wr_def rec))) →
  (loaded_states (rn_id run) (wr_def rec) w2).2 = Val states0 → states0 !! n = Some TaskStatus.Running →
  match (attempt_with_token registry clock seed powf rng run_id token lease_ms w).2 with
  | Val o => ao_action o = AckEntry ∧
      (ao_run_status o = RunStatus.Cancelled ∨
       ao_run_status o = RunStatus.TimedOut ∧
       ∃ d, rn_deadline_at_ms run = Some d ∧ d < clock (w_reads w2))
  | Abort f => f ≠ OutOfFuel
  end.
Proof.
  intros Hlog Hrun Hrec Hnd Hls Hn.
  pose proof (attempt_ends registry clock seed powf rng run_id token lease_ms w) as [Hfuel _].
  assert (Hlog2 : w_log w2 = []).
  { by rewrite (do_call_log _ _ _ _ Hrec), (do_call_log _ _ _ _ Hrun). }
  destruct (attempt_with_token registry clock seed powf rng run_id token lease_ms w).2 as [o|f] eqn:Ha;
    [|naive_solver]. revert Ha. clear Hfuel. unfold attempt_with_token.
  rewrite (mbind_val _ _ _ _ _ Hrun), (mbind_val _ _ w1 w1 run eq_refl), (mbind_val _ _ _ _ _ Hrec),
    (mbind_val _ _ w2 w2 rec eq_refl).
  case_bool_decide as Hst; cbn [negb]; [|case_bool_decide; [|done]; intros [= <-]; auto].
  assert (Htasks : ∀ w3, w_log w3 = [] → w_store w3 = w_store w2 →
    (attempt_tasks registry clock seed powf rng run_id run (wr_def rec) token lease_ms w3).2 = Val o →
    ao_action o = AckEntry ∧ ao_run_status o = RunStatus.Cancelled).
  { intros w3 Hl3 Hs3 Ho.
    assert (Hls3 : (loaded_states (rn_id run) (wr_def rec) w3).2 = Val states0).
    { revert Hls. unfold loaded_states, mbind, do_call. rewrite Hs3.
      destruct (call (ListTaskRunsForRun (rn_id run)) (w_store w2)) as [s' r]. done. }
    pose proof (running_task_stuck registry clock seed powf rng run_id run (wr_def rec) token lease_ms
      w3 states0 n Hnd Hl3 Hls3 Hn) as Hstuck. rewrite Ho in Hstuck. by destruct Hstuck. }
  unfold deadline_passed. destruct (rn_deadline_at_ms run) as [d|] eqn:Hd.
  - unfold mbind at 1 2, now_ms at 1, mret at 1. cbn [fst snd]. destruct (d <? clock (w_reads w2)) eqn:Hlate.
    + apply Z.ltb_lt in Hlate. unfold time_out. intros Ho.
      assert (Htm : ao_action o = AckEntry ∧ ao_run_status o = RunStatus.TimedOut).
      { revert Ho. unfold put_run, mbind, do_call. cbn. destruct (call _ (w_store w2)) as [s [[]|e]]; [|done].
        by intros [= <-]. }
      destruct Htm. split; [done|]. right. eauto.
    + intros Ho. apply Htasks in Ho; [tauto|done..].
  - intros Ho. apply (Htasks w2) in Ho; [tauto|done..].
Qed.

Lemma running_task_wedges_witness :
  match (attempt_with_token noop_registry (fun n => Z.of_nat n) 0 (fun x _ => x) (fun _ u => u) "rn_0"
    None 1000 after_panic).2 with
  | Val o => ao_action o = AckEntry ∧
      (ao_run_status o = RunStatus.Cancelled ∨
       ao_run_status o = RunStatus.TimedOut ∧
       ∃ d, rn_deadline_at_ms (run_set_status RunStatus.Running sample_run) = Some d ∧
         d < Z.of_nat (w_reads after_panic))
  | Abort f => f ≠ OutOfFuel
  end.
Proof.
  apply (running_task_wedges noop_registry (fun n => Z.of_nat n) 0 (fun x _ => x) (fun _ u => u)
    "rn_0" (run_set_status RunStatus.Running sample_run)
    {| wr_def := def_with [bare_task "a" []] |} None 1000
    after_panic after_panic after_panic {["a"%string := TaskStatus.Running]} "a").
  - reflexivity.
  - vm_compute. reflexivity.
  - vm_compute. reflexivity.
  - apply (bool_decide_unpack _). vm_compute. exact I.
  - vm_compute. reflexivity.
  - vm_compute. reflexivity.
Defined.
