(* ===== verification/ExecutorOutcome.v ===== *)
(** * What an attempt leaves in the store

    Results against the store interface [RunStore]: how the outcome of an attempt,
    the stored run and the stored task runs agree. The interference of other
    threads while a handler runs is the hypothesis [keeps_ok]: they leave a
    well-formed store. *)
From S2P Require Import Prelude RustStrings Ids Status Errors StateMachine Float64 Json RetryPolicy.
From S2P Require Import Workflow Dag Store MemoryStore LruStore StoreLaws Pick Executor.
From S2P Require Import ExecutorLogic ExecutorFrame ExecutorOrder.
Local Open Scope Z_scope.

(** ** Task-run identifiers *)

Lemma task_run_id_bytes run_id name : Forall is_u8 (as_bytes (run_id +:+ "::" +:+ name)).
Proof. apply as_bytes_u8. Qed.

Lemma app_string_inj s t1 t2 : s +:+ t1 = s +:+ t2 → t1 = t2.
Proof.
  intros Heq. apply (f_equal as_bytes) in Heq. rewrite !as_bytes_app in Heq.
  by apply app_inv_head, as_bytes_inj in Heq.
Qed.

Lemma task_run_id_name run_id n1 n2 : task_run_id run_id n1 = task_run_id run_id n2 → n1 = n2.
Proof.
  unfold task_run_id. intros Heq%app_string_inj.
  apply encode_base32hex_inj in Heq; [|apply task_run_id_bytes..].
  apply as_bytes_inj, app_string_inj, app_string_inj in Heq. done.
Qed.

(** ** Views of the world *)

Section Views.
Context {S : Type} `{RunStore S}.

(** The record [load_task] makes up for a task without one. *)
Definition fresh_task (run_id : RunId) (name : string) : TaskRun :=
  {| tr_id := task_run_id run_id name; tr_run_id := run_id; tr_task_name := name;
     tr_status := TaskStatus.Pending; tr_attempts := 0; tr_last_error := None;
     tr_started_at_ms := None; tr_finished_at_ms := None; tr_output := None |}.

Definition task_of (w : World S) (run_id : RunId) (name : string) : TaskRun :=
  default (fresh_task run_id name) (view_tasks (w_store w) !! task_run_id run_id name).

(** [w'] has the same views as [w]. *)
Definition same_views (w w' : World S) : Prop :=
  store_ok (w_store w') ∧ view_runs (w_store w') = view_runs (w_store w) ∧
  view_tasks (w_store w') = view_tasks (w_store w) ∧ view_defs (w_store w') = view_defs (w_store w).

Lemma same_views_trans w1 w2 w3 : same_views w1 w2 → same_views w2 w3 → same_views w1 w3.
Proof. unfold same_views. intros (?&?&?&?) (?&?&?&?). split_and!; congruence. Qed.

Lemma call_neutral {A} (c : StoreCall A) w : store_ok (w_store w) → view_neutral c = true →
  ∃ w', do_call c w = (w', Val (call c (w_store w)).2) ∧ same_views w w'.
Proof.
  intros Hok Hn. unfold do_call. pose proof (rs_neutral c _ Hok Hn) as (H1&H2&H3).
  pose proof (rs_ok c _ Hok) as H4. destruct (call c (w_store w)) as [s r]. cbn in *.
  eexists. split; [reflexivity|]. done.
Qed.

Lemma load_task_val run_id name w : store_ok (w_store w) →
  ∃ w', load_task run_id name w = (w', Val (task_of w run_id name)) ∧ same_views w w'.
Proof.
  intros Hok. destruct (call_neutral (GetTaskRun (task_run_id run_id name)) w Hok eq_refl) as (w'&Hc&Hv).
  exists w'. split; [|done]. unfold load_task. rewrite (mbind_val _ _ _ _ _ Hc). unfold mret.
  pose proof (rs_get_task (task_run_id run_id name) (w_store w) Hok) as Hg. unfold task_of.
  destruct (call _ _).2; by rewrite Hg.
Qed.

Lemma put_task_run_val tr w : store_ok (w_store w) →
  ∃ w', put_task_run tr w = (w', Val tt) ∧ store_ok (w_store w') ∧
    view_tasks (w_store w') = <[tr_id tr := tr]> (view_tasks (w_store w)) ∧
    view_runs (w_store w') = view_runs (w_store w) ∧ view_defs (w_store w') = view_defs (w_store w).
Proof.
  intros Hok. unfold put_task_run, mbind, do_call. pose proof (rs_put_task tr _ Hok) as (H1&H2&H3&H4).
  pose proof (rs_ok (PutTaskRun tr) _ Hok) as H5.
  destruct (call (PutTaskRun tr) (w_store w)) as [s r]. cbn in *. subst r.
  eexists. split; [reflexivity|]. done.
Qed.

Lemma put_run_val run w : store_ok (w_store w) →
  ∃ w', put_run run w = (w', Val tt) ∧ store_ok (w_store w') ∧
    view_runs (w_store w') = <[rn_id run := run]> (view_runs (w_store w)) ∧
    view_tasks (w_store w') = view_tasks (w_store w) ∧ view_defs (w_store w') = view_defs (w_store w).
Proof.
  intros Hok. unfold put_run, mbind, do_call. pose proof (rs_put_run run _ Hok) as (H1&H2&H3&H4).
  pose proof (rs_ok (PutRun run) _ Hok) as H5.
  destruct (call (PutRun run) (w_store w)) as [s r]. cbn in *. subst r.
  eexists. split; [reflexivity|]. done.
Qed.

Lemma get_run_val id w : store_ok (w_store w) →
  ∃ w' r, do_call (GetRun id) w = (w', Val r) ∧ same_views w w' ∧
    match r with
    | Ok run => view_runs (w_store w) !! id = Some run
    | Err _ => view_runs (w_store w) !! id = None
    end.
Proof.
  intros Hok. destruct (call_neutral (GetRun id) w Hok eq_refl) as (w'&Hc&Hv).
  exists w', (call (GetRun id) (w_store w)).2. split_and!; [done..|]. by apply rs_get_run.
Qed.

(** ** Loaded states *)

Lemma fold_states (l : list TaskRun) (m : gmap string TaskStatus) n :
  (foldl (fun m t => <[tr_task_name t := tr_status t]> m) m l) !! n = None ↔
  m !! n = None ∧ ∀ t, t ∈ l → tr_task_name t ≠ n.
Proof.
  revert m. induction l as [|t l IH]; intros m; cbn [foldl]; [set_solver|].
  rewrite IH, lookup_insert_None. set_solver.
Qed.

(** Every loaded status is that of a stored record or the [Pending] of a task
    without one. *)
Lemma fold_states_Some (l : list TaskRun) (m : gmap string TaskStatus) n st :
  (foldl (fun m t => <[tr_task_name t := tr_status t]> m) m l) !! n = Some st →
  m !! n = Some st ∨ ∃ t, t ∈ l ∧ tr_task_name t = n ∧ tr_status t = st.
Proof.
  revert m. induction l as [|t l IH]; intros m; cbn [foldl]; [by left|].
  intros [Hm|(t'&?&?&?)]%IH.
  - apply lookup_insert_Some in Hm as [[<- <-]|[_ ?]]; [right|by left]. exists t. set_solver.
  - right. exists t'. set_solver.
Qed.

Lemma fold_pending (tasks : list TaskSpec) (m : gmap string TaskStatus) n :
  (foldl (fun m task => match m !! ts_name task with
     | Some _ => m | None => <[ts_name task := TaskStatus.Pending]> m end) m tasks) !! n =
  match m !! n with
  | Some st => Some st
  | None => if decide (n ∈ map ts_name tasks) then Some TaskStatus.Pending else None
  end.
Proof.
  revert m. induction tasks as [|t tasks IH]; intros m; cbn [foldl map].
  { by destruct (m !! n). }
  destruct (m !! ts_name t) as [st|] eqn:Ht; rewrite IH.
  - destruct (m !! n) eqn:Hn; [done|]. assert (n ≠ ts_name t) by congruence.
    repeat case_decide; set_solver.
  - destruct (decide (n = ts_name t)) as [->|Hne].
    + rewrite lookup_insert_eq, Ht. by rewrite decide_True by set_solver.
    + rewrite lookup_insert_ne by done. destruct (m !! n); [done|]. repeat case_decide; set_solver.
Qed.
End Views.

(** ** Well-formedness is kept *)

Section Safe.
Context {S : Type} `{RunStore S}.

(** Whatever other threads do while a handler runs, the store stays well-formed. *)
Definition keeps_ok (registry : gmap HandlerId (Handler S)) : Prop := ∀ id h ctx s,
  registry !! id = Some h → store_ok s → store_ok (h ctx s).1.

Lemma ok_framed registry rid token : keeps_ok registry → framed store_ok registry rid token.
Proof. intros Hk. split; [intros A c s _; apply rs_ok|exact Hk]. Qed.

Lemma ok_quiet_empty rid token : quiet (S := S) store_ok ∅ rid token.
Proof. apply framed_quiet, ok_framed. intros id h ctx s Hh. by rewrite lookup_empty in Hh. Qed.

Lemma safe_call {A} (c : StoreCall A) : kept store_ok (do_call c).
Proof. intros w Hw. unfold do_call. pose proof (rs_ok c _ Hw). by destruct (call c (w_store w)). Qed.

Lemma safe_load_task run_id name : kept store_ok (load_task run_id name).
Proof. apply (kept_load_task _ ∅ run_id None (ok_quiet_empty _ _)). Qed.

Lemma safe_budget_left run_id def name : kept store_ok (budget_left run_id def name).
Proof. apply (kept_budget_left _ ∅ run_id None (ok_quiet_empty _ _)). Qed.

Lemma safe_ready_now run_id def states executed : kept store_ok (ready_now run_id def states executed).
Proof. apply (kept_ready_now _ ∅ run_id None (ok_quiet_empty _ _)). Qed.

Lemma safe_loaded_states run_id def : kept store_ok (loaded_states run_id def).
Proof. apply (kept_loaded_states _ ∅ run_id None (ok_quiet_empty _ _)). Qed.

Lemma safe_poll id : kept store_ok (poll_cancelled id).
Proof. apply (kept_poll _ ∅ id None (ok_quiet_empty _ _)). Qed.

Lemma safe_persist clock run_id states l : kept store_ok (persist_skipped clock run_id states l).
Proof. apply (kept_persist _ ∅ clock run_id None (ok_quiet_empty _ _)). Qed.
End Safe.

#[export] Hint Resolve safe_call safe_load_task safe_budget_left safe_ready_now safe_loaded_states
  safe_poll safe_persist : kept.

(** ** The outcome and the stored run *)

(** How the outcome [o] of an attempt of [run] relates to the run [r] it leaves in
    the store. *)
Definition verdict (run r : Run) (o : AttemptOutcome) : Prop :=
  rn_id r = rn_id run ∧ rn_status r = ao_run_status o ∧ rn_error r = ao_error o ∧
  match ao_action o with
  | AckEntry => run_is_terminal (ao_run_status o) = true
  | ReleaseEntry t => ao_run_status o = RunStatus.Queued ∧ rn_next_attempt_at_ms r = Some t ∧
      rn_attempts r = wrap_u32 (rn_attempts run + 1)
  end.

Section Outcome.
Context {S : Type} `{RunStore S}.
Context (registry : gmap HandlerId (Handler S)) (clock : nat → Z) (seed : Z).
Context (powf : f64 → f64 → f64) (rng : Z → Z → Z).

Definition stored_verdict (run : Run) (w' : World S) (o : AttemptOutcome) : Prop :=
  ∃ r, view_runs (w_store w') !! rn_id run = Some r ∧ verdict run r o.

(** Storing the final run and returning. *)
Lemma put_run_verdict run r o (w w' : World S) o' :
  store_ok (w_store w) → (let! _ := put_run r in mret o) w = (w', Val o') →
  verdict run r o → stored_verdict run w' o'.
Proof.
  intros Hok Hrun Hv. destruct (put_run_val r w Hok) as (w1&Hp&_&Hr&_).
  rewrite (mbind_val _ _ _ _ _ Hp) in Hrun. unfold mret in Hrun. simplify_eq.
  exists r. rewrite Hr. destruct Hv as (Hid&Hv). rewrite <-Hid, lookup_insert_eq.
  split; [done|]. by split.
Qed.

(** Opens one bind of a computation known to return, keeping [store_ok]. *)
Ltac open_bind Hrun Hok :=
  let w1 := fresh "w" in let a := fresh "a" in let Hc := fresh "Hc" in
  apply mbind_inv in Hrun as (w1&a&Hc&Hrun);
  let Hok' := fresh "Hok" in
  assert (Hok' : store_ok (w_store w1)) by
    (match type of Hc with ?c ?w = _ =>
       let Hs := fresh in assert (Hs : kept store_ok c) by kept;
       specialize (Hs w Hok); rewrite Hc in Hs; exact Hs end);
  clear Hok; rename Hok' into Hok.

Lemma finalize_verdict run def states w w' o : store_ok (w_store w) →
  finalize clock seed powf rng run def states w = (w', Val o) → stored_verdict run w' o.
Proof.
  intros Hok Hrun. unfold finalize in Hrun. destruct (forallb _ _); cbn [negb] in Hrun; [|done].
  destruct (existsb _ _); cbn [negb] in Hrun.
  - open_bind Hrun Hok. open_bind Hrun Hok. destruct (_ && _).
    + open_bind Hrun Hok. open_bind Hrun Hok. open_bind Hrun Hok.
      destruct (next_attempt_at_ms _ _ _ _ _ _ _) as [planned|]; [|done].
      open_bind Hrun Hok. eapply put_run_verdict; [done|exact Hrun|by repeat split].
    + open_bind Hrun Hok. open_bind Hrun Hok. eapply put_run_verdict; [done|exact Hrun|by repeat split].
  - open_bind Hrun Hok. open_bind Hrun Hok. eapply put_run_verdict; [done|exact Hrun|by repeat split].
Qed.

Lemma time_out_verdict run_id run w w' o : store_ok (w_store w) →
  time_out clock run_id run w = (w', Val o) → stored_verdict run w' o.
Proof.
  intros Hok Hrun. unfold time_out in Hrun. open_bind Hrun Hok. open_bind Hrun Hok.
  eapply put_run_verdict; [done|exact Hrun|by repeat split].
Qed.

(** The early return of a cancelled run leaves the record it read. *)
Definition cancel_verdict (run_id : RunId) (w' : World S) (o : AttemptOutcome) : Prop :=
  ∃ r, view_runs (w_store w') !! run_id = Some r ∧ rn_status r = RunStatus.Cancelled ∧
    ao_run_status o = RunStatus.Cancelled ∧ rn_error r = ao_error o ∧ ao_action o = AckEntry.

Lemma poll_cancel_verdict run_id w w' o : store_ok (w_store w) →
  poll_cancelled run_id w = (w', Val (Some o)) → cancel_verdict run_id w' o.
Proof.
  intros Hok Hrun. unfold poll_cancelled in Hrun.
  destruct (get_run_val run_id w Hok) as (w1&r&Hg&(_&Hv&_)&Hr). rewrite (mbind_val _ _ _ _ _ Hg) in Hrun.
  destruct r as [cur|]; [|done]. case_bool_decide as Hc; [|done].
  unfold mbind, mret in Hrun. cbn in Hrun. simplify_eq. exists cur. cbn. by rewrite Hv.
Qed.

Context (Hkeep : keeps_ok registry).
Context (run_id : RunId) (run : Run) (def : WorkflowDef) (token : option ClaimToken) (lease_ms : Z).

Lemma attempt_loop_verdict fuel : ∀ states executed w w' o, store_ok (w_store w) →
  attempt_loop registry clock fuel run_id run def token lease_ms states executed w = (w', Val (inl o)) →
  cancel_verdict run_id w' o.
Proof.
  induction fuel as [|fuel IH]; intros states executed w w' o Hok Hrun; cbn [attempt_loop] in Hrun; [done|].
  apply mbind_inv in Hrun as (w1&early&Hp&Hrun). pose proof (safe_poll run_id w Hok) as Hok1.
  rewrite Hp in Hok1. destruct early as [o'|].
  - unfold mret in Hrun. simplify_eq. exact (poll_cancel_verdict _ _ _ _ Hok Hp).
  - cbn in Hok1. open_bind Hrun Hok1. destruct a as [|n ready]; [done|].
    apply mbind_inv in Hrun as (w2&[st ex]&He&Hrun). eapply IH; [|exact Hrun].
    pose proof (kept_execute_ready store_ok registry clock (rn_id run) token lease_ms
      (framed_quiet _ _ _ _ (ok_framed _ _ _ Hkeep)) run def eq_refl run_id (n :: ready) states executed _ Hok1) as Hs.
    by rewrite He in Hs.
Qed.

Lemma attempt_tasks_verdict w w' o : store_ok (w_store w) →
  attempt_tasks registry clock seed powf rng run_id run def token lease_ms w = (w', Val o) →
  stored_verdict run w' o ∨ cancel_verdict run_id w' o.
Proof.
  intros Hok Hrun. unfold attempt_tasks in Hrun. open_bind Hrun Hok. open_bind Hrun Hok.
  apply mbind_inv in Hrun as (w3&exit&Hl&Hrun).
  pose proof (kept_attempt_loop store_ok registry clock (rn_id run) token lease_ms
    (framed_quiet _ _ _ _ (ok_framed _ _ _ Hkeep)) run def eq_refl run_id (Datatypes.S (length (wd_tasks def))) a ∅ _ Hok) as Hok3. rewrite Hl in Hok3. cbn in Hok3.
  destruct exit as [o'|st].
  - unfold mret in Hrun. simplify_eq. right. exact (attempt_loop_verdict _ _ _ _ _ _ Hok Hl).
  - left. destruct (pending_to_skip _ st) as [next|]; [|done].
    open_bind Hrun Hok3. exact (finalize_verdict _ _ _ _ _ _ Hok3 Hrun).
Qed.
End Outcome.

(** ** Properties *)

(** C4. Whatever the handlers do to other records, an attempt that returns has
    told the store the same story it tells the worker: the run stored under the id
    carries the returned status and error, an acknowledged entry belongs to a run in
    a terminal status, and a released entry to a run that is [Queued] again with its
    attempt counted and the release instant stored as its next attempt. *)
Theorem attempt_outcome {S} `{RunStore S} registry clock seed powf rng run token lease_ms (w w' : World S) o :
  keeps_ok registry → store_ok (w_store w) → view_runs (w_store w) !! rn_id run = Some run →
  attempt_with_token registry clock seed powf rng (rn_id run) token lease_ms w = (w', Val o) →
  ∃ r, view_runs (w_store w') !! rn_id run = Some r ∧
    rn_status r = ao_run_status o ∧ rn_error r = ao_error o ∧
    match ao_action o with
    | AckEntry => run_is_terminal (ao_run_status o) = true
    | ReleaseEntry t => ao_run_status o = RunStatus.Queued ∧ rn_next_attempt_at_ms r = Some t ∧
        rn_attempts r = wrap_u32 (rn_attempts run + 1)
    end.
Proof.
  intros Hkeep Hok Hrun Ha. unfold attempt_with_token in Ha.
  destruct (get_run_val (rn_id run) w Hok) as (w1&r1&Hg&(Hok1&Hr1&_&_)&Hr).
  rewrite (mbind_val _ _ _ _ _ Hg) in Ha. rewrite Hrun in Hr. destruct r1 as [run1|]; simplify_eq.
  rewrite (mbind_val _ _ w1 w1 run1 eq_refl) in Ha.
  destruct (call_neutral (GetWorkflow (rn_tenant run1) (rn_def_name run1)) w1 Hok1 eq_refl)
    as (w2&Hc&(Hok2&Hr2&_)).
  rewrite (mbind_val _ _ _ _ _ Hc) in Ha.
  apply mbind_inv in Ha as (w3&rec&Hrec&Ha).
  assert (w3 = w2) as -> by (unfold or_throw in Hrec; destruct (call _ _).2; [by injection Hrec|done]).
  assert (Hsum : stored_verdict run1 w' o ∨ cancel_verdict (rn_id run1) w' o).
  { case_bool_decide as Hst; cbn [negb] in Ha.
    - apply mbind_inv in Ha as (w4&late&Hd&Ha).
      assert (Hok4 : store_ok (w_store w4)).
      { unfold deadline_passed in Hd. destruct (rn_deadline_at_ms run1); [|by injection Hd as <-].
        apply mbind_inv in Hd as (w5&?&Hn&Hd). injection Hd as <- _. by injection Hn as <-. }
      destruct late; [left; exact (time_out_verdict _ _ _ _ _ _ Hok4 Ha)|].
      exact (attempt_tasks_verdict _ _ _ _ _ Hkeep _ _ _ _ _ _ _ _ Hok4 Ha).
    - case_bool_decide as Hcan; [|done]. unfold mret in Ha. simplify_eq. right.
      exists run1. rewrite Hr2, Hr1. by repeat split. }
  destruct Hsum as [(r&Hl&Hid&Hst&He&Hact)|(r&Hl&Hst&Ho&He&Hact)].
  - by exists r.
  - exists r. rewrite Ho, Hact. by repeat split.
Qed.

Lemma noop_keeps_ok {S} `{RunStore S} : keeps_ok (S := S) noop_registry.
Proof. intros id h ctx s Hh Hok. unfold noop_registry in Hh. by apply lookup_singleton_Some in Hh as [_ <-]. Qed.

Lemma attempt_outcome_witness :
  ∃ r, view_runs (w_store (attempt_with_token noop_registry (fun n => Z.of_nat n) 0 (fun x _ => x)
    (fun _ u => u) "rn_0" None 1000 (world0 running_store)).1) !! "rn_0"%string = Some r ∧
    rn_status r = RunStatus.Succeeded.
Proof.
  destruct (attempt_outcome noop_registry (fun n => Z.of_nat n) 0 (fun x _ => x) (fun _ u => u)
    (run_set_status RunStatus.Running sample_run) None 1000 (world0 running_store)
    (attempt_with_token noop_registry (fun n => Z.of_nat n) 0 (fun x _ => x)
      (fun _ u => u) "rn_0" None 1000 (world0 running_store)).1
    {| ao_run_status := RunStatus.Succeeded; ao_failed_tasks := []; ao_action := AckEntry; ao_error := None |})
    as (r&Hr&Hs&_).
  - apply noop_keeps_ok.
  - apply mem_run_calls_wf, mem_new_wf.
  - vm_compute. reflexivity.
  - vm_compute. reflexivity.
  - exists r. split; [exact Hr|exact Hs].
Defined.
