(* ===== verification/ExecutorSuccess.v ===== *)
(** * A valid definition runs to success

    For every store that satisfies [RunStore]: a fresh run of a definition with a
    resolvable acyclic graph, all of whose handlers are registered and succeed,
    is driven to [Succeeded] by one attempt that calls each handler exactly once. *)
From S2P Require Import Prelude RustStrings Ids Status Errors StateMachine Float64 Json RetryPolicy.
From S2P Require Import Workflow Dag Store MemoryStore LruStore StoreLaws Pick Executor.
From S2P Require Import ExecutorLogic ExecutorOrder ExecutorOutcome.
Local Open Scope Z_scope.

(** A store with a running run of the diamond of [Dag.diamond]. *)
Definition diamond_run : Run := run_set_status RunStatus.Running sample_run.

Definition diamond_store : MemoryState :=
  run_calls [Any (PutWorkflow (def_with diamond)); Any (PutRun diamond_run)] mem_new.

(** Other threads left run [rid] and its tasks alone. *)
Definition undisturbed {S} `{RunStore S} (rid : RunId) (s s' : S) : Prop :=
  store_ok s' ∧ view_runs s' !! rid = view_runs s !! rid ∧
  ∀ n, view_tasks s' !! task_run_id rid n = view_tasks s !! task_run_id rid n.

(** The handlers the definition names are registered and succeed, and nobody
    touches the run meanwhile. *)
Definition all_succeed {S} `{RunStore S} (registry : gmap HandlerId (Handler S)) (def : WorkflowDef)
    (rid : RunId) : Prop :=
  ∀ t, t ∈ wd_tasks def → ∃ h, registry !! ts_handler t = Some h ∧
    ∀ ctx s, store_ok s → undisturbed rid s (h ctx s).1 ∧ ∃ out, (h ctx s).2 = Returned (Ok out).

(** No task of the run has been recorded yet. *)
Definition fresh_run {S} `{RunStore S} (rid : RunId) (s : S) : Prop :=
  (∀ k t, view_tasks s !! k = Some t → tr_run_id t ≠ rid) ∧
  ∀ n, view_tasks s !! task_run_id rid n = None.

(** The record of a task that succeeded at its first attempt. *)
Definition done_task (rid : RunId) (n : string) (tr : TaskRun) : Prop :=
  tr_id tr = task_run_id rid n ∧ tr_run_id tr = rid ∧ tr_task_name tr = n ∧
  tr_status tr = TaskStatus.Succeeded ∧ tr_attempts tr = 1 ∧ is_Some (tr_output tr).

Section Success.
Context {S : Type} `{RunStore S}.
Context (registry : gmap HandlerId (Handler S)) (clock : nat → Z) (seed : Z).
Context (powf : f64 → f64 → f64) (rng : Z → Z → Z).
Context (run : Run) (def : WorkflowDef) (token : option ClaimToken) (lease_ms : Z).
Context (Hhandlers : all_succeed registry def (rn_id run)).
Context (Hrunning : rn_status run = RunStatus.Running).

Abbreviation rid := (rn_id run).

Lemma heartbeat_val (w : World S) : store_ok (w_store w) →
  ∃ w', heartbeat clock rid token lease_ms w = (w', Val tt) ∧ same_views w w'.
Proof.
  intros Hok. destruct token as [t|]; cbn [heartbeat]; [|by exists w].
  set (w1 := (now_ms clock w).1). rewrite (mbind_val _ _ w w1 (clock (w_reads w)) eq_refl).
  destruct (call_neutral (RenewLease rid t (clock (w_reads w)) lease_ms) w1 Hok eq_refl) as (w2&Hc&Hv).
  rewrite (mbind_val _ _ _ _ _ Hc). by exists w2.
Qed.

Lemma find_task_in name t : find_task def name = Some t → t ∈ wd_tasks def ∧ ts_name t = name.
Proof.
  intros Hf. apply find_some in Hf as [Hin Hn]. apply list_elem_of_In in Hin.
  by apply bool_decide_eq_true in Hn.
Qed.

(** The bookkeeping after a successful handler call. *)
Lemma record_success name out (w : World S) : store_ok (w_store w) →
  TaskFsm.task_is_legal (tr_status (task_of w rid name)) TaskStatus.Succeeded = true →
  ∃ w' now, record_result clock rid name (Ok out) w = (w', Val TaskStatus.Succeeded) ∧
    store_ok (w_store w') ∧ view_runs (w_store w') = view_runs (w_store w) ∧
    let tr := task_set_output (Some out) (task_set_finished_at_ms (Some now)
      (task_set_status TaskStatus.Succeeded (task_of w rid name))) in
    view_tasks (w_store w') = <[tr_id tr := tr]> (view_tasks (w_store w)).
Proof.
  intros Hok Hlegal. unfold record_result.
  destruct (load_task_val rid name w Hok) as (w1&Hl&(Hok1&Hr1&Ht1&_)). rewrite (mbind_val _ _ _ _ _ Hl).
  rewrite Hlegal. cbn [negb].
  set (w2 := (now_ms clock w1).1). rewrite (mbind_val _ _ w1 w2 (clock (w_reads w1)) eq_refl).
  set (tr := task_set_output _ _).
  destruct (put_task_run_val tr w2 Hok1) as (w3&Hp&Hok3&Ht3&Hr3&_). rewrite (mbind_val _ _ _ _ _ Hp).
  exists w3, (clock (w_reads w1)). split; [done|]. split; [done|].
  split; [by rewrite Hr3|]. cbn zeta. fold tr. rewrite Ht3. cbn. by rewrite Ht1.
Qed.

Lemma run_handler_success t ctx name (w : World S) : t ∈ wd_tasks def → store_ok (w_store w) →
  ∃ w' out, run_handler registry (ts_handler t) name ctx w = (w', Val (Ok out)) ∧
    undisturbed rid (w_store w) (w_store w').
Proof.
  intros Hin Hok. destruct (Hhandlers t Hin) as (h&Hh&Hsucc).
  destruct (Hsucc ctx (w_store w) Hok) as [Hu [out Hout]]. unfold run_handler.
  rewrite Hh.
  destruct (h ctx (w_store w)) as [s o]. cbn in Hu, Hout. subst o. by eexists _, out.
Qed.

Lemma execute_task_success name t (w : World S) :
  find_task def name = Some t → store_ok (w_store w) →
  view_runs (w_store w) !! rid = Some run → view_tasks (w_store w) !! task_run_id rid name = None →
  ∃ w', execute_task registry clock rid run def token lease_ms name w = (w', Val TaskStatus.Succeeded) ∧
    store_ok (w_store w') ∧ view_runs (w_store w') !! rid = Some run ∧
    (∀ m, m ≠ name → view_tasks (w_store w') !! task_run_id rid m = view_tasks (w_store w) !! task_run_id rid m) ∧
    ∃ tr, view_tasks (w_store w') !! task_run_id rid name = Some tr ∧ done_task rid name tr.
Proof.
  intros Hf Hok Hrun Hnone. unfold execute_task. rewrite Hf. apply find_task_in in Hf as [Hin _].
  destruct (heartbeat_val w Hok) as (w1&Hh&(Hok1&Hr1&Ht1&_)). rewrite (mbind_val _ _ _ _ _ Hh).
  destruct (load_task_val rid name w1 Hok1) as (w2&Hl&(Hok2&Hr2&Ht2&_)). rewrite (mbind_val _ _ _ _ _ Hl).
  assert (Htask : task_of w1 rid name = fresh_task rid name) by (unfold task_of; by rewrite Ht1, Hnone).
  rewrite Htask. set (w3 := (now_ms clock w2).1). rewrite (mbind_val _ _ w2 w3 (clock (w_reads w2)) eq_refl).
  set (tr := task_set_started_at_ms _ _).
  destruct (put_task_run_val tr w3 Hok2) as (w4&Hp&Hok4&Ht4&Hr4&_). rewrite (mbind_val _ _ _ _ _ Hp).
  rewrite (mbind_val _ _ w4 w4 (w_cancel w4) eq_refl).
  set (ctx := {| tc_tenant := _ |}).
  destruct (run_handler_success t ctx name w4 Hin Hok4) as (w5&out&Hh'&(Hok5&Hr5&Ht5)).
  rewrite (mbind_val _ _ _ _ _ Hh').
  assert (Hcur : task_of w5 rid name = tr).
  { unfold task_of. rewrite Ht5, Ht4. cbn. by rewrite lookup_insert_eq. }
  destruct (record_success name out w5 Hok5) as (w6&now&Hrec&Hok6&Hr6&Ht6); [by rewrite Hcur|].
  rewrite Hcur in Ht6. exists w6. split; [done|]. split; [done|]. split; [|split].
  - rewrite Hr6, Hr5, Hr4. cbn. by rewrite Hr2, Hr1.
  - intros m Hm. assert (Hne : task_run_id rid name ≠ task_run_id rid m)
      by (intros Heq; apply Hm; by apply task_run_id_name in Heq).
    rewrite Ht6. cbn. rewrite lookup_insert_ne by done. rewrite Ht5, Ht4. cbn.
    rewrite lookup_insert_ne by done. by rewrite Ht2, Ht1.
  - rewrite Ht6. cbn. rewrite lookup_insert_eq. eexists. split; [reflexivity|]. repeat split. by eexists.
Qed.
(** While every executed task has succeeded and the others are untouched. *)
Record success_inv (states : gmap string TaskStatus) (executed : gset string) (w : World S) : Prop := {
  si_ok : store_ok (w_store w);
  si_run : view_runs (w_store w) !! rid = Some run;
  si_names : executed ⊆ task_names def;
  si_done : ∀ n, n ∈ executed → states !! n = Some TaskStatus.Succeeded ∧
    ∃ tr, view_tasks (w_store w) !! task_run_id rid n = Some tr ∧ done_task rid n tr;
  si_new : ∀ n, n ∉ executed → view_tasks (w_store w) !! task_run_id rid n = None ∧
    states !! n = if decide (n ∈ task_names def) then Some TaskStatus.Pending else None
}.

Lemma success_inv_views states executed (w w' : World S) :
  same_views w w' → success_inv states executed w → success_inv states executed w'.
Proof. intros (Hok&Hr&Ht&_) []. split; rewrite ?Hr, ?Ht; done. Qed.

Lemma execute_ready_success ready : ∀ states executed (w : World S),
  success_inv states executed w → NoDup ready → (∀ n, n ∈ ready → n ∈ task_names def ∧ n ∉ executed) →
  ∃ w' states', execute_ready registry clock rid run def token lease_ms ready states executed w
      = (w', Val (states', list_to_set ready ∪ executed)) ∧
    success_inv states' (list_to_set ready ∪ executed) w'.
Proof.
  induction ready as [|name ready IH]; intros states executed w Hinv Hnd Hin; cbn [execute_ready].
  { exists w, states. cbn. by rewrite union_empty_l_L. }
  apply NoDup_cons in Hnd as [Hfresh Hnd]. destruct (Hin name) as [Hname Hnew]; [set_solver|].
  destruct (find_task_name def name Hname) as [t Ht].
  destruct (execute_task_success name t w Ht (si_ok _ _ _ Hinv) (si_run _ _ _ Hinv))
    as (w1&He&Hok1&Hrun1&Hothers&Hdone); [by apply Hinv|].
  rewrite (mbind_val _ _ _ _ _ He).
  destruct (IH (<[name := TaskStatus.Succeeded]> states) ({[name]} ∪ executed) w1) as (w2&states'&H2&Hinv2).
  - split; [done|done| | |].
    + pose proof (si_names _ _ _ Hinv). set_solver.
    + intros n Hn. destruct (decide (n = name)) as [->|Hne]; [by rewrite lookup_insert_eq|].
      rewrite lookup_insert_ne, Hothers by done. apply Hinv. set_solver.
    + intros n Hn. rewrite lookup_insert_ne by set_solver. rewrite Hothers by set_solver.
      apply Hinv. set_solver.
  - done.
  - intros n Hn. split; [apply Hin; set_solver|]. destruct (Hin n) as [_ ?]; set_solver.
  - assert (Heq : list_to_set (name :: ready) ∪ executed = list_to_set ready ∪ ({[name]} ∪ executed))
      by set_solver.
    exists w2, states'. by rewrite Heq.
Qed.

Lemma filterM_total (p : string → M S bool) l :
  (∀ x w, store_ok (w_store w) → ∃ w' b, p x w = (w', Val b) ∧ same_views w w') →
  ∀ w, store_ok (w_store w) → ∃ w' l', filterM p l w = (w', Val l') ∧ same_views w w'.
Proof.
  intros Hp. induction l as [|x l IH]; intros w Hok; cbn [filterM]; [by eexists w, []|].
  destruct (Hp x w Hok) as (w1&b&H1&Hv1). rewrite (mbind_val _ _ _ _ _ H1).
  destruct (IH w1) as (w2&l2&H2&Hv2); [apply Hv1|]. rewrite (mbind_val _ _ _ _ _ H2).
  eexists w2, _. split; [reflexivity|]. by eapply same_views_trans.
Qed.

Lemma ready_now_total states executed (w : World S) : store_ok (w_store w) →
  ∃ w' ready, ready_now rid def states executed w = (w', Val ready) ∧ same_views w w'.
Proof.
  apply filterM_total. intros name w0 Hok. case_bool_decide; [by eexists w0, _|].
  case_bool_decide; cbn [negb]; [|by eexists w0, _]. unfold budget_left.
  destruct (load_task_val rid name w0 Hok) as (w1&Hl&Hv). rewrite (mbind_val _ _ _ _ _ Hl).
  by eexists w1, _.
Qed.

Lemma poll_running (w : World S) : store_ok (w_store w) → view_runs (w_store w) !! rid = Some run →
  ∃ w', poll_cancelled rid w = (w', Val None) ∧ same_views w w'.
Proof.
  intros Hok Hrun. unfold poll_cancelled.
  destruct (get_run_val rid w Hok) as (w1&r&Hg&Hv&Hr). rewrite (mbind_val _ _ _ _ _ Hg).
  rewrite Hrun in Hr. destruct r; simplify_eq. rewrite Hrunning. by exists w1.
Qed.

Lemma attempt_loop_success fuel : ∀ states executed (w : World S),
  NoDup (map ts_name (wd_tasks def)) → success_inv states executed w →
  (size (task_names def ∖ executed) < fuel)%nat →
  ∃ w' states' executed',
    attempt_loop registry clock fuel rid run def token lease_ms states executed w = (w', Val (inr states')) ∧
    success_inv states' executed' w' ∧
    ∀ n, n ∈ ready_tasks (wd_tasks def) states' → n ∈ executed'.
Proof.
  induction fuel as [|fuel IH]; intros states executed w Hnd Hinv Hf; [lia|]. cbn [attempt_loop].
  destruct (poll_running w (si_ok _ _ _ Hinv) (si_run _ _ _ Hinv)) as (w1&Hp&Hv1).
  rewrite (mbind_val _ _ _ _ _ Hp). apply (success_inv_views _ _ _ _ Hv1) in Hinv.
  destruct (ready_now_total states executed w1 (si_ok _ _ _ Hinv)) as (w2&ready&Hr&Hv2).
  rewrite (mbind_val _ _ _ _ _ Hr). apply (success_inv_views _ _ _ _ Hv2) in Hinv.
  apply ready_now_val in Hr as (Hnd'&Hready&Hrest). specialize (Hnd' Hnd).
  assert (Hnofail : ∀ n, states !! n ≠ Some TaskStatus.Failed).
  { intros n. destruct (decide (n ∈ executed)) as [Hn|Hn].
    - destruct (si_done _ _ _ Hinv n Hn) as [-> _]. done.
    - destruct (si_new _ _ _ Hinv n Hn) as [_ ->]. by case_decide. }
  destruct ready as [|r0 ready].
  { exists w2, states, executed. split; [done|]. split; [done|]. intros n Hn.
    destruct (Hrest n Hn) as [?|Hx]; [set_solver|done|by apply Hnofail in Hx]. }
  destruct (execute_ready_success (r0 :: ready) states executed w2 Hinv Hnd') as (w3&states3&He&Hinv3).
  { intros n Hn. destruct (Hready n Hn) as [Hel ?]. split; [|done].
    apply ready_tasks_elem in Hel as (t&Ht&<-&_). unfold task_names.
    apply elem_of_list_to_set, list_elem_of_In, in_map, list_elem_of_In, Ht. }
  rewrite (mbind_val _ _ _ _ _ He). cbn beta iota. apply IH; [done|done|].
  assert (r0 ∉ executed) by (apply Hready; set_solver).
  assert (r0 ∈ task_names def) by (apply (si_names _ _ _ Hinv3); set_solver).
  enough (task_names def ∖ (list_to_set (r0 :: ready) ∪ executed) ⊂ task_names def ∖ executed) as Hs
    by (apply subset_size in Hs; lia).
  set_solver.
Qed.
(** With a topological order of the tasks, the loop stops only once it ran them all. *)
Lemma all_executed l states executed (w : World S) :
  topo_order (wd_tasks def) = Ok l → success_inv states executed w →
  (∀ n, n ∈ ready_tasks (wd_tasks def) states → n ∈ executed) → executed = task_names def.
Proof.
  intros (Hnd&Hin&Hprec)%topo_order_spec Hinv Hready.
  assert (Hall : ∀ (i : nat) n, l !! i = Some n → n ∈ executed).
  { intros i. induction (lt_wf i) as [i _ IH]. intros n Hi. destruct (decide (n ∈ executed)) as [|Hn]; [done|].
    destruct (proj1 (Hin n)) as (t&Ht&Hname); [by eapply list_elem_of_lookup_2|].
    destruct (si_new _ _ _ Hinv n Hn) as [_ Hst]. rewrite decide_True in Hst.
    2: { subst n. apply elem_of_list_to_set, list_elem_of_In, in_map, list_elem_of_In, Ht. }
    apply Hready, ready_tasks_elem. exists t. split; [done|]. split; [done|]. right.
    split; [unfold status_of; by rewrite Hst|]. apply Forall_forall. intros d Hd.
    destruct (Hprec n d) as (j&k&Hjk&Hj&Hk); [by exists t|].
    assert (k = i) as -> by (eapply NoDup_lookup; eauto).
    by apply (si_done _ _ _ Hinv d), (IH j Hjk). }
  apply set_eq. intros n. split; [apply Hinv|]. intros Hn.
  apply elem_of_list_to_set, list_elem_of_In, in_map_iff in Hn as (t&Hname&Ht%list_elem_of_In).
  destruct (proj1 (list_elem_of_lookup l n)) as [i Hi]; [apply Hin; by exists t|]. by apply (Hall i).
Qed.

Lemma persist_nothing states (w : World S) l :
  (∀ n st, (n, st) ∈ l → st ≠ TaskStatus.Skipped) →
  persist_skipped clock rid states l w = (w, Val tt).
Proof.
  induction l as [|[n st] l IH]; intros Hl; cbn [persist_skipped]; [done|].
  rewrite bool_decide_false by (eapply Hl; left). cbn [andb].
  rewrite (mbind_val _ _ w w tt eq_refl). apply IH. intros m st' Hm. apply (Hl m). by right.
Qed.

Definition success_outcome : AttemptOutcome :=
  {| ao_run_status := RunStatus.Succeeded; ao_failed_tasks := []; ao_action := AckEntry; ao_error := None |}.

Lemma finalize_success states (w : World S) : store_ok (w_store w) →
  (∀ n st, states !! n = Some st → st = TaskStatus.Succeeded) →
  ∃ w' now, finalize clock seed powf rng run def states w = (w', Val success_outcome) ∧
    view_tasks (w_store w') = view_tasks (w_store w) ∧
    view_runs (w_store w') !! rid = Some (run_set_error None
      (run_set_finished_at_ms (Some now) (run_set_status RunStatus.Succeeded run))).
Proof.
  intros Hok Hst. unfold finalize.
  assert (Hterm : forallb (fun kv => task_is_terminal kv.2) (bt_iter states) = true).
  { apply forallb_forall. intros [n st] Hin%list_elem_of_In%bt_iter_elem. by rewrite (Hst n st Hin). }
  assert (Hfail : existsb (fun kv => bool_decide (kv.2 = TaskStatus.Failed)) (bt_iter states) = false).
  { apply not_true_is_false. rewrite existsb_exists. intros ([n st]&Hin%list_elem_of_In%bt_iter_elem&Hf).
    by rewrite (Hst n st Hin) in Hf. }
  rewrite Hterm, Hfail, Hrunning. cbn [negb].
  rewrite (mbind_val _ _ w w tt eq_refl).
  set (w1 := (now_ms clock w).1). rewrite (mbind_val _ _ w w1 (clock (w_reads w)) eq_refl).
  set (r := run_set_error _ _).
  destruct (put_run_val r w1 Hok) as (w2&Hp&_&Hr&Ht&_). rewrite (mbind_val _ _ _ _ _ Hp).
  exists w2, (clock (w_reads w)). split; [done|]. split; [by rewrite Ht|].
  rewrite Hr. apply lookup_insert_eq.
Qed.

Lemma loaded_fresh (w : World S) : store_ok (w_store w) → view_runs (w_store w) !! rid = Some run →
  fresh_run rid (w_store w) →
  ∃ w' states, loaded_states rid def w = (w', Val states) ∧ success_inv states ∅ w'.
Proof.
  intros Hok Hrun [Hnone Hkeys]. unfold loaded_states.
  destruct (call_neutral (ListTaskRunsForRun rid) w Hok eq_refl) as (w1&Hc&Hv).
  rewrite (mbind_val _ _ _ _ _ Hc). destruct (rs_list_tasks rid (w_store w) Hok) as (l&Hl&Hin).
  rewrite Hl. eexists w1, _. split; [reflexivity|].
  destruct l as [|t l].
  2: { destruct (proj1 (Hin t)) as (k&Hk&Hid); [left|]. by apply Hnone in Hk. }
  destruct Hv as (Hok1&Hr&Ht&_). split; [done|by rewrite Hr|set_solver|set_solver|].
  intros n _. rewrite Ht, fold_pending. split; [done|]. cbn. unfold task_names.
  apply decide_ext. by rewrite elem_of_list_to_set.
Qed.
(** Every name of the definition is called, when the states all end [Succeeded]. *)
Lemma loop_calls states0 states executed (w : World S) :
  loop_inv def states0 states executed w → NoDup (map ts_name (wd_tasks def)) →
  (∀ n, states0 !! n ≠ Some TaskStatus.Succeeded) →
  (∀ n, n ∈ task_names def → states !! n = Some TaskStatus.Succeeded) →
  map call_name (w_log w) ≡ₚ map ts_name (wd_tasks def).
Proof.
  intros Hinv Hnd Hnone Hall. apply NoDup_Permutation; [apply Hinv|done|]. intros n.
  assert (Hname : n ∈ map ts_name (wd_tasks def) ↔ n ∈ task_names def) by (symmetry; apply elem_of_list_to_set).
  rewrite Hname. split.
  - intros (c&->&Hc)%list_elem_of_fmap. by apply (lo_names _ _ _ (li_log _ _ _ _ _ Hinv)).
  - intros Hn. destruct (li_succ _ _ _ _ _ Hinv n (Hall n Hn)) as [Hs|(c&Hc&<-&_)]; [by apply Hnone in Hs|].
    apply list_elem_of_fmap. by exists c.
Qed.

Lemma attempt_tasks_success l (w : World S) : store_ok (w_store w) →
  view_runs (w_store w) !! rid = Some run → fresh_run rid (w_store w) → w_log w = [] →
  NoDup (map ts_name (wd_tasks def)) → topo_order (wd_tasks def) = Ok l →
  ∃ w' now, attempt_tasks registry clock seed powf rng rid run def token lease_ms w = (w', Val success_outcome) ∧
    view_runs (w_store w') !! rid = Some (run_set_error None
      (run_set_finished_at_ms (Some now) (run_set_status RunStatus.Succeeded run))) ∧
    (∀ n, n ∈ task_names def →
      ∃ tr, view_tasks (w_store w') !! task_run_id rid n = Some tr ∧ done_task rid n tr) ∧
    map call_name (w_log w') ≡ₚ map ts_name (wd_tasks def).
Proof.
  intros Hok Hrun Hfresh Hlog Hnd Htopo.
  destruct (loaded_fresh w Hok Hrun Hfresh) as (w1&states0&Hls&Hinv1).
  destruct (attempt_loop_success (Datatypes.S (length (wd_tasks def))) states0 ∅ (cancel_token_new w1).1 Hnd)
    as (w3&states&executed&Hloop&Hinv&Hready).
  { destruct Hinv1. by split. }
  { rewrite difference_empty_L. pose proof (task_names_size def). lia. }
  pose proof (all_executed _ _ _ _ Htopo Hinv Hready) as ->.
  destruct (pending_to_skip_spec (wd_tasks def) states) as (next&Hskip&Hnext).
  assert (Hsucc : ∀ n st, next !! n = Some st → st = TaskStatus.Succeeded).
  { intros n st. rewrite Hnext. unfold skipped_states.
    destruct (decide (n ∈ task_names def)) as [Hn|Hn].
    - destruct (si_done _ _ _ Hinv n Hn) as [Hs _]. rewrite decide_False; [congruence|].
      unfold status_of. rewrite Hs. naive_solver.
    - destruct (si_new _ _ _ Hinv n Hn) as [_ Hs]. rewrite decide_False in Hs by done.
      rewrite decide_False; [congruence|]. intros [_ (t&Ht&<-&_)]. destruct Hn.
      apply elem_of_list_to_set, list_elem_of_In, in_map, list_elem_of_In, Ht. }
  destruct (finalize_success next w3 (si_ok _ _ _ Hinv) Hsucc) as (w4&now&Hfin&Ht4&Hr4).
  assert (Hall : attempt_tasks registry clock seed powf rng rid run def token lease_ms w
    = (w4, Val success_outcome)).
  { unfold attempt_tasks. rewrite (mbind_val _ _ _ _ _ Hls).
    rewrite (mbind_val _ _ w1 (cancel_token_new w1).1 tt eq_refl), (mbind_val _ _ _ _ _ Hloop), Hskip.
    rewrite (mbind_val _ _ w3 w3 tt); [done|]. apply persist_nothing.
    intros n st Hin%bt_iter_elem. by rewrite (Hsucc n st Hin). }
  exists w4, now. split; [done|]. split; [done|]. split.
  { intros n Hn. rewrite Ht4. by apply Hinv. }
  pose proof (finalize_log clock seed powf rng run def next w3) as Hl4. rewrite Hfin in Hl4. cbn in Hl4.
  rewrite Hl4. destruct (attempt_tasks_start _ _ _ _ _ _ _ _ _ _ _ _ _ Hnd Hlog Hall)
    as (w1'&states0'&w3'&exit&Hls'&Hloop'&Hpost&_).
  rewrite Hls in Hls'. simplify_eq. rewrite Hloop in Hloop'. simplify_eq.
  destruct Hpost as (ex&Hli&_). apply (loop_calls _ _ _ _ Hli Hnd).
  - intros n. destruct (si_new _ _ _ Hinv1 n) as [_ ->]; [set_solver|]. by case_decide.
  - intros n Hn. by apply Hinv.
Qed.
End Success.

(** One attempt, from the run record to the stored success. *)
Lemma attempt_succeeds {S} `{RunStore S} registry clock seed powf rng run rec token lease_ms l (s : S) :
  all_succeed registry (wr_def rec) (rn_id run) →
  store_ok s → view_runs s !! rn_id run = Some run → rn_status run = RunStatus.Running →
  view_defs s !! (rn_tenant run, rn_def_name run) = Some rec → fresh_run (rn_id run) s →
  match rn_deadline_at_ms run with Some d => clock 0%nat ≤ d | None => True end →
  NoDup (map ts_name (wd_tasks (wr_def rec))) → topo_order (wd_tasks (wr_def rec)) = Ok l →
  ∃ w' r, attempt_with_token registry clock seed powf rng (rn_id run) token lease_ms (world0 s)
      = (w', Val success_outcome) ∧
    view_runs (w_store w') !! rn_id run = Some r ∧ rn_status r = RunStatus.Succeeded ∧
    is_Some (rn_finished_at_ms r) ∧ rn_error r = None ∧
    (∀ n, n ∈ task_names (wr_def rec) → ∃ tr,
      view_tasks (w_store w') !! task_run_id (rn_id run) n = Some tr ∧ done_task (rn_id run) n tr) ∧
    map call_name (w_log w') ≡ₚ map ts_name (wd_tasks (wr_def rec)).
Proof.
  intros Hh Hok Hrun Hst Hdef Hfresh Hdead Hnd Htopo. unfold attempt_with_token.
  destruct (get_run_val (rn_id run) (world0 s) Hok) as (w1&r1&Hg&(Hok1&Hr1&Ht1&Hd1)&Hr).
  assert (Hw1 : w_log w1 = [] ∧ w_reads w1 = 0%nat) by (unfold do_call in Hg; destruct (call _ _); by simplify_eq).
  rewrite (mbind_val _ _ _ _ _ Hg). cbn in Hr. rewrite Hrun in Hr. destruct r1 as [run1|]; simplify_eq.
  rewrite (mbind_val _ _ w1 w1 run1 eq_refl).
  destruct (call_neutral (GetWorkflow (rn_tenant run1) (rn_def_name run1)) w1 Hok1 eq_refl) as (w2&Hc&Hv2).
  assert (Hw2 : w_log w2 = [] ∧ w_reads w2 = 0%nat).
  { unfold do_call in Hc. destruct (call _ _). simplify_eq. done. }
  rewrite (mbind_val _ _ _ _ _ Hc).
  pose proof (rs_get_workflow (rn_tenant run1) (rn_def_name run1) (w_store w1) Hok1) as Hwf.
  rewrite Hd1 in Hwf. cbn in Hwf. rewrite Hdef in Hwf.
  destruct (call _ (w_store w1)).2 as [rec1|]; simplify_eq. rewrite (mbind_val _ _ w2 w2 rec1 eq_refl).
  rewrite bool_decide_true by done. cbn [negb].
  destruct Hv2 as (Hok2&Hr2&Ht2&_). destruct Hw2 as [Hl2 Hc2].
  assert (Hlate : ∃ w3, deadline_passed clock run1 w2 = (w3, Val false) ∧ w_store w3 = w_store w2 ∧ w_log w3 = []).
  { unfold deadline_passed. destruct (rn_deadline_at_ms run1) as [d|]; [|by exists w2].
    set (w3 := (now_ms clock w2).1). rewrite (mbind_val _ _ w2 w3 (clock (w_reads w2)) eq_refl).
    exists w3. rewrite Hc2. split; [|done]. unfold mret. by rewrite (proj2 (Z.ltb_ge _ _) Hdead). }
  destruct Hlate as (w3&Hlate&Hs3&Hl3). rewrite (mbind_val _ _ _ _ _ Hlate).
  edestruct (attempt_tasks_success registry clock seed powf rng run1 (wr_def rec1) token lease_ms Hh Hst l w3)
    as (w4&now&Ha&Hrun4&Ht4&Hlog4); [by rewrite Hs3|by rewrite Hs3, Hr2, Hr1| |done..|].
  { unfold fresh_run. by rewrite Hs3, Ht2, Ht1. }
  eexists w4, _. split; [exact Ha|]. split; [exact Hrun4|]. done.
Qed.

(** ** Property *)

(** C15. A fresh running run whose deadline has not passed, of a definition with
    unique task names and a topological order, with the handlers it names registered
    and successful, is completed by one attempt on any store that keeps the contract:
    the outcome is [Succeeded] and the queue entry is to be acknowledged, the stored
    run is [Succeeded] with a finish time and no error, every task is recorded
    [Succeeded] after exactly one attempt, and the handlers called are the tasks,
    once each. *)
Theorem attempt_success {S} `{RunStore S} registry clock seed powf rng run rec token lease_ms l (s : S) :
  all_succeed registry (wr_def rec) (rn_id run) →
  store_ok s → view_runs s !! rn_id run = Some run → rn_status run = RunStatus.Running →
  view_defs s !! (rn_tenant run, rn_def_name run) = Some rec → fresh_run (rn_id run) s →
  match rn_deadline_at_ms run with Some d => clock 0%nat ≤ d | None => True end →
  NoDup (map ts_name (wd_tasks (wr_def rec))) → topo_order (wd_tasks (wr_def rec)) = Ok l →
  ∃ w' r, attempt_with_token registry clock seed powf rng (rn_id run) token lease_ms (world0 s)
      = (w', Val success_outcome) ∧
    view_runs (w_store w') !! rn_id run = Some r ∧ rn_status r = RunStatus.Succeeded ∧
    is_Some (rn_finished_at_ms r) ∧ rn_error r = None ∧
    (∀ n, n ∈ task_names (wr_def rec) → ∃ tr,
      view_tasks (w_store w') !! task_run_id (rn_id run) n = Some tr ∧ done_task (rn_id run) n tr) ∧
    map call_name (w_log w') ≡ₚ map ts_name (wd_tasks (wr_def rec)).
Proof. apply attempt_succeeds. Qed.

Lemma noop_succeeds {S} `{RunStore S} def rid :
  (∀ t, t ∈ wd_tasks def → ts_handler t = "runvane.noop"%string) → all_succeed (S := S) noop_registry def rid.
Proof.
  intros Hn t Ht. rewrite (Hn t Ht). eexists. split; [apply lookup_singleton_eq|].
  intros ctx s Hok. split; [done|]. by eexists.
Qed.

Lemma attempt_success_witness :
  ∃ w' r, attempt_with_token noop_registry (fun n => Z.of_nat n) 0 (fun x _ => x) (fun _ u => u)
      "rn_0" None 1000 (world0 diamond_store) = (w', Val success_outcome) ∧
    view_runs (w_store w') !! "rn_0"%string = Some r ∧ rn_status r = RunStatus.Succeeded.
Proof.
  assert (Hrec : ∃ rec, view_defs diamond_store !! ("acme", "etl")%string = Some rec ∧ wr_def rec = def_with diamond)
    by (eexists; split; vm_compute; reflexivity).
  destruct Hrec as (rec&Hrec&Hdef).
  edestruct (attempt_success noop_registry (fun n => Z.of_nat n) 0 (fun x _ => x) (fun _ u => u) diamond_run rec
    None 1000 ["fetch"; "left"; "right"; "join"]%string diamond_store) as (w'&r&Ha&Hr&Hs&_).
  - apply noop_succeeds. rewrite Hdef. cbn. intros t Ht.
    repeat (apply elem_of_cons in Ht as [->|Ht]; [reflexivity|]). by apply elem_of_nil in Ht.
  - apply mem_run_calls_wf, mem_new_wf.
  - vm_compute. reflexivity.
  - reflexivity.
  - exact Hrec.
  - split; [intros k t Hk|intros n]; [by vm_compute in Hk|vm_compute; reflexivity].
  - exact I.
  - rewrite Hdef. apply (bool_decide_unpack _). vm_compute. exact I.
  - rewrite Hdef. vm_compute. reflexivity.
  - exists w', r. split; [exact Ha|]. split; [exact Hr|exact Hs].
Defined.
