(* ===== verification/ExecutorDefects.v ===== *)
(** * Where attempts go wrong

    Concrete and general results on the executor where its behaviour differs from
    its documentation: a retried run that skips the dependents of a task that
    succeeded on retry, a run executed against a later definition than the one it
    was submitted with, and task-run identifiers the identifier parser rejects. *)
From S2P Require Import Prelude RustStrings Ids Status Errors StateMachine Float64 Json RetryPolicy.
From S2P Require Import Workflow Dag Store MemoryStore LruStore StoreLaws Pick Executor.
From S2P Require Import ExecutorLogic ExecutorOrder ExecutorOutcome.
Local Open Scope Z_scope.

(** ** Concrete attempts *)

(** A handler that fails on the first attempt of a task only. *)
Definition flaky_registry {S} : gmap HandlerId (Handler S) := {["runvane.noop"%string := fun ctx s =>
  (s, Returned (if tc_attempt ctx =? 1 then Err (handler_transient "first attempt") else Ok JNull))]}.

(** A handler that rejects its input for good. *)
Definition reject_registry {S} : gmap HandlerId (Handler S) :=
  {["runvane.noop"%string := fun _ s => (s, Returned (Err (handler_permanent "bad input")))]}.

(** One attempt with a counting clock. *)
Definition try_once (registry : gmap HandlerId (Handler MemoryState)) (s : MemoryState)
    : World MemoryState * outcome AttemptOutcome :=
  attempt_with_token registry (fun n => Z.of_nat n) 0 (fun x _ => x) (fun _ u => u) "rn_0" None 1000 (world0 s).

(** What the dispatcher does between two attempts: the run is running again. *)
Definition run_again (s : MemoryState) : MemoryState :=
  match (call (GetRun "rn_0") s).2 with
  | Ok r => (call (PutRun (run_set_status RunStatus.Running r)) s).1
  | Err _ => s
  end.

(** A running run of [first -> second], where each task may be attempted thrice. *)
Definition chain_store : MemoryState :=
  run_calls [Any (PutWorkflow (def_with [bare_task "first" []; bare_task "second" ["first"]]));
    Any (PutRun (run_set_status RunStatus.Running sample_run))] mem_new.

Definition second_attempt : World MemoryState * outcome AttemptOutcome :=
  try_once flaky_registry (run_again (w_store (try_once flaky_registry chain_store).1)).

(** Two attempts of a single task that is rejected for good. *)
Definition reject_first : World MemoryState * outcome AttemptOutcome := try_once reject_registry running_store.

Definition reject_second : World MemoryState * outcome AttemptOutcome :=
  try_once reject_registry (run_again (w_store reject_first.1)).

(** A running run submitted at version 1 of a definition that is now at version 2. *)
Definition bumped_def : WorkflowDef := {|
  wd_id := "wf_0"; wd_tenant := "acme"; wd_name := "etl"; wd_version := 2; wd_description := "";
  wd_tasks := [bare_task "new" []]; wd_timeout_ms := 3600000; wd_retry := retry_fixed 3 10;
  wd_default_priority := priority_default; wd_hooks := hooks_default; wd_tags := ∅;
  wd_spec_version := SPEC_VERSION; wd_created_at_ms := 0; wd_updated_at_ms := 0
|}.

Definition bumped_store : MemoryState :=
  run_calls [Any (PutWorkflow (def_with [bare_task "old" []]));
    Any (PutRun (run_set_status RunStatus.Running sample_run));
    Any (UpdateWorkflowVersion "acme" "etl" bumped_def 1)] mem_new.

(** A store that keeps task runs as documents: reading one back parses its id. *)
Record DocumentStore := { ds_rows : MemoryState }.

Definition document_call {A} (c : StoreCall A) (d : DocumentStore) : DocumentStore * A :=
  let '(s, r) := call c (ds_rows d) in
  ({| ds_rows := s |},
   match c in StoreCall T return T → T with
   | GetTaskRun id => fun r =>
       match parse_id TaskRunId_kind (fun x => x) id with
       | Ok _ => r
       | Err _ => Err (StorageError.Backend "decode")
       end
   | _ => fun r => r
   end r).

#[export] Instance DocumentStore_Store : Store DocumentStore := @document_call.

(** A running run with an id of the generated form, in such a store. *)
Definition generated_run : Run := {|
  rn_id := generate_id (replicate 16 7) "rn_"; rn_tenant := "acme"; rn_def_name := "etl"; rn_def_version := 1;
  rn_input := JNull; rn_status := RunStatus.Running; rn_attempts := 1;
  rn_next_attempt_at_ms := None; rn_deadline_at_ms := None; rn_started_at_ms := Some 0;
  rn_finished_at_ms := None; rn_error := None; rn_output := None; rn_tags := ∅;
  rn_created_at_ms := 0; rn_run_number := 1
|}.

Definition document_store : DocumentStore := {| ds_rows :=
  run_calls [Any (PutWorkflow (def_with [bare_task "a" []])); Any (PutRun generated_run)] mem_new |}.

(** No task-run record of [run] can be read. *)
Definition unreadable {S} `{Store S} (run : Run) : Prop :=
  ∀ name s, is_ok (call (GetTaskRun (task_run_id (rn_id run) name)) s).2 = false.

(** ** Lemmas *)

Section Unreadable.
Context {S : Type} `{Store S} (registry : gmap HandlerId (Handler S)) (clock : nat → Z) (seed : Z).
Context (powf : f64 → f64 → f64) (rng : Z → Z → Z).
Context (run_id : RunId) (run : Run) (def : WorkflowDef) (token : option ClaimToken) (lease_ms : Z).
Context (Hun : unreadable (S := S) run).

Lemma load_unreadable name (w w' : World S) tr :
  load_task (rn_id run) name w = (w', Val tr) → tr_status tr = TaskStatus.Pending.
Proof.
  unfold load_task. intros (w1&r&Hc&Hr)%mbind_inv. unfold do_call in Hc.
  specialize (Hun name (w_store w)). destruct (call _ (w_store w)) as [s [tr'|e]]; [done|].
  injection Hc as <- <-. by injection Hr as _ <-.
Qed.

(** The bookkeeping of a successful call never completes. *)
Lemma record_unreadable name out (w w' : World S) st :
  record_result clock (rn_id run) name (Ok out) w ≠ (w', Val st).
Proof.
  unfold record_result. intros (w1&tr&Hl%load_unreadable&Hk)%mbind_inv. by rewrite Hl in Hk.
Qed.

Lemma tame_val_log {A} (c : M S A) (w w' : World S) a : tame c → c w = (w', Val a) → w_log w' = w_log w.
Proof. intros Ht Hc. destruct (Ht w) as [Hl _]. by rewrite Hc in Hl. Qed.

Definition none_ok (w : World S) : Prop := ∀ c, c ∈ w_log w → ¬ call_ok c.

Lemma none_ok_bind {A B} (c : M S A) (k : A → M S B) (w w' : World S) b :
  tame c → mbind c k w = (w', Val b) → none_ok w → ∃ w1 a, none_ok w1 ∧ k a w1 = (w', Val b).
Proof.
  intros Ht (w1&a&Hc&Hk)%mbind_inv Hw. exists w1, a. split; [|done].
  unfold none_ok. by rewrite (tame_val_log _ _ _ _ Ht Hc).
Qed.

Lemma execute_unreadable name (w w' : World S) st : none_ok w →
  execute_task registry clock run_id run def token lease_ms name w = (w', Val st) → none_ok w'.
Proof.
  unfold execute_task. intros Hw He. destruct (find_task def name) as [t|]; [|done].
  do 4 (apply none_ok_bind in He as (?&?&?&He); [|tame|done]).
  apply none_ok_bind in He as (w1&cancelled&Hw1&He); [|by intros ?|done].
  apply mbind_inv in He as (w2&r&Hh&He). destruct r as [out|e]; [by apply record_unreadable in He|].
  unfold none_ok. assert (Ht : tame (record_result clock (rn_id run) name (Err e))) by tame.
  rewrite (tame_val_log _ _ _ _ Ht He). unfold run_handler in Hh.
  case_match; [|by injection Hh as <-]. destruct (p _ (w_store w1)) as [s o].
  destruct o; [|done]. injection Hh as <- ->. intros c. cbn. rewrite elem_of_app.
  intros [Hc|He'%list_elem_of_singleton]; [by apply Hw1|]. subst c. by intros [out ?].
Qed.

Lemma ready_unreadable ready : ∀ states executed (w w' : World S) p, none_ok w →
  execute_ready registry clock run_id run def token lease_ms ready states executed w = (w', Val p) → none_ok w'.
Proof.
  induction ready as [|name ready IH]; cbn [execute_ready]; intros states executed w w' p Hw He.
  - by injection He as <- _.
  - apply mbind_inv in He as (w1&st&Ht&He). eapply IH; [|exact He]. by eapply execute_unreadable.
Qed.

Lemma loop_unreadable fuel : ∀ states executed (w w' : World S) exit, none_ok w →
  attempt_loop registry clock fuel run_id run def token lease_ms states executed w = (w', Val exit) →
  none_ok w'.
Proof.
  induction fuel as [|fuel IH]; intros states executed w w' exit Hw; cbn [attempt_loop]; [done|].
  intros (w1&early&Hp&Hk)%mbind_inv. pose proof (poll_cancelled_post run_id w) as [Hl _]. rewrite Hp in Hl.
  assert (Hw1 : none_ok w1) by (unfold none_ok; cbn in Hl; by rewrite Hl).
  destruct early; [by injection Hk as <- _|]. apply none_ok_bind in Hk as (w2&ready&Hw2&Hk); [|tame|done].
  destruct ready as [|name rest]; [by injection Hk as <- _|].
  apply mbind_inv in Hk as (w3&[st ex]&He&Hk). eapply IH; [|exact Hk]. exact (ready_unreadable _ _ _ _ _ _ Hw2 He).
Qed.
End Unreadable.

(** ** Properties *)

(** A retry does not bring back what the failed attempt skipped. On the chain
    [first -> second] with a task that fails once, the first attempt records [second]
    as [Skipped] although the run is requeued; the second attempt runs [first] alone
    and reports the run [Succeeded] while [second] was never called. *)
Theorem retry_leaves_skipped :
  (∃ t, (try_once flaky_registry chain_store).2 = Val {| ao_run_status := RunStatus.Queued;
     ao_failed_tasks := ["first"%string]; ao_action := ReleaseEntry t; ao_error := None |}) ∧
  second_attempt.2 = Val {| ao_run_status := RunStatus.Succeeded; ao_failed_tasks := [];
     ao_action := AckEntry; ao_error := None |} ∧
  map call_name (w_log second_attempt.1) = ["first"%string] ∧
  tr_status <$> ms_task_runs (w_store second_attempt.1) !! task_run_id "rn_0" "second" = Some TaskStatus.Skipped.
Proof.
  split; [eexists; vm_compute; reflexivity|]. split; [vm_compute; reflexivity|].
  split; vm_compute; reflexivity.
Qed.

(** An attempt executes whatever definition is stored under the run's name: a
    run submitted at version 1 executes the tasks of version 2 once the definition
    has been updated, and reports success. *)
Theorem attempt_ignores_def_version :
  rn_def_version sample_run = 1 ∧ (call (GetRun "rn_0") bumped_store).2 = Ok (run_set_status RunStatus.Running sample_run) ∧
  map call_name (w_log (try_once noop_registry bumped_store).1) = ["new"%string] ∧
  (try_once noop_registry bumped_store).2 = Val {| ao_run_status := RunStatus.Succeeded; ao_failed_tasks := [];
     ao_action := AckEntry; ao_error := None |}.
Proof.
  split; [reflexivity|]. split; [vm_compute; reflexivity|]. split; vm_compute; reflexivity.
Qed.

(** The failure classification of a handler error does not reach the retry
    decision: a task rejected for good ([HandlerError::permanent]) is requeued like a
    transient failure, and called again by the next attempt. *)
Theorem permanent_failure_retried :
  retryable FailureKind.Rejected = false ∧
  (∃ t, reject_first.2 = Val {| ao_run_status := RunStatus.Queued; ao_failed_tasks := ["a"%string];
     ao_action := ReleaseEntry t; ao_error := None |}) ∧
  map (fun c => (call_name c, tc_attempt (hc_ctx c))) (w_log reject_second.1) = [("a"%string, 2)].
Proof.
  split; [reflexivity|]. split; [eexists; vm_compute; reflexivity|]. vm_compute. reflexivity.
Qed.

(** Within the runs of the system (whose ids all have the length
    [RunId::generate] gives), no two tasks share a task-run record: the canonical
    id determines both the run and the task name. *)
Theorem task_run_id_inj r1 r2 n1 n2 : str_len r1 = str_len r2 →
  task_run_id r1 n1 = task_run_id r2 n2 → r1 = r2 ∧ n1 = n2.
Proof.
  unfold task_run_id. intros Hlen Heq%app_string_inj.
  apply encode_base32hex_inj in Heq; [|apply task_run_id_bytes..].
  rewrite !as_bytes_app in Heq. apply app_inj_1 in Heq as [Hr Hn].
  - apply as_bytes_inj in Hr. apply app_inv_head, as_bytes_inj in Hn. done.
  - rewrite !length_as_bytes. unfold str_len in Hlen. lia.
Qed.

Lemma task_run_id_inj_witness : "rn_0"%string = "rn_0"%string ∧ "ab"%string = "ab"%string.
Proof. apply (task_run_id_inj "rn_0" "rn_0" "ab" "ab"); reflexivity. Defined.

(** The canonical id has more payload bytes than [TaskRunId] admits. *)
Lemma long_payload_rejected dbg prefix max kind src :
  Forall is_u8 src → src ≠ [] → max < Z.of_nat (length src) →
  ∃ id limit, parse_id {| id_prefix := prefix; id_max_payload := max; id_kind := kind |} dbg
    (prefix +:+ encode_base32hex src) = Err (TooLong id limit).
Proof.
  intros Hs Hne Hmax. unfold parse_id. cbn [id_prefix id_max_payload id_kind].
  rewrite starts_with_app, str_drop_app. cbn [negb].
  case_match; [by eexists _, _|]. rewrite (proj2 (is_empty_false _)) by by apply encode_nonempty.
  unfold decode_base32hex. rewrite (proj2 (is_empty_false _)) by by apply encode_nonempty.
  rewrite decode_encode_loop by done. cbn. rewrite (proj2 (Z.ltb_lt _ _) Hmax). by eexists _, _.
Qed.

Lemma task_run_id_too_long dbg uuid name : Forall is_u8 uuid → length uuid = 16%nat →
  ∃ id limit, parse_id TaskRunId_kind dbg (task_run_id (generate_id uuid "rn_") name) = Err (TooLong id limit).
Proof.
  intros Hu Hlen. apply long_payload_rejected; [apply task_run_id_bytes|done|].
  rewrite length_as_bytes. fold (str_len (generate_id uuid "rn_" +:+ "::" +:+ name)).
  unfold generate_id. rewrite !str_len_app. assert (Hp : str_len (encode_base32hex uuid) = 26).
  { unfold encode_base32hex, str_len. by rewrite length_of_bytes, (encode_length uuid 0 0 Hu ltac:(lia)), Hlen. }
  rewrite Hp. change (str_len "rn_") with 3. change (str_len "::") with 2. cbn. unfold str_len. lia.
Qed.

(** The canonical task-run id of every run the system generates is rejected, as
    too long, by [TaskRunId::parse], and so by the [Deserialize] instance built on
    it: a task-run document can be written but not read back. *)
Theorem task_run_id_rejected dbg uuid name : Forall is_u8 uuid → length uuid = 16%nat →
  ∃ id limit, parse_id TaskRunId_kind dbg (task_run_id (generate_id uuid "rn_") name) = Err (TooLong id limit).
Proof. apply task_run_id_too_long. Qed.

Lemma task_run_id_rejected_witness :
  ∃ i limit, parse_id TaskRunId_kind id (task_run_id (generate_id (replicate 16 7) "rn_") "fetch") = Err (TooLong i limit).
Proof. apply task_run_id_rejected; [repeat (constructor; [unfold is_u8; lia|]); constructor|reflexivity]. Defined.

(** On a store that cannot read task runs back (a backend that keeps documents
    and decodes their ids on reading is one, by the previous result), no attempt in
    which a handler succeeds ever returns an outcome: the bookkeeping of a successful
    call aborts, since the record it loads is a fresh [Pending] one. *)
Theorem unreadable_tasks_abort {S} `{Store S} registry clock seed powf rng run_id run def token lease_ms
    (w : World S) :
  unreadable (S := S) run → NoDup (map ts_name (wd_tasks def)) → w_log w = [] →
  match attempt_tasks registry clock seed powf rng run_id run def token lease_ms w with
  | (w', Val _) => ∀ c, c ∈ w_log w' → ¬ call_ok c
  | (_, Abort f) => f ≠ OutOfFuel
  end.
Proof.
  intros Hun Hnd Hlog.
  pose proof (attempt_tasks_ends registry clock seed powf rng run_id run def token lease_ms w) as Hends.
  destruct (attempt_tasks registry clock seed powf rng run_id run def token lease_ms w) as [w' [o|f]] eqn:Ha.
  - apply attempt_tasks_start in Ha as (w1&st0&w3&exit&Hls&Hloop&_&Hexit); [|done..].
    pose proof (tame_loaded_states (rn_id run) def w) as (Hl1&_&_). rewrite Hls, Hlog in Hl1. cbn in Hl1.
    apply loop_unreadable in Hloop as Hw3; [|done|unfold none_ok; cbn; rewrite Hl1; set_solver].
    destruct exit as [o'|st]; [by destruct Hexit as [_ ->]|]. destruct Hexit as (next&w4&_&Hps&Hfin).
    pose proof (finalize_log clock seed powf rng run def next w4) as Hl. rewrite Hfin in Hl. cbn in Hl.
    apply tame_val_log in Hps; [|tame]. rewrite Hl, Hps. exact Hw3.
  - cbn in Hends. by destruct f.
Qed.

Lemma unreadable_tasks_abort_witness :
  match attempt_tasks noop_registry (fun n => Z.of_nat n) 0 (fun x _ => x) (fun _ u => u) (rn_id generated_run)
    generated_run (def_with [bare_task "a" []]) None 1000 (world0 document_store) with
  | (w', Val _) => ∀ c, c ∈ w_log w' → ¬ call_ok c
  | (_, Abort f) => f ≠ OutOfFuel
  end.
Proof.
  apply (unreadable_tasks_abort noop_registry (fun n => Z.of_nat n) 0 (fun x _ => x) (fun _ u => u)
    (rn_id generated_run) generated_run (def_with [bare_task "a" []]) None 1000 (world0 document_store)).
  - intros name [s].
    destruct (task_run_id_too_long (fun x => x) (replicate 16 7) name) as (i&limit&Hp); [|reflexivity|].
    + repeat (constructor; [unfold is_u8; lia|]); constructor.
    + unfold call, DocumentStore_Store, document_call. destruct (call _ _) as [s' r]. cbn [snd].
      change (rn_id generated_run) with (generate_id (replicate 16 7) "rn_"). rewrite Hp. reflexivity.
  - apply (bool_decide_unpack _). vm_compute. exact I.
  - reflexivity.
Defined.
