(* ===== verification/ExecutorSettled.v ===== *)
(** * Settled tasks

    A task recorded [Succeeded] or [Skipped] is settled: no later attempt of the run
    calls its handler or changes its record. For a task that succeeded this is what
    makes a retry resume where the failed attempt stopped. For a task that was
    skipped it means that a retry never comes back to it, even when the dependency
    that failed succeeds the second time. *)
From S2P Require Import Prelude Ids Status Errors StateMachine Float64 Json RetryPolicy Workflow Dag.
From S2P Require Import Store MemoryStore StoreLaws Pick Executor ExecutorLogic ExecutorFrame ExecutorOrder ExecutorOutcome ExecutorDefects.
Local Open Scope Z_scope.

(** The records of [rid] in [s]: the run under its own id, every task record under
    its own id and, for tasks of [rid], under the canonical id of their name. *)
Record keyed {S} `{RunStore S} (rid : RunId) (s : S) : Prop := {
  ky_ok : store_ok s;
  ky_run : ∀ r, view_runs s !! rid = Some r → rn_id r = rid;
  ky_id : ∀ k t, view_tasks s !! k = Some t → tr_id t = k;
  ky_name : ∀ k t, view_tasks s !! k = Some t → tr_run_id t = rid → k = task_run_id rid (tr_task_name t)
}.

(** Task [n] of [rid] has the record [tr], which settles it. *)
Definition settled {S} `{RunStore S} (rid : RunId) (n : string) (tr : TaskRun) (s : S) : Prop :=
  view_tasks s !! task_run_id rid n = Some tr ∧ tr_run_id tr = rid ∧ tr_task_name tr = n ∧
  (tr_status tr = TaskStatus.Succeeded ∨ tr_status tr = TaskStatus.Skipped).

(** What happens to a run: attempts of it, and calls of other threads. *)
Inductive RunEvent :=
| Attempt (token : option ClaimToken) (lease_ms : Z)
| Meanwhile {A} (c : StoreCall A).

(** The calls that are not writes of definitions or task records: reads, the queue
    operations and writes of runs, which is all the dispatcher, the reaper and the
    cancel endpoint make. *)
Definition spares_tasks (e : RunEvent) : Prop :=
  match e with
  | Attempt _ _ => True
  | Meanwhile c => match c with PutRun _ => True | c => view_neutral c = true end
  end.

Section Settled.
Context {S : Type} `{RunStore S} (registry : gmap HandlerId (Handler S)) (clock : nat → Z) (seed : Z).
Context (powf : f64 → f64 → f64) (rng : Z → Z → Z) (rid : RunId).

Fixpoint live (events : list RunEvent) (w : World S) : World S :=
  match events with
  | [] => w
  | Attempt token lease_ms :: rest =>
      live rest (attempt_with_token registry clock seed powf rng rid token lease_ms w).1
  | Meanwhile c :: rest => live rest (do_call c w).1
  end.

Context (n : string) (tr : TaskRun) (log0 : list HandlerCall).

(** The invariant: [n] is settled by [tr] and has not been called since [log0]. *)
Definition resting (w : World S) : Prop :=
  keyed rid (w_store w) ∧ settled rid n tr (w_store w) ∧
  ∃ new, w_log w = log0 ++ new ∧ Forall (fun c => call_name c ≠ n) new.

(** [c] keeps the invariant, and what it returns satisfies [R]. *)
Definition rests {A} (c : M S A) (R : A → Prop) : Prop := ∀ w, resting w →
  resting (c w).1 ∧ match (c w).2 with Val a => R a | Abort _ => True end.

Context (Hhandlers : ∀ id h ctx s, registry !! id = Some h →
  keyed rid s → settled rid n tr s → keyed rid (h ctx s).1 ∧ settled rid n tr (h ctx s).1).

(** The task records an attempt may write without touching that of [n]. *)
Definition elsewhere (t : TaskRun) : Prop :=
  tr_id t ≠ task_run_id rid n ∧ (tr_run_id t = rid → tr_id t = task_run_id rid (tr_task_name t)).

(** ** The steps of an attempt *)

Lemma rests_bind {A B} (c : M S A) (k : A → M S B) (R : A → Prop) R' :
  rests c R → (∀ a, R a → rests (k a) R') → rests (mbind c k) R'.
Proof.
  intros Hc Hk w Hw. specialize (Hc w Hw). destruct (c w) as [w1 [a|f]] eqn:Hcw.
  - rewrite (mbind_val _ _ _ _ _ Hcw). destruct Hc as [Hw1 Ha]. exact (Hk a Ha w1 Hw1).
  - by rewrite (mbind_abort _ _ _ _ _ Hcw).
Qed.

Lemma rests_mono {A} (c : M S A) (R R' : A → Prop) : rests c R → (∀ a, R a → R' a) → rests c R'.
Proof. intros Hc Hr w Hw. destruct (Hc w Hw) as [? ?]. split; [done|]. destruct (c w).2; auto. Qed.

Lemma rests_ret {A} (a : A) (R : A → Prop) : R a → rests (mret a) R.
Proof. by intros Ha w. Qed.

Lemma rests_throw {A} e (R : A → Prop) : rests (throw e) R.
Proof. by intros w. Qed.

Lemma rests_panic {A} (R : A → Prop) : rests panic R.
Proof. by intros w. Qed.

Lemma rests_fuel {A} (R : A → Prop) : rests out_of_fuel R.
Proof. by intros w. Qed.

Lemma rests_or_throw {A E} (f : E → ExecutorError) (r : result A E) (R : A → Prop) :
  (∀ a, r = Ok a → R a) → rests (or_throw f r) R.
Proof. destruct r; intros Hr w; cbn; auto. Qed.

Lemma rests_now : rests (now_ms clock) (fun _ => True).
Proof. by intros w. Qed.

Lemma rests_cancelled : rests cancel_token_is_cancelled (fun _ => True).
Proof. by intros w. Qed.

Lemma rests_cancel : rests cancel_token_cancel (fun _ => True).
Proof. by intros w. Qed.

Lemma rests_new : rests cancel_token_new (fun _ => True).
Proof. by intros w. Qed.

Lemma rests_edge from to : rests (validate_edge from to) (fun _ => True).
Proof. by apply rests_or_throw. Qed.

Lemma resting_store w s : resting w → keyed rid s → settled rid n tr s → resting (set_store s w).
Proof. intros (_&_&Hl) Hk Hs. by split_and!. Qed.

Lemma rests_read {A} (c : StoreCall A) : view_neutral c = true → rests (do_call c) (fun _ => True).
Proof.
  intros Hn w Hw. destruct Hw as ([Hok Hr Hi Hnm]&Hs&Hl). split; [|unfold do_call; by destruct (call _ _)].
  destruct (call_neutral c w Hok Hn) as (w'&Hc&Hok'&Hvr&Hvt&_). rewrite Hc. cbn.
  assert (Hlog : w_log w' = w_log w) by by apply (do_call_log _ _ _ _ Hc).
  unfold resting, settled. rewrite Hvt, Hlog. split; [|done]. split; [done|by rewrite Hvr|by rewrite Hvt..].
Qed.

Lemma rests_get_run : rests (do_call (GetRun rid)) (fun r => ∀ run, r = Ok run → rn_id run = rid).
Proof.
  intros w Hw. split; [by apply rests_read|]. destruct Hw as ([Hok Hr _ _]&_).
  pose proof (rs_get_run rid (w_store w) Hok) as Hg. unfold do_call. destruct (call _ _) as [s r]. cbn in *.
  intros run ->. by apply Hr.
Qed.

Lemma rests_load m : rests (load_task rid m) (fun t => m ≠ n → elsewhere t).
Proof.
  intros w (Hk&Hs&Hl). destruct Hk as [Hok Hr Hi Hnm].
  destruct (load_task_val rid m w Hok) as (w'&Hload&_). split.
  - unfold load_task. apply (rests_bind _ _ (fun _ => True) (fun _ => True)); [by apply rests_read|by intros ?|].
    by split_and!.
  - rewrite Hload. cbn. intros Hm. unfold elsewhere, task_of.
    destruct (view_tasks (w_store w) !! task_run_id rid m) as [t|] eqn:Ht; cbn.
    + rewrite (Hi _ _ Ht). split; [|by apply Hnm]. by intros ?%task_run_id_name.
    + split; [|done]. by intros ?%task_run_id_name.
Qed.

Lemma rests_put t : elsewhere t → rests (put_task_run t) (fun _ => True).
Proof.
  intros [Hid Hname] w (Hk&Hs&Hl). destruct Hk as [Hok Hr Hi Hnm].
  destruct (put_task_run_val t w Hok) as (w'&Hp&Hok'&Hvt&Hvr&_). rewrite Hp. split; [|done]. cbn.
  assert (Hlog : w_log w' = w_log w).
  { revert Hp. unfold put_task_run. intros (w1&r&Hc&Hp)%mbind_inv. rewrite <-(do_call_log _ _ _ _ Hc).
    destruct r; by injection Hp as <-. }
  unfold resting, settled. rewrite Hvt, Hlog, lookup_insert_ne by done. split; [|done].
  split; rewrite ?Hvr, ?Hvt; [done|done| |]; intros k t' [[<- <-]|[_ Ht']]%lookup_insert_Some; eauto.
Qed.

Lemma rests_put_run r : rn_id r = rid → rests (put_run r) (fun _ => True).
Proof.
  intros Hid w (Hk&Hs&Hl). destruct Hk as [Hok Hr Hi Hnm].
  destruct (put_run_val r w Hok) as (w'&Hp&Hok'&Hvr&Hvt&_). rewrite Hp. split; [|done]. cbn.
  assert (Hlog : w_log w' = w_log w).
  { revert Hp. unfold put_run. intros (w1&r'&Hc&Hp)%mbind_inv. rewrite <-(do_call_log _ _ _ _ Hc).
    destruct r'; by injection Hp as <-. }
  unfold resting, settled. rewrite Hvt, Hlog. split; [|done].
  split; rewrite ?Hvr, ?Hvt; [done| |done|done]. intros r' [[_ <-]|[_ ?]]%lookup_insert_Some; auto.
Qed.

Lemma rests_filterM {A} (p : A → M S bool) l : (∀ x, rests (p x) (fun _ => True)) →
  rests (filterM p l) (fun l' => l' ⊆ l).
Proof.
  intros Hp. induction l as [|x l IH]; cbn [filterM]; [by apply rests_ret|].
  apply (rests_bind _ _ _ _ (Hp x)). intros b _. apply (rests_bind _ _ _ _ IH). intros l' Hl'.
  apply rests_ret. destruct b; set_solver.
Qed.

Lemma rests_allM {A} (p : A → M S bool) l : (∀ x, rests (p x) (fun _ => True)) →
  rests (allM p l) (fun _ => True).
Proof.
  intros Hp. induction l as [|x l IH]; cbn [allM]; [by apply rests_ret|].
  apply (rests_bind _ _ _ _ (Hp x)). intros [] _; [done|by apply rests_ret].
Qed.

Lemma rests_budget def m : rests (budget_left rid def m) (fun _ => True).
Proof. unfold budget_left. eapply rests_bind; [apply rests_load|]. intros t _. by apply rests_ret. Qed.

Lemma rests_ready def states ex : states !! n = Some (tr_status tr) →
  rests (ready_now rid def states ex) (fun l => n ∉ l).
Proof.
  intros Hst w Hw. pose proof Hw as (_&(_&_&_&Hset)&_). revert w Hw. eapply rests_mono.
  - apply rests_filterM. intros m. repeat case_match; [by apply rests_ret..|apply rests_budget].
  - intros l Hl Hin%Hl. apply ready_tasks_elem in Hin as (t&_&_&Hs). unfold status_of in Hs.
    rewrite Hst in Hs. cbn in Hs. destruct Hset as [Ht|Ht]; rewrite Ht in Hs; naive_solver.
Qed.

Lemma rests_heartbeat token lease_ms : rests (heartbeat clock rid token lease_ms) (fun _ => True).
Proof.
  destruct token as [t|]; cbn [heartbeat]; [|by apply rests_ret].
  eapply rests_bind; [apply rests_now|]. intros now _.
  eapply rests_bind; [by apply rests_read|]. intros _ _. by apply rests_ret.
Qed.

Lemma rests_record m r : m ≠ n → rests (record_result clock rid m r) (fun _ => True).
Proof.
  intros Hm. unfold record_result. eapply rests_bind; [apply rests_load|]. intros t Ht. specialize (Ht Hm).
  destruct r; (case_match; [apply rests_throw|]); (eapply rests_bind; [apply rests_now|]); intros now _;
    (eapply rests_bind; [by apply rests_put|]); intros _ _; by apply rests_ret.
Qed.

Lemma rests_handler id m ctx : tc_task_name ctx ≠ n →
  rests (run_handler registry id m ctx) (fun _ => True).
Proof.
  intros Hctx w (Hk&Hs&new&Hl&Hnew). unfold run_handler. destruct (registry !! id) as [h|] eqn:Hh; cbn.
  - pose proof (Hhandlers id h ctx _ Hh Hk Hs) as [Hk' Hs']. destruct (h ctx (w_store w)) as [s o]. cbn in Hk', Hs'.
    assert (Hr : resting {| w_store := s; w_reads := w_reads w; w_cancel := w_cancel w;
      w_log := w_log w ++ [{| hc_ctx := ctx; hc_outcome := o |}] |}).
    { split; [done|]. split; [done|]. eexists. cbn. rewrite Hl, <-(assoc_L (++)). split; [done|].
      apply Forall_app. by split; [|constructor]. }
    by destruct o.
  - split; [|done]. split; [done|]. split; [done|]. by exists new.
Qed.

Section Tasks.
Context (run : Run) (def : WorkflowDef) (token : option ClaimToken) (lease_ms : Z) (Hid : rn_id run = rid).

Lemma rests_execute m : m ≠ n →
  rests (execute_task registry clock rid run def token lease_ms m) (fun _ => True).
Proof.
  intros Hm. unfold execute_task. destruct (find_task def m) as [t|]; [|apply rests_panic]. rewrite Hid.
  eapply rests_bind; [apply rests_heartbeat|]. intros _ _.
  eapply rests_bind; [apply rests_load|]. intros t' Ht'. specialize (Ht' Hm).
  eapply rests_bind; [apply rests_now|]. intros now _.
  eapply rests_bind; [by apply rests_put|]. intros _ _.
  eapply rests_bind; [apply rests_cancelled|]. intros b _.
  eapply rests_bind; [by apply rests_handler|]. intros r _. by apply rests_record.
Qed.

Lemma rests_execute_ready ready : n ∉ ready → ∀ states ex, states !! n = Some (tr_status tr) →
  rests (execute_ready registry clock rid run def token lease_ms ready states ex)
    (fun p => p.1 !! n = Some (tr_status tr)).
Proof.
  induction ready as [|m ready IH]; intros Hn states ex Hst; cbn [execute_ready]; [by apply rests_ret|].
  assert (m ≠ n) by set_solver. eapply rests_bind; [by apply rests_execute|]. intros st _.
  apply IH; [set_solver|]. by rewrite lookup_insert_ne.
Qed.

Lemma rests_poll : rests (poll_cancelled rid) (fun _ => True).
Proof.
  unfold poll_cancelled. eapply rests_bind; [by apply rests_read|]. intros [r|e] _; [|by apply rests_ret].
  case_match; [|by apply rests_ret]. eapply rests_bind; [apply rests_cancel|]. intros _ _. by apply rests_ret.
Qed.

Lemma rests_loop fuel : ∀ states ex, states !! n = Some (tr_status tr) →
  rests (attempt_loop registry clock fuel rid run def token lease_ms states ex)
    (fun exit => match exit with inl _ => True | inr st => st !! n = Some (tr_status tr) end).
Proof.
  induction fuel as [|fuel IH]; intros states ex Hst; cbn [attempt_loop]; [apply rests_fuel|].
  eapply rests_bind; [apply rests_poll|]. intros [o|] _; [by apply rests_ret|]. rewrite Hid.
  eapply rests_bind; [by apply rests_ready|]. intros [|m ready] Hn; [by apply rests_ret|].
  eapply rests_bind; [by apply rests_execute_ready|]. intros [st ex'] Hst'. by apply IH.
Qed.

Lemma rests_loaded : rests (loaded_states rid def) (fun st => st !! n = Some (tr_status tr)).
Proof.
  intros w Hw. split.
  { apply (rests_bind _ _ (fun _ => True) (fun _ => True)); [by apply rests_read|by intros ?|done]. }
  destruct Hw as ([Hok _ _ Hnm]&(Htr&Hrun&Hname&_)&_). destruct (rs_list_tasks rid _ Hok) as (l&Hl&Hin).
  unfold loaded_states, mbind, do_call. destruct (call _ _) as [s r]. cbn in Hl |- *. subst r.
  rewrite fold_pending. assert (Htl : tr ∈ l) by (apply Hin; eauto).
  destruct (foldl _ _ l !! n) as [st|] eqn:Hf.
  - apply fold_states_Some in Hf as [Hf|(t&Ht&Htn&<-)]; [done|].
    apply Hin in Ht as (k&Hk&Htr'). pose proof (Hnm _ _ Hk Htr') as ->. congruence.
  - apply fold_states in Hf as [_ Hf]. by specialize (Hf tr Htl).
Qed.

Lemma rests_persist states l : (∀ st, (n, st) ∈ l → st = TaskStatus.Skipped → states !! n = Some TaskStatus.Skipped) →
  rests (persist_skipped clock rid states l) (fun _ => True).
Proof.
  induction l as [|[m st] l IH]; intros Hl; cbn [persist_skipped]; [by apply rests_ret|].
  apply (rests_bind _ _ (fun _ => True)); [|intros _ _; apply IH; set_solver].
  destruct (decide (m = n)) as [->|Hm].
  - case_bool_decide as Hst; [|by apply (rests_ret tt)]. rewrite bool_decide_true by (apply (Hl st); set_solver).
    by apply rests_ret.
  - case_match; [|by apply rests_ret]. eapply rests_bind; [apply rests_load|]. intros t Ht. specialize (Ht Hm).
    eapply rests_bind; [apply rests_now|]. intros now _. by apply rests_put.
Qed.

Lemma rests_finalize states : rests (finalize clock seed powf rng run def states) (fun _ => True).
Proof.
  unfold finalize. rewrite Hid. case_match; [apply rests_throw|]. case_match.
  - eapply rests_bind; [apply rests_edge|]. intros _ _. eapply rests_bind; [apply rests_now|]. intros now _.
    eapply rests_bind; [by apply rests_put_run|]. intros _ _. by apply rests_ret.
  - eapply (rests_bind _ _ (fun _ => True)).
    { case_match; [by apply rests_ret|]. eapply rests_bind; [apply rests_load|]. intros t _. by apply rests_ret. }
    intros reason _. eapply rests_bind; [apply rests_allM; intros m; apply rests_budget|]. intros ok _.
    case_match.
    + do 2 (eapply rests_bind; [apply rests_edge|]; intros _ _). eapply rests_bind; [apply rests_now|]. intros now _.
      case_match; [|apply rests_panic]. eapply rests_bind; [apply rests_now|]. intros fb _.
      eapply rests_bind; [by apply rests_put_run|]. intros _ _. by apply rests_ret.
    + eapply rests_bind; [apply rests_edge|]. intros _ _. eapply rests_bind; [apply rests_now|]. intros now _.
      eapply rests_bind; [by apply rests_put_run|]. intros _ _. by apply rests_ret.
Qed.

Lemma rests_tasks : rests (attempt_tasks registry clock seed powf rng rid run def token lease_ms) (fun _ => True).
Proof.
  intros w Hw. pose proof Hw as (_&(_&_&_&Hset)&_). revert w Hw. unfold attempt_tasks. rewrite Hid.
  eapply rests_bind; [apply rests_loaded|]. intros st0 Hst0. eapply rests_bind; [apply rests_new|]. intros _ _.
  eapply rests_bind; [by apply rests_loop|]. intros [o|st] Hst; [by apply rests_ret|].
  destruct (pending_to_skip_spec (wd_tasks def) st) as (next&->&Hnext).
  eapply rests_bind; [|intros _ _; apply rests_finalize]. apply rests_persist.
  intros st' Hin%bt_iter_elem ->. rewrite Hnext in Hin. unfold skipped_states in Hin.
  case_decide as Hp; [|done]. destruct Hp as [Hp _]. unfold status_of in Hp. rewrite Hst in Hp. cbn in Hp.
  destruct Hset as [Hs|Hs]; by rewrite Hs in Hp.
Qed.
End Tasks.

Lemma rests_attempt token lease_ms :
  rests (attempt_with_token registry clock seed powf rng rid token lease_ms) (fun _ => True).
Proof.
  unfold attempt_with_token. eapply rests_bind; [apply rests_get_run|]. intros r Hr.
  eapply rests_bind; [apply rests_or_throw, Hr|]. intros run Hid.
  eapply rests_bind; [by apply rests_read|]. intros d _.
  eapply (rests_bind _ _ (fun _ => True)); [by apply rests_or_throw|]. intros rec _. case_match.
  - case_match; [by apply rests_ret|apply rests_throw].
  - eapply (rests_bind _ _ (fun _ => True)).
    { unfold deadline_passed. case_match; [|by apply rests_ret]. eapply rests_bind; [apply rests_now|].
      intros now _. by apply rests_ret. }
    intros [] _; [|by apply rests_tasks]. unfold time_out. eapply rests_bind; [apply rests_edge|]. intros _ _.
    eapply rests_bind; [apply rests_now|]. intros now _. eapply rests_bind; [by apply rests_put_run|].
    intros _ _. by apply rests_ret.
Qed.

Lemma live_rests events : ∀ w, Forall spares_tasks events → resting w → resting (live events w).
Proof.
  induction events as [|[token lease_ms|A c] events IH]; intros w Hall Hw; cbn [live]; [done|..];
    apply Forall_cons in Hall as [Hc Hall]; (apply IH; [done|]).
  - by apply rests_attempt.
  - destruct (decide (view_neutral c = true)) as [Hn|Hn]; [by apply rests_read|].
    destruct c; cbn in Hc, Hn; try done. destruct Hw as ([Hok Hr Hi Hnm]&Hs&Hl).
    pose proof (rs_put_run run _ Hok) as (_&Hvr&Hvt&_). pose proof (rs_ok (PutRun run) _ Hok) as Hok'.
    unfold do_call. destruct (call (PutRun run) (w_store w)) as [s r]. cbn in *.
    unfold resting, settled. cbn. rewrite Hvt. split; [|done]. split; rewrite ?Hvr, ?Hvt; [done| |done|done].
    intros r' [[<- <-]|[_ ?]]%lookup_insert_Some; auto.
Qed.
End Settled.

(** ** Property *)

(** C38. A settled task stays settled. Take a run whose records are stored under
    their own ids, a task of it recorded [Succeeded] or [Skipped], and handlers that
    leave that record alone. Whatever follows, any number of attempts with any tokens
    and outcomes, retries included, interleaved with reads, queue operations and
    writes of runs by other threads, the record is unchanged and no handler is called
    for the task. So a retry does not repeat a task that succeeded, and it does not
    bring back a task that the failed attempt skipped. *)
Theorem settled_task_stays {S} `{RunStore S} registry clock seed powf rng rid n tr events (w : World S) :
  keyed rid (w_store w) → settled rid n tr (w_store w) →
  (∀ id h ctx s, registry !! id = Some h → keyed rid s → settled rid n tr s →
    keyed rid (h ctx s).1 ∧ settled rid n tr (h ctx s).1) →
  Forall spares_tasks events →
  let w' := live registry clock seed powf rng rid events w in
  view_tasks (w_store w') !! task_run_id rid n = Some tr ∧
  ∃ new, w_log w' = w_log w ++ new ∧ Forall (fun c => call_name c ≠ n) new.
Proof.
  intros Hk Hs Hh Hev. destruct (live_rests registry clock seed powf rng rid n tr (w_log w) Hh events w Hev)
    as (_&(Htr&_)&Hl); [|done]. split; [done|]. split; [done|]. exists []. by rewrite app_nil_r.
Qed.

(** The chain [first -> second] after the attempt in which [first] failed: [second]
    is recorded [Skipped]. The run is put back to [Running] and attempted again. *)
Definition after_failure : MemoryState := w_store (try_once flaky_registry chain_store).1.

Definition retry_events : list RunEvent :=
  [Meanwhile (PutRun (run_set_status RunStatus.Running sample_run)); Attempt None 1000].

Lemma after_failure_wf : store_ok after_failure.
Proof.
  unfold after_failure, try_once. apply (kept_attempt (store_ok (S := MemoryState))).
  - apply ok_framed. intros id h ctx s Hh. unfold flaky_registry in Hh.
    by apply lookup_singleton_Some in Hh as [_ <-].
  - intros s run Hs Hr. cbn in Hr. unfold mem_get_run in Hr. destruct (ms_runs s !! _) eqn:Hl; [|done].
    cbn in Hr. simplify_eq. exact (wf_runs _ Hs _ _ Hl).
  - apply mem_run_calls_wf, mem_new_wf.
Qed.

Lemma settled_task_stays_witness :
  let w' := live flaky_registry (fun n => Z.of_nat n) 0 (fun x _ => x) (fun _ u => u) "rn_0" retry_events
    (world0 after_failure) in
  (rn_status <$> view_runs (w_store w') !! "rn_0"%string) = Some RunStatus.Succeeded ∧
  (tr_status <$> view_tasks (w_store w') !! task_run_id "rn_0" "second") = Some TaskStatus.Skipped ∧
  w_log w' ≠ [] ∧ ∃ new, w_log w' = [] ++ new ∧ Forall (fun c => call_name c ≠ "second"%string) new.
Proof.
  assert (Hrec : ∃ tr, settled "rn_0" "second" tr after_failure)
    by (eexists; split; [vm_compute; reflexivity|]; split; [reflexivity|]; split; [reflexivity|right; reflexivity]).
  destruct Hrec as (tr&Hrec).
  destruct (settled_task_stays flaky_registry (fun n => Z.of_nat n) 0 (fun x _ => x) (fun _ u => u) "rn_0"
    "second" tr retry_events (world0 after_failure)) as (Htr&Hlog).
  - split.
    + apply after_failure_wf.
    + intros r Hr. vm_compute in Hr. injection Hr as <-. reflexivity.
    + apply (bool_decide_unpack (map_Forall (fun k t => tr_id t = k) (view_tasks after_failure))).
      vm_compute. exact I.
    + apply (bool_decide_unpack (map_Forall (fun k t => tr_run_id t = "rn_0"%string →
        k = task_run_id "rn_0" (tr_task_name t)) (view_tasks after_failure))).
      vm_compute. exact I.
  - exact Hrec.
  - intros id h ctx s Hh. unfold flaky_registry in Hh. apply lookup_singleton_Some in Hh as [_ <-]. auto.
  - repeat constructor.
  - split; [vm_compute; reflexivity|]. split; [vm_compute; reflexivity|].
    split; [vm_compute; discriminate|exact Hlog].
Defined.
