(* ===== verification/Pool.v ===== *)
(** * The dispatch loop and the worker pool

    Models [scheduler/pool.rs] and [scheduler/reap.rs]. The dispatcher scans the
    queue, claims entries, marks runs as running and submits jobs to a bounded
    channel; a worker takes a job, runs an attempt and applies the returned action.
    Other threads may act before each store call of the dispatcher: [others n] lists
    the calls they make before its [n]-th call. Fresh claim tokens (UUIDs) are the
    sequence [fresh]. *)
From S2P Require Import Prelude RustStrings Ids Status Errors StateMachine Float64 Json RetryPolicy.
From S2P Require Import Workflow Dag Store MemoryStore LruStore StoreLaws Pick Executor.
From S2P Require Import ExecutorLogic ExecutorFrame ExecutorOrder ExecutorOutcome ExecutorSuccess.
Local Open Scope Z_scope.

(** ** Jobs and the channel *)

Record Job := { jb_run_id : RunId; jb_token : ClaimToken }.

Inductive SubmitError := Full | Disconnected.

Definition submit_error_text (e : SubmitError) : string :=
  match e with
  | Full => "worker pool channel is full"
  | Disconnected => "worker pool is shut down"
  end.

(** The pool as its submitters see it: the queued jobs, the bound of the channel, whether a
    receiver is left, the jobs the workers have received so far, and how many more they
    receive before each of the submissions to come (none once the list is used up). *)
Record WorkerPool := {
  wp_size : nat;
  wp_bound : nat;
  wp_jobs : list Job;
  wp_open : bool;
  wp_taken : list Job;
  wp_receives : list nat
}.

(** The receiver lives in the workers: without any, it is dropped at once. *)
Definition spawn (size : nat) (receives : list nat) : WorkerPool :=
  {| wp_size := size; wp_bound := (size * 16)%nat; wp_jobs := [];
     wp_open := negb (bool_decide (size = 0%nat)); wp_taken := []; wp_receives := receives |}.

(** [guard.recv()] in the workers, [n] times while there are jobs. *)
Definition receive (n : nat) (p : WorkerPool) : WorkerPool :=
  {| wp_size := wp_size p; wp_bound := wp_bound p; wp_jobs := drop n (wp_jobs p); wp_open := wp_open p;
     wp_taken := wp_taken p ++ take n (wp_jobs p); wp_receives := wp_receives p |}.

(** What the workers receive before the next submission. *)
Definition before_submit (p : WorkerPool) : WorkerPool :=
  receive (default 0%nat (head (wp_receives p)))
    {| wp_size := wp_size p; wp_bound := wp_bound p; wp_jobs := wp_jobs p; wp_open := wp_open p;
       wp_taken := wp_taken p; wp_receives := tail (wp_receives p) |}.

(** [try_send] on the channel as it then is. *)
Definition try_send (job : Job) (p : WorkerPool) : WorkerPool * result unit SubmitError :=
  if negb (wp_open p) then (p, Err Disconnected)
  else if (wp_bound p <=? length (wp_jobs p))%nat then (p, Err Full)
  else ({| wp_size := wp_size p; wp_bound := wp_bound p; wp_jobs := wp_jobs p ++ [job];
           wp_open := wp_open p; wp_taken := wp_taken p; wp_receives := wp_receives p |}, Ok tt).

Definition submit (job : Job) (p : WorkerPool) : WorkerPool * result unit SubmitError :=
  try_send job (before_submit p).

(** Every job the channel ever accepted, in order. *)
Definition sent_jobs (p : WorkerPool) : list Job := wp_taken p ++ wp_jobs p.

(** ** The dispatcher *)

Record DispatchStats := { scanned : nat; claimed : nat; submit_failed : nat; contended : nat }.

Definition stats_default : DispatchStats :=
  {| scanned := 0; claimed := 0; submit_failed := 0; contended := 0 |}.

Definition count_claimed (s : DispatchStats) : DispatchStats :=
  {| scanned := scanned s; claimed := Datatypes.S (claimed s); submit_failed := submit_failed s;
     contended := contended s |}.

Definition count_failed (s : DispatchStats) : DispatchStats :=
  {| scanned := scanned s; claimed := claimed s; submit_failed := Datatypes.S (submit_failed s);
     contended := contended s |}.

Definition count_contended (s : DispatchStats) : DispatchStats :=
  {| scanned := scanned s; claimed := claimed s; submit_failed := submit_failed s;
     contended := Datatypes.S (contended s) |}.

(** What the dispatcher works on: the shared store and pool, and the positions in
    the clock readings, the store calls and the fresh tokens. *)
Record Dispatch (S : Type) := {
  dp_store : S;
  dp_pool : WorkerPool;
  dp_reads : nat;
  dp_calls : nat;
  dp_tokens : nat
}.
Arguments Build_Dispatch {S}.
Arguments dp_store {S}.
Arguments dp_pool {S}.
Arguments dp_reads {S}.
Arguments dp_calls {S}.
Arguments dp_tokens {S}.

Section Dispatcher.
Context {S : Type} `{Store S}.
Context (clock : nat → Z) (fresh : nat → ClaimToken) (others : nat → list AnyCall).

(** One store call, after whatever the other threads did before it. *)
Definition dp_call {A} (c : StoreCall A) (d : Dispatch S) : Dispatch S * A :=
  let '(s, r) := call c (run_calls (others (dp_calls d)) (dp_store d)) in
  ({| dp_store := s; dp_pool := dp_pool d; dp_reads := dp_reads d;
      dp_calls := Datatypes.S (dp_calls d); dp_tokens := dp_tokens d |}, r).

Definition dp_now (d : Dispatch S) : Dispatch S * Z :=
  ({| dp_store := dp_store d; dp_pool := dp_pool d; dp_reads := Datatypes.S (dp_reads d);
      dp_calls := dp_calls d; dp_tokens := dp_tokens d |}, clock (dp_reads d)).

Definition dp_token (d : Dispatch S) : Dispatch S * ClaimToken :=
  ({| dp_store := dp_store d; dp_pool := dp_pool d; dp_reads := dp_reads d;
      dp_calls := dp_calls d; dp_tokens := Datatypes.S (dp_tokens d) |}, fresh (dp_tokens d)).

Definition dp_submit (job : Job) (d : Dispatch S) : Dispatch S * result unit SubmitError :=
  let '(p, r) := submit job (dp_pool d) in
  ({| dp_store := dp_store d; dp_pool := p; dp_reads := dp_reads d;
      dp_calls := dp_calls d; dp_tokens := dp_tokens d |}, r).

Definition mark_running (run_id : RunId) (d : Dispatch S) : Dispatch S * result unit StorageError :=
  let '(d, r) := dp_call (GetRun run_id) d in
  match r with
  | Err e => (d, Err e)
  | Ok run =>
      if bool_decide (rn_status run = RunStatus.Running) then (d, Ok tt)
      else if negb (bool_decide (rn_status run = RunStatus.Queued)) then
        (d, Err (StorageError.Backend ("cannot dispatch run " +:+ run_id +:+ " from "
          +:+ run_display (rn_status run))))
      else
        match RunFsm.run_validate RunStatus.Queued RunStatus.Running with
        | Err _ => (d, Err (StorageError.Backend (illegal_text RunStatus.Queued RunStatus.Running)))
        | Ok _ =>
            let '(d, now) := dp_now d in
            dp_call (PutRun (run_set_started_at_ms (Some now) (run_set_status RunStatus.Running run))) d
        end
  end.

(** The body of the [for entry in ready] loop. *)
Definition dispatch_entry (now lease_ms : Z) (entry : QueueEntry) (d : Dispatch S) (stats : DispatchStats)
    : Dispatch S * DispatchStats :=
  let run_id := qe_run_id entry in
  let '(d, token) := dp_token d in
  let '(d, r) := dp_call (Claim run_id token now lease_ms) d in
  match r with
  | Ok _ =>
      let '(d, transitioned) := mark_running run_id d in
      let '(d, submitted) := dp_submit {| jb_run_id := run_id; jb_token := token |} d in
      if is_ok transitioned && is_ok submitted then (d, count_claimed stats)
      else
        let '(d, _) := dp_call (FailClaim run_id token) d in
        (d, count_failed stats)
  | Err (StorageError.ClaimLost _) | Err (StorageError.NotFound _) => (d, count_contended stats)
  | Err _ => (d, count_failed stats)
  end.

Fixpoint dispatch_all (now lease_ms : Z) (ready : list QueueEntry) (d : Dispatch S) (stats : DispatchStats)
    : Dispatch S * DispatchStats :=
  match ready with
  | [] => (d, stats)
  | entry :: rest =>
      let '(d, stats) := dispatch_entry now lease_ms entry d stats in
      dispatch_all now lease_ms rest d stats
  end.

Definition step (batch_size : nat) (lease_ms : Z) (d : Dispatch S) : Dispatch S * DispatchStats :=
  let '(d, now) := dp_now d in
  let '(d, r) := dp_call (ScanReady now batch_size) d in
  match r with
  | Err _ => (d, stats_default)
  | Ok ready =>
      dispatch_all now lease_ms ready d
        {| scanned := length ready; claimed := 0; submit_failed := 0; contended := 0 |}
  end.
End Dispatcher.

(** ** The worker *)

Section Worker.
Context {S : Type} `{Store S}.
Context (registry : gmap HandlerId (Handler S)) (clock : nat → Z) (seed : Z).
Context (powf : f64 → f64 → f64) (rng : Z → Z → Z).

Definition apply_action (job : Job) (action : RunAction) (w : World S) : World S :=
  match action with
  | AckEntry => set_store (call (Ack (jb_run_id job) (jb_token job)) (w_store w)).1 w
  | ReleaseEntry release_at_ms =>
      set_store (call (Release (jb_run_id job) (jb_token job) release_at_ms) (w_store w)).1 w
  end.

(** Both error arms: an executor error and a caught panic give the lease back. *)
Definition give_back (job : Job) (w : World S) : World S :=
  match now_ms clock w with
  | (w, Val now) => set_store (call (Release (jb_run_id job) (jb_token job) now) (w_store w)).1 w
  | (w, Abort _) => w
  end.

(** One iteration of the worker's loop on a received job. *)
Definition worker_job (job : Job) (w : World S) : World S :=
  match attempt_with_token registry clock seed powf rng (jb_run_id job) (Some (jb_token job)) 60000 w with
  | (w, Val outcome) => apply_action job (ao_action outcome) w
  | (w, Abort _) => give_back job w
  end.
End Worker.

(** ** The reaper *)

Record ReapStats := { recovered : Z }.

Definition reap_expired_leases {S} `{Store S} (now : Z) (s : S) : S * ReapStats :=
  let '(s, r) := call (RecoverExpiredLeases now) s in
  (s, {| recovered := match r with Ok n => n | Err _ => 0 end |}).

(** ** Accounting *)

Definition accounted (st : DispatchStats) : nat := (claimed st + submit_failed st + contended st)%nat.

Section Accounting.
Context {S : Type} `{Store S}.
Context (clock : nat → Z) (fresh : nat → ClaimToken) (others : nat → list AnyCall).

Lemma dp_call_pool {A} (c : StoreCall A) (d : Dispatch S) :
  dp_pool (dp_call others c d).1 = dp_pool d ∧ dp_tokens (dp_call others c d).1 = dp_tokens d.
Proof. unfold dp_call. by destruct (call c _). Qed.

(** What survives reading a run, a clock reading and writing a run survives
    [mark_running]. *)
Lemma mark_running_ind (P : Dispatch S → Prop) run_id (d : Dispatch S) :
  P d → (∀ d, P d → P (dp_call others (GetRun run_id) d).1) → (∀ d, P d → P (dp_now clock d).1) →
  (∀ run n d, P d → (∃ d0, P d0 ∧ (dp_call others (GetRun run_id) d0).2 = Ok run) →
    P (dp_call others (PutRun (run_set_started_at_ms (Some (clock n)) (run_set_status RunStatus.Running run))) d).1) →
  P (mark_running clock others run_id d).1.
Proof.
  intros Hd Hget Hnow Hput. unfold mark_running. specialize (Hget d Hd).
  destruct (dp_call others (GetRun run_id) d) as [d1 [run|e]] eqn:Hg; cbn [fst] in Hget; [|done].
  case_bool_decide; [done|]. case_bool_decide; cbn [negb]; [|done].
  change (RunFsm.run_validate RunStatus.Queued RunStatus.Running) with (Ok (E := RunvaneError) tt).
  apply (Hput run (dp_reads d1)); [exact (Hnow d1 Hget)|]. exists d. by rewrite Hg.
Qed.

Lemma mark_running_pool run_id (d : Dispatch S) :
  dp_pool (mark_running clock others run_id d).1 = dp_pool d ∧
  dp_tokens (mark_running clock others run_id d).1 = dp_tokens d.
Proof.
  apply (mark_running_ind (fun d' => dp_pool d' = dp_pool d ∧ dp_tokens d' = dp_tokens d)); [done|..];
    intros; rewrite ?(proj1 (dp_call_pool _ _)), ?(proj2 (dp_call_pool _ _)); done.
Qed.

(** The same for one iteration of the loop. *)
Lemma dispatch_entry_ind (P : Dispatch S → Prop) now lease e (d : Dispatch S) st :
  P (dp_token fresh d).1 →
  (∀ d', P d' → P (dp_call others (Claim (qe_run_id e) (fresh (dp_tokens d)) now lease) d').1) →
  (∀ d', P d' → P (dp_call others (FailClaim (qe_run_id e) (fresh (dp_tokens d))) d').1) →
  (∀ d, P d → P (dp_call others (GetRun (qe_run_id e)) d).1) → (∀ d, P d → P (dp_now clock d).1) →
  (∀ run n d, P d → (∃ d0, P d0 ∧ (dp_call others (GetRun (qe_run_id e)) d0).2 = Ok run) →
    P (dp_call others (PutRun (run_set_started_at_ms (Some (clock n)) (run_set_status RunStatus.Running run))) d).1) →
  (∀ job d, P d → P (dp_submit job d).1) →
  P (dispatch_entry clock fresh others now lease e d st).1.
Proof.
  intros Htok Hclaim Hfail Hget Hnow Hput Hsub. unfold dispatch_entry.
  assert (Hft : (dp_token fresh d).2 = fresh (dp_tokens d)) by done.
  destruct (dp_token fresh d) as [d0 token]. cbn [fst snd] in Htok, Hft. subst token.
  specialize (Hclaim d0 Htok).
  destruct (dp_call others (Claim _ _ _ _) d0) as [d1 [u|[]]]; cbn [fst] in Hclaim |- *; try done.
  pose proof (mark_running_ind P (qe_run_id e) d1 Hclaim Hget Hnow Hput) as H2.
  destruct (mark_running clock others (qe_run_id e) d1) as [d2 t]. cbn [fst] in H2.
  specialize (Hsub {| jb_run_id := qe_run_id e; jb_token := fresh (dp_tokens d) |} d2 H2).
  destruct (dp_submit _ d2) as [d3 s]. cbn [fst] in Hsub. destruct (is_ok t && is_ok s); [done|].
  specialize (Hfail d3 Hsub). by destruct (dp_call others (FailClaim _ _) d3).
Qed.

Lemma before_submit_sent p : sent_jobs (before_submit p) = sent_jobs p ∧
  (length (wp_jobs (before_submit p)) ≤ length (wp_jobs p))%nat.
Proof.
  unfold sent_jobs, before_submit, receive. cbn. rewrite <- (assoc_L (++)), take_drop, length_drop.
  split; [done|lia].
Qed.

Lemma dp_submit_pool job (d : Dispatch S) :
  let '(d', r) := dp_submit job d in
  dp_tokens d' = dp_tokens d ∧ wp_bound (dp_pool d') = wp_bound (dp_pool d) ∧
  wp_open (dp_pool d') = wp_open (dp_pool d) ∧
  if is_ok r then sent_jobs (dp_pool d') = sent_jobs (dp_pool d) ++ [job] ∧
    (length (wp_jobs (dp_pool d')) ≤ Nat.min (wp_bound (dp_pool d)) (Datatypes.S (length (wp_jobs (dp_pool d)))))%nat
  else sent_jobs (dp_pool d') = sent_jobs (dp_pool d) ++ [] ∧
    (length (wp_jobs (dp_pool d')) ≤ length (wp_jobs (dp_pool d)))%nat.
Proof.
  unfold dp_submit, submit. destruct (before_submit_sent (dp_pool d)) as [Hs Hl].
  assert (Hb : wp_bound (before_submit (dp_pool d)) = wp_bound (dp_pool d)) by done.
  assert (Ho : wp_open (before_submit (dp_pool d)) = wp_open (dp_pool d)) by done.
  set (p := before_submit (dp_pool d)) in *. clearbody p. unfold try_send.
  destruct (wp_open p) eqn:Hop; cbn [negb]; cbn; [|rewrite app_nil_r; split_and!; congruence].
  destruct (Nat.leb_spec (wp_bound p) (length (wp_jobs p))); cbn; rewrite ?app_nil_r; split_and!; try congruence.
  - unfold sent_jobs in *. cbn. by rewrite (assoc_L (++)), Hs.
  - rewrite length_app. cbn. lia.
Qed.

(** What one iteration does to the counters and the pool: it counts its entry once,
    draws one token and submits at most one job, with that token, within the bound. *)
Record entry_post (e : QueueEntry) (d : Dispatch S) (st : DispatchStats) (d' : Dispatch S)
    (st' : DispatchStats) (new : list Job) : Prop := {
  ep_scanned : scanned st' = scanned st;
  ep_counted : accounted st' = Datatypes.S (accounted st);
  ep_tokens : dp_tokens d' = Datatypes.S (dp_tokens d);
  ep_jobs : sent_jobs (dp_pool d') = sent_jobs (dp_pool d) ++ new;
  ep_length : (length (wp_jobs (dp_pool d')) ≤ length (wp_jobs (dp_pool d)) + length new)%nat;
  ep_room : (length (wp_jobs (dp_pool d')) ≤ Nat.max (wp_bound (dp_pool d)) (length (wp_jobs (dp_pool d))))%nat;
  ep_bound : wp_bound (dp_pool d') = wp_bound (dp_pool d);
  ep_open : wp_open (dp_pool d') = wp_open (dp_pool d);
  ep_new : new = [] ∧ claimed st' = claimed st ∨
    new = [{| jb_run_id := qe_run_id e; jb_token := fresh (dp_tokens d) |}] ∧
    (claimed st' = claimed st ∨ claimed st' = Datatypes.S (claimed st))
}.

Lemma dispatch_entry_post now lease e (d : Dispatch S) st :
  let '(d', st') := dispatch_entry clock fresh others now lease e d st in
  ∃ new, entry_post e d st d' st' new.
Proof.
  unfold dispatch_entry. cbn [dp_token]. set (d0 := {| dp_store := _ |}).
  pose proof (dp_call_pool (Claim (qe_run_id e) (fresh (dp_tokens d)) now lease) d0) as [H1 H2].
  destruct (dp_call others (Claim _ _ _ _) d0) as [d1 r]. cbn in H1, H2.
  destruct r as [u|[]]; try (exists []; split; unfold accounted; cbn; rewrite ?H1, ?app_nil_r; first [lia|congruence|auto]).
  pose proof (mark_running_pool (qe_run_id e) d1) as [H3 H4].
  destruct (mark_running clock others (qe_run_id e) d1) as [d2 t]. cbn in H3, H4.
  set (job := {| jb_run_id := _ |}). pose proof (dp_submit_pool job d2) as Hsub.
  destruct (dp_submit job d2) as [d3 s]. destruct Hsub as (H5&H6&H7&H8). rewrite H3, H1 in H6, H7, H8.
  pose proof (dp_call_pool (FailClaim (qe_run_id e) (fresh (dp_tokens d))) d3) as [H9 H10].
  destruct (is_ok t && is_ok s) eqn:Hts.
  - apply andb_true_iff in Hts as [_ Hs]. rewrite Hs in H8. destruct H8 as [H8 Hlen].
    exists [job]. split; unfold accounted; cbn; first [lia|congruence|auto].
  - destruct (dp_call others (FailClaim _ _) d3) as [d4 u']. cbn in H9, H10.
    destruct (is_ok s); destruct H8 as [H8 Hlen]; [exists [job]|exists []];
      split; unfold accounted; cbn; rewrite ?H9; first [lia|congruence|auto].
Qed.

(** The same over the whole batch. *)
Lemma dispatch_all_post now lease ready : ∀ (d : Dispatch S) st,
  let '(d', st') := dispatch_all clock fresh others now lease ready d st in
  scanned st' = scanned st ∧ accounted st' = (accounted st + length ready)%nat ∧
  ∃ new, sent_jobs (dp_pool d') = sent_jobs (dp_pool d) ++ new ∧ wp_bound (dp_pool d') = wp_bound (dp_pool d) ∧
    (claimed st' ≤ claimed st + length new)%nat ∧ (length new ≤ length ready)%nat ∧
    (length (wp_jobs (dp_pool d')) ≤ Nat.max (wp_bound (dp_pool d)) (length (wp_jobs (dp_pool d))))%nat ∧
    map jb_run_id new `sublist_of` map qe_run_id ready.
Proof.
  induction ready as [|e ready IH]; intros d st; cbn [dispatch_all].
  { split; [done|]. split; [cbn; lia|]. exists []. rewrite app_nil_r. cbn.
    split_and!; first [done|lia|constructor]. }
  pose proof (dispatch_entry_post now lease e d st) as He.
  destruct (dispatch_entry clock fresh others now lease e d st) as [d1 st1]. destruct He as (n1&[]).
  specialize (IH d1 st1). destruct (dispatch_all clock fresh others now lease ready d1 st1) as [d2 st2].
  destruct IH as (H1&H2&n2&H3&H4&H5&H6&H7&H8). rewrite ep_jobs0 in H3. rewrite ep_bound0 in H4, H7.
  split; [congruence|]. split; [cbn; lia|]. exists (n1 ++ n2). rewrite H3, <-(assoc_L (++)).
  split; [done|]. split; [done|]. rewrite map_app, !length_app. cbn [map length].
  destruct ep_new0 as [[-> Hc]|(->&Hc)]; cbn in *; (split_and!; try lia; by constructor).
Qed.
End Accounting.

(** ** Leases on the in-memory store *)

(** The lease of [job], until [exp], is held in [s]. *)
Definition holds (exp : Z) (s : MemoryState) (job : Job) : Prop :=
  ∃ e, ms_queue s !! jb_run_id job = Some e ∧ qe_token e = jb_token job ∧ qe_lease_until_ms e = Some exp.

Section Leases.
Context `{HashIter} (clock : nat → Z) (fresh : nat → ClaimToken) (others : nat → list AnyCall).
Context (now lease exp : Z) (start drawn : nat).
Context (Hfresh : ∀ i j, fresh i = fresh j → i = j).
Context (Hexp : exp = wrap_i64 (now + lease)) (Hlater : now < exp).

(** The lease of [job] is held, or since [start] another thread has made a call that may
    end it. *)
Definition lease_kept (d : Dispatch MemoryState) (job : Job) : Prop :=
  holds exp (dp_store d) job ∨
  ∃ i, (start ≤ i < dp_calls d)%nat ∧ Exists (ends_lease (jb_run_id job) (jb_token job) exp) (others i).

Definition dispatching (d : Dispatch MemoryState) : Prop := mem_wf (dp_store d) ∧ (start ≤ dp_calls d)%nat.

Lemma dp_call_calls {A} (c : StoreCall A) (d : Dispatch MemoryState) :
  dp_calls (dp_call others c d).1 = Datatypes.S (dp_calls d).
Proof. unfold dp_call. by destruct (call c _). Qed.

Lemma dp_call_wf {A} (c : StoreCall A) (d : Dispatch MemoryState) :
  mem_wf (dp_store d) → mem_wf (dp_store (dp_call others c d).1).
Proof.
  intros Hwf. unfold dp_call.
  pose proof (mem_call_wf c _ (mem_run_calls_wf (others (dp_calls d)) _ Hwf)) as Hc. by destruct (call c _).
Qed.

Lemma dp_call_dispatching {A} (c : StoreCall A) (d : Dispatch MemoryState) :
  dispatching d → dispatching (dp_call others c d).1.
Proof. intros [Hwf Hs]. split; [by apply dp_call_wf|]. rewrite dp_call_calls. lia. Qed.

(** A call that is foreign to [job] keeps its lease, with the others' calls. *)
Lemma dp_call_kept {A} (c : StoreCall A) (d : Dispatch MemoryState) job : dispatching d →
  foreign_call (jb_run_id job) (jb_token job) exp (Any c) → lease_kept d job → lease_kept (dp_call others c d).1 job.
Proof.
  intros [Hwf Hs] Hf [(e&He&Ht&Hl)|(i&Hi&Hc)].
  2: { right. exists i. rewrite dp_call_calls. split; [lia|done]. }
  destruct (foreign_until (jb_run_id job) (jb_token job) exp (others (dp_calls d))) as [Hall|(cs1&c'&cs2&Heq&Hc&_)].
  2: { right. exists (dp_calls d). rewrite dp_call_calls, Heq. split; [lia|]. apply Exists_app. right. by left. }
  left. exists e. split; [|done]. unfold dp_call.
  destruct (foreign_calls_keep_entry _ _ exp e (others (dp_calls d)) (dp_store d) Hwf He Ht Hl Hall) as [Hwf1 He1].
  pose proof (foreign_keeps_entry _ _ exp e c _ Hwf1 He1 Ht Hl Hf) as Hk. by destruct (call c _).
Qed.

Lemma mark_running_kept job id (d : Dispatch MemoryState) : dispatching d → lease_kept d job →
  dispatching (mark_running clock others id d).1 ∧ lease_kept (mark_running clock others id d).1 job.
Proof.
  intros Hd Hk. apply (mark_running_ind clock others (fun d => dispatching d ∧ lease_kept d job)); [done|..];
    intros; destruct_and?; split; by try first [apply dp_call_dispatching|apply dp_call_kept].
Qed.

(** A successful claim takes the lease. *)
Lemma claim_holds run k (d d' : Dispatch MemoryState) u :
  dp_call others (Claim run (fresh k) now lease) d = (d', Ok u) →
  holds exp (dp_store d') {| jb_run_id := run; jb_token := fresh k |}.
Proof.
  unfold dp_call. cbn [call MemoryStore mem_call]. unfold mem_claim. destruct (ms_queue _ !! run) as [e|] eqn:He; [|done].
  repeat case_match; intros; simplify_eq. cbn. eexists. cbn. rewrite lookup_insert_eq. done.
Qed.

(** The jobs counted as claimed, with tokens from [drawn] on. *)
Definition held_jobs (d : Dispatch MemoryState) (held : list Job) : Prop :=
  ∀ j, j ∈ held → lease_kept d j ∧ ∃ k, jb_token j = fresh k ∧ (drawn ≤ k < dp_tokens d)%nat.

Lemma dp_submit_store job (d : Dispatch MemoryState) :
  dp_store (dp_submit job d).1 = dp_store d ∧ dp_calls (dp_submit job d).1 = dp_calls d.
Proof. unfold dp_submit. by destruct (submit _ _). Qed.

Lemma dp_submit_kept job j (d : Dispatch MemoryState) : dispatching d → lease_kept d j →
  dispatching (dp_submit job d).1 ∧ lease_kept (dp_submit job d).1 j.
Proof. unfold dispatching, lease_kept. destruct (dp_submit_store job d) as [-> ->]. done. Qed.

Lemma dispatch_entry_wf e (d : Dispatch MemoryState) st : mem_wf (dp_store d) →
  mem_wf (dp_store (dispatch_entry clock fresh others now lease e d st).1).
Proof.
  intros Hwf. apply (dispatch_entry_ind clock fresh others (fun d => mem_wf (dp_store d))); [done|..];
    intros; first [by apply dp_call_wf|by rewrite (proj1 (dp_submit_store _ _))|done].
Qed.

(** An iteration keeps the leases already held. *)
Lemma dispatch_entry_keeps e (d : Dispatch MemoryState) st j : dispatching d → lease_kept d j →
  (∃ k, jb_token j = fresh k ∧ (k < dp_tokens d)%nat) →
  lease_kept (dispatch_entry clock fresh others now lease e d st).1 j.
Proof.
  intros Hd Hh (k&Hk&Hlt). destruct j as [run tok]. cbn in Hk. subst tok.
  assert (Hne : fresh (dp_tokens d) ≠ fresh k) by (intros Heq%Hfresh; lia).
  apply (dispatch_entry_ind clock fresh others (fun d => dispatching d ∧
    lease_kept d {| jb_run_id := run; jb_token := fresh k |})); [done|..];
    intros; destruct_and?; try (by apply dp_submit_kept); try done;
    split; first [by apply dp_call_dispatching|apply dp_call_kept; by try intros _].
Qed.

Lemma dispatch_entry_dispatching e (d : Dispatch MemoryState) st : dispatching d →
  dispatching (dispatch_entry clock fresh others now lease e d st).1.
Proof.
  intros Hd. apply (dispatch_entry_ind clock fresh others dispatching); [done|..];
    intros; try (by apply dp_call_dispatching); [done|].
  unfold dispatching. by destruct (dp_submit_store job d0) as [-> ->].
Qed.

(** A counted iteration has submitted a job that holds its lease. *)
Lemma dispatch_entry_claims e (d d' : Dispatch MemoryState) st st' : dispatching d →
  dispatch_entry clock fresh others now lease e d st = (d', st') → claimed st' = Datatypes.S (claimed st) →
  lease_kept d' {| jb_run_id := qe_run_id e; jb_token := fresh (dp_tokens d) |}.
Proof.
  intros Hdd Hd Hc. revert Hd. unfold dispatch_entry. cbn [dp_token]. set (d0 := {| dp_store := dp_store d |}).
  assert (Hd0 : dispatching d0) by done.
  pose proof (dp_call_dispatching (Claim (qe_run_id e) (fresh (dp_tokens d)) now lease) d0 Hd0) as Hwf1.
  destruct (dp_call others (Claim _ _ _ _) d0) as [d1 [u|[]]] eqn:Hcl; cbn [fst] in Hwf1;
    try (intros; simplify_eq; cbn in Hc; lia).
  apply claim_holds in Hcl. set (j := {| jb_run_id := _ |}) in *.
  destruct (mark_running_kept j (qe_run_id e) d1 Hwf1 (or_introl Hcl)) as [Hd2 Hh2].
  destruct (mark_running clock others (qe_run_id e) d1) as [d2 t]. cbn [fst] in Hd2, Hh2.
  destruct (dp_submit_kept j j d2 Hd2 Hh2) as [_ Hh3].
  destruct (dp_submit _ d2) as [d3 s]. cbn [fst] in Hh3. destruct (_ && _); [by intros [= <- _]|].
  destruct (dp_call others (FailClaim _ _) d3). intros [= _ <-]. cbn in Hc. lia.
Qed.

Lemma dispatch_all_holds ready : ∀ (d : Dispatch MemoryState) st held,
  dispatching d → (drawn ≤ dp_tokens d)%nat → held_jobs d held →
  let '(d', st') := dispatch_all clock fresh others now lease ready d st in
  ∃ new extra, sent_jobs (dp_pool d') = sent_jobs (dp_pool d) ++ new ∧ extra `sublist_of` new ∧
    length extra = (claimed st' - claimed st)%nat ∧ (claimed st ≤ claimed st')%nat ∧ held_jobs d' (held ++ extra).
Proof.
  induction ready as [|e ready IH]; intros d st held Hd Hdrawn Hheld; cbn [dispatch_all].
  { exists [], []. rewrite !app_nil_r. split_and!; try done. cbn. lia. }
  pose proof (dispatch_entry_dispatching e d st Hd) as Hd1.
  pose proof (dispatch_entry_post clock fresh others now lease e d st) as Hpost.
  destruct (dispatch_entry clock fresh others now lease e d st) as [d1 st1] eqn:Hde. cbn [fst] in Hd1.
  destruct Hpost as (n1&[]).
  assert (Hheld1 : held_jobs d1 held).
  { intros j Hj. destruct (Hheld j Hj) as (Hj1&k&Hk&Hlt). split; [|exists k; split; [done|lia]].
    pose proof (dispatch_entry_keeps e d st j Hd Hj1) as Hkeep. rewrite Hde in Hkeep. apply Hkeep. exists k. split; [done|lia]. }
  assert (Hnext : ∃ x1, x1 `sublist_of` n1 ∧ claimed st1 = (claimed st + length x1)%nat ∧ held_jobs d1 (held ++ x1)).
  { destruct ep_new0 as [[-> Hc]|(->&[Hc|Hc])].
    1, 2: exists []; rewrite app_nil_r; split; [first [done|apply sublist_nil_l]|split; [cbn; lia|done]].
    pose proof (dispatch_entry_claims e d d1 st st1 Hd Hde Hc) as Hj.
    exists [{| jb_run_id := qe_run_id e; jb_token := fresh (dp_tokens d) |}].
    split; [done|]. split; [cbn; lia|].
    intros j [Hj'|Hj']%elem_of_app; [by apply Hheld1|]. apply list_elem_of_singleton in Hj' as ->.
    split; [done|]. exists (dp_tokens d). split; [done|lia]. }
  destruct Hnext as (x1&Hsub1&Hc1&Hheld2). specialize (IH d1 st1 (held ++ x1) Hd1 ltac:(lia) Hheld2).
  destruct (dispatch_all clock fresh others now lease ready d1 st1) as [d2 st2].
  destruct IH as (n2&x2&H1&H2&H3&H4&H5). exists (n1 ++ n2), (x1 ++ x2).
  split; [by rewrite H1, ep_jobs0, (assoc_L (++))|]. split; [by apply sublist_app|].
  split; [rewrite length_app; lia|]. split; [lia|]. by rewrite (assoc_L (++)).
Qed.

(** A scan finds no run twice. *)
Lemma scan_distinct t limit s : mem_wf s → NoDup (map qe_run_id (mem_scan_ready t limit s)).
Proof.
  intros Hwf. unfold mem_scan_ready. set (ready := List.filter _ _).
  apply (sublist_NoDup _ (map qe_run_id (sort_by due_le ready))); [|apply (fmap_sublist qe_run_id), sublist_take].
  rewrite (fmap_Permutation qe_run_id _ _ (sort_by_perm due_le ready)).
  apply (sublist_NoDup _ (map qe_run_id (hash_values (ms_queue s)))).
  - unfold hash_values. rewrite <-list_fmap_compose.
    rewrite (list_fmap_ext _ fst (hash_iter (ms_queue s))).
    + rewrite hash_iter_perm. apply NoDup_fst_map_to_list.
    + intros i [k x] Hi%list_elem_of_lookup_2. rewrite hash_iter_perm in Hi.
      apply elem_of_map_to_list in Hi. cbn. by apply (wf_queue _ Hwf).
  - unfold ready. generalize (hash_values (ms_queue s)). intros l. induction l as [|x l IH]; cbn; [constructor|].
    destruct (is_ready x t); cbn; by constructor.
Qed.
End Leases.

(** ** The worker on the in-memory store *)

(** The entry of the run, if there still is one, belongs to [token]. *)
Definition owned (rid : RunId) (token : ClaimToken) (s : MemoryState) : Prop :=
  mem_wf s ∧ ∀ e, ms_queue s !! rid = Some e → qe_token e = token.

Section WorkerLemmas.
Context `{HashIter} (registry : gmap HandlerId (Handler MemoryState)) (rid : RunId) (token : ClaimToken).
Context (Hkeep : ∀ id h ctx s, registry !! id = Some h → owned rid token s → owned rid token (h ctx s).1).

Lemma owned_framed : framed (owned rid token) registry rid (Some token).
Proof.
  split; [|exact Hkeep]. intros A c s Hc [Hwf Ho]. split; [by apply mem_call_wf|].
  destruct c; cbn in Hc; try done. cbn. unfold mem_renew_lease.
  destruct Hc as [-> [= ->]]. destruct (ms_queue s !! rid) as [e|] eqn:He; [|cbn; by rewrite He].
  case_match; [cbn; by rewrite He|]. cbn. rewrite lookup_insert_eq. intros e' [= <-]. cbn. by apply Ho.
Qed.

Lemma owned_attempt clock seed powf rng (w : World MemoryState) : owned rid token (w_store w) →
  owned rid token (w_store (attempt_with_token registry clock seed powf rng rid (Some token) 60000 w).1).
Proof.
  intros Ho. apply (kept_attempt (owned rid token)); [exact owned_framed| |done].
  intros s run [Hwf _]. cbn. unfold mem_get_run. destruct (ms_runs s !! rid) eqn:Hr; [|done].
  intros [= ->]. by apply Hwf.
Qed.
End WorkerLemmas.

(** ** Properties *)

(** Every scanned entry is counted once, under every interleaving and on every
    store, and the channel never outgrows its bound: jobs are only appended, at most
    one for each scanned entry and at least one for each claim counted. *)
Theorem step_accounting {S} `{Store S} clock fresh others batch_size lease_ms (d : Dispatch S) :
  let '(d', st) := step clock fresh others batch_size lease_ms d in
  scanned st = (claimed st + submit_failed st + contended st)%nat ∧
  ∃ new, sent_jobs (dp_pool d') = sent_jobs (dp_pool d) ++ new ∧
    (claimed st ≤ length new ≤ scanned st)%nat ∧
    (length (wp_jobs (dp_pool d')) ≤ Nat.max (wp_bound (dp_pool d)) (length (wp_jobs (dp_pool d))))%nat.
Proof.
  unfold step. destruct (dp_now clock d) as [d1 now] eqn:Hn. injection Hn as <- <-.
  set (d1 := {| dp_store := _ |}).
  pose proof (dp_call_pool others (ScanReady (clock (dp_reads d)) batch_size) d1) as [Hp _].
  destruct (dp_call others (ScanReady _ _) d1) as [d2 [ready|e]]; cbn in Hp.
  - pose proof (dispatch_all_post clock fresh others (clock (dp_reads d)) lease_ms ready d2
      {| scanned := length ready; claimed := 0; submit_failed := 0; contended := 0 |}) as Ha.
    destruct (dispatch_all _ _ _ _ _ _ _ _) as [d3 st]. unfold accounted in Ha. cbn in Ha.
    destruct Ha as (H1&H2&new&H3&H4&H5&H6&H7&_). rewrite Hp in H3, H7. split; [lia|].
    exists new. split; [done|]. split; [lia|done].
  - cbn. split; [done|]. exists []. rewrite Hp, app_nil_r. split; [done|]. cbn. lia.
Qed.

(** C11. A dispatch round on the in-memory store, whatever the other threads do meanwhile: the
    workers receive jobs from the channel at any moment, use the tokens of the jobs they
    received, and anyone cancels, claims, sweeps or submits. The jobs the round counts as
    claimed were accepted by the channel during the round, are for pairwise different runs
    and carry tokens drawn in the round; and when it ends each of them holds its lease until
    [now + lease_ms], unless another thread presented its token, cancelled its run, or claimed
    it or swept at or after the expiry. *)
Theorem step_holds_leases `{HashIter} clock fresh others batch_size lease_ms (d : Dispatch MemoryState) :
  let exp := clock (dp_reads d) + lease_ms in
  (∀ i j, fresh i = fresh j → i = j) → mem_wf (dp_store d) → 0 < lease_ms → in_i64 exp →
  let '(d', st) := step clock fresh others batch_size lease_ms d in
  ∃ new held, sent_jobs (dp_pool d') = sent_jobs (dp_pool d) ++ new ∧ held `sublist_of` new ∧
    length held = claimed st ∧ NoDup (map jb_run_id held) ∧
    ∀ j, j ∈ held → (∃ k, jb_token j = fresh k ∧ (dp_tokens d ≤ k < dp_tokens d')%nat) ∧
      (holds exp (dp_store d') j ∨
       ∃ i, (dp_calls d ≤ i < dp_calls d')%nat ∧
         Exists (ends_lease (jb_run_id j) (jb_token j) exp) (others i)).
Proof.
  intros exp Hfresh Hwf Hlease Hexp. unfold step.
  destruct (dp_now clock d) as [d1 now] eqn:Hn. injection Hn as <- <-. set (d1 := {| dp_store := _ |}).
  set (t := clock (dp_reads d)) in *.
  pose proof (dp_call_pool others (ScanReady t batch_size) d1) as [Hp Htk].
  pose proof (dp_call_dispatching others (dp_calls d) (ScanReady t batch_size) d1 (conj Hwf (le_n _))) as Hd2.
  assert (Hdist : ∀ ready, (dp_call others (ScanReady t batch_size) d1).2 = Ok ready → NoDup (map qe_run_id ready)).
  { intros ready. unfold dp_call. cbn. intros [= <-]. apply scan_distinct. by apply mem_run_calls_wf. }
  destruct (dp_call others (ScanReady _ _) d1) as [d2 [ready|e]]; cbn [fst snd] in *.
  2: { exists [], []. rewrite Hp, app_nil_r. split_and!; try done. constructor. set_solver. }
  pose proof (dispatch_all_holds clock fresh others t lease_ms exp (dp_calls d) (dp_tokens d) Hfresh
    ltac:(symmetry; by apply wrap_i64_id) ltac:(unfold exp; lia) ready d2
    {| scanned := length ready; claimed := 0; submit_failed := 0; contended := 0 |} [] Hd2
    ltac:(cbn in Htk; lia) ltac:(intros j; set_solver)) as Ha.
  pose proof (dispatch_all_post clock fresh others t lease_ms ready d2
    {| scanned := length ready; claimed := 0; submit_failed := 0; contended := 0 |}) as Hb.
  destruct (dispatch_all _ _ _ _ _ _ _ _) as [d3 st]. destruct Ha as (new&held&H1&H2&H3&_&Hh).
  destruct Hb as (_&_&new'&H1'&_&_&_&_&Hsub). rewrite H1 in H1'. apply (inj _) in H1' as <-.
  exists new, held. rewrite H1, Hp. split_and!; [done|done|cbn in H3; lia| |].
  - apply (sublist_NoDup _ (map qe_run_id ready)); [by apply Hdist|].
    etransitivity; [|exact Hsub]. by apply (fmap_sublist jb_run_id).
  - intros j Hj. destruct (Hh j Hj) as (Hk&k&Htok&Hlt). split; [by exists k|exact Hk].
Qed.

(** A dispatcher on the chain store: one queued run, tokens that count up. *)
Fixpoint unary_token (n : nat) : ClaimToken :=
  match n with O => EmptyString | Datatypes.S n => String "t" (unary_token n) end.

Definition queued_state : MemoryState :=
  run_calls [Any (PutWorkflow (def_with diamond)); Any (PutRun sample_run);
    Any (Enqueue (fresh_entry "rn_0" 0))] mem_new.

Definition idle_dispatch (s : MemoryState) : Dispatch MemoryState :=
  {| dp_store := s; dp_pool := spawn 2 []; dp_reads := 0; dp_calls := 0; dp_tokens := 1 |}.

Lemma unary_token_inj i j : unary_token i = unary_token j → i = j.
Proof. revert j. induction i as [|i IH]; intros [|j]; cbn; try done. intros [= Heq]. f_equal. by apply IH. Qed.

(** Before the write that marks the run as running, a cancellation. *)
Definition cancelling (n : nat) : list AnyCall := if decide (n = 3)%nat then [Any (CancelRun "rn_0" 7)] else [].

Lemma step_holds_leases_witness :
  let '(d', st) := step (fun n => Z.of_nat n + 5) unary_token cancelling 10 1000 (idle_dispatch queued_state) in
  ∃ new held, sent_jobs (dp_pool d') = new ∧ held `sublist_of` new ∧ length held = claimed st ∧
    claimed st = 1%nat ∧
    ∀ j, j ∈ held → holds 1005 (dp_store d') j ∨
      ∃ i, (0 ≤ i < dp_calls d')%nat ∧ Exists (ends_lease (jb_run_id j) (jb_token j) 1005) (cancelling i).
Proof.
  pose proof (step_holds_leases (fun n => Z.of_nat n + 5) unary_token cancelling 10 1000
    (idle_dispatch queued_state) unary_token_inj) as Hs.
  specialize (Hs ltac:(apply mem_run_calls_wf, mem_new_wf) ltac:(lia)
    ltac:(unfold in_i64, i64_min, i64_max; cbn; lia)).
  assert (Hc : claimed (step (fun n => Z.of_nat n + 5) unary_token cancelling 10 1000
    (idle_dispatch queued_state)).2 = 1%nat) by (vm_compute; reflexivity).
  destruct (step _ _ _ _ _ _) as [d' st]. destruct Hs as (new&held&H1&H2&H3&_&H5).
  exists new, held. split; [exact H1|]. split; [exact H2|]. split; [exact H3|]. split; [exact Hc|].
  intros j Hj. exact (proj2 (H5 j Hj)).
Defined.

(** C12. A worker always settles its job on the in-memory store: provided nobody else
    takes over the entry while the attempt runs (cancelling the run, which removes the
    entry, is allowed), an acknowledged entry is gone, a released one is unleased and
    due when the outcome says, and after an executor error or a panic it is unleased
    and due at the current time. In no case does the lease outlive the job. *)
Theorem worker_settles `{HashIter} registry clock seed powf rng job (w : World MemoryState) :
  let rid := jb_run_id job in
  (∀ id h ctx s, registry !! id = Some h → owned rid (jb_token job) s → owned rid (jb_token job) (h ctx s).1) →
  owned rid (jb_token job) (w_store w) →
  let after := ms_queue (w_store (worker_job registry clock seed powf rng job w)) !! rid in
  match attempt_with_token registry clock seed powf rng rid (Some (jb_token job)) 60000 w with
  | (w1, Val o) =>
      match ao_action o with
      | AckEntry => after = None
      | ReleaseEntry t => after = (fun e => unleased e t) <$> ms_queue (w_store w1) !! rid
      end
  | (w1, Abort _) => after = (fun e => unleased e (clock (w_reads w1))) <$> ms_queue (w_store w1) !! rid
  end.
Proof.
  intros rid Hkeep Ho. cbn zeta. unfold worker_job. fold rid.
  pose proof (owned_attempt registry rid (jb_token job) Hkeep clock seed powf rng w Ho) as [Hwf Hown].
  destruct (attempt_with_token _ _ _ _ _ _ _ _ _) as [w1 [o|f]]; cbn in Hwf, Hown.
  - destruct (ao_action o); cbn; unfold mem_ack, mem_release, owned_entry; fold rid;
      destruct (ms_queue (w_store w1) !! rid) as [e|] eqn:He; cbn; try (by rewrite He);
      rewrite (bool_decide_true _ (Hown e eq_refl)); cbn; by rewrite ?lookup_delete_eq, ?lookup_insert_eq.
  - unfold give_back, now_ms. cbn. unfold mem_release, owned_entry. fold rid.
    destruct (ms_queue (w_store w1) !! rid) as [e|] eqn:He; cbn; [|by rewrite He].
    rewrite (bool_decide_true _ (Hown e eq_refl)). cbn. by rewrite lookup_insert_eq.
Qed.

Lemma worker_settles_witness :
  ms_queue (w_store (worker_job noop_registry (fun n => Z.of_nat n) 0 (fun x _ => x) (fun _ u => u)
    {| jb_run_id := "rn_0"; jb_token := "mine" |} (world0 leased_state))) !! "rn_0"%string
  = Some (unleased leased_entry 0).
Proof.
  apply (worker_settles noop_registry (fun n => Z.of_nat n) 0 (fun x _ => x) (fun _ u => u)
    {| jb_run_id := "rn_0"; jb_token := "mine" |} (world0 leased_state)).
  - intros id h ctx s Hh. unfold noop_registry in Hh. apply lookup_singleton_Some in Hh as [_ <-]. exact (fun x => x).
  - split; [|intros e; vm_compute; by intros [= <-]].
    split; cbn; intros k x Hx; try by rewrite lookup_empty in Hx.
    apply lookup_singleton_Some in Hx as [<- <-]. reflexivity.
Defined.
