(* ===== verification/TypedRun.v ===== *)
(** * Attempts, dispatch rounds and sweeps keep the records sound

    The executor, the worker loop, the dispatcher and the scheduler thread on any store
    that upholds the discipline [sound]: every record they write has the machine types
    of its fields, whatever the handlers and the other threads do within the discipline.
    A definition that has been validated never makes the backoff panic, so a panic of an
    attempt comes out of a handler. *)
From S2P Require Import Prelude RustStrings Ids Status Errors StateMachine Float64 Json RetryPolicy Workflow Dag.
From S2P Require Import Store Interference MemoryStore Typed Pick Executor ExecutorLogic ExecutorOrder Pool.
Local Open Scope Z_scope.

Create HintDb ensures discriminated.

Section Ensures.
Context {S : Type} `{Store S} (I : S → Prop).

(** The computation keeps the invariant of the store, and its value satisfies [Q]. *)
Definition ensures {A} (Q : A → Prop) (c : M S A) : Prop := ∀ w, I (w_store w) →
  I (w_store (c w).1) ∧ ∀ a, (c w).2 = Val a → Q a.

Lemma ensures_bind {A B} (Q : A → Prop) (R : B → Prop) (c : M S A) (k : A → M S B) :
  ensures Q c → (∀ a, Q a → ensures R (k a)) → ensures R (mbind c k).
Proof.
  intros Hc Hk w Hw. destruct (Hc w Hw) as [Hi Hq]. destruct (c w) as [w1 [a|f]] eqn:Hcw.
  - rewrite (mbind_val _ _ _ _ _ Hcw). apply Hk; [by apply Hq|done].
  - by rewrite (mbind_abort _ _ _ _ _ Hcw).
Qed.

Lemma ensures_weaken {A} (Q R : A → Prop) (c : M S A) : (∀ a, Q a → R a) → ensures Q c → ensures R c.
Proof. intros Hqr Hc w Hw. destruct (Hc w Hw). eauto. Qed.

Lemma ensures_ret {A} (Q : A → Prop) a : Q a → ensures Q (mret a).
Proof. intros Ha w Hw. split; [done|]. by intros _ [= <-]. Qed.

Lemma ensures_throw {A} (Q : A → Prop) e : ensures Q (throw e).
Proof. by intros w Hw. Qed.

Lemma ensures_panic {A} (Q : A → Prop) : ensures Q panic.
Proof. by intros w Hw. Qed.

Lemma ensures_fuel {A} (Q : A → Prop) : ensures Q out_of_fuel.
Proof. by intros w Hw. Qed.

Lemma ensures_or_throw {A E} (Q : A → Prop) (f : E → ExecutorError) r : ok_is Q r → ensures Q (or_throw f r).
Proof. destruct r; intros Hr; [by apply ensures_ret|apply ensures_throw]. Qed.

Lemma ensures_edge from to : ensures (fun _ => True) (validate_edge from to).
Proof. apply ensures_or_throw. by destruct (RunFsm.run_validate from to). Qed.

Lemma ensures_filterM {A} (p : A → M S bool) l : (∀ x, ensures (fun _ => True) (p x)) →
  ensures (fun _ => True) (filterM p l).
Proof.
  intros Hp. induction l as [|x l IH]; cbn [filterM]; [by apply ensures_ret|].
  eapply ensures_bind; [apply Hp|intros b _]. eapply ensures_bind; [apply IH|intros rest _]. by apply ensures_ret.
Qed.

Lemma ensures_allM {A} (p : A → M S bool) l : (∀ x, ensures (fun _ => True) (p x)) →
  ensures (fun _ => True) (allM p l).
Proof.
  intros Hp. induction l as [|x l IH]; cbn [allM]; [by apply ensures_ret|].
  eapply ensures_bind; [apply Hp|intros [] _]; [done|by apply ensures_ret].
Qed.

Lemma ensures_token : ensures (fun _ => True) cancel_token_is_cancelled ∧
  ensures (fun _ => True) cancel_token_cancel ∧ ensures (fun _ => True) cancel_token_new.
Proof. by split_and!; intros w Hw. Qed.
End Ensures.

(** Opens a bind whose first part is a lemma of the database. *)
Ltac ens := eapply ensures_bind; [solve [eauto with ensures]|].

Section Attempt.
Context {S : Type} `{Store S} (I : S → Prop) `{!Upholds sound I}.
Context (registry : gmap HandlerId (Handler S)) (clock : nat → Z) (seed : Z).
Context (powf : f64 → f64 → f64) (rng : Z → Z → Z).
Context (Hclock : ∀ n, in_i64 (clock n)).
Context (Hreg : ∀ id h ctx s, registry !! id = Some h → I s → I (h ctx s).1).

Local Abbreviation ensures := (ensures I).

Lemma ensures_call {A} (c : StoreCall A) : sound_call c → ensures (sound_answer c) (do_call c).
Proof.
  intros Hc w Hw. pose proof (upholds (D := sound) A c (w_store w) Hw Hc) as [Hi Ha]. unfold do_call.
  destruct (call c (w_store w)) as [s a]. split; [done|]. by intros _ [= <-].
Qed.

Lemma ensures_now : ensures in_i64 (now_ms clock).
Proof. intros w Hw. split; [done|]. intros a [= <-]. apply Hclock. Qed.
Local Hint Resolve ensures_call ensures_now ensures_edge ensures_ret : ensures.
Local Hint Extern 1 (TypedRun.ensures _ _ cancel_token_is_cancelled) => apply ensures_token : ensures.
Local Hint Extern 1 (TypedRun.ensures _ _ cancel_token_cancel) => apply ensures_token : ensures.
Local Hint Extern 1 (TypedRun.ensures _ _ cancel_token_new) => apply ensures_token : ensures.
Local Hint Extern 1 (sound_call _) => exact Logic.I : ensures.

Lemma ensures_load_task run_id name : ensures task_run_typed (load_task run_id name).
Proof.
  unfold load_task. ens. intros r Hr. apply ensures_ret. destruct r as [tr|]; [exact Hr|].
  by constructor; cbn; unfold in_u32, u32_max; try lia.
Qed.

Lemma ensures_put_task_run tr : task_run_typed tr → ensures (fun _ => True) (put_task_run tr).
Proof.
  intros Ht. unfold put_task_run. eapply ensures_bind; [by apply ensures_call|intros r _].
  apply ensures_or_throw. by destruct r.
Qed.

Lemma ensures_put_run run : run_typed run → ensures (fun _ => True) (put_run run).
Proof.
  intros Ht. unfold put_run. eapply ensures_bind; [by apply ensures_call|intros r _].
  apply ensures_or_throw. by destruct r.
Qed.
Local Hint Resolve ensures_load_task ensures_put_task_run ensures_put_run : ensures.

Lemma ensures_budget_left run_id def name : ensures (fun _ => True) (budget_left run_id def name).
Proof. unfold budget_left. ens. intros tr _. by apply ensures_ret. Qed.

Lemma ensures_ready_now run_id def states executed : ensures (fun _ => True) (ready_now run_id def states executed).
Proof.
  apply ensures_filterM. intros name. case_bool_decide; [by apply ensures_ret|].
  case_bool_decide; cbn [negb]; [apply ensures_budget_left|by apply ensures_ret].
Qed.

Lemma ensures_heartbeat run_id token lease_ms : ensures (fun _ => True) (heartbeat clock run_id token lease_ms).
Proof.
  unfold heartbeat. destruct token as [t|]; [|by apply ensures_ret]. ens. intros now _. ens. intros _ _.
  by apply ensures_ret.
Qed.

Lemma ensures_record_result run_id name r : ensures (fun _ => True) (record_result clock run_id name r).
Proof.
  unfold record_result. ens. intros tr Htr. destruct r as [output|e]; destruct (negb _); try apply ensures_throw.
  all: ens; intros now Hnow; eapply ensures_bind; [apply ensures_put_task_run; sound|intros _ _; by apply ensures_ret].
Qed.

Lemma ensures_loaded_states run_id def : ensures (fun _ => True) (loaded_states run_id def).
Proof. unfold loaded_states. ens. intros r _. by apply ensures_ret. Qed.
Local Hint Resolve ensures_budget_left ensures_ready_now ensures_heartbeat ensures_record_result ensures_loaded_states : ensures.

Lemma ensures_run_handler id name ctx : ensures (fun _ => True) (run_handler registry id name ctx).
Proof.
  intros w Hw. unfold run_handler. destruct (registry !! id) as [h|] eqn:Hh; [|done].
  pose proof (Hreg id h ctx _ Hh Hw). by destruct (h ctx (w_store w)) as [s []].
Qed.

(** What a worker does with the outcome is a sound call too. *)
Definition outcome_typed (o : AttemptOutcome) : Prop :=
  from_option error_typed True (ao_error o) ∧
  match ao_action o with ReleaseEntry t => in_i64 t | AckEntry => True end.

Lemma ensures_poll run_id : ensures (from_option outcome_typed True) (poll_cancelled run_id).
Proof.
  unfold poll_cancelled. ens. intros r Hr. destruct r as [current|]; [|by apply ensures_ret].
  case_bool_decide; [|by apply ensures_ret]. ens. intros _ _. apply ensures_ret. split; [apply Hr|done].
Qed.
Local Hint Resolve ensures_run_handler ensures_poll : ensures.

Context (run : Run) (def : WorkflowDef) (Hrun : run_typed run).

Lemma ensures_execute_task run_id token lease_ms name :
  ensures (fun _ => True) (execute_task registry clock run_id run def token lease_ms name).
Proof.
  unfold execute_task. destruct (find_task def name) as [task|]; [|apply ensures_panic].
  ens. intros _ _. ens. intros tr Htr. ens. intros now Hnow.
  eapply ensures_bind; [apply ensures_put_task_run; sound|intros _ _]. ens. intros c _. ens. intros r _.
  eauto with ensures.
Qed.

Lemma ensures_execute_ready run_id token lease_ms ready : ∀ states executed,
  ensures (fun _ => True) (execute_ready registry clock run_id run def token lease_ms ready states executed).
Proof.
  induction ready as [|n ready IH]; intros states executed; cbn [execute_ready]; [by apply ensures_ret|].
  eapply ensures_bind; [apply ensures_execute_task|]. intros st _. apply IH.
Qed.

Lemma ensures_attempt_loop run_id token lease_ms fuel : ∀ states executed,
  ensures (fun e => match e with inl o => outcome_typed o | inr _ => True end)
    (attempt_loop registry clock fuel run_id run def token lease_ms states executed).
Proof.
  induction fuel as [|fuel IH]; intros states executed; cbn [attempt_loop]; [apply ensures_fuel|].
  ens. intros [o|] Ho; [by apply ensures_ret|]. ens. intros ready _. destruct ready; [by apply ensures_ret|].
  eapply ensures_bind; [apply ensures_execute_ready|]. intros [states' executed'] _. apply IH.
Qed.

Lemma ensures_persist run_id states l : ensures (fun _ => True) (persist_skipped clock run_id states l).
Proof.
  induction l as [|[n st] l IH]; cbn [persist_skipped]; [by apply ensures_ret|].
  eapply (ensures_bind _ (fun _ => True)); [|intros _ _; exact IH]. case_match; [|by apply ensures_ret].
  ens. intros tr Htr. ens. intros now Hnow. apply ensures_put_task_run. sound.
Qed.

Lemma planned_typed p attempts now planned : in_i64 now →
  next_attempt_at_ms powf rng p attempts true now seed = Some planned → opt_i64 planned.
Proof.
  intros Hnow. unfold next_attempt_at_ms. destruct (negb _); [by intros [= <-]|].
  destruct (next_delay _ _ _ _); [|done]. intros [= <-]. cbn. sound.
Qed.

Lemma fresh_error_typed message kind task :
  error_typed {| re_message := message; re_kind := kind; re_task := task; re_depth := 0; re_attempts := rn_attempts run |}.
Proof. split; [by unfold is_u8; cbn|apply Hrun]. Qed.
Local Hint Resolve fresh_error_typed : sound.

Lemma ensures_finalize states : ensures outcome_typed (finalize clock seed powf rng run def states).
Proof.
  unfold finalize. cbn zeta. destruct (negb (forallb _ _)); [apply ensures_throw|]. destruct (negb (existsb _ _)).
  { ens. intros _ _. ens. intros now Hnow. eapply ensures_bind; [apply ensures_put_run; sound|intros _ _].
    by apply ensures_ret. }
  eapply (ensures_bind _ (fun _ => True)).
  { destruct (names_with _ _); [by apply ensures_ret|]. ens. intros tr _. by apply ensures_ret. }
  intros reason _. eapply ensures_bind; [apply ensures_allM; intros x; apply ensures_budget_left|].
  intros ok _. destruct (_ && ok).
  - ens. intros _ _. ens. intros _ _. ens. intros now Hnow.
    destruct (next_attempt_at_ms _ _ _ _ _ _ _) as [planned|] eqn:Hp; [|apply ensures_panic].
    apply planned_typed in Hp; [|done]. ens. intros fallback Hf.
    assert (Hd : in_i64 (default fallback planned)) by (destruct planned; [exact Hp|exact Hf]).
    eapply ensures_bind; [apply ensures_put_run; sound|intros _ _]. by apply ensures_ret.
  - ens. intros _ _. ens. intros now Hnow. eapply ensures_bind; [apply ensures_put_run; sound|intros _ _].
    apply ensures_ret. split; [cbn; sound|done].
Qed.

Lemma ensures_time_out run_id : ensures outcome_typed (time_out clock run_id run).
Proof.
  unfold time_out. ens. intros _ _. ens. intros now Hnow. cbn zeta.
  eapply ensures_bind; [apply ensures_put_run; sound|intros _ _]. apply ensures_ret. split; [cbn; sound|done].
Qed.

Lemma ensures_attempt_tasks run_id token lease_ms :
  ensures outcome_typed (attempt_tasks registry clock seed powf rng run_id run def token lease_ms).
Proof.
  unfold attempt_tasks. ens. intros states _. ens. intros _ _.
  eapply ensures_bind; [apply ensures_attempt_loop|intros [o|st] Ho; [by apply ensures_ret|]].
  destruct (pending_to_skip _ st); [|apply ensures_fuel].
  eapply ensures_bind; [apply ensures_persist|intros _ _]. apply ensures_finalize.
Qed.
End Attempt.

Section Components.
Context {S : Type} `{Store S} (I : S → Prop) `{!Upholds sound I}.
Context (registry : gmap HandlerId (Handler S)) (clock : nat → Z) (seed : Z).
Context (powf : f64 → f64 → f64) (rng : Z → Z → Z).
Context (Hclock : ∀ n, in_i64 (clock n)).
Context (Hreg : ∀ id h ctx s, registry !! id = Some h → I s → I (h ctx s).1).

Lemma ensures_attempt run_id token lease_ms :
  ensures I outcome_typed (attempt_with_token registry clock seed powf rng run_id token lease_ms).
Proof.
  unfold attempt_with_token. eapply ensures_bind; [by apply (ensures_call I)|intros r Hr].
  eapply ensures_bind; [by apply ensures_or_throw|intros run Hrun].
  eapply ensures_bind; [by apply (ensures_call I)|intros d Hd].
  eapply ensures_bind; [by apply ensures_or_throw|intros rec Hrec].
  case_bool_decide; cbn [negb].
  - eapply (ensures_bind _ (fun _ => True)).
    { unfold deadline_passed. destruct (rn_deadline_at_ms run); [|by apply ensures_ret].
      eapply ensures_bind; [by apply ensures_now|intros now _]. by apply ensures_ret. }
    intros [] _; [by apply ensures_time_out|by apply ensures_attempt_tasks].
  - case_bool_decide; [|apply ensures_throw]. apply ensures_ret. split; [apply Hrun|done].
Qed.

Lemma worker_job_sound job (w : World S) : I (w_store w) →
  I (w_store (worker_job registry clock seed powf rng job w)).
Proof.
  intros Hw. unfold worker_job.
  destruct (ensures_attempt (jb_run_id job) (Some (jb_token job)) 60000 w Hw) as [Hi Ho].
  destruct (attempt_with_token _ _ _ _ _ _ _ _ _) as [w' [o|f]]; cbn [fst snd] in Hi, Ho.
  - destruct (Ho o eq_refl) as [_ Ht]. unfold apply_action. destruct (ao_action o); cbn.
    + exact (proj1 (upholds (D := sound) _ (Ack _ _) _ Hi Logic.I)).
    + exact (proj1 (upholds (D := sound) _ (Release _ _ _) _ Hi Ht)).
  - cbn. exact (proj1 (upholds (D := sound) _ (Release _ _ _) _ Hi (Hclock _))).
Qed.

(** A validated definition never makes the backoff panic. *)
Lemma sound_policy_calm p : policy_sound p → base_delay_ms p ≤ effective_max p.
Proof.
  intros [Ht Hv]. apply policy_validate_valid in Hv as (_&Hb&Hm&_); [|done]. unfold effective_max. lia.
Qed.

Lemma attempt_panics_by_handler run_id token lease_ms (w : World S) : I (w_store w) →
  let r := attempt_with_token registry clock seed powf rng run_id token lease_ms w in
  r.2 = Abort Panicked → ∃ c, c ∈ w_log r.1 ∧ hc_outcome c = Unwound.
Proof.
  intros Hw. cbn zeta. intros Hp. destruct (attempt_ends registry clock seed powf rng run_id token lease_ms w) as [_ Hc].
  destruct (Hc Hp) as [|(run&rec&Hrun&Hrec&Hlt)]; [done|].
  destruct (upholds (D := sound) _ (GetRun run_id) _ Hw Logic.I) as [Hi _].
  destruct (upholds (D := sound) _ (GetWorkflow (rn_tenant run) (rn_def_name run)) _ Hi Logic.I) as [_ Ha].
  rewrite Hrec in Ha. pose proof (sound_policy_calm _ (df_retry _ Ha)). lia.
Qed.

(** *** The dispatcher *)

Context (fresh : nat → ClaimToken) (others : nat → list AnyCall).
Context (Hothers : ∀ n, Forall (d_any sound) (others n)).

Lemma dp_call_sound {A} (c : StoreCall A) (d : Dispatch S) : sound_call c → I (dp_store d) →
  I (dp_store (dp_call others c d).1) ∧ sound_answer c (dp_call others c d).2.
Proof.
  intros Hc Hd. assert (Hs : I (run_calls (others (dp_calls d)) (dp_store d))) by (by apply (run_calls_upholds sound)).
  pose proof (upholds (D := sound) A c _ Hs Hc) as [Hi Ha]. unfold dp_call.
  by destruct (call c (run_calls _ _)).
Qed.

Lemma dispatch_entry_sound now lease e (d : Dispatch S) st : I (dp_store d) →
  I (dp_store (dispatch_entry clock fresh others now lease e d st).1).
Proof.
  intros Hd. apply (dispatch_entry_ind clock fresh others (fun d => I (dp_store d))); try done.
  - intros d' Hd'. by apply dp_call_sound.
  - intros d' Hd'. by apply dp_call_sound.
  - intros d' Hd'. by apply dp_call_sound.
  - intros run t d' Hd' (d0&Hd0&Hget).
    destruct (dp_call_sound (GetRun (qe_run_id e)) d0 Logic.I Hd0) as [_ Ha]. rewrite Hget in Ha. cbn in Ha.
    apply dp_call_sound; [|done]. cbn. sound.
  - intros job d' Hd'. unfold dp_submit. by destruct (submit _ _).
Qed.

Lemma dispatch_all_sound now lease ready : ∀ (d : Dispatch S) st, I (dp_store d) →
  I (dp_store (dispatch_all clock fresh others now lease ready d st).1).
Proof.
  induction ready as [|e ready IH]; intros d st Hd; cbn [dispatch_all]; [done|].
  pose proof (dispatch_entry_sound now lease e d st Hd) as He.
  destruct (dispatch_entry _ _ _ _ _ e d st) as [d1 st1]. by apply IH.
Qed.

Lemma step_sound batch lease (d : Dispatch S) : I (dp_store d) →
  I (dp_store (step clock fresh others batch lease d).1).
Proof.
  intros Hd. unfold step. change (dp_now clock d) with ((dp_now clock d).1, clock (dp_reads d)). cbv beta iota.
  pose proof (dp_call_sound (ScanReady (clock (dp_reads d)) batch) (dp_now clock d).1 Logic.I Hd) as [Hs _].
  destruct (dp_call others _ _) as [d1 [ready|e]]; cbn [fst] in Hs; [|done]. by apply dispatch_all_sound.
Qed.
End Components.
