(* ===== verification/ExecutorRaces.v ===== *)
(** * Attempts while other threads act

    The executor reads the run once and writes it once, at the end; between its store
    calls other threads change the store as they like. What it leaves behind is decided
    by that last write: on any store, an attempt that does not report [Cancelled] has
    just written a run with the reported status ([attempt_writes]). So the outcome and
    the store agree under every interference ([last_write_wins]), and so a cancellation
    that arrives after the last poll is overwritten; when the attempt asks for a retry,
    the run is [Queued] without a queue entry and is never dispatched again
    ([cancel_race_strands]). The dispatcher reads and writes a run in the same way and
    overwrites a cancellation that lands in between ([dispatch_overwrites_cancel]). *)
From S2P Require Import Prelude RustStrings Ids Status Errors StateMachine Float64 Json RetryPolicy Workflow Dag.
From S2P Require Import Store Interference MemoryStore StoreLaws Pick Executor ExecutorLogic ExecutorFrame.
From S2P Require Import ExecutorOrder ExecutorOutcome ExecutorDefects Pool.
Local Open Scope Z_scope.

Section Writes.
Context {S : Type} `{Store S} (P : S → Prop).
Context (registry : gmap HandlerId (Handler S)) (clock : nat → Z) (seed : Z).
Context (powf : f64 → f64 → f64) (rng : Z → Z → Z) (rid : RunId) (token : option ClaimToken) (lease_ms : Z).
Context (Hquiet : quiet P registry rid token).

(** The last thing done to the store, up to then with [P], is the write of the run that
    [o] reports. *)
Definition written (run : Run) (w' : World S) (o : AttemptOutcome) : Prop :=
  ∃ s r, P s ∧ call (PutRun r) s = (w_store w', Ok tt) ∧ verdict run r o.

Definition reported_cancelled (o : AttemptOutcome) : Prop :=
  ao_run_status o = RunStatus.Cancelled ∧ ao_action o = AckEntry.

Lemma put_run_written run r o (w w' : World S) o' : P (w_store w) →
  (let! _ := put_run r in mret o) w = (w', Val o') → verdict run r o → written run w' o'.
Proof.
  intros HP Hrun Hv. apply mbind_inv in Hrun as (w1&[]&Hp&Hrun). unfold mret in Hrun. simplify_eq.
  unfold put_run in Hp. apply mbind_inv in Hp as (w2&u&Hc&Hp). unfold do_call in Hc.
  destruct (call (PutRun r) (w_store w)) as [s u'] eqn:Hs. simplify_eq. destruct u as [[]|]; [|done].
  unfold or_throw, mret in Hp. simplify_eq. by exists (w_store w), r.
Qed.

(** One step that keeps [P], then the rest. *)
Lemma kept_then {A B} (c : M S A) (k : A → M S B) w w' b : kept P c → P (w_store w) →
  mbind c k w = (w', Val b) → ∃ w1 a, c w = (w1, Val a) ∧ P (w_store w1) ∧ k a w1 = (w', Val b).
Proof.
  intros Hc Hw Hrun. apply mbind_inv in Hrun as (w1&a&Ha&Hrun). exists w1, a. split_and!; [done| |done].
  specialize (Hc w Hw). by rewrite Ha in Hc.
Qed.

Local Hint Extern 1 (kept P (load_task _ _)) => eapply kept_load_task; exact Hquiet : kept.
Local Hint Extern 1 (kept P (budget_left _ _ _)) => eapply kept_budget_left; exact Hquiet : kept.

Lemma finalize_written run def states w w' o : P (w_store w) →
  finalize clock seed powf rng run def states w = (w', Val o) → written run w' o.
Proof.
  intros HP Hrun. unfold finalize in Hrun. destruct (forallb _ _); cbn [negb] in Hrun; [|done].
  destruct (existsb _ _); cbn [negb] in Hrun.
  - apply kept_then in Hrun as (w1&reason&_&HP1&Hrun); [|destruct (names_with _ _); kept|done].
    apply kept_then in Hrun as (w2&ok&_&HP2&Hrun); [|apply kept_allM; intros; kept|done]. destruct (_ && ok).
    + apply kept_then in Hrun as (w3&?&_&HP3&Hrun); [|kept|done]. apply kept_then in Hrun as (w4&?&_&HP4&Hrun); [|kept|done].
      apply kept_then in Hrun as (w5&now&_&HP5&Hrun); [|kept|done]. destruct (next_attempt_at_ms _ _ _ _ _ _ _); [|done].
      apply kept_then in Hrun as (w6&?&_&HP6&Hrun); [|kept|done]. eapply put_run_written; [|exact Hrun|by repeat split]. done.
    + apply kept_then in Hrun as (w3&?&_&HP3&Hrun); [|kept|done]. apply kept_then in Hrun as (w4&?&_&HP4&Hrun); [|kept|done].
      eapply put_run_written; [|exact Hrun|by repeat split]. done.
  - apply kept_then in Hrun as (w3&?&_&HP3&Hrun); [|kept|done]. apply kept_then in Hrun as (w4&?&_&HP4&Hrun); [|kept|done].
    eapply put_run_written; [|exact Hrun|by repeat split]. done.
Qed.

Lemma poll_reports run_id w w' o : poll_cancelled run_id w = (w', Val (Some o)) → reported_cancelled o.
Proof.
  intros Hrun. unfold poll_cancelled in Hrun. apply mbind_inv in Hrun as (w1&[cur|]&_&Hrun); [|done].
  case_bool_decide; [|done]. apply mbind_inv in Hrun as (w2&?&_&Hrun). unfold mret in Hrun. by simplify_eq.
Qed.

Lemma attempt_loop_reports run_id run def fuel : ∀ states executed w w' o,
  attempt_loop registry clock fuel run_id run def token lease_ms states executed w = (w', Val (inl o)) →
  reported_cancelled o.
Proof.
  induction fuel as [|fuel IH]; intros states executed w w' o Hrun; cbn [attempt_loop] in Hrun; [done|].
  apply mbind_inv in Hrun as (w1&[o'|]&Hp&Hrun).
  - unfold mret in Hrun. simplify_eq. by eapply poll_reports.
  - apply mbind_inv in Hrun as (w2&[|n ready]&_&Hrun); [done|].
    apply mbind_inv in Hrun as (w3&[st ex]&_&Hrun). by eapply IH.
Qed.

Lemma attempt_tasks_written run def w w' o : P (w_store w) → rn_id run = rid →
  attempt_tasks registry clock seed powf rng rid run def token lease_ms w = (w', Val o) →
  reported_cancelled o ∨ written run w' o.
Proof.
  intros HP Hid Ha. unfold attempt_tasks in Ha.
  apply kept_then in Ha as (w6&states&_&HP6&Ha); [|eapply kept_loaded_states, Hquiet|done].
  apply kept_then in Ha as (w7&?&_&HP7&Ha); [|kept|done].
  apply kept_then in Ha as (w8&[o'|st]&Hl&HP8&Ha); [..|by eapply kept_attempt_loop|done].
  - unfold mret in Ha. simplify_eq. left. by eapply attempt_loop_reports.
  - right. destruct (pending_to_skip _ st); [|done].
    apply kept_then in Ha as (w9&?&_&HP9&Ha); [|by eapply kept_persist|done]. by eapply finalize_written.
Qed.

(** Holds on every store: failing ones, and ones other threads change at will. *)
Lemma attempt_writes w w' o : P (w_store w) →
  (∀ run, (call (GetRun rid) (w_store w)).2 = Ok run → rn_id run = rid) →
  attempt_with_token registry clock seed powf rng rid token lease_ms w = (w', Val o) →
  ∃ run, (call (GetRun rid) (w_store w)).2 = Ok run ∧
    (reported_cancelled o ∨ rn_status run = RunStatus.Running ∧ written run w' o).
Proof.
  intros HP Hread Ha. pose proof attempt_tasks_written as Htasks. unfold attempt_with_token in Ha.
  apply kept_then in Ha as (w1&r&Hg&HP1&Ha); [|by eapply kept_call; [exact Hquiet|]|done].
  unfold do_call in Hg. destruct (call (GetRun rid) (w_store w)) as [s r'] eqn:Hs. simplify_eq.
  destruct r as [run|]; [|done]. exists run. split; [done|].
  apply kept_then in Ha as (w2&run'&Hrun&HP2&Ha); [|kept|done].
  unfold or_throw, mret in Hrun. simplify_eq.
  apply kept_then in Ha as (w3&d&_&HP3&Ha); [|by eapply kept_call; [exact Hquiet|]|done].
  apply kept_then in Ha as (w4&rec&_&HP4&Ha); [|kept|done].
  case_bool_decide as Hst; cbn [negb] in Ha.
  - apply kept_then in Ha as (w5&[]&_&HP5&Ha); [..|unfold deadline_passed; kept|done].
    + right. split; [done|]. unfold time_out in Ha. apply kept_then in Ha as (w6&?&_&HP6&Ha); [|kept|done].
      apply kept_then in Ha as (w7&?&_&HP7&Ha); [|kept|done]. eapply put_run_written; [|exact Ha|by repeat split]. done.
    + destruct (Htasks _ _ _ _ _ HP5 (Hread _ eq_refl) Ha); auto.
  - case_bool_decide; [|done]. unfold mret in Ha. simplify_eq. by left.
Qed.
End Writes.

(** ** The in-memory store under interference *)

Definition no_enqueue (run_id : RunId) (c : AnyCall) : Prop :=
  match c with Any (Enqueue e) => qe_run_id e ≠ run_id | _ => True end.

Section Memory.
Context `{HashIter}.

Lemma get_run_id cs id s run : mem_wf s → mem_get_run id (run_calls cs s) = Ok run → rn_id run = id.
Proof.
  intros Hwf. pose proof (mem_run_calls_wf cs s Hwf) as Hwf'. unfold mem_get_run.
  destruct (ms_runs _ !! id) as [r|] eqn:Hr; [|done]. intros [= <-]. exact (wf_runs _ Hwf' id r Hr).
Qed.

Lemma interfered_get_run id (x : Interfered MemoryState) run : mem_wf (if_store x) →
  (call (GetRun id) x).2 = Ok run → rn_id run = id.
Proof. apply get_run_id. Qed.

Lemma interfered_put_run r (x x' : Interfered MemoryState) u : call (PutRun r) x = (x', u) →
  ms_runs (if_store x') !! rn_id r = Some r.
Proof. intros [= <- _]. apply lookup_insert_eq. Qed.

Lemma interfered_call_wf {A} (c : StoreCall A) (x : Interfered MemoryState) :
  mem_wf (if_store x) → mem_wf (if_store (call c x).1).
Proof.
  intros Hwf. pose proof (mem_call_wf c _ (mem_run_calls_wf (default [] (head (if_script x))) (if_store x) Hwf)) as Hc.
  unfold call, Interfered_Store. unfold call in Hc |- *. by destruct (MemoryStore A c _).
Qed.

Lemma interfered_attempt_wf registry clock seed powf rng run_id token lease_ms (w : World (Interfered MemoryState)) :
  (∀ id h ctx x, registry !! id = Some h → mem_wf (if_store x) → mem_wf (if_store (h ctx x).1)) →
  mem_wf (if_store (w_store w)) →
  mem_wf (if_store (w_store (attempt_with_token registry clock seed powf rng run_id token lease_ms w).1)).
Proof.
  intros Hreg. apply (kept_attempt (fun x => mem_wf (if_store x))); [|intros x run; apply interfered_get_run].
  split; [|exact Hreg]. intros A c x _. apply interfered_call_wf.
Qed.

(** Nothing but an [Enqueue] of the run gives it an entry. *)
Lemma entry_stays_gone run_id cs : ∀ s, Forall (no_enqueue run_id) cs → ms_queue s !! run_id = None →
  ms_queue (run_calls cs s) !! run_id = None.
Proof.
  induction cs as [|[A c] cs IH]; intros s Hcs Hs; [done|]. apply Forall_cons in Hcs as [Hc Hcs].
  cbn [run_calls]. apply IH; [done|]. clear IH Hcs cs.
  assert (Hown : ∀ id token e, owned_entry id token s = Ok e → id ≠ run_id).
  { intros id token e He ->. apply owned_entry_ok in He as [He _]. by rewrite He in Hs. }
  destruct c; cbn [call MemoryStore mem_call fst no_enqueue] in *; try done.
  - unfold mem_update_workflow_version. by repeat case_match.
  - unfold mem_enqueue. case_match; [done|]. cbn. by rewrite lookup_insert_ne.
  - unfold mem_claim. destruct (ms_queue s !! run_id0) as [e|] eqn:He; [|done]. repeat case_match; try done. cbn.
    destruct (decide (run_id0 = run_id)) as [->|]; [by rewrite He in Hs|by rewrite lookup_insert_ne].
  - unfold mem_ack. destruct (owned_entry run_id0 token s); [|done]. cbn. by rewrite lookup_delete_None; right.
  - unfold mem_release. destruct (owned_entry run_id0 token s) eqn:He; [|done]. cbn. rewrite lookup_insert_ne; [done|by eapply Hown].
  - unfold mem_failclaim. destruct (owned_entry run_id0 token s) eqn:He; [|done]. cbn. rewrite lookup_insert_ne; [done|by eapply Hown].
  - unfold mem_renew_lease. destruct (ms_queue s !! run_id0) as [e|] eqn:He; [|done]. repeat case_match; try done. cbn.
    destruct (decide (run_id0 = run_id)) as [->|]; [by rewrite He in Hs|by rewrite lookup_insert_ne].
  - unfold mem_cancel_run. repeat case_match; try done. cbn. by rewrite lookup_delete_None; right.
  - pose proof (mem_recover_queue now_ms s run_id) as Hr. rewrite Hs in Hr.
    destruct (mem_recover_expired_leases now_ms s). cbn in *. rewrite Hr. by case_decide.
Qed.

(** *** A cancellation while an attempt runs *)

(** The other threads leave the record of the run alone, but for cancelling it, and do not
    enqueue it. *)
Definition leaves_run (run_id : RunId) (c : AnyCall) : Prop :=
  match c with
  | Any (Enqueue e) => qe_run_id e ≠ run_id
  | Any (PutRun r) => rn_id r ≠ run_id
  | Any (DeleteRun id) => id ≠ run_id
  | _ => True
  end.

Definition cancels (run_id : RunId) (c : AnyCall) : Prop := ∃ t, c = Any (CancelRun run_id t).

(** The run can still be cancelled. *)
Definition cancellable (run_id : RunId) (s : MemoryState) : Prop :=
  ∃ r, ms_runs s !! run_id = Some r ∧ Run_is_terminal r = false.

Lemma leaves_no_enqueue run_id c : leaves_run run_id c → no_enqueue run_id c.
Proof. destruct c as [A []]; done. Qed.

(** A call of another thread cancels the run and removes its entry, or leaves its record. *)
Lemma race_call run_id {A} (c : StoreCall A) s : leaves_run run_id (Any c) → cancellable run_id s →
  cancels run_id (Any c) ∧ ms_queue (call c s).1 !! run_id = None ∨
  cancellable run_id (call c s).1 ∧ ¬ cancels run_id (Any c).
Proof.
  intros Hc (r&Hr&Ht).
  assert (Hkeep : ms_runs (call c s).1 !! run_id = ms_runs s !! run_id → ¬ cancels run_id (Any c) →
    cancels run_id (Any c) ∧ ms_queue (call c s).1 !! run_id = None ∨
    cancellable run_id (call c s).1 ∧ ¬ cancels run_id (Any c))
    by (intros Hk Hn; right; split; [exists r; by rewrite Hk|done]).
  destruct c; try (apply Hkeep; [|by intros (?&?)]); cbn [call MemoryStore mem_call fst leaves_run] in *; try done.
  - unfold mem_update_workflow_version. by repeat case_match.
  - by apply lookup_insert_ne.
  - unfold mem_delete_run. cbn. by rewrite lookup_delete_ne.
  - unfold mem_enqueue. by case_match.
  - unfold mem_claim. by repeat case_match.
  - unfold mem_ack. by case_match.
  - unfold mem_release. by case_match.
  - unfold mem_failclaim. by case_match.
  - unfold mem_renew_lease. by repeat case_match.
  - destruct (decide (run_id0 = run_id)) as [->|Hne].
    + left. split; [by eexists|]. unfold mem_cancel_run. rewrite Hr, Ht. apply lookup_delete_eq.
    + apply Hkeep; [|intros (?&[= ?])]; [|done]. unfold mem_cancel_run. repeat case_match; try done. cbn.
      by rewrite lookup_insert_ne.
  - destruct (mem_recover_other now_ms s) as (Hr'&_).
    destruct (mem_recover_expired_leases now_ms s). cbn in *. by rewrite Hr'.
Qed.

(** Either the entry is gone, or the run can be cancelled and one of [rest] does it. *)
Definition cancel_due (run_id : RunId) (rest : list AnyCall) (s : MemoryState) : Prop :=
  ms_queue s !! run_id = None ∨ cancellable run_id s ∧ Exists (cancels run_id) rest.

Lemma race_calls run_id cs rest : ∀ s, Forall (leaves_run run_id) cs → cancel_due run_id (cs ++ rest) s →
  cancel_due run_id rest (run_calls cs s).
Proof.
  induction cs as [|[A c] cs IH]; intros s Hcs Hs; [done|]. pose proof Hcs as [Hc Hcs']%Forall_cons. cbn [run_calls].
  apply IH; [done|]. destruct Hs as [Hgone|[Hrun Hex]].
  - left. apply (entry_stays_gone run_id [Any c] s); [|done]. constructor; [by apply leaves_no_enqueue|done].
  - destruct (race_call run_id c s Hc Hrun) as [[_ Hgone]|[Hrun' Hno]]; [by left|].
    right. split; [done|]. by apply Exists_cons in Hex as [?|?].
Qed.

(** What an attempt keeps before its last write while the others race with it. *)
Definition racing (run_id : RunId) (x : Interfered MemoryState) : Prop :=
  mem_wf (if_store x) ∧ Forall (Forall (leaves_run run_id)) (if_script x) ∧
  cancel_due run_id (concat (if_script x)) (if_store x).

Lemma interfered_race run_id {A} (c : StoreCall A) (x : Interfered MemoryState) : racing run_id x →
  let s := run_calls (default [] (head (if_script x))) (if_store x) in
  mem_wf s ∧ cancel_due run_id (concat (tail (if_script x))) s ∧
  Forall (Forall (leaves_run run_id)) (tail (if_script x)).
Proof.
  intros (Hwf&Hall&Hdue). destruct x as [s [|cs script]]; cbn [if_store if_script head tail default] in *; [done|].
  apply Forall_cons in Hall as [Hcs Hall]. split_and!; [by apply mem_run_calls_wf| |done].
  cbn [id]. apply race_calls; [done|exact Hdue].
Qed.

Lemma racing_call run_id token {A} (c : StoreCall A) (x : Interfered MemoryState) :
  quiet_call run_id token c → racing run_id x → racing run_id (call c x).1.
Proof.
  intros Hc Hx. destruct (interfered_race run_id c x Hx) as (Hwf&Hdue&Hall).
  unfold call, Interfered_Store. set (s := run_calls _ _) in *.
  pose proof (mem_call_wf c s Hwf) as Hwf'.
  assert (Hdue' : cancel_due run_id (concat (tail (if_script x))) (call c s).1).
  { apply (race_calls run_id [Any c]); [|destruct Hdue as [|[? ?]]; [by left|right; split; [done|by apply Exists_cons; right]]].
    constructor; [|done]. by destruct c. }
  fold (call c s). destruct (call c s) as [s' a]. cbn [fst] in *. by split_and!.
Qed.

Lemma scan_needs_entry run_id now limit s e : mem_wf s → ms_queue s !! run_id = None →
  e ∈ mem_scan_ready now limit s → qe_run_id e ≠ run_id.
Proof.
  intros Hwf Hs He Hid. unfold mem_scan_ready in He. apply elem_of_take in He as (i&He&_).
  apply list_elem_of_lookup_2, sort_by_elem, list_elem_of_In, filter_In in He as [He _].
  apply list_elem_of_In, hash_values_elem in He as [k Hk]. rewrite (wf_queue _ Hwf k e Hk) in Hid. subst k.
  by rewrite Hk in Hs.
Qed.
End Memory.

(** ** Properties *)

(** C17. The outcome and the store agree whatever other threads do, and whatever the handlers
    do to the store: an attempt that returns without reporting [Cancelled] leaves the run
    stored with the status and error it reports. So a cancellation that was accepted after
    the last poll is gone from the store. *)
Theorem last_write_wins `{HashIter} registry clock seed powf rng run_id token lease_ms
    (w w' : World (Interfered MemoryState)) o :
  mem_wf (if_store (w_store w)) →
  attempt_with_token registry clock seed powf rng run_id token lease_ms w = (w', Val o) →
  ao_run_status o ≠ RunStatus.Cancelled →
  ∃ r, ms_runs (if_store (w_store w')) !! run_id = Some r ∧
    rn_status r = ao_run_status o ∧ rn_error r = ao_error o ∧
    match ao_action o with
    | AckEntry => run_is_terminal (ao_run_status o) = true
    | ReleaseEntry t => ao_run_status o = RunStatus.Queued ∧ rn_next_attempt_at_ms r = Some t
    end.
Proof.
  intros Hwf Ha Hnc.
  destruct (attempt_writes (fun _ => True) registry clock seed powf rng run_id token lease_ms ltac:(by split) w w' o I
    ltac:(intros run; by apply interfered_get_run) Ha) as (run&Hg&[[Hc _]|[_ (s&r&_&Hp&Hv)]]); [done|].
  apply interfered_get_run in Hg; [|done]. destruct Hv as (Hid&Hst&He&Hact). exists r.
  apply interfered_put_run in Hp. rewrite Hid, Hg in Hp. split_and!; try done.
  destruct (ao_action o); [done|]. by destruct Hact as (?&?&_).
Qed.

(** C39. A cancellation that lands while an attempt runs can lose the run. The store is the in-memory
    one; the run is running when a worker starts on its job; while the attempt runs the other
    threads make any calls, among them a cancellation of the run, short of writing, deleting
    or enqueuing it themselves; the handlers leave the run, its entry and the other threads'
    calls alone. If the attempt then ends in a retry (it polled for the last time before the
    cancellation, and wrote the run after it), the worker leaves the run [Queued] without a
    queue entry, and no later sequence of calls short of a new [Enqueue] of its id makes a
    scan return it. *)
Theorem cancel_race_strands `{HashIter} registry clock seed powf rng job r0 (w w1 : World (Interfered MemoryState)) o t :
  let rid := jb_run_id job in
  mem_wf (if_store (w_store w)) →
  (∀ id h ctx x, registry !! id = Some h → mem_wf (if_store x) →
    mem_wf (if_store (h ctx x).1) ∧ ms_runs (if_store (h ctx x).1) !! rid = ms_runs (if_store x) !! rid ∧
    ms_queue (if_store (h ctx x).1) !! rid = ms_queue (if_store x) !! rid ∧ if_script (h ctx x).1 = if_script x) →
  ms_runs (if_store (w_store w)) !! rid = Some r0 → rn_status r0 = RunStatus.Running →
  Forall (Forall (leaves_run rid)) (if_script (w_store w)) →
  Exists (cancels rid) (concat (if_script (w_store w))) →
  attempt_with_token registry clock seed powf rng rid (Some (jb_token job)) 60000 w = (w1, Val o) →
  if_script (w_store w1) = [] → ao_action o = ReleaseEntry t →
  let s := if_store (w_store (worker_job registry clock seed powf rng job w)) in
  (∃ r, ms_runs s !! rid = Some r ∧ rn_status r = RunStatus.Queued) ∧ ms_queue s !! rid = None ∧
  ∀ cs now limit, Forall (no_enqueue rid) cs →
    ∀ e, e ∈ mem_scan_ready now limit (run_calls cs s) → qe_run_id e ≠ rid.
Proof.
  intros rid Hwf Hreg Hr0 Hrunning Hall Hcancel Ha Hscript Hact. cbn zeta.
  assert (Hstart : racing rid (w_store w)).
  { split_and!; [done..|]. right. split; [|done]. exists r0. split; [done|].
    unfold Run_is_terminal. by rewrite Hrunning. }
  assert (Hquiet : quiet (racing rid) registry rid (Some (jb_token job))).
  { split; [intros A c x; apply racing_call|]. intros id h ctx x Hh (Hx&Hs&Hd).
    destruct (Hreg id h ctx x Hh Hx) as (Hx'&Hruns&Hq&Hscr). unfold racing, cancel_due, cancellable in *.
    by rewrite Hruns, Hq, Hscr. }
  assert (Hreg' : ∀ id h ctx x, registry !! id = Some h → mem_wf (if_store x) → mem_wf (if_store (h ctx x).1))
    by (intros id h ctx x Hh Hx; by apply (Hreg id h ctx x)).
  pose proof (interfered_attempt_wf registry clock seed powf rng rid (Some (jb_token job)) 60000 w Hreg' Hwf) as Hwf1.
  rewrite Ha in Hwf1. unfold worker_job. fold rid. rewrite Ha. unfold apply_action. rewrite Hact. fold rid.
  destruct (attempt_writes (racing rid) registry clock seed powf rng rid (Some (jb_token job)) 60000 Hquiet w w1 o
    Hstart ltac:(intros run; by apply interfered_get_run) Ha)
    as (run&Hg&[[_ Hc]|[_ (x&r&Hx&Hp&Hv)]]); [by rewrite Hact in Hc|].
  apply interfered_get_run in Hg; [|done]. destruct Hv as (Hid&Hst&_&Hv). rewrite Hact in Hv. destruct Hv as (Hq&_&_).
  assert (Hgone : ms_queue (if_store (w_store w1)) !! rid = None).
  { destruct (interfered_race rid (PutRun r) x Hx) as (_&Hdue&_). assert (Hw1 : w_store w1 = (call (PutRun r) x).1) by (by rewrite Hp).
    rewrite Hw1 in Hscript |- *. cbn in Hscript |- *. rewrite Hscript in Hdue.
    by destruct Hdue as [|[_ []%Exists_nil]]. }
  apply interfered_put_run in Hp. rewrite Hid, Hg in Hp.
  assert (Hrel : if_store (w_store (set_store (call (Release rid (jb_token job) t) (w_store w1)).1 w1))
    = if_store (w_store w1)).
  { destruct w1 as [[s script] reads cancel log]. cbn in *. subst script.
    transitivity (mem_release rid (jb_token job) t s).1.
    - unfold call, Interfered_Store. cbn. by destruct (mem_release _ _ _ s).
    - unfold mem_release, owned_entry. by rewrite Hgone. }
  rewrite Hrel. split; [exists r; by rewrite <-Hq|]. split; [done|]. intros cs now limit Hcs e.
  apply scan_needs_entry; [by apply mem_run_calls_wf|by apply entry_stays_gone].
Qed.

(** *** The race *)

(** A claimed run of one task whose handler fails, with attempts left. *)
Definition raced_store : MemoryState :=
  run_calls [Any (PutWorkflow (def_with [bare_task "a" []]));
    Any (PutRun (run_set_status RunStatus.Running sample_run));
    Any (Enqueue (fresh_entry "rn_0" 0)); Any (Claim "rn_0" "t" 0 1000)] mem_new.

(** Another thread cancels the run before the executor's thirteenth call, its write. *)
Definition cancel_late : list (list AnyCall) := replicate 12 [] ++ [[Any (CancelRun "rn_0" 50)]].

Definition raced : World (Interfered MemoryState) := world0 {| if_store := raced_store; if_script := cancel_late |}.

Definition raced_attempt : World (Interfered MemoryState) * outcome AttemptOutcome :=
  attempt_with_token reject_registry (fun n => Z.of_nat n) 0 (fun x _ => x) (fun _ u => u) "rn_0" (Some "t"%string) 60000 raced.

Definition raced_job : Job := {| jb_run_id := "rn_0"; jb_token := "t" |}.

Lemma raced_wf : mem_wf (if_store (w_store raced)).
Proof. apply mem_run_calls_wf, mem_new_wf. Qed.

Lemma last_write_wins_witness :
  (call (CancelRun "rn_0" 50) raced_store).2 = Ok true ∧
  ∃ r, ms_runs (if_store (w_store raced_attempt.1)) !! "rn_0"%string = Some r ∧ rn_status r = RunStatus.Queued.
Proof.
  split; [vm_compute; reflexivity|].
  destruct (last_write_wins reject_registry (fun n => Z.of_nat n) 0 (fun x _ => x) (fun _ u => u) "rn_0"
    (Some "t"%string) 60000 raced raced_attempt.1
    {| ao_run_status := RunStatus.Queued; ao_failed_tasks := ["a"%string]; ao_action := ReleaseEntry 13; ao_error := None |})
    as (r&Hr&Hst&_).
  - exact raced_wf.
  - vm_compute. reflexivity.
  - discriminate.
  - exists r. split; [exact Hr|exact Hst].
Defined.

Lemma cancel_race_strands_witness :
  let s := if_store (w_store (worker_job reject_registry (fun n => Z.of_nat n) 0 (fun x _ => x) (fun _ u => u) raced_job raced)) in
  (∃ r, ms_runs s !! "rn_0"%string = Some r ∧ rn_status r = RunStatus.Queued) ∧ ms_queue s !! "rn_0"%string = None ∧
  ∀ cs now limit, Forall (no_enqueue "rn_0") cs →
    ∀ e, e ∈ mem_scan_ready now limit (run_calls cs s) → qe_run_id e ≠ "rn_0"%string.
Proof.
  apply (cancel_race_strands reject_registry (fun n => Z.of_nat n) 0 (fun x _ => x) (fun _ u => u) raced_job
    (run_set_status RunStatus.Running sample_run) raced raced_attempt.1
    {| ao_run_status := RunStatus.Queued; ao_failed_tasks := ["a"%string]; ao_action := ReleaseEntry 13; ao_error := None |} 13).
  - exact raced_wf.
  - intros id h ctx x Hh. unfold reject_registry in Hh. by apply lookup_singleton_Some in Hh as [_ <-].
  - vm_compute. reflexivity.
  - reflexivity.
  - repeat constructor.
  - apply Exists_cons. left. by exists 50.
  - vm_compute. reflexivity.
  - vm_compute. reflexivity.
  - reflexivity.
Defined.

(** ** The dispatcher *)

(** The dispatcher's transition is a read and a write as well: a run it read as [Queued]
    is stored as [Running] whatever other threads did in between. *)
Lemma mark_running_overwrites `{HashIter} clock others run_id run (d : Dispatch MemoryState) :
  mem_wf (dp_store d) → (dp_call others (GetRun run_id) d).2 = Ok run → rn_status run = RunStatus.Queued →
  let '(d', r) := mark_running clock others run_id d in
  r = Ok tt ∧ ∃ n, ms_runs (dp_store d') !! run_id = Some (run_set_started_at_ms (Some (clock n)) (run_set_status RunStatus.Running run)).
Proof.
  intros Hwf Hg Hq. pose proof (get_run_id _ _ _ _ Hwf Hg) as Hid. unfold mark_running.
  destruct (dp_call others (GetRun run_id) d) as [d1 r]. cbn in Hg. subst r. rewrite Hq. cbn.
  split; [done|]. exists (dp_reads d1). rewrite <-Hid. apply lookup_insert_eq.
Qed.

(** A cancellation that lands between the two is answered with success and lost: the run
    is [Running], counted as claimed, and the worker that takes the job runs it to the
    end. *)
Definition cancel_before_write (n : nat) : list AnyCall :=
  if bool_decide (n = 3%nat) then [Any (CancelRun "rn_0" 7)] else [].

Definition cancelled_dispatch : Dispatch MemoryState * DispatchStats :=
  step (fun n => Z.of_nat n + 5) unary_token cancel_before_write 10 1000 (idle_dispatch queued_state).

Lemma dispatch_overwrites_cancel :
  (call (CancelRun "rn_0" 7) queued_state).2 = Ok true ∧ claimed cancelled_dispatch.2 = 1%nat ∧
  rn_status <$> ms_runs (dp_store cancelled_dispatch.1) !! "rn_0"%string = Some RunStatus.Running ∧
  rn_status <$> ms_runs (w_store (worker_job noop_registry (fun n => Z.of_nat n) 0 (fun x _ => x) (fun _ u => u)
    {| jb_run_id := "rn_0"; jb_token := "t" |} (world0 (dp_store cancelled_dispatch.1)))) !! "rn_0"%string = Some RunStatus.Succeeded.
Proof. vm_compute. auto. Qed.
