(* ===== verification/PoolEnd.v ===== *)
(** * From the queue to success

    The dispatcher, the worker and the executor composed on the in-memory store: a
    queued run of a valid definition is dispatched, executed and removed from the
    queue. Also the treatment of an entry whose run cannot be dispatched. *)
From S2P Require Import Prelude RustStrings Ids Status Errors StateMachine Float64 Json RetryPolicy.
From S2P Require Import Workflow Dag Store MemoryStore LruStore StoreLaws Pick Executor.
From S2P Require Import ExecutorLogic ExecutorFrame ExecutorOrder ExecutorOutcome ExecutorSuccess Pool.
Local Open Scope Z_scope.

(** Nothing about run [rid], and no task run or definition, differs. *)
Definition same_for (rid : RunId) (s s' : MemoryState) : Prop :=
  ms_queue s' !! rid = ms_queue s !! rid ∧ ms_runs s' !! rid = ms_runs s !! rid ∧
  ms_task_runs s' = ms_task_runs s ∧ ms_defs s' = ms_defs s.

Lemma same_for_trans rid s1 s2 s3 : same_for rid s1 s2 → same_for rid s2 s3 → same_for rid s1 s3.
Proof. unfold same_for. intros (?&?&?&?) (?&?&?&?). split_and!; congruence. Qed.

(** No other thread interferes with the dispatcher. *)
Definition alone : nat → list AnyCall := fun _ => [].

Section Dispatch.
Context `{HashIter} (clock : nat → Z) (fresh : nat → ClaimToken) (rid : RunId).

(** A call about another run, among those the dispatcher makes. *)
Lemma other_call {A} (c : StoreCall A) (d : Dispatch MemoryState) :
  match c with
  | Claim id _ _ _ | FailClaim id _ => id ≠ rid
  | PutRun run => rn_id run ≠ rid
  | GetRun _ | ScanReady _ _ => True
  | _ => False
  end → same_for rid (dp_store d) (dp_store (dp_call alone c d).1).
Proof.
  intros Hc. unfold dp_call, alone. cbn [run_calls]. destruct c; try done; cbn;
    unfold mem_claim, mem_failclaim, owned_entry, rbind, ok_or; repeat case_match; simplify_eq; cbn;
    unfold same_for; cbn; rewrite ?lookup_insert_ne by done; done.
Qed.

Lemma dispatch_other now lease e (d : Dispatch MemoryState) st : mem_wf (dp_store d) → qe_run_id e ≠ rid →
  same_for rid (dp_store d) (dp_store (dispatch_entry clock fresh alone now lease e d st).1).
Proof.
  intros Hwf Hne. apply (dispatch_entry_ind clock fresh alone
    (fun d' => mem_wf (dp_store d') ∧ same_for rid (dp_store d) (dp_store d'))); [done|..].
  1-3: intros d' [Hwf' Hs]; split; [by apply dp_call_wf|]; by eapply same_for_trans, other_call.
  - done.
  - intros run t d' [Hwf' Hs] (d1&[Hwf1 _]&Hget). split; [by apply dp_call_wf|].
    eapply same_for_trans, other_call; [done|]. cbn. unfold dp_call, alone in Hget. cbn in Hget.
    unfold mem_get_run in Hget. destruct (ms_runs (dp_store d1) !! qe_run_id e) eqn:Hr; [|done].
    injection Hget as ->. by rewrite (wf_runs _ Hwf1 _ _ Hr).
  - intros job d' [Hw Hs]. by rewrite (proj1 (dp_submit_store _ _)).
Qed.

(** The entries of other runs leave [rid] alone, and jobs are only appended. *)
Lemma dispatch_others now lease ready : ∀ (d : Dispatch MemoryState) st,
  mem_wf (dp_store d) → (∀ e, e ∈ ready → qe_run_id e ≠ rid) →
  let d' := (dispatch_all clock fresh alone now lease ready d st).1 in
  mem_wf (dp_store d') ∧ same_for rid (dp_store d) (dp_store d') ∧
  ∃ new, sent_jobs (dp_pool d') = sent_jobs (dp_pool d) ++ new ∧
    (length (wp_jobs (dp_pool d')) ≤ length (wp_jobs (dp_pool d)) + length ready)%nat ∧
    wp_bound (dp_pool d') = wp_bound (dp_pool d) ∧ wp_open (dp_pool d') = wp_open (dp_pool d).
Proof.
  induction ready as [|e ready IH]; intros d st Hwf Hne; cbn [dispatch_all].
  { split; [done|]. split; [done|]. exists []. rewrite app_nil_r. split_and!; [done|cbn; lia|done..]. }
  pose proof (dispatch_entry_wf clock fresh alone now lease e d st Hwf) as Hwf1.
  pose proof (dispatch_other now lease e d st Hwf (Hne e ltac:(left))) as Hs1.
  pose proof (dispatch_entry_post clock fresh alone now lease e d st) as Hp.
  destruct (dispatch_entry clock fresh alone now lease e d st) as [d1 st1]. cbn [fst] in Hwf1, Hs1.
  destruct Hp as (n1&[]). destruct (IH d1 st1 Hwf1) as (H1&H2&n2&H3&H4&H5&H6); [intros; apply Hne; by right|].
  split; [done|]. split; [by eapply same_for_trans|]. exists (n1 ++ n2).
  rewrite H3, H5, H6, ep_jobs, ep_bound, ep_open, (assoc_L (++)). split_and!; try done.
  cbn. destruct ep_new as [[-> _]|[-> _]]; cbn in ep_length; lia.
Qed.

(** A run as [mark_running] leaves it: one that is running already is not touched. *)
Definition marked (run : Run) (t : Z) : Run :=
  if bool_decide (rn_status run = RunStatus.Running) then run
  else run_set_started_at_ms (Some t) (run_set_status RunStatus.Running run).

(** The state of a run once it has been dispatched. *)
Definition dispatched (run : Run) (token : ClaimToken) (exp : Z) (s s' : MemoryState) : Prop :=
  (∃ e, ms_queue s' !! rid = Some e ∧ qe_token e = token ∧ qe_lease_until_ms e = Some exp) ∧
  (∃ t, ms_runs s' !! rid = Some (marked run t)) ∧
  ms_task_runs s' = ms_task_runs s ∧ ms_defs s' = ms_defs s.

(** With room in the channel a submission is accepted, whatever the workers receive. *)
Lemma submit_room job p : wp_open p = true → (length (wp_jobs p) < wp_bound p)%nat →
  ∃ p', submit job p = (p', Ok tt) ∧ sent_jobs p' = sent_jobs p ++ [job] ∧ wp_bound p' = wp_bound p ∧ wp_open p' = true.
Proof.
  intros Ho Hlen. unfold submit. destruct (before_submit_sent p) as [Hs Hl].
  assert (Hb : wp_bound (before_submit p) = wp_bound p) by done.
  assert (Ho' : wp_open (before_submit p) = true) by done.
  set (q := before_submit p) in *. clearbody q. unfold try_send. rewrite Ho'. cbn [negb].
  rewrite (proj2 (Nat.leb_gt _ _)) by lia. eexists. split; [reflexivity|]. split_and!; [|done..].
  unfold sent_jobs in *. cbn. by rewrite (assoc_L (++)), Hs.
Qed.

(** The entry of [rid] itself. *)
Lemma dispatch_mine now lease e run (d : Dispatch MemoryState) st : mem_wf (dp_store d) →
  ms_queue (dp_store d) !! rid = Some e → is_leased e now = false →
  ms_runs (dp_store d) !! rid = Some run → run_is_active (rn_status run) = true →
  wp_open (dp_pool d) = true → (length (wp_jobs (dp_pool d)) < wp_bound (dp_pool d))%nat →
  let d' := (dispatch_entry clock fresh alone now lease e d st).1 in
  let token := fresh (dp_tokens d) in
  dispatched run token (wrap_i64 (now + lease)) (dp_store d) (dp_store d') ∧
  sent_jobs (dp_pool d') = sent_jobs (dp_pool d) ++ [{| jb_run_id := rid; jb_token := token |}] ∧
  wp_bound (dp_pool d') = wp_bound (dp_pool d) ∧ wp_open (dp_pool d') = true.
Proof.
  intros Hwf He Hl Hrun Hst Hopen Hlen. cbn zeta. pose proof (wf_queue _ Hwf _ _ He) as Hid.
  pose proof (wf_runs _ Hwf _ _ Hrun) as Hrid.
  unfold dispatch_entry, mark_running, dp_call, dp_token, dp_now, dp_submit, alone.
  cbn [run_calls call MemoryStore mem_call dp_store dp_pool dp_calls dp_reads dp_tokens]. rewrite Hid.
  unfold mem_claim. rewrite He, Hl. rewrite andb_false_r. cbn [andb].
  unfold mem_get_run. cbn [set_queue ms_runs dp_store]. rewrite Hrun. cbn [ok_or].
  destruct (submit_room {| jb_run_id := rid; jb_token := fresh (dp_tokens d) |} _ Hopen Hlen) as (p&Hp&Hsent&Hb&Ho).
  destruct (rn_status run) eqn:Hs; try done.
  - rewrite bool_decide_false by done. rewrite (bool_decide_true (RunStatus.Queued = _)) by done.
    cbn. rewrite Hp. cbn. split_and!; try done.
    split_and!; cbn; [eexists; by rewrite lookup_insert_eq| |done..].
    eexists. unfold mem_put_run, marked. cbn. rewrite Hs, Hrid, lookup_insert_eq. done.
  - rewrite bool_decide_true by done.
    cbn. rewrite Hp. cbn. split_and!; try done.
    split_and!; cbn; [eexists; by rewrite lookup_insert_eq| |done..].
    exists 0. unfold marked. by rewrite Hs.
Qed.

(** A scan wide enough for the whole queue finds the entry of [rid], once. *)
Lemma scan_finds now limit e (s : MemoryState) : mem_wf s → ms_queue s !! rid = Some e →
  is_ready e now = true → (size (ms_queue s) ≤ limit)%nat →
  ∃ l1 l2, mem_scan_ready now limit s = l1 ++ e :: l2 ∧ (∀ x, x ∈ l1 ++ l2 → qe_run_id x ≠ rid) ∧
    (length (l1 ++ e :: l2) ≤ size (ms_queue s))%nat.
Proof.
  intros Hwf He Hready Hlim. unfold mem_scan_ready.
  set (ready := List.filter _ _).
  assert (Hlen : (length ready ≤ size (ms_queue s))%nat).
  { unfold ready. etransitivity; [apply filter_length_le|].
    unfold hash_values. by rewrite length_fmap, hash_iter_perm, length_map_to_list. }
  rewrite take_ge by (rewrite sort_by_length; lia).
  assert (Hin : e ∈ sort_by due_le ready).
  { apply sort_by_elem, list_elem_of_In, filter_In. split; [|done].
    apply list_elem_of_In, hash_values_elem. by exists rid. }
  pose proof (scan_distinct now limit s Hwf) as Hnd. unfold mem_scan_ready in Hnd. fold ready in Hnd.
  rewrite take_ge in Hnd by (rewrite sort_by_length; lia).
  apply list_elem_of_split in Hin as (l1&l2&Heq). exists l1, l2. split; [done|].
  rewrite Heq in Hnd. split; [|rewrite <-Heq, sort_by_length; done].
  rewrite map_app in Hnd. cbn in Hnd. apply NoDup_app in Hnd as (_&Hd&Hn). apply NoDup_cons in Hn as [Hn _].
  rewrite (wf_queue _ Hwf _ _ He) in Hd, Hn.
  intros x [Hx|Hx]%elem_of_app Hxe.
  - apply (Hd rid); [|left]. rewrite <-Hxe. apply list_elem_of_In, in_map, list_elem_of_In, Hx.
  - apply Hn. rewrite <-Hxe. apply list_elem_of_In, in_map, list_elem_of_In, Hx.
Qed.
End Dispatch.

Section Step.
Context `{HashIter} (clock : nat → Z) (fresh : nat → ClaimToken) (rid : RunId).

Lemma dispatch_all_app others now lease l1 l2 : ∀ (d : Dispatch MemoryState) st,
  dispatch_all clock fresh others now lease (l1 ++ l2) d st =
  let '(d, st) := dispatch_all clock fresh others now lease l1 d st in
  dispatch_all clock fresh others now lease l2 d st.
Proof.
  induction l1 as [|x l1 IH]; intros d st; cbn [dispatch_all app]; [done|].
  destruct (dispatch_entry _ _ _ _ _ _ _ _) as [d1 st1]. apply IH.
Qed.

(** One round dispatches [rid], when the batch and the channel have room. *)
Lemma step_dispatches batch lease e run (d : Dispatch MemoryState) : mem_wf (dp_store d) →
  ms_queue (dp_store d) !! rid = Some e → is_ready e (clock (dp_reads d)) = true →
  ms_runs (dp_store d) !! rid = Some run → run_is_active (rn_status run) = true →
  (size (ms_queue (dp_store d)) ≤ batch)%nat → wp_open (dp_pool d) = true →
  (length (wp_jobs (dp_pool d)) + size (ms_queue (dp_store d)) ≤ wp_bound (dp_pool d))%nat →
  let d' := (step clock fresh alone batch lease d).1 in
  ∃ token new, sent_jobs (dp_pool d') = sent_jobs (dp_pool d) ++ new ∧
    {| jb_run_id := rid; jb_token := token |} ∈ new ∧ mem_wf (dp_store d') ∧
    dispatched rid run token (wrap_i64 (clock (dp_reads d) + lease)) (dp_store d) (dp_store d').
Proof.
  intros Hwf He Hready Hrun Hst Hbatch Hopen Hroom. cbn zeta. unfold step, dp_now, dp_call, alone.
  cbn [run_calls call MemoryStore mem_call dp_store dp_pool dp_calls dp_reads dp_tokens].
  set (now := clock (dp_reads d)). set (d1 := {| dp_store := dp_store d |}).
  destruct (scan_finds rid now batch e (dp_store d) Hwf He Hready Hbatch) as (l1&l2&->&Hne&Hlen).
  rewrite dispatch_all_app. set (st0 := {| scanned := _ |}).
  destruct (dispatch_others clock fresh rid now lease l1 d1 st0 Hwf) as (Hwf2&(Hq2&Hr2&Ht2&Hd2)&n1&Hj2&Hn1&Hb2&Ho2).
  { intros x Hx. apply Hne, elem_of_app. by left. }
  unfold alone in *. destruct (dispatch_all _ _ _ _ _ l1 d1 st0) as [d2 st2].
  cbn [fst d1 dp_store dp_pool] in *. cbn [dispatch_all].
  assert (Hl : is_leased e now = false) by (unfold is_ready in Hready; by apply andb_true_iff in Hready as [_ ?%negb_true_iff]).
  rewrite length_app in Hlen. cbn in Hlen.
  destruct (dispatch_mine clock fresh rid now lease e run d2 st2) as (Hdis&Hj3&Hb3&Ho3); try congruence.
  { rewrite Hb2. lia. }
  pose proof (dispatch_entry_wf clock fresh alone now lease e d2 st2 Hwf2) as Hwf3.
  unfold alone in *. destruct (dispatch_entry _ _ _ _ _ e d2 st2) as [d3 st3]. cbn [fst] in *.
  destruct (dispatch_others clock fresh rid now lease l2 d3 st3 Hwf3) as (Hwf4&(Hq4&Hr4&Ht4&Hd4)&n2&Hj4&_).
  { intros x Hx. apply Hne, elem_of_app. by right. }
  unfold alone in *. exists (fresh (dp_tokens d2)), (n1 ++ [{| jb_run_id := rid; jb_token := fresh (dp_tokens d2) |}] ++ n2).
  split; [|split; [set_solver|split; [done|]]].
  - by rewrite Hj4, Hj3, Hj2, <- !(assoc_L (++)).
  - destruct Hdis as (Hq&Hr&Ht&Hd). unfold dispatched. rewrite Hq4, Hr4, Ht4, Hd4, Ht, Hd. by split_and!.
Qed.
End Step.

(** ** Properties *)

Lemma dispatched_run_succeeds `{HashIter} clock fresh batch lease registry wclock seed powf rng e run rec order
    (d : Dispatch MemoryState) :
  let rid := rn_id run in
  mem_wf (dp_store d) → ms_queue (dp_store d) !! rid = Some e → is_ready e (clock (dp_reads d)) = true →
  ms_runs (dp_store d) !! rid = Some run → rn_status run = RunStatus.Queued →
  ms_defs (dp_store d) !! (rn_tenant run, rn_def_name run) = Some rec → fresh_run rid (dp_store d) →
  NoDup (map ts_name (wd_tasks (wr_def rec))) → topo_order (wd_tasks (wr_def rec)) = Ok order →
  (size (ms_queue (dp_store d)) ≤ batch)%nat → wp_open (dp_pool d) = true →
  (length (wp_jobs (dp_pool d)) + size (ms_queue (dp_store d)) ≤ wp_bound (dp_pool d))%nat →
  all_succeed registry (wr_def rec) rid →
  (∀ id h ctx s, registry !! id = Some h → mem_wf s →
    mem_wf (h ctx s).1 ∧ ms_queue (h ctx s).1 !! rid = ms_queue s !! rid) →
  match rn_deadline_at_ms run with Some t => wclock 0%nat ≤ t | None => True end →
  let d' := (step clock fresh alone batch lease d).1 in
  ∃ new job, sent_jobs (dp_pool d') = sent_jobs (dp_pool d) ++ new ∧ job ∈ new ∧ jb_run_id job = rid ∧
    let s' := w_store (worker_job registry wclock seed powf rng job (world0 (dp_store d'))) in
    (∃ r, ms_runs s' !! rid = Some r ∧ rn_status r = RunStatus.Succeeded) ∧ ms_queue s' !! rid = None.
Proof.
  intros rid Hwf He Hready Hrun Hst Hdef Hfresh Hnd Htopo Hbatch Hopen Hroom Hall Hqueue Hdead. cbn zeta.
  destruct (step_dispatches clock fresh rid batch lease e run d) as (token&new&Hnew&Hjob&Hwf'&Hdis); try done.
  { by rewrite Hst. }
  unfold dispatched, marked in Hdis. rewrite Hst in Hdis.
  destruct Hdis as ((e'&He'&Htok&_)&(t&Hrun')&Ht&Hd). set (d' := (step _ _ _ _ _ _).1) in *.
  exists new, {| jb_run_id := rid; jb_token := token |}. split; [done|]. split; [done|]. split; [done|].
  destruct (attempt_succeeds registry wclock seed powf rng
    (run_set_started_at_ms (Some t) (run_set_status RunStatus.Running run)) rec (Some token) 60000 order (dp_store d'))
    as (w'&r&Ha&Hr&Hrs&_); try done.
  { cbn. by rewrite Hd. }
  { unfold fresh_run. cbn. rewrite Ht. exact Hfresh. }
  pose proof (owned_attempt registry rid token) as Howned.
  assert (Hkeep : ∀ id h ctx s, registry !! id = Some h → owned rid token s → owned rid token (h ctx s).1).
  { intros id h ctx s Hh [Hs Ho]. destruct (Hqueue id h ctx s Hh Hs) as [Hs' Hq]. split; [done|].
    intros x. rewrite Hq. apply Ho. }
  specialize (Howned Hkeep wclock seed powf rng (world0 (dp_store d'))).
  destruct Howned as [_ Ho]; [split; [done|]; cbn; intros x; rewrite He'; by intros [= <-]|].
  unfold worker_job. cbn [jb_run_id jb_token] in *.
  change (rn_id (run_set_started_at_ms _ _)) with rid in Ha, Hr. rewrite Ha in Ho |- *. cbn in Ho, Hr |- *.
  unfold mem_ack, owned_entry. destruct (ms_queue (w_store w') !! rid) as [x|] eqn:Hx; cbn; [|by eauto].
  rewrite (bool_decide_true _ (Ho x eq_refl)). cbn. rewrite lookup_delete_eq. eauto.
Qed.

(** From the queue to success: a queued run whose entry is due, of a definition
    with unique names and a topological order, is dispatched by one round of the
    dispatcher (with room in batch and channel, whatever else is queued), and the
    worker that takes the job leaves the run [Succeeded] and its entry gone, provided
    its handlers are registered and succeed and nobody interferes with this run. *)
Theorem queue_to_success `{HashIter} clock fresh batch lease registry wclock seed powf rng e run rec order
    (d : Dispatch MemoryState) :
  let rid := rn_id run in
  mem_wf (dp_store d) → ms_queue (dp_store d) !! rid = Some e → is_ready e (clock (dp_reads d)) = true →
  ms_runs (dp_store d) !! rid = Some run → rn_status run = RunStatus.Queued →
  ms_defs (dp_store d) !! (rn_tenant run, rn_def_name run) = Some rec → fresh_run rid (dp_store d) →
  NoDup (map ts_name (wd_tasks (wr_def rec))) → topo_order (wd_tasks (wr_def rec)) = Ok order →
  (size (ms_queue (dp_store d)) ≤ batch)%nat → wp_open (dp_pool d) = true →
  (length (wp_jobs (dp_pool d)) + size (ms_queue (dp_store d)) ≤ wp_bound (dp_pool d))%nat →
  all_succeed registry (wr_def rec) rid →
  (∀ id h ctx s, registry !! id = Some h → mem_wf s →
    mem_wf (h ctx s).1 ∧ ms_queue (h ctx s).1 !! rid = ms_queue s !! rid) →
  match rn_deadline_at_ms run with Some t => wclock 0%nat ≤ t | None => True end →
  let d' := (step clock fresh alone batch lease d).1 in
  ∃ new job, sent_jobs (dp_pool d') = sent_jobs (dp_pool d) ++ new ∧ job ∈ new ∧ jb_run_id job = rid ∧
    let s' := w_store (worker_job registry wclock seed powf rng job (world0 (dp_store d'))) in
    (∃ r, ms_runs s' !! rid = Some r ∧ rn_status r = RunStatus.Succeeded) ∧ ms_queue s' !! rid = None.
Proof. apply dispatched_run_succeeds. Qed.

Lemma queue_to_success_witness :
  let d' := (step (fun n => Z.of_nat n) unary_token alone 10 1000 (idle_dispatch queued_state)).1 in
  ∃ new job, sent_jobs (dp_pool d') = [] ++ new ∧ job ∈ new ∧ jb_run_id job = rn_id sample_run ∧
    let s' := w_store (worker_job noop_registry (fun n => Z.of_nat n) 0 (fun x _ => x) (fun _ u => u) job
      (world0 (dp_store d'))) in
    (∃ r, ms_runs s' !! rn_id sample_run = Some r ∧ rn_status r = RunStatus.Succeeded) ∧
    ms_queue s' !! rn_id sample_run = None.
Proof.
  assert (Hrec : ∃ rec, ms_defs queued_state !! ("acme", "etl")%string = Some rec ∧ wr_def rec = def_with diamond)
    by (eexists; split; vm_compute; reflexivity).
  destruct Hrec as (rec&Hrec&Hdef).
  apply (queue_to_success (fun n => Z.of_nat n) unary_token 10 1000 noop_registry (fun n => Z.of_nat n) 0
    (fun x _ => x) (fun _ u => u) (fresh_entry "rn_0" 0) sample_run rec
    ["fetch"; "left"; "right"; "join"]%string (idle_dispatch queued_state)).
  - apply mem_run_calls_wf, mem_new_wf.
  - vm_compute. reflexivity.
  - reflexivity.
  - vm_compute. reflexivity.
  - reflexivity.
  - exact Hrec.
  - split; [intros k t Hk; by vm_compute in Hk|intros n; vm_compute; reflexivity].
  - rewrite Hdef. apply (bool_decide_unpack _). vm_compute. exact I.
  - rewrite Hdef. vm_compute. reflexivity.
  - apply (bool_decide_unpack _). vm_compute. exact I.
  - reflexivity.
  - apply (bool_decide_unpack _). vm_compute. exact I.
  - apply noop_succeeds. rewrite Hdef. cbn. intros t Ht.
    repeat (apply elem_of_cons in Ht as [->|Ht]; [reflexivity|]). by apply elem_of_nil in Ht.
  - intros id h ctx s Hh. unfold noop_registry in Hh. by apply lookup_singleton_Some in Hh as [_ <-].
  - exact I.
Defined.

(** An entry whose run has already failed. *)
Definition stale_state : MemoryState :=
  run_calls [Any (PutWorkflow (def_with diamond)); Any (PutRun (run_set_status RunStatus.Failed sample_run));
    Any (Enqueue (fresh_entry "rn_0" 0))] mem_new.

Definition stale_round : Dispatch MemoryState * DispatchStats :=
  step (fun n => Z.of_nat n) unary_token alone 10 1000 (idle_dispatch stale_state).

Definition stale_job : Job := {| jb_run_id := "rn_0"; jb_token := unary_token 1 |}.

(** A job is submitted even when its run cannot be marked running. For an entry
    whose run has failed, a round counts a failed submission and returns the claim, yet
    the job is in the channel; the worker's attempt is refused and its release is
    rejected, since the token no longer owns the entry. Round and job leave the store
    as it was, with the entry still ready, so every later round does the same. *)
Theorem stale_entry_redispatched :
  submit_failed stale_round.2 = 1%nat ∧ claimed stale_round.2 = 0%nat ∧
  dp_store stale_round.1 = stale_state ∧
  sent_jobs (dp_pool stale_round.1) = [stale_job] ∧
  w_store (worker_job noop_registry (fun n => Z.of_nat n) 0 (fun x _ => x) (fun _ u => u) stale_job
    (world0 (dp_store stale_round.1))) = stale_state.
Proof.
  split; [vm_compute; reflexivity|]. split; [vm_compute; reflexivity|]. split; [vm_compute; reflexivity|].
  split; vm_compute; reflexivity.
Qed.
