(* ===== verification/PoolThreads.v ===== *)
(** * The worker threads of the pool (src/src/scheduler/pool.rs)

    The threads of [WorkerPool::spawn] around the shared receiver, as one event at a
    time: a thread takes the next job under the receiver's lock, ends it (whatever the
    attempt did, a panic included: [worker_job] of Pool.v), or leaves once the channel is
    closed and drained. A send and the close of [shutdown] are the other two events. *)
From S2P Require Import Prelude Ids Store Pool.
Local Open Scope nat_scope.

Inductive WorkerState := Waiting | Busy (job : Job) | Exited.

Record Crew := {
  cw_jobs : list Job;
  cw_bound : nat;
  cw_open : bool;
  cw_workers : list WorkerState;
  cw_finished : list Job
}.

Inductive CrewEvent :=
| Send (job : Job)
| Close
| Take (worker : nat)
| End (worker : nat)
| Leave (worker : nat).

(** The threads of a pool that has just been spawned. *)
Definition crew_spawn (size : nat) : Crew :=
  {| cw_jobs := []; cw_bound := size * 16; cw_open := true; cw_workers := replicate size Waiting; cw_finished := [] |}.

Definition set_worker (i : nat) (s : WorkerState) (c : Crew) : Crew :=
  {| cw_jobs := cw_jobs c; cw_bound := cw_bound c; cw_open := cw_open c; cw_workers := <[i := s]> (cw_workers c);
     cw_finished := cw_finished c |}.

(** In the following [None] says that the event cannot happen now: the send is refused, the
    thread is elsewhere, or it blocks. *)

(** [try_send] on an open channel with room. *)
Definition crew_send (job : Job) (c : Crew) : option Crew :=
  if cw_open c && (length (cw_jobs c) <? cw_bound c) then
    Some {| cw_jobs := cw_jobs c ++ [job]; cw_bound := cw_bound c; cw_open := true; cw_workers := cw_workers c;
            cw_finished := cw_finished c |}
  else None.

(** [drop(self.tx)] in [shutdown]. *)
Definition crew_close (c : Crew) : option Crew :=
  if cw_open c then
    Some {| cw_jobs := cw_jobs c; cw_bound := cw_bound c; cw_open := false; cw_workers := cw_workers c;
            cw_finished := cw_finished c |}
  else None.

(** [guard.recv()] returns the oldest job. *)
Definition crew_take (i : nat) (c : Crew) : option Crew :=
  match cw_workers c !! i, cw_jobs c with
  | Some Waiting, job :: jobs =>
      Some (set_worker i (Busy job) {| cw_jobs := jobs; cw_bound := cw_bound c; cw_open := cw_open c;
                                       cw_workers := cw_workers c; cw_finished := cw_finished c |})
  | _, _ => None
  end.

(** The job is over, in any of the three arms, and the loop goes round. *)
Definition crew_end (i : nat) (c : Crew) : option Crew :=
  match cw_workers c !! i with
  | Some (Busy job) =>
      Some (set_worker i Waiting {| cw_jobs := cw_jobs c; cw_bound := cw_bound c; cw_open := cw_open c;
                                    cw_workers := cw_workers c; cw_finished := cw_finished c ++ [job] |})
  | _ => None
  end.

(** [Err(_) => break]: the channel is closed and drained. *)
Definition crew_leave (i : nat) (c : Crew) : option Crew :=
  match cw_workers c !! i, cw_jobs c, cw_open c with
  | Some Waiting, [], false => Some (set_worker i Exited c)
  | _, _, _ => None
  end.

(** The join loop of [shutdown]: it gets past a thread once the thread has left. *)
Fixpoint join_all (workers : list WorkerState) : bool :=
  match workers with
  | [] => true
  | Exited :: workers => join_all workers
  | _ => false
  end.

Definition crew_event (e : CrewEvent) (c : Crew) : option Crew :=
  match e with
  | Send job => crew_send job c
  | Close => crew_close c
  | Take i => crew_take i c
  | End i => crew_end i c
  | Leave i => crew_leave i c
  end.

(** A sequence of events, each of which could happen when it did. *)
Fixpoint crew_run (es : list CrewEvent) (c : Crew) : option Crew :=
  match es with
  | [] => Some c
  | e :: es => match crew_event e c with Some c => crew_run es c | None => None end
  end.

(** ** What the threads hold *)

Definition sent (es : list CrewEvent) : list Job := omap (fun e => match e with Send j => Some j | _ => None end) es.

Definition held (s : WorkerState) : list Job := match s with Busy j => [j] | _ => [] end.
Definition busy_jobs (c : Crew) : list Job := concat (held <$> cw_workers c).

(** Every job the channel accepted is in exactly one place. *)
Definition everywhere (c : Crew) : list Job := cw_finished c ++ busy_jobs c ++ cw_jobs c.

(** The events left once the channel is closed: two for a queued job, two for a busy
    thread, one for a waiting one. *)
Definition burden (s : WorkerState) : nat := match s with Waiting => 1 | Busy _ => 2 | Exited => 0 end.
Definition remaining (c : Crew) : nat := sum_list (burden <$> cw_workers c) + 2 * length (cw_jobs c).

Lemma busy_insert i s s' (ws : list WorkerState) : ws !! i = Some s →
  held s ++ concat (held <$> <[i := s']> ws) ≡ₚ held s' ++ concat (held <$> ws).
Proof.
  intros Hi. rewrite list_fmap_insert.
  assert (Hh : (held <$> ws) !! i = Some (held s)) by (by rewrite list_lookup_fmap, Hi).
  rewrite insert_take_drop by (by eapply lookup_lt_Some). rewrite <-(take_drop_middle (held <$> ws) i (held s)) at 3 by done.
  rewrite !concat_app. cbn. solve_Permutation.
Qed.

Lemma sum_cons n (l : list nat) : sum_list (n :: l) = n + sum_list l.
Proof. done. Qed.

Lemma burden_insert i s s' (ws : list WorkerState) : ws !! i = Some s →
  burden s + sum_list (burden <$> <[i := s']> ws) = burden s' + sum_list (burden <$> ws).
Proof.
  revert i. induction ws as [|w ws IH]; intros [|i] Hi; try done.
  - injection Hi as ->. change (<[0 := s']> (s :: ws)) with (s' :: ws). rewrite !fmap_cons, !sum_cons. lia.
  - specialize (IH i Hi). change (<[Datatypes.S i := s']> (w :: ws)) with (w :: <[i := s']> ws).
    rewrite !fmap_cons, !sum_cons. lia.
Qed.

Lemma crew_event_conserves e c c' : crew_event e c = Some c' → everywhere c' ≡ₚ everywhere c ++ sent [e].
Proof.
  unfold everywhere, busy_jobs. destruct e as [j| |i|i|i]; cbn [crew_event sent omap list_omap];
    unfold crew_send, crew_close, crew_take, crew_end, crew_leave.
  - destruct (cw_open c && _); [|done]. intros [= <-]. cbn. by rewrite <-!(assoc_L (++)).
  - destruct (cw_open c); [|done]. intros [= <-]. cbn. by rewrite app_nil_r.
  - destruct (cw_workers c !! i) as [[|j|]|] eqn:Hi, (cw_jobs c) as [|j' js] eqn:Hj; try done. intros [= <-].
    pose proof (busy_insert i Waiting (Busy j') _ Hi) as Hp. cbn in Hp |- *. rewrite Hp, app_nil_r. cbn.
    apply Permutation_app_head. rewrite Permutation_middle. done.
  - destruct (cw_workers c !! i) as [[|j|]|] eqn:Hi; try done. intros [= <-].
    pose proof (busy_insert i (Busy j) Waiting _ Hi) as Hp. cbn in Hp |- *. rewrite app_nil_r, <-Hp. cbn.
    by rewrite <-!(assoc_L (++)).
  - destruct (cw_workers c !! i) as [[|j|]|] eqn:Hi, (cw_jobs c) as [|j' js] eqn:Hj, (cw_open c) eqn:Ho; try done.
    intros [= <-]. pose proof (busy_insert i Waiting Exited _ Hi) as Hp. cbn in Hp |- *. rewrite Hp, Hj. by rewrite !app_nil_r.
Qed.

Lemma crew_run_conserves es c c' : crew_run es c = Some c' → everywhere c' ≡ₚ everywhere c ++ sent es.
Proof.
  revert c. induction es as [|e es IH]; intros c; cbn [crew_run]; [intros [= <-]; by rewrite app_nil_r|].
  destruct (crew_event e c) as [c1|] eqn:He; [|done]. intros Hr%IH. rewrite Hr, (crew_event_conserves e c c1 He).
  unfold sent. change (e :: es) with ([e] ++ es). by rewrite omap_app, <-(assoc_L (++)).
Qed.

(** A thread leaves only a closed, drained channel, and no event changes the number of
    threads. *)
Definition crew_ok (size : nat) (c : Crew) : Prop :=
  length (cw_workers c) = size ∧ (Exited ∈ cw_workers c → cw_open c = false ∧ cw_jobs c = []).

Lemma elem_of_set_worker i s (ws : list WorkerState) x : x ∈ <[i := s]> ws → x = s ∨ x ∈ ws.
Proof.
  intros (k&Hk)%list_elem_of_lookup. apply list_lookup_insert_Some in Hk as [(_&<-&_)|[_ Hk]]; [by left|].
  right. by eapply list_elem_of_lookup_2.
Qed.

Lemma crew_event_ok size e c c' : crew_ok size c → crew_event e c = Some c' → crew_ok size c'.
Proof.
  intros [Hlen Hex]. destruct e as [j| |i|i|i]; cbn [crew_event];
    unfold crew_send, crew_close, crew_take, crew_end, crew_leave.
  - destruct (cw_open c) eqn:Ho; cbn [andb]; [|done]. destruct (length (cw_jobs c) <? cw_bound c); [|done]. intros [= <-]. split; [done|]. cbn.
    intros [? _]%Hex. done.
  - destruct (cw_open c) eqn:Ho; [|done]. intros [= <-]. split; [done|]. cbn. intros [? _]%Hex. done.
  - destruct (cw_workers c !! i) as [[|j|]|] eqn:Hi, (cw_jobs c) as [|j' js] eqn:Hj; try done. intros [= <-].
    split; cbn; [by rewrite length_insert|]. intros [|[_ ?]%Hex]%elem_of_set_worker; done.
  - destruct (cw_workers c !! i) as [[|j|]|] eqn:Hi; try done. intros [= <-].
    split; cbn; [by rewrite length_insert|]. intros [|?%Hex]%elem_of_set_worker; done.
  - destruct (cw_workers c !! i) as [[|j|]|] eqn:Hi, (cw_jobs c) as [|j' js] eqn:Hj, (cw_open c) eqn:Ho; try done.
    intros [= <-]. split; cbn; [by rewrite length_insert|]. by rewrite Hj, Ho.
Qed.

Lemma crew_run_ok size es c c' : crew_ok size c → crew_run es c = Some c' → crew_ok size c'.
Proof.
  revert c. induction es as [|e es IH]; intros c Hc; cbn [crew_run]; [by intros [= <-]|].
  destruct (crew_event e c) as [c1|] eqn:He; [|done]. apply IH. by eapply crew_event_ok.
Qed.

Lemma crew_spawn_ok size : crew_ok size (crew_spawn size).
Proof. split; [apply length_replicate|]. cbn. by intros [? _]%elem_of_replicate. Qed.

(** Once the channel is closed every event uses up part of what remains. *)
Lemma crew_event_spends e c c' : cw_open c = false → crew_event e c = Some c' →
  cw_open c' = false ∧ remaining c' < remaining c ∧ sent [e] = [].
Proof.
  intros Ho. unfold remaining. destruct e as [j| |i|i|i]; cbn [crew_event];
    unfold crew_send, crew_close, crew_take, crew_end, crew_leave; rewrite ?Ho; try done.
  - destruct (cw_workers c !! i) as [[|j|]|] eqn:Hi, (cw_jobs c) as [|j' js] eqn:Hj; try done. intros [= <-].
    pose proof (burden_insert i Waiting (Busy j') _ Hi) as Hb. cbn in Hb |- *. split_and!; [done|lia|done].
  - destruct (cw_workers c !! i) as [[|j|]|] eqn:Hi; try done. intros [= <-].
    pose proof (burden_insert i (Busy j) Waiting _ Hi) as Hb. cbn in Hb |- *. split_and!; [done|lia|done].
  - destruct (cw_workers c !! i) as [[|j|]|] eqn:Hi, (cw_jobs c) as [|j' js] eqn:Hj; try done. intros [= <-].
    pose proof (burden_insert i Waiting Exited _ Hi) as Hb. cbn in Hb |- *. rewrite Hj. cbn. split_and!; [done|lia|done].
Qed.

Lemma crew_run_spends es c c' : cw_open c = false → crew_run es c = Some c' →
  cw_open c' = false ∧ length es + remaining c' ≤ remaining c ∧ sent es = [].
Proof.
  revert c. induction es as [|e es IH]; intros c Ho; cbn [crew_run length]; [intros [= <-]; by split_and!|].
  destruct (crew_event e c) as [c1|] eqn:He; [|done]. intros Hr.
  destruct (crew_event_spends e c c1 Ho He) as (Ho1&Hlt&Hs). destruct (IH c1 Ho1 Hr) as (Ho'&Hle&Hs').
  split_and!; [done|lia|]. unfold sent in *. change (e :: es) with ([e] ++ es). by rewrite omap_app, Hs, Hs'.
Qed.

(** As long as a thread is left, some event can happen. *)
Lemma crew_progress c : cw_open c = false →
  Forall (fun s => s = Exited) (cw_workers c) ∨ ∃ e c', crew_event e c = Some c'.
Proof.
  intros Ho. destruct (decide (Forall (fun s => burden s = 0) (cw_workers c))) as [Hall|Hn].
  { left. eapply Forall_impl; [exact Hall|]. by intros []. }
  right. apply not_Forall_Exists in Hn; [|apply _]. apply Exists_exists in Hn as (s&Hs&Hb).
  apply list_elem_of_lookup in Hs as (i&Hi). destruct s as [|j|]; [|exists (End i)|by destruct Hb].
  - destruct (cw_jobs c) as [|j js] eqn:Hj; [exists (Leave i)|exists (Take i)]; cbn; unfold crew_take, crew_leave; rewrite Hi, Hj, ?Ho; eauto.
  - cbn. unfold crew_end. rewrite Hi. eauto.
Qed.

Lemma all_exited (ws : list WorkerState) : Forall (fun s => s = Exited) ws →
  ws = replicate (length ws) Exited ∧ concat (held <$> ws) = [].
Proof.
  induction ws as [|w ws IH]; [done|]. intros [-> [Hw Hb]%IH]%Forall_cons. rewrite fmap_cons. cbn. by rewrite <-Hw.
Qed.

(** A closed crew can always be run until every thread has left. *)
Lemma crew_finishes n : ∀ c, remaining c ≤ n → cw_open c = false →
  ∃ es c', crew_run es c = Some c' ∧ Forall (fun s => s = Exited) (cw_workers c').
Proof.
  induction n as [|n IH]; intros c Hn Ho; (destruct (crew_progress c Ho) as [Hall|(e&c1&He)]; [by exists [], c|]);
    destruct (crew_event_spends e c c1 Ho He) as (Ho1&Hlt&_); [lia|].
  destruct (IH c1 ltac:(lia) Ho1) as (es&c'&Hr&Hall). exists (e :: es), c'. cbn. by rewrite He.
Qed.

Lemma join_exited n : join_all (replicate n Exited) = true.
Proof. by induction n. Qed.

(** ** Property *)

(** C13. Draining: whatever was sent to a pool with at least one thread, once the channel is closed
    the threads can do only boundedly many things, they can always go on until every one of
    them has left and the join loop of the shutdown returns, and when none can do anything more
    that is the case and every job the channel ever accepted was worked on by exactly one of
    them, exactly once. *)
Theorem shutdown_drains size es c : 0 < size → crew_run es (crew_spawn size) = Some c → cw_open c = false →
  (∀ es' c', crew_run es' c = Some c' → length es' ≤ remaining c) ∧
  (∃ es' c', crew_run es' c = Some c' ∧ cw_workers c' = replicate size Exited ∧ join_all (cw_workers c') = true) ∧
  (∀ es' c', crew_run es' c = Some c' → (∀ e, crew_event e c' = None) →
     cw_workers c' = replicate size Exited ∧ join_all (cw_workers c') = true ∧
     cw_jobs c' = [] ∧ cw_finished c' ≡ₚ sent es).
Proof.
  intros Hsize Hrun Ho. pose proof (crew_run_ok size es _ c (crew_spawn_ok size) Hrun) as Hok. split_and!.
  - intros es' c' (_&Hle&_)%crew_run_spends; [lia|done].
  - destruct (crew_finishes (remaining c) c ltac:(lia) Ho) as (es'&c'&Hr&Hall). exists es', c'. split; [done|].
    destruct (crew_run_ok size es' c c' Hok Hr) as [<- _]. destruct (all_exited _ Hall) as [Hw _].
    split; [done|]. rewrite Hw. apply join_exited.
  - intros es' c' Hr Hstuck. destruct (crew_run_spends es' c c' Ho Hr) as (Ho'&_&Hs).
    destruct (crew_run_ok size es' c c' Hok Hr) as [Hlen Hex].
    destruct (crew_progress c' Ho') as [Hall|(e&c1&He)]; [|by rewrite Hstuck in He].
    destruct (all_exited _ Hall) as [Hw Hb]. rewrite Hlen in Hw.
    assert (Hj : cw_jobs c' = []).
    { apply Hex. rewrite Hw. apply elem_of_replicate. split; [done|lia]. }
    split_and!; [done|rewrite Hw; apply join_exited|done|].
    pose proof (crew_run_conserves es' c c' Hr) as Hc. pose proof (crew_run_conserves es _ c Hrun) as Hc0.
    rewrite Hs, app_nil_r, Hc0 in Hc. unfold everywhere, busy_jobs in Hc. rewrite Hb, Hj, !app_nil_r in Hc. rewrite Hc.
    cbn. assert (Hz : concat (held <$> replicate size Waiting) = []) by (clear; induction size; done). by rewrite Hz.
Qed.

(** Two threads, two jobs, and the channel closed while one of them is being worked on. *)
Definition two_jobs : list CrewEvent :=
  [Send {| jb_run_id := "rn_a"; jb_token := "t1" |}; Take 1; Send {| jb_run_id := "rn_b"; jb_token := "t2" |}; Close].

Lemma shutdown_drains_witness : ∃ c, crew_run two_jobs (crew_spawn 2) = Some c ∧
  ∃ es' c', crew_run es' c = Some c' ∧ cw_workers c' = replicate 2 Exited ∧ join_all (cw_workers c') = true.
Proof.
  assert (Hc : ∃ c, crew_run two_jobs (crew_spawn 2) = Some c ∧ cw_open c = false) by (eexists; split; reflexivity).
  destruct Hc as (c&Hc&Ho). exists c. split; [exact Hc|].
  destruct (shutdown_drains 2 two_jobs c ltac:(lia) Hc Ho) as (_&He&_). exact He.
Defined.
