(* ===== verification/Throttle.v ===== *)
(** * Throttling and fair sharing

    Models [scheduler/throttle.rs]: the concurrency limiter with its compare-and-swap
    loop as a transition system over interleaved threads, the leaky-bucket rate
    limiter on binary64, and the round-robin dispatcher over tenants. *)
From S2P Require Import Prelude Float64.
From stdpp Require Import pretty.
Local Open Scope Z_scope.

Inductive ThrottleError :=
| ConcurrencyLimitExceeded (key : string) (active limit : Z)
| RateLimitExceeded (key : string) (retry_after_ms : Z).

(** ** The concurrency limiter *)

Module Limiter.
(** The limits, the shared counters and the fallback limit. A counter, once made, is
    never replaced, so a clone of its [Arc] is named by its key. *)
Record ConcurrencyLimiter := {
  cl_limits : gmap string Z;
  cl_counters : gmap string Z;
  cl_default : Z
}.

Definition new (default_limit : Z) : ConcurrencyLimiter :=
  {| cl_limits := ∅; cl_counters := ∅; cl_default := Z.max default_limit 1 |}.

Definition set_limit (key : string) (limit : Z) (l : ConcurrencyLimiter) : ConcurrencyLimiter :=
  {| cl_limits := <[key := Z.max limit 1]> (cl_limits l); cl_counters := cl_counters l;
     cl_default := cl_default l |}.

Definition limit_of (key : string) (l : ConcurrencyLimiter) : Z :=
  default (cl_default l) (cl_limits l !! key).

Definition set_counter (key : string) (c : Z) (l : ConcurrencyLimiter) : ConcurrencyLimiter :=
  {| cl_limits := cl_limits l; cl_counters := <[key := c]> (cl_counters l); cl_default := cl_default l |}.

(** [entry(key).or_insert_with(0)] *)
Definition ensure_counter (key : string) (l : ConcurrencyLimiter) : ConcurrencyLimiter :=
  match cl_counters l !! key with Some _ => l | None => set_counter key 0 l end.

Definition active_count (key : string) (l : ConcurrencyLimiter) : Z := default 0 (cl_counters l !! key).

(** [Drop for ConcurrencyPermit]: [fetch_sub], which wraps. *)
Definition drop_permit (key : string) (l : ConcurrencyLimiter) : ConcurrencyLimiter :=
  set_counter key (wrap_u64 (active_count key l - 1)) l.

(** Where a thread is inside [try_acquire]. *)
Inductive pc :=
| HasLimit (key : string) (limit : Z)
| HasCounter (key : string) (limit : Z)
| Looping (key : string) (limit current : Z).

Inductive action :=
| SetLimit (key : string) (limit : Z)
| Begin (tid : nat) (key : string)
| GetCounter (tid : nat)
| LoadCounter (tid : nat)
| Cas (tid : nat) (spurious : bool)
| DropPermit (key : string).

(** The limiter, the threads inside [try_acquire] and the keys of the live permits. *)
Record Sys := { sy_limiter : ConcurrencyLimiter; sy_threads : gmap nat pc; sy_permits : list string }.

Definition init (default_limit : Z) : Sys :=
  {| sy_limiter := new default_limit; sy_threads := ∅; sy_permits := [] |}.

Definition move (tid : nat) (p : pc) (l : ConcurrencyLimiter) (s : Sys) : Sys :=
  {| sy_limiter := l; sy_threads := <[tid := p]> (sy_threads s); sy_permits := sy_permits s |}.

Definition leave (tid : nat) (l : ConcurrencyLimiter) (permits : list string) (s : Sys) : Sys :=
  {| sy_limiter := l; sy_threads := delete tid (sy_threads s); sy_permits := permits |}.

Fixpoint remove_one (k : string) (l : list string) : list string :=
  match l with
  | [] => []
  | x :: l => if bool_decide (x = k) then l else x :: remove_one k l
  end.

(** One atomic step of some thread; [None] when the action is not enabled. A weak
    compare-and-swap may fail spuriously. *)
Definition act (a : action) (s : Sys) : option Sys :=
  let l := sy_limiter s in
  match a with
  | SetLimit k n => Some {| sy_limiter := set_limit k n l; sy_threads := sy_threads s; sy_permits := sy_permits s |}
  | Begin tid k =>
      match sy_threads s !! tid with
      | None => Some (move tid (HasLimit k (limit_of k l)) l s)
      | Some _ => None
      end
  | GetCounter tid =>
      match sy_threads s !! tid with
      | Some (HasLimit k limit) => Some (move tid (HasCounter k limit) (ensure_counter k l) s)
      | _ => None
      end
  | LoadCounter tid =>
      match sy_threads s !! tid with
      | Some (HasCounter k limit) => Some (move tid (Looping k limit (active_count k l)) l s)
      | _ => None
      end
  | Cas tid spurious =>
      match sy_threads s !! tid with
      | Some (Looping k limit current) =>
          if limit <=? current then Some (leave tid l (sy_permits s) s)
          else if spurious || negb (active_count k l =? current) then
            Some (move tid (Looping k limit (active_count k l)) l s)
          else Some (leave tid (set_counter k (wrap_u64 (current + 1)) l) (k :: sy_permits s) s)
      | _ => None
      end
  | DropPermit k =>
      if bool_decide (k ∈ sy_permits s) then
        Some {| sy_limiter := drop_permit k l; sy_threads := sy_threads s;
                sy_permits := remove_one k (sy_permits s) |}
      else None
  end.

Fixpoint run (acts : list action) (s : Sys) : option Sys :=
  match acts with
  | [] => Some s
  | a :: acts => s' ← act a s; run acts s'
  end.

(** [try_acquire] when no other thread intervenes: the first compare-and-swap that
    does not fail spuriously decides. *)
Definition try_acquire (key : string) (l : ConcurrencyLimiter)
    : ConcurrencyLimiter * result string ThrottleError :=
  let limit := limit_of key l in
  let l := ensure_counter key l in
  let current := active_count key l in
  if limit <=? current then (l, Err (ConcurrencyLimitExceeded key current limit))
  else (set_counter key (wrap_u64 (current + 1)) l, Ok key).

Definition held (k : string) (permits : list string) : Z :=
  Z.of_nat (length (filter (fun x => x = k) permits)).

(** The limits for [k] that [acts] install stay within [bound]. *)
Definition limits_within (k : string) (bound : Z) (a : action) : Prop :=
  match a with SetLimit k' n => k' = k → n ≤ bound | _ => True end.
End Limiter.

(** ** The leaky bucket *)

Module Bucket.
Record LeakyBucket := {
  lb_capacity : f64;
  lb_leak_rate_per_sec : f64;
  lb_level : f64;
  lb_last_update_ms : Z
}.

(** [f64::max]: the other operand when one is NaN. *)
Definition f64_max (a b : f64) : f64 :=
  match a with
  | S754_nan => b
  | _ => if f64_ltb a b then b else a
  end.

(** [0.001] *)
Definition milli : f64 := f64_div f64_one (f64_of_Z 1000).

Definition new (burst_capacity leak_rate_per_sec : f64) (now_ms : Z) : LeakyBucket :=
  {| lb_capacity := f64_max burst_capacity f64_one;
     lb_leak_rate_per_sec := f64_max leak_rate_per_sec milli;
     lb_level := f64_zero; lb_last_update_ms := now_ms |}.

(** [x.ceil() as u64] *)
Definition f64_ceil_u64 (x : f64) : Z :=
  match x with
  | S754_infinity false => u64_max
  | S754_finite false m e =>
      sat_u64 (if 0 <=? e then Z.pos m * 2 ^ e else - ((- Z.pos m) / 2 ^ (- e)))
  | _ => 0
  end.

(** The level after leaking until [now_ms]. *)
Definition leaked_level (now_ms : Z) (b : LeakyBucket) : f64 :=
  let elapsed_ms := Z.max (wrap_i64 (now_ms - lb_last_update_ms b)) 0 in
  let leaked := f64_mul (f64_div (f64_of_Z elapsed_ms) (f64_of_Z 1000)) (lb_leak_rate_per_sec b) in
  f64_max (f64_sub (lb_level b) leaked) f64_zero.

Definition with_level (level : f64) (now_ms : Z) (b : LeakyBucket) : LeakyBucket :=
  {| lb_capacity := lb_capacity b; lb_leak_rate_per_sec := lb_leak_rate_per_sec b;
     lb_level := level; lb_last_update_ms := now_ms |}.

Definition try_acquire (cost : f64) (now_ms : Z) (b : LeakyBucket) : LeakyBucket * result unit Z :=
  let level := leaked_level now_ms b in
  if f64_leb (f64_add level cost) (lb_capacity b) then
    (with_level (f64_add level cost) now_ms b, Ok tt)
  else
    let excess := f64_sub (f64_add level cost) (lb_capacity b) in
    let wait_secs := f64_div excess (lb_leak_rate_per_sec b) in
    let wait_ms := f64_ceil_u64 (f64_mul wait_secs (f64_of_Z 1000)) in
    (with_level level now_ms b, Err (Z.max wait_ms 1)).
End Bucket.

(** ** Fair sharing *)

Module FairShare.
Section FairShare.
Context {T : Type}.

Record FairShareDispatcher := { fs_queues : gmap string (list T); fs_order : list string }.

Definition new : FairShareDispatcher := {| fs_queues := ∅; fs_order := [] |}.

Definition push (tenant : string) (item : T) (d : FairShareDispatcher) : FairShareDispatcher :=
  let order := match fs_queues d !! tenant with
               | None => fs_order d ++ [tenant]
               | Some _ => fs_order d
               end in
  {| fs_queues := <[tenant := default [] (fs_queues d !! tenant) ++ [item]]> (fs_queues d);
     fs_order := order |}.

(** The [for _ in 0..len] loop: a tenant without a queue, or with an empty one, is
    dropped from the order and the next is tried. *)
Fixpoint pop_loop (n : nat) (d : FairShareDispatcher) : FairShareDispatcher * option (string * T) :=
  match n with
  | O => (d, None)
  | S n =>
      match fs_order d with
      | [] => pop_loop n d
      | tenant :: rest =>
          match fs_queues d !! tenant with
          | Some (item :: q) =>
              match q with
              | [] => ({| fs_queues := delete tenant (fs_queues d); fs_order := rest |}, Some (tenant, item))
              | _ => ({| fs_queues := <[tenant := q]> (fs_queues d); fs_order := rest ++ [tenant] |},
                      Some (tenant, item))
              end
          | _ => pop_loop n {| fs_queues := fs_queues d; fs_order := rest |}
          end
      end
  end.

Definition pop (d : FairShareDispatcher) : FairShareDispatcher * option (string * T) :=
  pop_loop (length (fs_order d)) d.

Definition len (d : FairShareDispatcher) : nat :=
  foldr (fun q n => length q + n)%nat 0%nat (bt_iter (fs_queues d)).*2.

Definition is_empty (d : FairShareDispatcher) : bool := bool_decide (fs_queues d = ∅).

Inductive op := Push (tenant : string) (item : T) | Pop.

(** A sequence of operations, with what each pop returned. *)
Fixpoint run (ops : list op) (d : FairShareDispatcher) : FairShareDispatcher * list (option (string * T)) :=
  match ops with
  | [] => (d, [])
  | Push tenant item :: ops => run ops (push tenant item d)
  | Pop :: ops => let '(d, r) := pop d in let '(d, rs) := run ops d in (d, r :: rs)
  end.

(** What was pushed for a tenant, and what was popped. *)
Definition pushed (t : string) (ops : list op) : list T :=
  omap (fun o => match o with Push t' x => if decide (t' = t) then Some x else None | Pop => None end) ops.

Definition popped (t : string) (rs : list (option (string * T))) : list T :=
  omap (fun r => match r with Some (t', x) => if decide (t' = t) then Some x else None | None => None end) rs.

(** Each waiting tenant is in the order once, with a non-empty queue. *)
Record fair_inv (d : FairShareDispatcher) : Prop := {
  fi_nodup : NoDup (fs_order d);
  fi_order : ∀ t, t ∈ fs_order d ↔ is_Some (fs_queues d !! t);
  fi_nonempty : ∀ t q, fs_queues d !! t = Some q → q ≠ []
}.
End FairShare.
Arguments FairShareDispatcher : clear implicits.
Arguments op : clear implicits.
End FairShare.

(** ** Lemmas on the limiter *)

Section LimiterLemmas.
Import Limiter.
Context (bound : string → Z) (Hbound : ∀ k, 1 ≤ bound k ≤ u64_max).

(** The limit a thread works with stays within the bound of its key. *)
Definition pc_within (p : pc) : Prop :=
  match p with
  | HasLimit k limit | HasCounter k limit => limit ≤ bound k
  | Looping k limit current => limit ≤ bound k ∧ 0 ≤ current
  end.

Record limiter_inv (s : Sys) : Prop := {
  li_exact : ∀ k, active_count k (sy_limiter s) = held k (sy_permits s);
  li_held : ∀ k, held k (sy_permits s) ≤ bound k;
  li_limits : ∀ k, limit_of k (sy_limiter s) ≤ bound k;
  li_pcs : ∀ tid p, sy_threads s !! tid = Some p → pc_within p
}.

Lemma held_nonneg k l : 0 ≤ held k l.
Proof. unfold held. lia. Qed.

Lemma held_cons k x l : held k (x :: l) = (if decide (x = k) then 1 else 0) + held k l.
Proof. unfold held. rewrite filter_cons. case_decide; cbn [length]; lia. Qed.

Lemma held_remove k x l : x ∈ l → held k (remove_one x l) = held k l - (if decide (x = k) then 1 else 0).
Proof.
  induction l as [|y l IH]; intros Hx; [by apply elem_of_nil in Hx|]. cbn [remove_one].
  case_bool_decide as Hyx.
  - subst y. rewrite held_cons. lia.
  - apply elem_of_cons in Hx as [->|Hx]; [done|]. rewrite !held_cons, (IH Hx). lia.
Qed.

Lemma held_elem k l : k ∈ l → 1 ≤ held k l.
Proof.
  intros Hk. induction l as [|x l IH]; [by apply elem_of_nil in Hk|]. rewrite held_cons.
  pose proof (held_nonneg k l). apply elem_of_cons in Hk as [<-|Hk]; [rewrite decide_True by done; lia|].
  specialize (IH Hk). case_decide; lia.
Qed.

Lemma active_set k k' c l : active_count k (set_counter k' c l) = if decide (k' = k) then c else active_count k l.
Proof.
  unfold active_count, set_counter. cbn. case_decide; [subst; by rewrite lookup_insert_eq|by rewrite lookup_insert_ne].
Qed.

Lemma active_ensure k k' l : active_count k (ensure_counter k' l) = active_count k l.
Proof.
  unfold ensure_counter. destruct (cl_counters l !! k') eqn:Hc; [done|]. rewrite active_set.
  case_decide; [|done]. subst. unfold active_count. by rewrite Hc.
Qed.

Lemma limit_ensure k k' l : limit_of k (ensure_counter k' l) = limit_of k l.
Proof. unfold ensure_counter. by destruct (cl_counters l !! k'). Qed.

Lemma move_inv s tid p l : limiter_inv s → pc_within p →
  (∀ k, active_count k l = active_count k (sy_limiter s)) → (∀ k, limit_of k l = limit_of k (sy_limiter s)) →
  limiter_inv (move tid p l s).
Proof.
  intros [H1 H2 H3 H4] Hp Ha Hl. split; cbn; intros; rewrite ?Ha, ?Hl; try done.
  apply lookup_insert_Some in H as [[_ <-]|[_ ?]]; [done|by eapply H4].
Qed.

Lemma act_inv a s s' : (∀ k, limits_within k (bound k) a) → limiter_inv s → act a s = Some s' → limiter_inv s'.
Proof.
  intros Ha Hinv Hact. pose proof Hinv as [H1 H2 H3 H4]. destruct a as [k n|tid k|tid|tid|tid sp|k]; cbn in Hact.
  - simplify_eq. split; cbn; try done. intros k'. unfold limit_of, set_limit. cbn.
    destruct (decide (k = k')) as [->|Hne].
    + rewrite lookup_insert_eq. cbn. specialize (Ha k' eq_refl). pose proof (Hbound k'). lia.
    + rewrite lookup_insert_ne by done. apply H3.
  - destruct (sy_threads s !! tid); simplify_eq. apply move_inv; try done. apply H3.
  - destruct (sy_threads s !! tid) as [[k lim|k lim|k lim cur]|] eqn:Ht; simplify_eq. apply move_inv; try done.
    + exact (H4 tid _ Ht).
    + intros k'. apply active_ensure.
    + intros k'. apply limit_ensure.
  - destruct (sy_threads s !! tid) as [[k lim|k lim|k lim cur]|] eqn:Ht; simplify_eq. apply move_inv; try done.
    split; [exact (H4 tid _ Ht)|]. rewrite H1. apply held_nonneg.
  - destruct (sy_threads s !! tid) as [[k lim|k lim|k lim cur]|] eqn:Ht; simplify_eq.
    destruct (H4 tid _ Ht) as [Hlim Hcur]. destruct (Z.leb_spec lim cur).
    { simplify_eq. split; cbn; try done. intros tid' p Hp. apply lookup_delete_Some in Hp as [_ Hp]. by eapply H4. }
    destruct (sp || negb (active_count k (sy_limiter s) =? cur)) eqn:Hsp; simplify_eq.
    { apply move_inv; try done. split; [done|]. rewrite H1. apply held_nonneg. }
    apply orb_false_iff in Hsp as [_ Heq%negb_false_iff%Z.eqb_eq]. pose proof (Hbound k) as Hb.
    split; cbn; try done.
    + intros k'. rewrite active_set, held_cons, <-H1. case_decide; [|lia]. subst k'. rewrite Heq.
      rewrite wrap_u64_id by (unfold in_u64; lia). lia.
    + intros k'. rewrite held_cons. specialize (H2 k'). case_decide; [|lia]. subst k'. rewrite <-H1, Heq. lia.
    + intros tid' p Hp. apply lookup_delete_Some in Hp as [_ Hp]. by eapply H4.
  - case_bool_decide as Hk; simplify_eq. split; cbn; try done.
    + intros k'. unfold drop_permit. rewrite active_set, (held_remove _ _ _ Hk), <-H1.
      case_decide; [|lia]. subst k'. pose proof (held_elem _ _ Hk). specialize (H2 k).
      pose proof (Hbound k). rewrite <-H1 in *. rewrite wrap_u64_id by (unfold in_u64; lia). lia.
    + intros k'. rewrite (held_remove _ _ _ Hk). specialize (H2 k'). case_decide; lia.
Qed.

Lemma run_inv acts : ∀ s s', Forall (fun a => ∀ k, limits_within k (bound k) a) acts →
  limiter_inv s → run acts s = Some s' → limiter_inv s'.
Proof.
  induction acts as [|a acts IH]; intros s s' Hacts Hs Hrun; cbn in Hrun; [by simplify_eq|].
  apply Forall_cons in Hacts as [Ha Hacts]. destruct (act a s) as [s1|] eqn:Hact; [|done]. cbn in Hrun.
  eapply IH; [done| |done]. by eapply act_inv.
Qed.
End LimiterLemmas.

(** ** Lemmas on fair sharing *)

Section FairShareLemmas.
Import FairShare.
Context {T : Type}.
Implicit Types (d : FairShareDispatcher T).

Lemma push_inv t x d : fair_inv d → fair_inv (push t x d).
Proof.
  intros [Hnd Ho Hne]. unfold push. destruct (fs_queues d !! t) as [q|] eqn:Hq; split; cbn.
  - done.
  - intros t'. destruct (decide (t = t')) as [<-|Hn].
    + rewrite lookup_insert_eq, Ho, Hq. split; eauto.
    + rewrite lookup_insert_ne by done. apply Ho.
  - intros t' q' [[_ <-]|[_ Hq']]%lookup_insert_Some; [by destruct q|by eapply Hne].
  - apply NoDup_app. split; [done|]. split; [|apply NoDup_singleton].
    intros t' Ht' ->%list_elem_of_singleton. apply Ho in Ht' as [? ?]. congruence.
  - intros t'. rewrite elem_of_app, list_elem_of_singleton. destruct (decide (t = t')) as [<-|Hn].
    + rewrite lookup_insert_eq. split; eauto.
    + rewrite lookup_insert_ne, Ho by done. naive_solver.
  - intros t' q' [[_ <-]|[_ Hq']]%lookup_insert_Some; [done|by eapply Hne].
Qed.

(** Under the invariant the first turn of the loop decides. *)
Lemma pop_cases d : fair_inv d →
  match fs_order d with
  | [] => pop d = (d, None)
  | t :: rest => ∃ x q, fs_queues d !! t = Some (x :: q) ∧
      pop d = ({| fs_queues := match q with [] => delete t (fs_queues d) | _ => <[t := q]> (fs_queues d) end;
                  fs_order := match q with [] => rest | _ => rest ++ [t] end |}, Some (t, x))
  end.
Proof.
  intros [Hnd Ho Hne]. unfold pop. destruct (fs_order d) as [|t rest] eqn:Hord; [done|].
  destruct (proj1 (Ho t)) as [q Hq]; [left|]. pose proof (Hne t q Hq) as Hqne.
  destruct q as [|x q]; [done|]. exists x, q. split; [done|]. cbn [length pop_loop]. rewrite Hord, Hq.
  by destruct q.
Qed.

Lemma pop_inv d : fair_inv d → fair_inv (pop d).1.
Proof.
  intros Hinv. pose proof (pop_cases d Hinv) as Hp. pose proof Hinv as [Hnd Ho Hne].
  destruct (fs_order d) as [|t rest] eqn:Hord; [by rewrite Hp|]. destruct Hp as (x&q&Hq&->). cbn [fst].
  apply NoDup_cons in Hnd as [Ht Hnd]. destruct q as [|y q]; split; cbn.
  - done.
  - intros t'. destruct (decide (t = t')) as [<-|Hn].
    + rewrite lookup_delete_eq. split; [done|by intros []].
    + rewrite lookup_delete_ne, <-Ho by done. set_solver.
  - intros t' q' [_ ?]%lookup_delete_Some. by eapply Hne.
  - apply NoDup_app. split; [done|]. split; [set_solver|apply NoDup_singleton].
  - intros t'. rewrite elem_of_app, list_elem_of_singleton. destruct (decide (t = t')) as [<-|Hn].
    + rewrite lookup_insert_eq. split; eauto.
    + rewrite lookup_insert_ne, <-Ho by done. set_solver.
  - intros t' q' [[_ <-]|[_ ?]]%lookup_insert_Some; [done|by eapply Hne].
Qed.

Lemma new_inv : fair_inv (new (T := T)).
Proof.
  split; cbn; [by apply NoDup_nil|intros t|done]. rewrite lookup_empty, elem_of_nil. split; [done|by intros []].
Qed.

(** The backlog of a tenant. *)
Definition backlog (t : string) d : list T := default [] (fs_queues d !! t).

Lemma push_backlog t t' x d : backlog t (push t' x d) = backlog t d ++ (if decide (t' = t) then [x] else []).
Proof.
  unfold backlog, push. cbn. case_decide.
  - subst. by rewrite lookup_insert_eq.
  - by rewrite lookup_insert_ne, app_nil_r.
Qed.

Lemma pop_backlog t d : fair_inv d →
  backlog t d = popped t [(pop d).2] ++ backlog t (pop d).1.
Proof.
  intros Hinv. pose proof (pop_cases d Hinv) as Hp. destruct (fs_order d) as [|t0 rest]; [by rewrite Hp|].
  destruct Hp as (x&q&Hq&->). unfold backlog, popped. cbn. destruct (decide (t0 = t)) as [->|Hne].
  - rewrite Hq. destruct q; cbn; by rewrite ?lookup_delete_eq, ?lookup_insert_eq.
  - destruct q; cbn; by rewrite ?lookup_delete_ne, ?lookup_insert_ne.
Qed.

Lemma run_inv_backlog t ops : ∀ d, fair_inv d →
  fair_inv (run ops d).1 ∧ backlog t d ++ pushed t ops = popped t (run ops d).2 ++ backlog t (run ops d).1.
Proof.
  induction ops as [|[t' x|] ops IH]; intros d Hinv; cbn [run].
  - split; [done|]. cbn. by rewrite app_nil_r.
  - destruct (IH (push t' x d) (push_inv _ _ _ Hinv)) as [H1 H2]. split; [done|]. rewrite <-H2, push_backlog.
    unfold pushed. cbn. case_decide; cbn; by rewrite <-(assoc_L (++)).
  - pose proof (pop_backlog t d Hinv) as Hb. pose proof (pop_inv d Hinv) as Hinv1.
    destruct (pop d) as [d1 r]. cbn [fst snd] in Hb, Hinv1. destruct (IH d1 Hinv1) as [H1 H2].
    destruct (run ops d1) as [d2 rs]. cbn [fst snd] in *. split; [done|]. rewrite Hb, <-app_assoc.
    change (pushed t (Pop :: ops)) with (pushed t ops). rewrite H2.
    unfold popped. destruct r as [[t' x]|]; cbn; [|done]. by case_decide.
Qed.
End FairShareLemmas.

(** ** Properties *)

(** C26. The limiter under any interleaving of acquiring and releasing threads,
    spurious compare-and-swap failures and limit changes included: each counter is
    exactly the number of live permits of its key (so releases never wrap around), and
    that number never exceeds the largest limit configured for the key. *)
Theorem limiter_exact bound default_limit acts s :
  (∀ k, 1 ≤ bound k ≤ u64_max) → (∀ k, default_limit ≤ bound k) →
  Forall (fun a => ∀ k, Limiter.limits_within k (bound k) a) acts →
  Limiter.run acts (Limiter.init default_limit) = Some s →
  ∀ k, Limiter.active_count k (Limiter.sy_limiter s) = Limiter.held k (Limiter.sy_permits s) ∧
    0 ≤ Limiter.held k (Limiter.sy_permits s) ≤ bound k.
Proof.
  intros Hb Hd Hacts Hrun k. apply (run_inv bound Hb) in Hrun as [H1 H2 _ _]; [|done|].
  - split; [apply H1|]. split; [apply held_nonneg|apply H2].
  - split; cbn; try done; intros k'; pose proof (Hb k'); pose proof (Hd k').
    + unfold Limiter.held. cbn. lia.
    + unfold Limiter.limit_of. cbn. rewrite ?lookup_empty. cbn. lia.
Qed.

(** Two threads race for the single slot of a key; the loser retries and is refused. *)
Definition race : list Limiter.action := [
  Limiter.Begin 1 "acme"; Limiter.Begin 2 "acme"; Limiter.GetCounter 1; Limiter.GetCounter 2;
  Limiter.LoadCounter 1; Limiter.LoadCounter 2; Limiter.Cas 2 true; Limiter.Cas 2 false;
  Limiter.Cas 1 false; Limiter.Cas 1 false].

Lemma limiter_exact_witness : ∃ s, Limiter.run race (Limiter.init 1) = Some s ∧
  Limiter.active_count "acme" (Limiter.sy_limiter s) = 1 ∧ Limiter.held "acme" (Limiter.sy_permits s) = 1.
Proof.
  destruct (Limiter.run race (Limiter.init 1)) as [s|] eqn:Hs; [|vm_compute in Hs; discriminate].
  exists s. split; [reflexivity|].
  destruct (limiter_exact (fun _ => 1) 1 race s) with (k := "acme"%string) as [Ha Hh].
  - intros k. unfold u64_max. lia.
  - intros k. lia.
  - repeat (constructor; [intros k; exact I|]). constructor.
  - exact Hs.
  - vm_compute in Hs. injection Hs as <-. split; reflexivity.
Defined.

(** A call of [try_acquire] that no other thread interrupts is the four atomic
    steps of its thread in a row: the limiter ends in the same state, and the permit
    is live exactly when the call returned one. *)
Theorem try_acquire_steps tid key s :
  Limiter.sy_threads s !! tid = None →
  let '(l, r) := Limiter.try_acquire key (Limiter.sy_limiter s) in
  Limiter.run [Limiter.Begin tid key; Limiter.GetCounter tid; Limiter.LoadCounter tid; Limiter.Cas tid false] s
  = Some {| Limiter.sy_limiter := l; Limiter.sy_threads := Limiter.sy_threads s;
            Limiter.sy_permits := match r with Ok k => k :: Limiter.sy_permits s | Err _ => Limiter.sy_permits s end |}.
Proof.
  intros Hn. unfold Limiter.try_acquire. cbn. rewrite Hn. cbn. rewrite !lookup_insert_eq. cbn.
  rewrite !lookup_insert_eq. cbn. rewrite !lookup_insert_eq.
  destruct (Limiter.limit_of key (Limiter.sy_limiter s) <=? _); cbn; [|rewrite Z.eqb_refl; cbn];
    unfold Limiter.leave; cbn; rewrite !insert_insert_eq, delete_insert_id by done; done.
Qed.

Lemma try_acquire_steps_witness :
  Limiter.run [Limiter.Begin 7 "acme"; Limiter.GetCounter 7; Limiter.LoadCounter 7; Limiter.Cas 7 false]
    (Limiter.init 2) = Some {| Limiter.sy_limiter := (Limiter.try_acquire "acme" (Limiter.new 2)).1;
      Limiter.sy_threads := ∅; Limiter.sy_permits := ["acme"%string] |}.
Proof. apply (try_acquire_steps 7 "acme" (Limiter.init 2)). reflexivity. Defined.

(** Fair sharing neither loses, duplicates nor reorders: after any sequence of
    pushes and pops from the empty dispatcher, what was pushed for a tenant is what
    was popped for it, in order, followed by what is still queued for it. *)
Theorem fair_share_fifo {T} (t : string) (ops : list (FairShare.op T)) :
  let '(d, rs) := FairShare.run ops FairShare.new in
  FairShare.pushed t ops = FairShare.popped t rs ++ default [] (FairShare.fs_queues d !! t).
Proof.
  destruct (run_inv_backlog t ops FairShare.new new_inv) as [_ Hb].
  destruct (FairShare.run ops FairShare.new) as [d rs]. exact Hb.
Qed.

(** Dispatchers that operations on an empty one lead to. *)
Definition fair_reachable {T} (d : FairShare.FairShareDispatcher T) : Prop :=
  ∃ ops, (FairShare.run ops FairShare.new).1 = d.

Definition is_pop {T} (o : FairShare.op T) : bool := match o with FairShare.Pop => true | _ => false end.

Lemma turn_bound {T} (t : string) (ops : list (FairShare.op T)) : ∀ d i, FairShare.fair_inv d →
  FairShare.fs_order d !! i = Some t → (i < length (List.filter is_pop ops))%nat →
  ∃ x, (FairShare.run ops d).2 !! i = Some (Some (t, x)) ∧ head (default [] (FairShare.fs_queues d !! t)) = Some x.
Proof.
  induction ops as [|[t' x|] ops IH]; intros d i Hinv Hi Hlen; cbn [List.filter is_pop length] in Hlen; [lia| |].
  - cbn [FairShare.run].
    assert (Hi' : FairShare.fs_order (FairShare.push t' x d) !! i = Some t).
    { unfold FairShare.push. cbn. destruct (FairShare.fs_queues d !! t'); [done|]. by apply lookup_app_l_Some. }
    destruct (IH _ i (push_inv _ _ _ Hinv) Hi' Hlen) as (y&Hy&Hh). exists y. split; [done|]. rewrite <-Hh.
    change (head (backlog t d) = head (backlog t (FairShare.push t' x d))). rewrite push_backlog.
    assert (Ht : t ∈ FairShare.fs_order d) by by eapply list_elem_of_lookup_2.
    apply (FairShare.fi_order _ Hinv) in Ht as [q Hq]. pose proof (FairShare.fi_nonempty _ Hinv t q Hq).
    unfold backlog. rewrite Hq. by destruct q.
  - pose proof (pop_cases d Hinv) as Hp. pose proof (pop_inv d Hinv) as Hinv1. cbn [FairShare.run].
    destruct (FairShare.fs_order d) as [|t0 rest] eqn:Hord; [done|]. destruct Hp as (x&q&Hq&Hpop).
    rewrite Hpop in Hinv1 |- *. cbn [fst] in Hinv1. set (d1 := {| FairShare.fs_queues := _ |}) in *.
    destruct i as [|i]; cbn in Hi.
    { injection Hi as ->. destruct (FairShare.run ops d1) as [d2 rs]. exists x. cbn. by rewrite Hq. }
    assert (Hne : t0 ≠ t).
    { intros ->. pose proof (FairShare.fi_nodup _ Hinv) as Hnd. rewrite Hord in Hnd.
      apply NoDup_cons in Hnd as [Hn _]. apply Hn. by eapply list_elem_of_lookup_2. }
    destruct (IH d1 i Hinv1) as (y&Hy&Hh).
    + unfold d1. cbn. destruct q; [done|]. by apply lookup_app_l_Some.
    + lia.
    + destruct (FairShare.run ops d1) as [d2 rs]. exists y. cbn. split; [done|]. rewrite <-Hh. unfold d1. cbn.
      destruct q; by rewrite ?lookup_delete_ne, ?lookup_insert_ne.
Qed.

(** C27. No tenant starves: a tenant with [i] tenants ahead of it in the rotation is
    served by the [i+1]-st pop, whatever is pushed in between, and what it gets is
    its oldest item. *)
Theorem fair_share_bounded_wait {T} (t : string) (ops : list (FairShare.op T)) d i :
  fair_reachable d → FairShare.fs_order d !! i = Some t → (i < length (List.filter is_pop ops))%nat →
  ∃ x, (FairShare.run ops d).2 !! i = Some (Some (t, x)) ∧ head (default [] (FairShare.fs_queues d !! t)) = Some x.
Proof.
  intros [ops0 <-]. apply turn_bound. apply (run_inv_backlog t ops0 FairShare.new new_inv).
Qed.

(** Three tenants, the first with a long backlog. *)
Definition busy : FairShare.FairShareDispatcher Z :=
  (FairShare.run [FairShare.Push "a" 1; FairShare.Push "a" 2; FairShare.Push "b" 3; FairShare.Push "c" 4;
    FairShare.Push "a" 5] FairShare.new).1.

Lemma fair_share_bounded_wait_witness : ∃ x,
  (FairShare.run [FairShare.Pop; FairShare.Push "a" 6; FairShare.Pop; FairShare.Push "d" 7; FairShare.Pop] busy).2 !! 2%nat
  = Some (Some ("c"%string, x)) ∧ head (default [] (FairShare.fs_queues busy !! "c"%string)) = Some x.
Proof.
  apply (fair_share_bounded_wait "c" [FairShare.Pop; FairShare.Push "a" 6; FairShare.Pop; FairShare.Push "d" 7;
    FairShare.Pop] busy 2).
  - eexists. reflexivity.
  - vm_compute. reflexivity.
  - apply (bool_decide_unpack _). vm_compute. exact I.
Defined.

Lemma f64_ceil_range x : 0 ≤ Bucket.f64_ceil_u64 x ≤ u64_max.
Proof. destruct x as [|[]| |[] m e]; cbn; unfold sat_u64, u64_max; lia. Qed.

(** A bucket of one token per second and burst two. *)
Definition full_bucket : Bucket.LeakyBucket :=
  (Bucket.try_acquire (f64_of_Z 2) 1000 (Bucket.new (f64_of_Z 2) f64_one 1000)).1.

(** The bucket charges an operation exactly when the leaked level plus its cost
    fits the capacity; a refused operation is told to wait at least a millisecond and
    costs nothing. But a clock that steps back makes it leak twice: the bucket below
    is full at time 1000, and a reading at 0 followed by one at 2000 drains two
    seconds' worth of tokens although one second has passed. *)
Theorem bucket_charges cost now_ms b :
  (match Bucket.try_acquire cost now_ms b with
   | (b', Ok _) => Bucket.lb_level b' = f64_add (Bucket.leaked_level now_ms b) cost ∧
       f64_leb (Bucket.lb_level b') (Bucket.lb_capacity b') = true
   | (b', Err wait) => Bucket.lb_level b' = Bucket.leaked_level now_ms b ∧ 1 ≤ wait ≤ u64_max ∧
       f64_leb (f64_add (Bucket.leaked_level now_ms b) cost) (Bucket.lb_capacity b) = false
   end) ∧
  is_ok (Bucket.try_acquire (f64_of_Z 2) 2000 full_bucket).2 = false ∧
  is_ok (Bucket.try_acquire (f64_of_Z 2) 2000 (Bucket.try_acquire (f64_of_Z 1) 0 full_bucket).1).2 = true.
Proof.
  split; [|split; vm_compute; reflexivity]. unfold Bucket.try_acquire.
  destruct (f64_leb _ _) eqn:Hle; [done|]. split; [done|]. split; [|done].
  match goal with |- context [Bucket.f64_ceil_u64 ?x] => pose proof (f64_ceil_range x) end. unfold u64_max in *. lia.
Qed.
