(* ===== verification/Dashboard.v ===== *)
(** * The dashboard page (src/src/api/server.rs, dashboard)

    The HTML document the root route answers with, as a function of what the handler
    read: the version, the uptime, the queue depth, the runs and the summaries. *)
From stdpp Require Import pretty.
From S2P Require Import Prelude RustStrings Text Ids Status Float64 FloatText Workflow Store.
Local Open Scope Z_scope.

Definition page_head : string :=
  "<!doctype html><html><head><meta charset=" +:+ dq +:+ "utf-8" +:+ dq +:+
  "><title>runvane control plane</title>" +:+
  "<style>body{font:14px/1.5 -apple-system,BlinkMacSystemFont,Segoe UI,Roboto,sans-serif;max-width:1040" +:+
  "px;margin:2rem auto;padding:0 1rem;background:#f8fafc;color:#0f172a}h1{font-size:1.75rem;margin-bott" +:+
  "om:0.25rem}.subtitle{color:#64748b;font-size:0.9rem;margin-bottom:1.5rem}.cards{display:grid;grid-te" +:+
  "mplate-columns:repeat(auto-fit,minmax(180px,1fr));gap:1rem;margin-bottom:1.5rem}.card{background:#ff" +:+
  "ffff;border:1px solid #e2e8f0;border-radius:6px;padding:1rem}.card-num{font-size:1.5rem;font-weight:" +:+
  "700;color:#0f172a}.card-lbl{color:#64748b;font-size:0.75rem;text-transform:uppercase;letter-spacing:" +:+
  "0.05em}.svg-bar{margin:1.5rem 0;background:#ffffff;border:1px solid #e2e8f0;border-radius:6px;paddin" +:+
  "g:1rem}table{border-collapse:collapse;width:100%;background:#ffffff;border:1px solid #e2e8f0;border-" +:+
  "radius:6px;margin-bottom:1.5rem}th,td{border-bottom:1px solid #e2e8f0;padding:0.6rem 0.8rem;text-ali" +:+
  "gn:left}th{background:#f1f5f9;font-size:0.8rem;text-transform:uppercase;color:#475569}code{font-fami" +:+
  "ly:monospace;background:#f1f5f9;padding:0.1rem 0.3rem;border-radius:3px}.badge{padding:0.15rem 0.45r" +:+
  "em;border-radius:4px;font-size:0.75rem;font-weight:600}.succeeded{background:#dcfce7;color:#166534}." +:+
  "running{background:#dbeafe;color:#1e40af}.queued{background:#fef9c3;color:#854d0e}.failed{background" +:+
  ":#fee2e2;color:#991b1b}footer{color:#64748b;font-size:0.85rem;margin-top:2rem}a{color:#2563eb;text-d" +:+
  "ecoration:none}a:hover{text-decoration:underline}</style></head><body>".

Definition page_title (version : string) (uptime_s queue_depth : Z) : string :=
  "<h1>runvane</h1><p class=" +:+ dq +:+ "subtitle" +:+ dq +:+ ">v" +:+ version +:+ " &middot; uptime " +:+
  pretty uptime_s +:+ "s &middot; queue depth " +:+ pretty queue_depth +:+ "</p>".

Definition page_cards (total_runs queue_depth n_workflows uptime_s : Z) : string :=
  "<div class=" +:+ dq +:+ "cards" +:+ dq +:+ "><div class=" +:+ dq +:+ "card" +:+ dq +:+ "><div class=" +:+
  dq +:+ "card-num" +:+ dq +:+ ">" +:+ pretty total_runs +:+ "</div><div class=" +:+ dq +:+ "card-lbl" +:+
  dq +:+ ">Total Runs</div></div><div class=" +:+ dq +:+ "card" +:+ dq +:+ "><div class=" +:+ dq +:+
  "card-num" +:+ dq +:+ ">" +:+ pretty queue_depth +:+ "</div><div class=" +:+ dq +:+ "card-lbl" +:+ dq +:+
  ">Queue Depth</div></div><div class=" +:+ dq +:+ "card" +:+ dq +:+ "><div class=" +:+ dq +:+ "card-num" +:+
  dq +:+ ">" +:+ pretty n_workflows +:+ "</div><div class=" +:+ dq +:+ "card-lbl" +:+ dq +:+
  ">Workflows</div></div><div class=" +:+ dq +:+ "card" +:+ dq +:+ "><div class=" +:+ dq +:+ "card-num" +:+
  dq +:+ ">" +:+ pretty uptime_s +:+ "s</div><div class=" +:+ dq +:+ "card-lbl" +:+ dq +:+
  ">Uptime</div></div></div>".

(** Runs by the four groups of the page. *)
Definition group_of (s : RunStatus) : string :=
  match s with
  | RunStatus.Succeeded => "succeeded"
  | RunStatus.Running => "running"
  | RunStatus.Queued => "queued"
  | _ => "failed"
  end.

Definition group_count (group : string) (runs : list Run) : Z :=
  Z.of_nat (length (List.filter (fun r => bool_decide (group_of (rn_status r) = group)) runs)).

(** [(pct * 8.0).round().max(0.0)] of [count / total * 100.0] *)
Definition bar_width (count total : Z) : f64 :=
  let pct := f64_mul (f64_div (f64_of_Z count) (f64_of_Z total)) (f64_of_Z 100) in
  f64_max (f64_round (f64_mul pct (f64_of_Z 8))) f64_zero.

Definition page_bar (runs : list Run) : string :=
  let total := Z.of_nat (length runs) in
  let n_s := group_count "succeeded" runs in
  let n_r := group_count "running" runs in
  let n_q := group_count "queued" runs in
  let n_f := group_count "failed" runs in
  let w_s := bar_width n_s total in
  let w_r := bar_width n_r total in
  let w_q := bar_width n_q total in
  let w_f := bar_width n_f total in
  let x_r := w_s in
  let x_q := f64_add x_r w_r in
  let x_f := f64_add x_q w_q in
  "<div class=" +:+ dq +:+ "svg-bar" +:+ dq +:+ "><div style=" +:+ dq +:+
  "font-weight:600;margin-bottom:0.5rem;font-size:0.85rem" +:+ dq +:+ ">Run Distribution (" +:+ pretty n_s +:+
  " Succeeded &middot; " +:+ pretty n_r +:+ " Running &middot; " +:+ pretty n_q +:+ " Queued &middot; " +:+
  pretty n_f +:+ " Failed)</div><svg width=" +:+ dq +:+ "100%" +:+ dq +:+ " height=" +:+ dq +:+ "20" +:+ dq +:+
  " viewBox=" +:+ dq +:+ "0 0 800 20" +:+ dq +:+ " preserveAspectRatio=" +:+ dq +:+ "none" +:+ dq +:+
  " style=" +:+ dq +:+ "border-radius:4px;overflow:hidden" +:+ dq +:+ "><rect x=" +:+ dq +:+ "0" +:+ dq +:+
  " y=" +:+ dq +:+ "0" +:+ dq +:+ " width=" +:+ dq +:+ display_tenths w_s +:+ dq +:+ " height=" +:+ dq +:+
  "20" +:+ dq +:+ " fill=" +:+ dq +:+ "#22c55e" +:+ dq +:+ "/><rect x=" +:+ dq +:+ display_tenths x_r +:+
  dq +:+ " y=" +:+ dq +:+ "0" +:+ dq +:+ " width=" +:+ dq +:+ display_tenths w_r +:+ dq +:+ " height=" +:+
  dq +:+ "20" +:+ dq +:+ " fill=" +:+ dq +:+ "#3b82f6" +:+ dq +:+ "/><rect x=" +:+ dq +:+
  display_tenths x_q +:+ dq +:+ " y=" +:+ dq +:+ "0" +:+ dq +:+ " width=" +:+ dq +:+ display_tenths w_q +:+
  dq +:+ " height=" +:+ dq +:+ "20" +:+ dq +:+ " fill=" +:+ dq +:+ "#eab308" +:+ dq +:+ "/><rect x=" +:+ dq +:+
  display_tenths x_f +:+ dq +:+ " y=" +:+ dq +:+ "0" +:+ dq +:+ " width=" +:+ dq +:+ display_tenths w_f +:+
  dq +:+ " height=" +:+ dq +:+ "20" +:+ dq +:+ " fill=" +:+ dq +:+ "#ef4444" +:+ dq +:+ "/></svg></div>".

Definition dash_workflow_row (s : WorkflowSummary) : string :=
  "<tr><td><code>" +:+ wd_tenant (wr_def (ws_workflow s)) +:+ "/" +:+ wd_name (wr_def (ws_workflow s)) +:+
  "</code></td><td>" +:+ pretty (ws_run_count s) +:+ "</td></tr>".

Definition dash_run_row (r : Run) : string :=
  let finished := default (rn_created_at_ms r) (rn_finished_at_ms r) in
  "<tr><td><code>" +:+ rn_id r +:+ "</code></td><td>" +:+ rn_tenant r +:+ "/" +:+ rn_def_name r +:+
  "</td><td><span class=" +:+ dq +:+ "badge " +:+ group_of (rn_status r) +:+ dq +:+ ">" +:+
  run_display (rn_status r) +:+ "</span></td><td>" +:+ pretty finished +:+ "</td></tr>".

Definition concat_rows (rows : list string) : string := String.concat EmptyString rows.

Definition dashboard_page (version : string) (uptime_s queue_depth : Z) (runs : list Run)
    (summaries : list WorkflowSummary) : string :=
  page_head +:+ page_title version uptime_s queue_depth +:+
  page_cards (Z.of_nat (length runs)) queue_depth (Z.of_nat (length summaries)) uptime_s +:+
  (match runs with [] => EmptyString | _ => page_bar runs end) +:+
  "<section><h2>workflows (run count)</h2><table><tr><th>name</th><th>runs</th></tr>" +:+
  concat_rows (map dash_workflow_row summaries) +:+ "</table></section>" +:+
  "<section><h2>recent runs</h2><table><tr><th>id</th><th>tenant/def</th><th>status</th><th>finished</t" +:+
  "h></tr>" +:+
  concat_rows (map dash_run_row runs) +:+ "</table></section>" +:+
  "<footer><p><a href=" +:+ dq +:+ "/v1/debug/metrics" +:+ dq +:+ ">metrics</a> &middot; <a href=" +:+ dq +:+
  "/v1/health" +:+ dq +:+ ">health</a></p></footer></body></html>".
