(* ===== verification/Handlers.v ===== *)
(** * Handlers (src/src/plugins/handler.rs, src/src/plugins/exec.rs)

    The registry, the four handlers without effects outside the process, the
    subprocess handler and the HTTP handler. Spawning a process, URL parsing,
    socket addresses, the network, JSON text and the Unicode upper-case table are
    interfaces ([Spawner], [Http]). The time [thread::sleep] and the scheduler add
    to a delay, and the cancellation the delay observes at each poll, are sequences.

    [during] is what other threads do to the store while a handler runs. *)
From stdpp Require Import pretty.
From S2P Require Import Prelude RustStrings Text Ids Status Errors StateMachine Float64 Json RetryPolicy.
From S2P Require Import Workflow Dag Store MemoryStore LruStore StoreLaws Pick Executor ExecutorLogic ExecutorOrder ExecutorSuccess.
Local Open Scope Z_scope.

(** ** The registry *)

Definition RUNVANE_NAMESPACE : string := "runvane".

Abbreviation Registry S := (gmap HandlerId (Handler S)) (only parsing).

Definition registry_new {S} : Registry S := ∅.
Definition register {S} (id : HandlerId) (h : Handler S) (r : Registry S) : Registry S := <[id := h]> r.
Definition registry_get {S} (id : HandlerId) (r : Registry S) : option (Handler S) := r !! id.

Definition registry_ids `{HashIter} {S} (r : Registry S) : list HandlerId :=
  sort_by String.leb (hash_iter r).*1.

(** ** Handlers without outside effects *)

Definition noop_execute (ctx : TaskContext) : result Json HandlerError :=
  Ok (json_object [("ok", JBool true)])%string.

Definition echo_execute (ctx : TaskContext) : result Json HandlerError :=
  Ok (json_object [("echo", tc_input ctx); ("task", JString (tc_task_name ctx))])%string.

Definition fail_execute (ctx : TaskContext) : result Json HandlerError :=
  Err (handler_permanent ("runvane.fail handler failed task " +:+ tc_task_name ctx)).

(** Durations are in nanoseconds. *)
Definition from_millis (ms : Z) : Z := ms * 1000000.

Definition default_delay_ms : Z := 50.

(** What a delay meets: the cancellation at each poll, and the time lost before
    and after each sleep beyond what was asked for. *)
Record Delays := { dl_cancelled : nat → bool; dl_late : nat → N }.

(** The [while] loop from poll [n] on, [now] after the start. *)
Fixpoint delay_loop (env : Delays) (fuel n : nat) (now total : Z) : option (result unit HandlerError) :=
  match fuel with
  | O => None
  | S fuel =>
      if total <=? now then Some (Ok tt)
      else if dl_cancelled env n then Some (Err (handler_cancelled "delay interrupted by cancellation"))
      else
        let seen := now + Z.of_N (dl_late env (2 * n)) in
        let slept := Z.min (from_millis 5) (Z.max 0 (total - seen)) in
        delay_loop env fuel (S n) (seen + slept + Z.of_N (dl_late env (2 * n + 1))) total
  end.

(** One poll per five milliseconds, and the last. *)
Definition delay_fuel (delay_ms : Z) : nat := Z.to_nat (delay_ms `div` 5) + 2.

Definition delay_execute (env : Delays) (delay_ms : Z) (ctx : TaskContext)
    : option (result Json HandlerError) :=
  match delay_loop env (delay_fuel delay_ms) 0 0 (from_millis delay_ms) with
  | Some (Ok _) => Some (Ok (json_object [("slept_ms", JNumber (PosInt delay_ms))])%string)
  | Some (Err e) => Some (Err e)
  | None => None
  end.

(** ** Subprocesses *)

(** [Output]: the exit code, absent when a signal ended the process, and the two streams. *)
Record Output := { out_code : option Z; out_stdout : list Z; out_stderr : list Z }.

(** [Command::output] for a program, its arguments and its environment additions. *)
Class Spawner := spawn : string → list string → list (string * string) → result Output string.

Definition input_str (k : string) (ctx : TaskContext) : option string := json_get k (tc_input ctx) ≫= as_str.

Definition script_args (ctx : TaskContext) : list string :=
  match json_get "args" (tc_input ctx) ≫= as_array with
  | Some arr => omap as_str arr
  | None => []
  end.

Definition script_env (ctx : TaskContext) : list (string * string) :=
  match json_get "env" (tc_input ctx) ≫= as_object with
  | Some fields => omap (fun kv => pair kv.1 <$> as_str kv.2) fields
  | None => []
  end.

(** A number of the given sign as [json!] stores it. *)
Definition json_int (n : Z) : Json := JNumber (if n <? 0 then NegInt n else PosInt n).

Definition script_execute `{Spawner} (ctx : TaskContext) : result Json HandlerError :=
  if tc_cancelled ctx then Err (handler_cancelled "script execution cancelled before start") else
  let? command := ok_or (input_str "command" ctx) (handler_permanent "missing required 'command' string") in
  let? output := map_err (fun e => handler_permanent ("failed to spawn '" +:+ command +:+ "': " +:+ e))
                   (spawn command (script_args ctx) (script_env ctx)) in
  let exit_code := default (-1) (out_code output) in
  let stdout := from_utf8_lossy (out_stdout output) in
  let stderr := from_utf8_lossy (out_stderr output) in
  if negb (bool_decide (out_code output = Some 0)) then
    Err {| he_kind := FailureKind.Rejected;
           he_message := "command '" +:+ command +:+ "' exited with code " +:+ pretty exit_code +:+ ": " +:+ stderr |}
  else Ok (json_object [("exit_code", json_int exit_code); ("stdout", JString stdout); ("stderr", JString stderr)])%string.

(** ** HTTP *)

(** The parts of a parsed URL the handler reads. *)
Record Url := {
  url_scheme : string;
  url_host : option string;
  url_port : option Z;
  url_path : string;
  url_query : option string
}.

(** The URL parser, [FromStr] of [SocketAddr], blocking TCP streams (whose
    operations may fail with a message), the JSON text codec and the upper-case
    mapping of Unicode. *)
Class Http := {
  Addr : Type;
  Stream : Type;
  url_parse : string → result Url string;
  parse_addr : string → result Addr string;
  connect_timeout : Addr → Z → result Stream string;
  set_read_timeout : Stream → Z → result Stream string;
  set_write_timeout : Stream → Z → result Stream string;
  write_all : Stream → list Z → result Stream string;
  read_to_end : Stream → result (list Z) string;
  json_to_string : Json → result string string;
  json_from_str : string → result Json string;
  to_uppercase : string → string
}.

Definition crlf : string := of_bytes [13; 10].

Definition default_timeout : Z := 10 * 1000000000.

Definition body_str `{Http} (ctx : TaskContext) : string :=
  match json_get "body" (tc_input ctx) with
  | Some (JString s) => s
  | Some JNull | None => EmptyString
  | Some v => match json_to_string v with Ok s => s | Err _ => EmptyString end
  end.

Definition http_request (method target host : string) (port : Z) (body : string) : string :=
  method +:+ " " +:+ target +:+ " HTTP/1.1" +:+ crlf +:+
  "Host: " +:+ host +:+ ":" +:+ pretty port +:+ crlf +:+
  "Connection: close" +:+ crlf +:+ "User-Agent: runvane-http-worker/1.0" +:+ crlf +:+
  (if is_empty body then EmptyString
   else "Content-Length: " +:+ pretty (str_len body) +:+ crlf +:+
        "Content-Type: application/json" +:+ crlf) +:+
  crlf +:+ body.

(** The body behind the first blank line. *)
Definition body_content (response : string) : string :=
  match find (crlf +:+ crlf) response with
  | Some idx => str_drop (idx + 4) response
  | None =>
      match find (lf_text +:+ lf_text) response with
      | Some idx => str_drop (idx + 2) response
      | None => EmptyString
      end
  end.

Definition status_of (status_line : string) : result Z HandlerError :=
  match split_whitespace status_line with
  | _ :: code :: _ =>
      map_err (fun _ => handler_transient ("invalid status code in " +:+ status_line)) (parse_u16 code)
  | _ => Err (handler_transient ("malformed http status line: " +:+ status_line))
  end.

Definition read_response `{Http} (response : string) : result Json HandlerError :=
  let? status_line := ok_or (head (lines response)) (handler_transient "empty http response") in
  let? status_code := status_of status_line in
  let content := body_content response in
  let parsed_body := match json_from_str content with Ok j => j | Err _ => JString content end in
  if 500 <=? status_code then
    Err (handler_transient ("http server error status " +:+ pretty status_code +:+ ": " +:+ content))
  else if 400 <=? status_code then
    Err (handler_permanent ("http client error status " +:+ pretty status_code +:+ ": " +:+ content))
  else Ok (json_object [("status_code", JNumber (PosInt status_code)); ("body", parsed_body)])%string.

Definition http_execute `{Http} (timeout : Z) (ctx : TaskContext) : result Json HandlerError :=
  if tc_cancelled ctx then Err (handler_cancelled "http task cancelled before execution") else
  let? url_str := ok_or (input_str "url" ctx) (handler_permanent "missing required 'url' string parameter") in
  let method := to_uppercase (default "GET"%string (input_str "method" ctx)) in
  let timeout_ms := match json_get "timeout_ms" (tc_input ctx) ≫= as_u64 with
                    | Some ms => from_millis ms | None => timeout end in
  let? parsed_url := map_err (fun e => handler_permanent ("invalid url '" +:+ url_str +:+ "': " +:+ e))
                       (url_parse url_str) in
  if negb (bool_decide (url_scheme parsed_url = "http"%string)) then
    Err (handler_permanent "only plain http:// URLs are supported by built-in http handler")
  else
  let? host := ok_or (url_host parsed_url) (handler_permanent "url has no host component") in
  let port := default 80 (url_port parsed_url) in
  let path := if is_empty (url_path parsed_url) then "/"%string else url_path parsed_url in
  let query := match url_query parsed_url with Some q => "?" +:+ q | None => EmptyString end in
  let peer := host +:+ ":" +:+ pretty port in
  let? addr := map_err (fun e => handler_permanent ("cannot resolve host: " +:+ e)) (parse_addr peer) in
  let? stream := map_err (fun e => handler_transient ("tcp connect failed to " +:+ peer +:+ ": " +:+ e))
                   (connect_timeout addr timeout_ms) in
  let? stream := map_err (fun e => handler_transient ("set read timeout failed: " +:+ e))
                   (set_read_timeout stream timeout_ms) in
  let? stream := map_err (fun e => handler_transient ("set write timeout failed: " +:+ e))
                   (set_write_timeout stream timeout_ms) in
  let request := http_request method (path +:+ query) host port (body_str ctx) in
  let? stream := map_err (fun e => handler_transient ("failed to write http request: " +:+ e))
                   (write_all stream (as_bytes request)) in
  let? response := map_err (fun e => handler_transient ("failed to read response: " +:+ e))
                     (read_to_end stream) in
  read_response (from_utf8_lossy response).

(** ** The built-in set *)

Definition builtin_id (name : string) : HandlerId := RUNVANE_NAMESPACE +:+ "." +:+ name.

Section Builtins.
Context {S : Type} `{Spawner, Http} (during : TaskContext → S → S) (delays : TaskContext → Delays).

Definition handler_of (execute : TaskContext → result Json HandlerError) : Handler S :=
  fun ctx s => (during ctx s, Returned (execute ctx)).

(** A delay out of fuel would be no outcome of the code; [delay_spec] excludes it. *)
Definition delay_handler : Handler S := fun ctx s =>
  (during ctx s, match delay_execute (delays ctx) default_delay_ms ctx with
                 | Some r => Returned r
                 | None => Unwound
                 end).

Definition install_builtins (r : Registry S) : Registry S :=
  let r := register (builtin_id "noop") (handler_of noop_execute) r in
  let r := register (builtin_id "echo") (handler_of echo_execute) r in
  let r := register (builtin_id "fail") (handler_of fail_execute) r in
  let r := register (builtin_id "delay") delay_handler r in
  let r := register (builtin_id "http") (handler_of (http_execute default_timeout)) r in
  register (builtin_id "script") (handler_of script_execute) r.
End Builtins.

(** ** Delays end *)

Definition delay_interrupted : HandlerError := handler_cancelled "delay interrupted by cancellation".

(** A poll either ends the delay or brings it five milliseconds or all the way on. *)
Lemma delay_loop_spec env total fuel : ∀ n now,
  total - now ≤ from_millis 5 * (Z.of_nat fuel - 1) → (0 < fuel)%nat →
  ∃ r, delay_loop env fuel n now total = Some r ∧
    (r = Ok tt ∨ r = Err delay_interrupted ∧ ∃ k, (n ≤ k < n + fuel)%nat ∧ dl_cancelled env k = true).
Proof.
  induction fuel as [|fuel IH]; intros n now Hroom Hf; [lia|]. cbn [delay_loop].
  destruct (total <=? now) eqn:Hdone; [by eauto|]. apply Z.leb_gt in Hdone.
  destruct (dl_cancelled env n) eqn:Hc; [eexists; split; [done|right]; split; [done|]; exists n; split; [lia|done]|].
  cbn zeta. set (now' := _ + Z.of_N (dl_late env (2 * n + 1))).
  assert (Hstep : Z.min (now + from_millis 5) total ≤ now') by (unfold now'; lia).
  unfold from_millis in *. destruct (IH (S n) now') as (r&Hr&Hcase); [lia..|].
  exists r. split; [done|]. destruct Hcase as [->|(->&k&Hk&Hck)]; [by left|right].
  split; [done|]. exists k. split; [lia|done].
Qed.

Lemma delay_returns env delay_ms ctx : 0 ≤ delay_ms →
  ∃ r, delay_execute env delay_ms ctx = Some r ∧
    (r = Ok (json_object [("slept_ms", JNumber (PosInt delay_ms))]%string) ∨
     r = Err delay_interrupted ∧ ∃ k, (k ≤ Z.to_nat (delay_ms `div` 5) + 1)%nat ∧ dl_cancelled env k = true).
Proof.
  intros Hd. unfold delay_execute.
  pose proof (Z.div_mod delay_ms 5). pose proof (Z.mod_pos_bound delay_ms 5).
  assert (0 ≤ delay_ms `div` 5) by (apply Z.div_pos; lia).
  destruct (delay_loop_spec env (from_millis delay_ms) (delay_fuel delay_ms) 0 0) as (r&->&Hcase);
    [unfold from_millis, delay_fuel; lia..|].
  destruct Hcase as [->|(->&k&Hk&Hc)]; [by eauto|]. eexists. split; [done|]. right. split; [done|].
  exists k. split; [unfold delay_fuel in Hk; lia|done].
Qed.

(** ** The built-in set, installed *)

Section Installed.
Context {S : Type} `{Spawner, Http} (during : TaskContext → S → S) (delays : TaskContext → Delays).

Abbreviation installed := (install_builtins during delays).

Ltac find_builtin :=
  unfold install_builtins, register, registry_get; cbn zeta; repeat (rewrite lookup_insert_ne by done);
  rewrite lookup_insert_eq; reflexivity.

(** The effectless handlers that succeed on every input. *)
Definition always_ok (id : HandlerId) : Prop := id = builtin_id "noop" ∨ id = builtin_id "echo".

Lemma installed_ok (r : Registry S) id : always_ok id →
  ∃ h, registry_get id (installed r) = Some h ∧
    ∀ ctx s, (h ctx s).1 = during ctx s ∧ ∃ out, (h ctx s).2 = Returned (Ok out).
Proof. intros [->| ->]; (eexists; split; [find_builtin|]; intros ctx s; split; [done|by eexists]). Qed.

Lemma installed_delay (r : Registry S) : (∀ ctx k, dl_cancelled (delays ctx) k = false) →
  ∃ h, registry_get (builtin_id "delay") (installed r) = Some h ∧
    ∀ ctx s, (h ctx s).1 = during ctx s ∧ ∃ out, (h ctx s).2 = Returned (Ok out).
Proof.
  intros Hn. exists (delay_handler during delays). split; [find_builtin|]. intros ctx s.
  split; [done|]. cbn. destruct (delay_returns (delays ctx) default_delay_ms ctx) as (r'&->&[->|(_&k&_&Hk)]);
    [done|by eexists|by rewrite Hn in Hk].
Qed.

(** Only the six names change. *)
Lemma installed_others (r : Registry S) id :
  (∀ n, n ∈ ["noop"; "echo"; "fail"; "delay"; "http"; "script"]%string → id ≠ builtin_id n) →
  registry_get id (installed r) = registry_get id r.
Proof.
  intros Hn. unfold install_builtins, register, registry_get. cbn zeta.
  by rewrite !lookup_insert_ne by (apply not_eq_sym, Hn; repeat constructor).
Qed.

(** The names are handler ids, and [ids] lists them in order. *)
Lemma installed_ids `{HashIter} :
  registry_ids (installed registry_new) = map builtin_id ["delay"; "echo"; "fail"; "http"; "noop"; "script"]%string.
Proof.
  transitivity (sort_by String.leb (map builtin_id ["script"; "http"; "delay"; "fail"; "echo"; "noop"]%string));
    [|vm_compute; reflexivity].
  apply sort_by_unique; [apply _..|]. rewrite hash_iter_perm.
  unfold install_builtins, register, registry_new. cbn zeta.
  repeat (rewrite map_to_list_insert by (by rewrite ?lookup_insert_ne, ?lookup_empty by done); cbn [fmap list_fmap fst map]).
  by rewrite map_to_list_empty.
Qed.
End Installed.

(** ** Runs of built-in tasks *)

(** The handlers that succeed on every input, a delay if it is left to run. *)
Definition harmless (delays : TaskContext → Delays) (id : HandlerId) : Prop :=
  always_ok id ∨ id = builtin_id "delay" ∧ ∀ ctx k, dl_cancelled (delays ctx) k = false.

Lemma harmless_succeed {S} `{RunStore S, Spawner, Http} during delays (r : Registry S) def rid :
  (∀ t, t ∈ wd_tasks def → harmless delays (ts_handler t)) →
  (∀ ctx s, store_ok s → undisturbed rid s (during ctx s)) →
  all_succeed (install_builtins during delays r) def rid.
Proof.
  intros Htasks Hd t Ht.
  assert (Hh : ∃ h, registry_get (ts_handler t) (install_builtins during delays r) = Some h ∧
      ∀ ctx s, (h ctx s).1 = during ctx s ∧ ∃ out, (h ctx s).2 = Returned (Ok out)).
  { destruct (Htasks t Ht) as [Hok|[-> Hn]]; [by apply installed_ok|by apply installed_delay]. }
  destruct Hh as (h&Hh&Hout). exists h. split; [done|]. intros ctx s Hok.
  destruct (Hout ctx s) as [-> Ho]. auto.
Qed.

(** Workflows of built-in tasks complete: with the built-in handlers installed (over
    whatever was registered before), a fresh running run within its deadline, of a
    definition with unique task names and a topological order whose tasks all use
    [runvane.noop], [runvane.echo] or an uncancelled [runvane.delay], is driven to
    [Succeeded] by one attempt, each task recorded [Succeeded] after one attempt and
    called once. *)
Theorem builtin_run_succeeds {S} `{RunStore S, Spawner, Http} during delays (r : Registry S)
    clock seed powf rng run rec token lease_ms l (s : S) :
  (∀ t, t ∈ wd_tasks (wr_def rec) → harmless delays (ts_handler t)) →
  (∀ ctx s, store_ok s → undisturbed (rn_id run) s (during ctx s)) →
  store_ok s → view_runs s !! rn_id run = Some run → rn_status run = RunStatus.Running →
  view_defs s !! (rn_tenant run, rn_def_name run) = Some rec → fresh_run (rn_id run) s →
  match rn_deadline_at_ms run with Some d => clock 0%nat ≤ d | None => True end →
  NoDup (map ts_name (wd_tasks (wr_def rec))) → topo_order (wd_tasks (wr_def rec)) = Ok l →
  ∃ w' run', attempt_with_token (install_builtins during delays r) clock seed powf rng (rn_id run) token lease_ms
      (world0 s) = (w', Val success_outcome) ∧
    view_runs (w_store w') !! rn_id run = Some run' ∧ rn_status run' = RunStatus.Succeeded ∧
    (∀ n, n ∈ task_names (wr_def rec) → ∃ tr,
      view_tasks (w_store w') !! task_run_id (rn_id run) n = Some tr ∧ done_task (rn_id run) n tr) ∧
    map call_name (w_log w') ≡ₚ map ts_name (wd_tasks (wr_def rec)).
Proof.
  intros Htasks Hd Hok Hrun Hst Hdef Hfresh Hdead Hnd Htopo.
  destruct (attempt_succeeds (install_builtins during delays r) clock seed powf rng run rec token lease_ms l s)
    as (w'&run'&Ha&Hr&Hs&_&_&Ht&Hlog); try done; [by apply harmless_succeed|].
  by exists w', run'.
Qed.

(** An environment that refuses everything, for concrete runs. *)
#[local] Instance no_spawner : Spawner := fun _ _ _ => Err "not found"%string.
#[local] Instance no_http : Http := {|
  Addr := unit; Stream := unit;
  url_parse _ := Err "relative URL without a base"%string; parse_addr _ := Err "invalid socket address syntax"%string;
  connect_timeout _ _ := Err "refused"%string; set_read_timeout _ _ := Ok tt; set_write_timeout _ _ := Ok tt;
  write_all _ _ := Ok tt; read_to_end _ := Ok []; json_to_string _ := Ok "null"%string;
  json_from_str _ := Err "expected value"%string; to_uppercase s := s
|}.

Definition calm : TaskContext → Delays := fun _ => {| dl_cancelled _ := false; dl_late _ := 7%N |}.

Lemma builtin_run_succeeds_witness :
  ∃ w' run', attempt_with_token (install_builtins (fun _ s => s) calm registry_new) (fun n => Z.of_nat n) 0
      (fun x _ => x) (fun _ u => u) "rn_0" None 1000 (world0 diamond_store) = (w', Val success_outcome) ∧
    view_runs (w_store w') !! "rn_0"%string = Some run' ∧ rn_status run' = RunStatus.Succeeded.
Proof.
  assert (Hrec : ∃ rec, view_defs diamond_store !! ("acme", "etl")%string = Some rec ∧ wr_def rec = def_with diamond)
    by (eexists; split; vm_compute; reflexivity).
  destruct Hrec as (rec&Hrec&Hdef).
  edestruct (builtin_run_succeeds (fun _ s => s) calm registry_new (fun n => Z.of_nat n) 0 (fun x _ => x) (fun _ u => u)
    diamond_run rec None 1000 ["fetch"; "left"; "right"; "join"]%string diamond_store) as (w'&r&Ha&Hr&Hs&_).
  - rewrite Hdef. cbn. intros t Ht. left. left.
    repeat (apply elem_of_cons in Ht as [->|Ht]; [reflexivity|]). by apply elem_of_nil in Ht.
  - done.
  - apply mem_run_calls_wf, mem_new_wf.
  - vm_compute. reflexivity.
  - reflexivity.
  - exact Hrec.
  - split; [intros k t Hk|intros n]; [by vm_compute in Hk|vm_compute; reflexivity].
  - exact I.
  - rewrite Hdef. apply (bool_decide_unpack _). vm_compute. exact I.
  - rewrite Hdef. vm_compute. reflexivity.
  - exists w', r. split; [exact Ha|]. split; [exact Hr|exact Hs].
Defined.
