(* ===== verification/Telemetry.v ===== *)
(** * Metrics (src/src/telemetry.rs)

    The process counters and the cumulative latency histograms. Atomic counters
    wrap at 64 bits; the sum of a histogram is a binary64 sum in the order of the
    observations. *)
From stdpp Require Import pretty.
From S2P Require Import Prelude Float64 FloatText.
Local Open Scope Z_scope.

Record Histogram := {
  hg_buckets : list f64;
  hg_counts : list Z;
  hg_count : Z;
  hg_sum : f64
}.

Definition histogram_new (buckets : list f64) : Histogram :=
  {| hg_buckets := buckets; hg_counts := replicate (length buckets) 0; hg_count := 0; hg_sum := f64_zero |}.

(** A decimal literal, as the correctly rounded quotient. *)
Definition ratio (n d : Z) : f64 := f64_div (f64_of_Z n) (f64_of_Z d).

Definition default_latencies : Histogram := histogram_new [
  ratio 5 1000; ratio 1 100; ratio 25 1000; ratio 5 100; ratio 1 10; ratio 25 100; ratio 5 10;
  ratio 1 1; ratio 25 10; ratio 5 1; ratio 10 1; ratio 30 1; ratio 60 1].

Definition fetch_add (c : Z) : Z := wrap_u64 (c + 1).

(** The loop over the buckets. *)
Definition count_buckets (value : f64) (buckets : list f64) (counts : list Z) : list Z :=
  zip_with (fun upper c => if f64_leb value upper then fetch_add c else c) buckets counts.

(** [value.is_nan() || value < 0.0] *)
Definition ignored (value : f64) : bool :=
  match value with S754_nan => true | _ => f64_ltb value f64_zero end.

Definition observe (value : f64) (h : Histogram) : Histogram :=
  if ignored value then h
  else {| hg_buckets := hg_buckets h;
          hg_counts := count_buckets value (hg_buckets h) (hg_counts h);
          hg_count := fetch_add (hg_count h);
          hg_sum := f64_add (hg_sum h) value |}.

Record HistogramSnapshot := { hs_buckets : list (f64 * Z); hs_count : Z; hs_sum : f64 }.

Definition histogram_snapshot (h : Histogram) : HistogramSnapshot :=
  {| hs_buckets := zip (hg_buckets h) (hg_counts h); hs_count := hg_count h; hs_sum := hg_sum h |}.

Record Metrics := {
  workflow_creations_total : Z;
  run_submissions_total : Z;
  run_cancellations_total : Z;
  dispatches_total : Z;
  watch_terminals_total : Z;
  event_deliveries_total : Z;
  event_deliveries_ok_total : Z;
  reaped_runs_total : Z;
  lease_renewals_total : Z;
  run_duration : Histogram;
  task_duration : Histogram
}.

Definition metrics_new : Metrics := {|
  workflow_creations_total := 0; run_submissions_total := 0; run_cancellations_total := 0;
  dispatches_total := 0; watch_terminals_total := 0; event_deliveries_total := 0;
  event_deliveries_ok_total := 0; reaped_runs_total := 0; lease_renewals_total := 0;
  run_duration := default_latencies; task_duration := default_latencies
|}.

(** The increments the API performs. *)
Definition add_creation (m : Metrics) : Metrics := {|
  workflow_creations_total := fetch_add (workflow_creations_total m);
  run_submissions_total := run_submissions_total m; run_cancellations_total := run_cancellations_total m;
  dispatches_total := dispatches_total m; watch_terminals_total := watch_terminals_total m;
  event_deliveries_total := event_deliveries_total m; event_deliveries_ok_total := event_deliveries_ok_total m;
  reaped_runs_total := reaped_runs_total m; lease_renewals_total := lease_renewals_total m;
  run_duration := run_duration m; task_duration := task_duration m |}.

Definition add_submission (m : Metrics) : Metrics := {|
  workflow_creations_total := workflow_creations_total m;
  run_submissions_total := fetch_add (run_submissions_total m);
  run_cancellations_total := run_cancellations_total m;
  dispatches_total := dispatches_total m; watch_terminals_total := watch_terminals_total m;
  event_deliveries_total := event_deliveries_total m; event_deliveries_ok_total := event_deliveries_ok_total m;
  reaped_runs_total := reaped_runs_total m; lease_renewals_total := lease_renewals_total m;
  run_duration := run_duration m; task_duration := task_duration m |}.

Definition add_cancellation (m : Metrics) : Metrics := {|
  workflow_creations_total := workflow_creations_total m;
  run_submissions_total := run_submissions_total m;
  run_cancellations_total := fetch_add (run_cancellations_total m);
  dispatches_total := dispatches_total m; watch_terminals_total := watch_terminals_total m;
  event_deliveries_total := event_deliveries_total m; event_deliveries_ok_total := event_deliveries_ok_total m;
  reaped_runs_total := reaped_runs_total m; lease_renewals_total := lease_renewals_total m;
  run_duration := run_duration m; task_duration := task_duration m |}.

Record MetricsSnapshot := {
  mx_version : string;
  mx_counters : list Z;
  mx_run_duration : HistogramSnapshot;
  mx_task_duration : HistogramSnapshot
}.

(** The counters in the order of the struct. *)
Definition counters (m : Metrics) : list Z :=
  [workflow_creations_total m; run_submissions_total m; run_cancellations_total m; dispatches_total m;
   watch_terminals_total m; event_deliveries_total m; event_deliveries_ok_total m; reaped_runs_total m;
   lease_renewals_total m].

Definition metrics_snapshot (version : string) (m : Metrics) : MetricsSnapshot := {|
  mx_version := version; mx_counters := counters m;
  mx_run_duration := histogram_snapshot (run_duration m);
  mx_task_duration := histogram_snapshot (task_duration m)
|}.

(** ** Prometheus text exposition *)

Definition eol : string := String (Ascii.ascii_of_nat 10) EmptyString.
Definition quoted (s : string) : string :=
  String (Ascii.ascii_of_nat 34) EmptyString +:+ s +:+ String (Ascii.ascii_of_nat 34) EmptyString.

(** One counter or gauge: its help, its type, its value. *)
Definition metric_lines (name help kind : string) (value : Z) : string :=
  "# HELP " +:+ name +:+ " " +:+ help +:+ eol +:+
  "# TYPE " +:+ name +:+ " " +:+ kind +:+ eol +:+
  name +:+ " " +:+ pretty value +:+ eol.

Record PrometheusGauges := {
  pg_queue_depth : Z;
  pg_workflows_count : Z;
  pg_runs_count : Z;
  pg_uptime_seconds : Z
}.

Definition render_histogram_prometheus (name help : string) (snap : HistogramSnapshot) : string :=
  "# HELP " +:+ name +:+ " " +:+ help +:+ eol +:+
  "# TYPE " +:+ name +:+ " histogram" +:+ eol +:+
  String.concat "" (map (fun '(upper, count) =>
    name +:+ "_bucket{le=" +:+ quoted (display_f64 upper) +:+ "} " +:+ pretty count +:+ eol) (hs_buckets snap)) +:+
  name +:+ "_bucket{le=" +:+ quoted "+Inf" +:+ "} " +:+ pretty (hs_count snap) +:+ eol +:+
  name +:+ "_sum " +:+ display_f64 (hs_sum snap) +:+ eol +:+
  name +:+ "_count " +:+ pretty (hs_count snap) +:+ eol.

Definition render_prometheus (m : Metrics) (g : PrometheusGauges) : string :=
  metric_lines "runvane_workflow_creations_total" "Total registered workflows." "counter"
    (workflow_creations_total m) +:+
  metric_lines "runvane_run_submissions_total" "Total runs submitted." "counter" (run_submissions_total m) +:+
  metric_lines "runvane_run_cancellations_total" "Total runs cancelled." "counter" (run_cancellations_total m) +:+
  metric_lines "runvane_dispatches_total" "Total scheduler poll dispatches." "counter" (dispatches_total m) +:+
  metric_lines "runvane_watch_terminals_total" "Terminal runs observed by event watcher." "counter"
    (watch_terminals_total m) +:+
  metric_lines "runvane_event_deliveries_total" "Webhook delivery attempts." "counter"
    (event_deliveries_total m) +:+
  metric_lines "runvane_event_deliveries_ok_total" "Successful webhook deliveries." "counter"
    (event_deliveries_ok_total m) +:+
  metric_lines "runvane_reaped_runs_total" "Stale runs purged by retention cleaner." "counter"
    (reaped_runs_total m) +:+
  metric_lines "runvane_lease_renewals_total" "Distributed task lease renewals." "counter"
    (lease_renewals_total m) +:+
  metric_lines "runvane_queue_depth" "Instantaneous queue depth." "gauge" (pg_queue_depth g) +:+
  metric_lines "runvane_workflows" "Total registered workflows." "gauge" (pg_workflows_count g) +:+
  metric_lines "runvane_runs" "Total runs stored." "gauge" (pg_runs_count g) +:+
  metric_lines "runvane_uptime_seconds" "Process uptime in seconds." "gauge" (pg_uptime_seconds g) +:+
  render_histogram_prometheus "runvane_run_duration_seconds" "Run execution duration in seconds."
    (histogram_snapshot (run_duration m)) +:+
  render_histogram_prometheus "runvane_task_duration_seconds" "Task execution attempt duration in seconds."
    (histogram_snapshot (task_duration m)).

(** ** What a histogram counts *)

(** The observations a bucket is about. *)
Definition seen (values : list f64) : list f64 := List.filter (fun v => negb (ignored v)) values.
Definition within (upper : f64) (values : list f64) : list f64 := List.filter (fun v => f64_leb v upper) values.

Lemma fetch_add_count (n : nat) : fetch_add (wrap_u64 (Z.of_nat n)) = wrap_u64 (Z.of_nat (S n)).
Proof. unfold fetch_add, wrap_u64. rewrite Zplus_mod_idemp_l. f_equal. lia. Qed.

Lemma seen_snoc values v : seen (values ++ [v]) = seen values ++ (if ignored v then [] else [v]).
Proof. unfold seen. rewrite List.filter_app. cbn. by destruct (ignored v). Qed.

Lemma observe_all_counts values buckets :
  let h := foldl (fun h v => observe v h) (histogram_new buckets) values in
  hg_buckets h = buckets ∧
  hg_counts h = map (fun upper => wrap_u64 (Z.of_nat (length (within upper (seen values))))) buckets ∧
  hg_count h = wrap_u64 (Z.of_nat (length (seen values))) ∧
  hg_sum h = foldl f64_add f64_zero (seen values).
Proof.
  induction values as [|v values IH] using rev_ind; cbn zeta.
  { cbn. split; [done|]. split; [|done]. by induction buckets; cbn; f_equal. }
  rewrite foldl_app. cbn [foldl]. cbn zeta in IH. set (h := foldl _ _ _) in *.
  destruct IH as (Hb&Hcs&Hc&Hs).
  rewrite seen_snoc. unfold observe. destruct (ignored v) eqn:Hi; [by rewrite app_nil_r|].
  cbn [hg_buckets hg_counts hg_count hg_sum]. rewrite Hb, Hcs, Hc, Hs. split; [done|]. split; [|split].
  - unfold count_buckets. clear. induction buckets as [|b buckets IH]; [done|]. cbn. f_equal; [|exact IH].
    unfold within. rewrite List.filter_app. cbn. destruct (f64_leb v b).
    + rewrite fetch_add_count, length_app. cbn. do 2 f_equal. lia.
    + by rewrite app_nil_r.
  - rewrite fetch_add_count, length_app. cbn. do 2 f_equal. lia.
  - by rewrite foldl_app.
Qed.

(** ** Property *)

(** After any sequence of observations a histogram is cumulative and exact: the
    snapshot pairs each upper bound with the number (at 64 bits) of observations at
    or below it among those that are neither NaN nor negative, the total counts all
    of those, and the sum is their sum in order. *)
Theorem histogram_exact values buckets :
  histogram_snapshot (foldl (fun h v => observe v h) (histogram_new buckets) values) =
  {| hs_buckets := map (fun upper => (upper, wrap_u64 (Z.of_nat (length (within upper (seen values)))))) buckets;
     hs_count := wrap_u64 (Z.of_nat (length (seen values)));
     hs_sum := foldl f64_add f64_zero (seen values) |}.
Proof.
  destruct (observe_all_counts values buckets) as (Hb&Hcs&Hc&Hs). cbn zeta in *.
  unfold histogram_snapshot. rewrite Hb, Hcs, Hc, Hs. f_equal. clear.
  induction buckets as [|b buckets IH]; [done|]. cbn. by f_equal.
Qed.
