(* ===== verification/Api.v ===== *)
(** * The HTTP control plane
    (src/src/api/error.rs, src/src/api/payloads.rs, src/src/api/server.rs)

    Error bodies, request payloads and their conversion, and the handlers behind
    the v1 routes, as computations over the shared state: the store, the audit
    log, the metrics, and how many clock readings and identifiers were drawn so
    far. Routing, JSON extraction and response encoding (axum, serde) are not
    modelled: a request is the parsed path and payload. An [unwrap] of a failure is
    the outcome [Crash]. *)
From stdpp Require Import pretty.
From S2P Require Import Prelude RustStrings Text Ids Status Errors StateMachine Float64 Json RetryPolicy Workflow.
From S2P Require Import Dag Validation Store AuditLog Auth Telemetry Dashboard.
Local Open Scope Z_scope.

(** What other crates and the formatter render or parse: [url::Url::parse], [{:?}]
    of a string and of a character, [f64] and JSON numbers as text. *)
Class Texts := {
  tx_url_parse : string → result (string * option string) string;
  tx_str_debug : string → string;
  tx_char_debug : string → string;
  tx_float : f64 → string;
  tx_number : Number → string
}.

(** ** Error texts *)

Section Errors.
Context `{Texts}.

Definition domain_error_text (e : DomainError) : string :=
  match e with
  | DomainError.IllegalTransition a b =>
      "illegal state transition " +:+ run_debug a +:+ " -> " +:+ run_debug b
  | DomainError.IllegalTaskTransition a b =>
      "illegal task state transition " +:+ task_debug a +:+ " -> " +:+ task_debug b
  | DomainError.InvalidDefinition m => "invalid workflow definition: " +:+ m
  | DomainError.UnknownDependency d t =>
      "unknown dependency " +:+ tx_str_debug d +:+ " in task " +:+ tx_str_debug t
  | DomainError.CycleDetected => "task dependency cycle detected"
  | DomainError.DuplicateTaskName n => "duplicate task name " +:+ tx_str_debug n
  | DomainError.InvalidName n => "invalid definition name " +:+ tx_str_debug n
  | DomainError.EmptyTasks => "workflow definition has no tasks"
  | DomainError.TooManyTasks => "workflow defines more than " +:+ pretty MAX_TASKS +:+ " tasks"
  | DomainError.InputTooLarge size cap =>
      "input payload of " +:+ pretty size +:+ " bytes exceeds cap of " +:+ pretty cap +:+ " bytes"
  | DomainError.InputTooDeep depth limit =>
      "input payload nesting depth of " +:+ pretty depth +:+ " exceeds limit of " +:+ pretty limit
  | DomainError.UnknownHandler h => "unknown handler HandlerId(" +:+ tx_str_debug h +:+ ")"
  | DomainError.InvalidPolicy m => "invalid retry policy: " +:+ m
  | DomainError.ZeroTimeout => "timeout must be positive"
  | DomainError.DescriptionTooLong => "description exceeds 512 characters"
  | DomainError.TemplateError m => "input template expansion failed: " +:+ m
  | DomainError.TerminalState => "operation not allowed on terminal entity"
  | DomainError.NotFound entity id => entity +:+ " " +:+ id +:+ " not found"
  end.

Definition id_error_text (e : IdError) : string :=
  match e with
  | WrongPrefix id prefix =>
      "id " +:+ tx_str_debug id +:+ " must start with prefix " +:+ tx_str_debug prefix
  | Malformed kind id reason => "malformed " +:+ kind +:+ " id " +:+ tx_str_debug id +:+ ": " +:+ reason
  | TooLong id limit => "id " +:+ tx_str_debug id +:+ " exceeds " +:+ pretty limit +:+ " bytes of payload"
  end.

Definition storage_error_text (e : StorageError) : string :=
  match e with
  | StorageError.Conflict m => "conflict: " +:+ m
  | StorageError.NotFound m => "not found: " +:+ m
  | StorageError.ConcurrentModification m => "concurrent modification of " +:+ m
  | StorageError.Schema m => "schema error: " +:+ m
  | StorageError.Backend m => "storage backend error: " +:+ m
  | StorageError.ClaimLost run => "queue claim lost for run " +:+ run
  end.

Definition runvane_error_text (e : RunvaneError) : string :=
  match e with
  | RunvaneError.Domain e => domain_error_text e
  | RunvaneError.Id e => id_error_text e
  | RunvaneError.Storage e => storage_error_text e
  | RunvaneError.Scheduler m => "scheduler error: " +:+ m
  | RunvaneError.Config m => "config error: " +:+ m
  | RunvaneError.Server m => "server error: " +:+ m
  | RunvaneError.Handler m => "handler error: " +:+ m
  | RunvaneError.Internal m => "internal error: " +:+ m
  end.

Record ApiError := { ae_status : Z; ae_code : string; ae_message : string }.

Definition bad_request (message : string) : ApiError :=
  {| ae_status := 400; ae_code := "validation"; ae_message := message |}.
Definition api_not_found (entity id : string) : ApiError :=
  {| ae_status := 404; ae_code := "not_found"; ae_message := entity +:+ " " +:+ id +:+ " does not exist" |}.
Definition conflict (message : string) : ApiError :=
  {| ae_status := 409; ae_code := "conflict"; ae_message := message |}.
Definition unauthorized (message : string) : ApiError :=
  {| ae_status := 401; ae_code := "unauthorized"; ae_message := message |}.
Definition forbidden (message : string) : ApiError :=
  {| ae_status := 403; ae_code := "forbidden"; ae_message := message |}.
Definition internal (message : string) : ApiError :=
  {| ae_status := 500; ae_code := "internal"; ae_message := message |}.

(** [StatusCode::from_u16] *)
Definition status_from_u16 (n : Z) : option Z := if (100 <=? n) && (n <=? 999) then Some n else None.

Definition from_runvane (e : RunvaneError) : ApiError :=
  {| ae_status := default 500 (status_from_u16 (http_status e)); ae_code := category e;
     ae_message := runvane_error_text e |}.
End Errors.

(** ** Payloads *)

Record TaskSpecPayload := {
  tp_name : string;
  tp_handler : string;
  tp_input : option Json;
  tp_depends_on : option (list string);
  tp_timeout_ms : option Z;
  tp_retry : option RetryPolicy;
  tp_meta : option (gmap string Json)
}.

Record WorkflowSpec := {
  sp_tenant : string;
  sp_name : string;
  sp_description : option string;
  sp_tasks : list TaskSpecPayload;
  sp_timeout_ms : option Z;
  sp_retry : option RetryPolicy;
  sp_default_priority : option Priority;
  sp_hooks : option Hooks;
  sp_tags : option (gmap string string)
}.

Definition empty_object : Json := JObject [].

Definition into_task (p : TaskSpecPayload) : result TaskSpec RunvaneError :=
  let? handler := map_err RunvaneError.Id (HandlerId_parse (tp_handler p)) in
  Ok {| ts_name := tp_name p; ts_handler := handler; ts_input := default empty_object (tp_input p);
        ts_depends_on := default [] (tp_depends_on p); ts_timeout_ms := tp_timeout_ms p;
        ts_retry := tp_retry p; ts_meta := default ∅ (tp_meta p) |}.

Section Payloads.
Context `{Texts}.

(** The definition a spec describes, stamped at [now_ms] with a generated id. *)
Definition stamped (spec : WorkflowSpec) (tenant : string) (tasks : list TaskSpec) (uuid : list Z) (now_ms : Z)
    : WorkflowDef := {|
  wd_id := generate_id uuid "wf_"; wd_tenant := tenant; wd_name := sp_name spec; wd_version := 1;
  wd_description := default EmptyString (sp_description spec); wd_tasks := tasks;
  wd_timeout_ms := default 60000 (sp_timeout_ms spec); wd_retry := default retry_default (sp_retry spec);
  wd_default_priority := default priority_default (sp_default_priority spec);
  wd_hooks := default hooks_default (sp_hooks spec); wd_tags := default ∅ (sp_tags spec);
  wd_spec_version := SPEC_VERSION; wd_created_at_ms := now_ms; wd_updated_at_ms := now_ms |}.

Definition into_definition (spec : WorkflowSpec) (uuid : list Z) (now_ms : Z)
    : result WorkflowDef RunvaneError :=
  let? tenant := map_err RunvaneError.Id (TenantId_parse (sp_tenant spec)) in
  let? tasks := try_map into_task (sp_tasks spec) in
  let def := stamped spec tenant tasks uuid now_ms in
  let? _ := map_err RunvaneError.Domain (validate_definition tx_url_parse tx_str_debug tx_float def) in
  let? _ := map_err RunvaneError.Domain (validate_workflow_policy tx_float def) in
  Ok def.

Record SubmitRunRequest := { sr_input : option Json; sr_tags : option (gmap string string) }.

Definition MAX_LIST_LIMIT : nat := 500.

Record RunQuery := {
  rq_tenant : option string;
  rq_name : option string;
  rq_name_prefix : option string;
  rq_status : option string;
  rq_status_in : option string;
  rq_from_ms : option Z;
  rq_to_ms : option Z;
  rq_finished_from_ms : option Z;
  rq_finished_to_ms : option Z;
  rq_min_duration_ms : option Z;
  rq_has_tag_keys : option string;
  rq_limit : option nat;
  rq_offset : option nat
}.

(** [raw.split(',').map(str::trim).filter(|s| !s.is_empty())] *)
Definition comma_list (raw : string) : list string :=
  List.filter (fun s => negb (is_empty s)) (map trim (split_on (ascii_of 44) raw)).

Definition parse_status (what raw : string) : result RunStatus ApiError :=
  match run_from_str raw with
  | Some s => Ok s
  | None => Err (bad_request ("invalid " +:+ what +:+ " " +:+ tx_str_debug raw))
  end.

Definition ordered (from_name to_name : string) (from to : option Z) : result unit ApiError :=
  match from, to with
  | Some a, Some b =>
      if b <? a then Err (bad_request (from_name +:+ " (" +:+ pretty a +:+ ") must be <= " +:+
        to_name +:+ " (" +:+ pretty b +:+ ")"))
      else Ok tt
  | _, _ => Ok tt
  end.

Definition into_filter (q : RunQuery) : result RunFilter ApiError :=
  let? status := match rq_status q with
                 | None => Ok None
                 | Some raw => let? s := parse_status "status" raw in Ok (Some s)
                 end in
  let? status_in := match rq_status_in q with
                    | None => Ok []
                    | Some raw => try_map (parse_status "status_in element") (comma_list raw)
                    end in
  let? limit := match rq_limit q with
                | None => Ok None
                | Some n =>
                    if (n =? 0)%nat || (MAX_LIST_LIMIT <? n)%nat then
                      Err (bad_request ("limit must be within 1..=" +:+ pretty MAX_LIST_LIMIT))
                    else Ok (Some n)
                end in
  let? _ := ordered "from_ms" "to_ms" (rq_from_ms q) (rq_to_ms q) in
  let? _ := ordered "finished_from_ms" "finished_to_ms" (rq_finished_from_ms q) (rq_finished_to_ms q) in
  let? _ := match rq_min_duration_ms q with
            | Some dur =>
                if dur <? 0 then Err (bad_request ("min_duration_ms (" +:+ pretty dur +:+ ") must be non-negative"))
                else Ok tt
            | None => Ok tt
            end in
  Ok {| rf_name := rq_name q; rf_name_prefix := rq_name_prefix q; rf_status := status;
        rf_status_in := status_in; rf_tenant := rq_tenant q; rf_tags := ∅;
        rf_has_tag_keys := default [] (comma_list <$> rq_has_tag_keys q);
        rf_from_ms := rq_from_ms q; rf_to_ms := rq_to_ms q;
        rf_finished_from_ms := rq_finished_from_ms q; rf_finished_to_ms := rq_finished_to_ms q;
        rf_min_duration_ms := rq_min_duration_ms q; rf_limit := limit;
        rf_offset := default 0%nat (rq_offset q) |}.
End Payloads.

(** ** The server *)

(** What a handler does: answer, refuse, or panic. *)
Inductive reply (A : Type) :=
| Done (a : A)
| Refuse (e : ApiError)
| Crash.
Arguments Done {A} a.
Arguments Refuse {A} e.
Arguments Crash {A}.

(** The mutable part of [AppState], and the clock readings and ids drawn so far. *)
Record App (S L : Type) := {
  ap_store : S;
  ap_audit : L;
  ap_metrics : Metrics;
  ap_reads : nat;
  ap_ids : nat
}.
Arguments ap_store {S L} _.
Arguments ap_audit {S L} _.
Arguments ap_metrics {S L} _.
Arguments ap_reads {S L} _.
Arguments ap_ids {S L} _.

(** The fixed part: the auth settings, the boot instant, the build's version. *)
Record AppConfig := { ac_auth : AuthConfig; ac_boot_ms : Z; ac_version : string }.

Definition ApiM (S L A : Type) := App S L → App S L * reply A.

Definition api_ret {S L A} (a : A) : ApiM S L A := fun st => (st, Done a).

Definition api_bind {S L A B} (c : ApiM S L A) (k : A → ApiM S L B) : ApiM S L B := fun st =>
  match c st with
  | (st, Done a) => k a st
  | (st, Refuse e) => (st, Refuse e)
  | (st, Crash) => (st, Crash)
  end.

Notation "'let*' x ':=' c 'in' k" := (api_bind c (fun x => k))
  (at level 10, x pattern, c at level 100, k at level 200) : runvane_scope.

Definition api_refuse {S L A} (e : ApiError) : ApiM S L A := fun st => (st, Refuse e).

Definition api_lift {S L A} (r : result A ApiError) : ApiM S L A :=
  match r with Ok a => api_ret a | Err e => api_refuse e end.

Section Primitives.
Context {S L : Type} `{Store S, AuditLogger L, Texts} (clock : nat → Z) (uuid : nat → list Z).

Definition api_call {A} (c : StoreCall A) : ApiM S L A := fun st =>
  let '(s, a) := call c (ap_store st) in
  ({| ap_store := s; ap_audit := ap_audit st; ap_metrics := ap_metrics st; ap_reads := ap_reads st;
      ap_ids := ap_ids st |}, Done a).

(** [state.store.method(..).map_err(ApiError::from)?] *)
Definition api_store {A} (c : StoreCall (result A StorageError)) : ApiM S L A :=
  let* r := api_call c in
  api_lift (map_err (fun e => from_runvane (RunvaneError.Storage e)) r).

Definition api_now : ApiM S L Z := fun st =>
  ({| ap_store := ap_store st; ap_audit := ap_audit st; ap_metrics := ap_metrics st;
      ap_reads := ap_reads st + 1; ap_ids := ap_ids st |}, Done (clock (ap_reads st))).

(** The random bytes behind one [generate_id]. *)
Definition api_uuid : ApiM S L (list Z) := fun st =>
  ({| ap_store := ap_store st; ap_audit := ap_audit st; ap_metrics := ap_metrics st;
      ap_reads := ap_reads st; ap_ids := ap_ids st + 1 |}, Done (uuid (ap_ids st))).

Definition api_count (f : Metrics → Metrics) : ApiM S L unit := fun st =>
  ({| ap_store := ap_store st; ap_audit := ap_audit st; ap_metrics := f (ap_metrics st);
      ap_reads := ap_reads st; ap_ids := ap_ids st |}, Done tt).

(** [let _ = state.audit.record(record)]: a failure to record is ignored. *)
Definition api_log (r : AuditRecord) : ApiM S L unit := fun st =>
  ({| ap_store := ap_store st; ap_audit := (al_record (ap_audit st) r).1; ap_metrics := ap_metrics st;
      ap_reads := ap_reads st; ap_ids := ap_ids st |}, Done tt).

(** [AuditRecordId::parse(&generate_id("au_")).unwrap()] *)
Definition api_audit_id : ApiM S L string :=
  let* bytes := api_uuid in
  match parse_id AuditRecordId_kind tx_char_debug (generate_id bytes "au_") with
  | Ok id => api_ret id
  | Err _ => fun st => (st, Crash)
  end.
End Primitives.

(** The actor every audited route records. *)
Definition api_user (role : string) : AuditActor := User role role.

Section Server.
Context {S L : Type} `{Store S, AuditLogger L, Texts} (clock : nat → Z) (uuid : nat → list Z) (cfg : AppConfig).

Definition check_auth (presented : option string) (level : Level) : result unit ApiError :=
  if authorized (ac_auth cfg) presented level then Ok tt
  else if bool_decide (level = Admin) && bool_decide (is_Some presented) then
    Err (forbidden "token valid for the operator tier is not an admin token")
  else Err (unauthorized "missing or invalid api token (header: x-api-token)").

(** The bytes of the generated id are drawn up front. *)
Definition create_workflow (spec : WorkflowSpec) : ApiM S L WorkflowDef :=
  let* now_ms := api_now clock in
  let* bytes := api_uuid uuid in
  let* def := api_lift (map_err from_runvane (into_definition spec bytes now_ms)) in
  let* stored := api_store (PutWorkflow def) in
  let* _ := api_count add_creation in
  let* id := api_audit_id uuid in
  let* at_ms := api_now clock in
  let def := wr_def stored in
  let* _ := api_log (record_with_resource_id (record_with_tenant (record_new id at_ms (api_user "operator")
    (WorkflowCreated (wd_name def) (wd_version def)) Success "workflow") (wd_tenant def)) (wd_name def)) in
  api_ret def.

Definition list_workflows : ApiM S L (list WorkflowDef) :=
  let* recs := api_store ListWorkflows in
  api_ret (map wr_def recs).

Definition get_workflow (tenant name : string) : ApiM S L WorkflowDef :=
  let* rec := api_store (GetWorkflow tenant name) in
  api_ret (wr_def rec).

(** The record a submission stores. *)
Definition submitted_run (id : RunId) (tenant name : string) (version : Z) (input : Json)
    (tags : gmap string string) (now_ms run_number : Z) : Run := {|
  rn_id := id; rn_tenant := tenant; rn_def_name := name; rn_def_version := version; rn_input := input;
  rn_status := RunStatus.Queued; rn_attempts := 0; rn_next_attempt_at_ms := None; rn_deadline_at_ms := None;
  rn_started_at_ms := None; rn_finished_at_ms := None; rn_error := None; rn_output := None; rn_tags := tags;
  rn_created_at_ms := now_ms; rn_run_number := run_number |}.

Definition submission_entry (id : RunId) (now_ms : Z) : QueueEntry :=
  {| qe_run_id := id; qe_token := empty_token; qe_due_at_ms := now_ms; qe_lease_until_ms := None;
     qe_claimed_by := None |}.

Definition submit_run (tenant name : string) (body : SubmitRunRequest) : ApiM S L Run :=
  let* rec := api_store (GetWorkflow tenant name) in
  let input := default empty_object (sr_input body) in
  let* _ := api_lift (map_err (fun e => from_runvane (RunvaneError.Domain e)) (validate_run_input tx_number input)) in
  let* now_ms := api_now clock in
  let* run_number := api_store (NextRunNumber name) in
  let* bytes := api_uuid uuid in
  let id := generate_id bytes "rn_" in
  let run := submitted_run id tenant name (wd_version (wr_def rec)) input (default ∅ (sr_tags body)) now_ms run_number in
  let* _ := api_store (PutRun run) in
  let* _ := api_store (Enqueue (submission_entry id now_ms)) in
  let* _ := api_count add_submission in
  let* audit_id := api_audit_id uuid in
  let* _ := api_log (record_with_resource_id (record_with_tenant (record_new audit_id now_ms (api_user "operator")
    (RunSubmitted (rn_id run) (rn_def_name run)) Success "run") (rn_tenant run)) (rn_id run)) in
  api_ret run.

Definition list_runs (query : RunQuery) : ApiM S L (list Run) :=
  let* filter := api_lift (into_filter query) in
  api_store (ListRuns filter).

(** [RunId::parse(&id).map_err(api_err)?] *)
Definition api_run_id (id : string) : ApiM S L RunId :=
  api_lift (map_err (fun e => from_runvane (RunvaneError.Id e)) (parse_id RunId_kind tx_char_debug id)).

Definition get_run (id : string) : ApiM S L Run :=
  let* run_id := api_run_id id in
  api_store (GetRun run_id).

(** The cancellation of a run that is still active. *)
Definition cancel_active_run (run_id : RunId) : ApiM S L Run :=
  let* now_ms := api_now clock in
  let* _ := api_store (CancelRun run_id now_ms) in
  let* _ := api_count add_cancellation in
  let* updated := api_store (GetRun run_id) in
  let* audit_id := api_audit_id uuid in
  let* at_ms := api_now clock in
  let* _ := api_log (record_with_resource_id (record_with_tenant (record_new audit_id at_ms (api_user "admin")
    (AuditRunCancelled run_id "cancelled via api") Success "run") (rn_tenant updated)) run_id) in
  api_ret updated.

Definition cancel_run (id : string) : ApiM S L Run :=
  let* run_id := api_run_id id in
  let* current := api_store (GetRun run_id) in
  let status := rn_status current in
  if bool_decide (status = RunStatus.Cancelled) then api_ret current
  else if run_is_terminal status then
    api_refuse (conflict ("run " +:+ id +:+ " is already " +:+ run_display status +:+ " and cannot be cancelled"))
  else
    let* _ := api_lift (map_err from_runvane (RunFsm.run_validate status RunStatus.Cancelled)) in
    cancel_active_run run_id.

(** ** The read-only routes *)

Record HealthView := {
  hv_status : string;
  hv_booted_at_ms : Z;
  hv_now_ms : Z;
  hv_queue_depth : Z;
  hv_spec_version : Z
}.

Definition health : ApiM S L HealthView :=
  let* now_ms := api_now clock in
  let* depth := api_call LenQueue in
  api_ret {| hv_status := "ok"; hv_booted_at_ms := ac_boot_ms cfg; hv_now_ms := now_ms;
             hv_queue_depth := depth; hv_spec_version := 1 |}.

(** The status and text of [/readyz]. *)
Definition readyz : ApiM S L (Z * string) :=
  let* r := api_call ListWorkflows in
  api_ret (if is_ok r then (200, "ready" +:+ lf_text) else (503, "store unavailable" +:+ lf_text)).

(** [map_or(0, |l| l.len())] *)
Definition count_or_zero {A E} (r : result (list A) E) : Z :=
  match r with Ok l => Z.of_nat (length l) | Err _ => 0 end.

Definition prometheus_metrics : ApiM S L string :=
  let* now := api_now clock in
  let uptime_seconds := Z.max (wrap_i64 (now - ac_boot_ms cfg)) 0 `quot` 1000 in
  let* depth := api_call LenQueue in
  let* workflows := api_call ListWorkflows in
  let* runs := api_call (ListRuns filter_default) in
  fun st => (st, Done (render_prometheus (ap_metrics st) {|
    pg_queue_depth := depth; pg_workflows_count := count_or_zero workflows;
    pg_runs_count := count_or_zero runs; pg_uptime_seconds := uptime_seconds |})).

Record Gauges := { ga_queue_depth : Z; ga_workflows : Z; ga_runs : Z }.

Definition metrics : ApiM S L (MetricsSnapshot * Gauges) := fun st =>
  let snapshot := metrics_snapshot (ac_version cfg) (ap_metrics st) in
  (let* depth := api_call LenQueue in
   let* workflows := api_call ListWorkflows in
   let* runs := api_call (ListRuns filter_default) in
   api_ret (snapshot, {| ga_queue_depth := depth; ga_workflows := count_or_zero workflows;
                         ga_runs := count_or_zero runs |})) st.

Record AuditQuery := {
  aq_tenant : option string;
  aq_actor_kind : option string;
  aq_action_name : option string;
  aq_status : option string;
  aq_resource_type : option string;
  aq_resource_id : option string;
  aq_since_ms : option Z;
  aq_until_ms : option Z;
  aq_limit : option nat;
  aq_offset : option nat
}.

(** [if let Some(x) = field { filter = filter.with_field(x) }] *)
Definition with_opt {A} (set : AuditFilter → A → AuditFilter) (o : option A) (f : AuditFilter) : AuditFilter :=
  match o with Some a => set f a | None => f end.

Definition audit_filter_of (q : AuditQuery) : AuditFilter :=
  let f := with_opt filter_with_tenant (aq_tenant q) audit_filter_new in
  let f := with_opt filter_with_actor_kind (aq_actor_kind q) f in
  let f := with_opt filter_with_action_name (aq_action_name q) f in
  let f := with_opt filter_with_status (aq_status q) f in
  let f := with_opt filter_with_resource_type (aq_resource_type q) f in
  let f := with_opt filter_set_resource_id (aq_resource_id q) f in
  let f := with_time_range f (aq_since_ms q) (aq_until_ms q) in
  with_pagination f (Nat.min 1000 (Nat.max 1 (default 50%nat (aq_limit q)))) (default 0%nat (aq_offset q)).

Definition list_audit_events (q : AuditQuery) : ApiM S L (list AuditRecord) := fun st =>
  api_lift (map_err (fun e => internal (audit_error_text e)) (al_query (ap_audit st) (audit_filter_of q))) st.

(** [unwrap_or_default] *)
Definition or_nil {A E} (r : result (list A) E) : list A := match r with Ok l => l | Err _ => [] end.

Definition dashboard : ApiM S L string :=
  let* runs := api_call (ListRuns filter_default) in
  let* summaries := api_call ListWorkflowSummaries in
  let* now_ms := api_now clock in
  let uptime_s := Z.max (wrap_i64 (now_ms - ac_boot_ms cfg)) 0 `quot` 1000 in
  let* queue_depth := api_call LenQueue in
  api_ret (dashboard_page (ac_version cfg) uptime_s queue_depth (or_nil runs) (or_nil summaries)).

(** ** Routes *)

Inductive Request :=
| ReqDashboard
| ReqHealthz
| ReqReadyz
| ReqHealth
| ReqPrometheus
| ReqMetrics
| ReqAudit (q : AuditQuery)
| ReqListWorkflows
| ReqCreateWorkflow (spec : WorkflowSpec)
| ReqGetWorkflow (tenant name : string)
| ReqSubmitRun (tenant name : string) (body : SubmitRunRequest)
| ReqListRuns (query : RunQuery)
| ReqGetRun (id : string)
| ReqCancelRun (id : string).

Inductive Payload :=
| PlText (text : string)
| PlHealth (v : HealthView)
| PlMetrics (snapshot : MetricsSnapshot) (gauges : Gauges)
| PlAudit (records : list AuditRecord)
| PlWorkflows (defs : list WorkflowDef)
| PlWorkflow (def : WorkflowDef)
| PlRuns (runs : list Run)
| PlRun (run : Run).

(** Which middleware a route is behind. *)
Definition level_of (req : Request) : option Level :=
  match req with
  | ReqDashboard | ReqHealthz | ReqReadyz | ReqHealth | ReqPrometheus => None
  | ReqCancelRun _ => Some Admin
  | _ => Some Operator
  end.

Definition api_map {A B} (f : A → B) (c : ApiM S L A) : ApiM S L B := let* a := c in api_ret (f a).

Definition route (req : Request) : ApiM S L (Z * Payload) :=
  match req with
  | ReqDashboard => api_map (fun t => (200, PlText t)) dashboard
  | ReqHealthz => api_ret (200, PlText ("ok" +:+ lf_text))
  | ReqReadyz => api_map (fun p => (p.1, PlText p.2)) readyz
  | ReqHealth => api_map (fun v => (200, PlHealth v)) health
  | ReqPrometheus => api_map (fun t => (200, PlText t)) prometheus_metrics
  | ReqMetrics => api_map (fun p => (200, PlMetrics p.1 p.2)) metrics
  | ReqAudit q => api_map (fun l => (200, PlAudit l)) (list_audit_events q)
  | ReqListWorkflows => api_map (fun l => (200, PlWorkflows l)) list_workflows
  | ReqCreateWorkflow spec => api_map (fun d => (201, PlWorkflow d)) (create_workflow spec)
  | ReqGetWorkflow tenant name => api_map (fun d => (200, PlWorkflow d)) (get_workflow tenant name)
  | ReqSubmitRun tenant name body => api_map (fun r => (202, PlRun r)) (submit_run tenant name body)
  | ReqListRuns query => api_map (fun l => (200, PlRuns l)) (list_runs query)
  | ReqGetRun id => api_map (fun r => (200, PlRun r)) (get_run id)
  | ReqCancelRun id => api_map (fun r => (200, PlRun r)) (cancel_run id)
  end.

(** A request as the router serves it, with the token it presents. *)
Definition serve (presented : option string) (req : Request) : ApiM S L (Z * Payload) :=
  match level_of req with
  | None => route req
  | Some level => let* _ := api_lift (check_auth presented level) in route req
  end.
End Server.
