(* ===== verification/ApiSpec.v ===== *)
(** * What the HTTP control plane guarantees

    No request panics; guarded routes do nothing for the wrong token; created
    definitions and submitted runs are stored, visible and ready to be claimed;
    a cancellation changes exactly the active runs. *)
From S2P Require Import Prelude RustStrings Text Ids Status Errors StateMachine Float64 Json RetryPolicy Workflow.
From S2P Require Import Dag Validation Store MemoryStore AuditLog Auth Telemetry Api.
Local Open Scope Z_scope.

(** ** No panic *)

Section Safe.
Context {S L : Type} `{Store S, AuditLogger L, Texts} (clock : nat → Z) (uuid : nat → list Z) (cfg : AppConfig).

(** Sixteen bytes each, as a UUID has. *)
Definition uuids_ok : Prop := ∀ n, Forall is_u8 (uuid n) ∧ length (uuid n) = 16%nat.

Definition safe {A} (c : ApiM S L A) : Prop := ∀ st, (c st).2 ≠ Crash.

Lemma safe_ret {A} (a : A) : safe (api_ret a).
Proof. done. Qed.

Lemma safe_lift {A} (r : result A ApiError) : safe (api_lift r).
Proof. by destruct r. Qed.

Lemma safe_refuse {A} e : safe (@api_refuse S L A e).
Proof. done. Qed.

Lemma safe_bind {A B} (c : ApiM S L A) (k : A → ApiM S L B) : safe c → (∀ a, safe (k a)) → safe (api_bind c k).
Proof.
  intros Hc Hk st. unfold api_bind. specialize (Hc st). destruct (c st) as [st' [a|e|]]; [apply Hk|done|done].
Qed.

Lemma safe_api_call {A} (c : StoreCall A) : safe (api_call c).
Proof. intros st. unfold api_call. by destruct (call c (ap_store st)). Qed.

Lemma safe_store {A} (c : StoreCall (result A StorageError)) : safe (api_store c).
Proof. apply safe_bind; [apply safe_api_call|intros r; apply safe_lift]. Qed.

Lemma safe_now : safe (api_now clock).
Proof. done. Qed.

Lemma safe_uuid : safe (api_uuid uuid).
Proof. done. Qed.

Lemma safe_count f : safe (api_count f).
Proof. done. Qed.

Lemma safe_log r : safe (api_log r).
Proof. done. Qed.

Lemma safe_audit_id : uuids_ok → safe (api_audit_id uuid).
Proof.
  intros Hu st. unfold api_audit_id, api_bind, api_uuid. cbn [fst snd].
  destruct (Hu (ap_ids st)) as [Hb Hl].
  assert (Hk : AuditRecordId_kind ∈ id_kinds) by (unfold id_kinds; by repeat constructor).
  pose proof (generated_id_ok AuditRecordId_kind tx_char_debug (uuid (ap_ids st)) Hk Hb Hl) as Hp.
  cbn [id_prefix AuditRecordId_kind] in Hp. by rewrite Hp.
Qed.
End Safe.

#[export] Hint Resolve safe_ret safe_lift safe_refuse safe_api_call safe_store safe_now safe_uuid safe_count safe_log
  safe_audit_id : runvane.

Ltac safe_steps := repeat (apply safe_bind; [eauto with runvane|intros ?]); eauto with runvane.

Section NoPanic.
Context {S L : Type} `{Store S, AuditLogger L, Texts} (clock : nat → Z) (uuid : nat → list Z) (cfg : AppConfig).
Context (Huuid : uuids_ok uuid).

Lemma safe_create spec : safe (create_workflow (S := S) (L := L) clock uuid spec).
Proof. unfold create_workflow. safe_steps. Qed.

Lemma safe_submit tenant name body : safe (submit_run (S := S) (L := L) clock uuid tenant name body).
Proof. unfold submit_run. safe_steps. Qed.

Lemma safe_cancel id : safe (cancel_run (S := S) (L := L) clock uuid id).
Proof.
  unfold cancel_run, api_run_id. apply safe_bind; [eauto with runvane|intros rid].
  apply safe_bind; [eauto with runvane|intros cur]. cbn zeta. case_bool_decide; [apply safe_ret|].
  destruct (run_is_terminal (rn_status cur)); [apply safe_refuse|]. unfold cancel_active_run. safe_steps.
Qed.

Lemma safe_metrics : safe (metrics (S := S) (L := L) cfg).
Proof.
  intros st. unfold metrics. set (c := api_bind _ _). assert (Hc : safe c) by (unfold c; safe_steps). apply Hc.
Qed.

Lemma safe_route req : safe (route (S := S) (L := L) clock uuid cfg req).
Proof.
  destruct req; cbn [route]; unfold api_map; try apply safe_ret; (apply safe_bind; [|intros; apply safe_ret]).
  - unfold dashboard. safe_steps.
  - unfold readyz. safe_steps.
  - unfold health. safe_steps.
  - unfold prometheus_metrics. safe_steps. done.
  - apply safe_metrics.
  - intros st. apply safe_lift.
  - unfold list_workflows. safe_steps.
  - apply safe_create.
  - unfold get_workflow. safe_steps.
  - apply safe_submit.
  - unfold list_runs. safe_steps.
  - unfold get_run, api_run_id. safe_steps.
  - apply safe_cancel.
Qed.
End NoPanic.

(** ** On the in-memory store *)

Section Memory.
Context {L : Type} `{HashIter, AuditLogger L, Texts} (clock : nat → Z) (uuid : nat → list Z) (cfg : AppConfig).
Context (Huuid : uuids_ok uuid).
Implicit Types st : App MemoryState L.

Definition with_store st (s : MemoryState) : App MemoryState L :=
  {| ap_store := s; ap_audit := ap_audit st; ap_metrics := ap_metrics st; ap_reads := ap_reads st;
     ap_ids := ap_ids st |}.

Lemma with_store_id st : with_store st (ap_store st) = st.
Proof. by destruct st. Qed.

Lemma api_store_eq {A} (c : StoreCall (result A StorageError)) st :
  api_store c st = (with_store st (call c (ap_store st)).1,
    match (call c (ap_store st)).2 with
    | Ok a => Done a
    | Err e => Refuse (from_runvane (RunvaneError.Storage e))
    end).
Proof.
  unfold api_store, api_bind, api_call. destruct (call c (ap_store st)) as [s [a|e]]; done.
Qed.

Lemma bind_done {A B} (c : ApiM MemoryState L A) (k : A → ApiM MemoryState L B) st st' a :
  c st = (st', Done a) → api_bind c k st = k a st'.
Proof. intros Hc. unfold api_bind. by rewrite Hc. Qed.

Lemma bind_refuse {A B} (c : ApiM MemoryState L A) (k : A → ApiM MemoryState L B) st st' e :
  c st = (st', Refuse e) → api_bind c k st = (st', Refuse e).
Proof. intros Hc. unfold api_bind. by rewrite Hc. Qed.

Lemma get_workflow_eq tenant name st :
  api_store (GetWorkflow tenant name) st =
  (st, match ms_defs (ap_store st) !! (tenant, name) with
       | Some rec => Done rec
       | None => Refuse (from_runvane (RunvaneError.Storage (StorageError.NotFound (workflow_label tenant name))))
       end).
Proof.
  rewrite api_store_eq. cbn [call MemoryStore mem_call fst snd]. rewrite with_store_id.
  unfold mem_get_workflow. by destruct (ms_defs (ap_store st) !! (tenant, name)).
Qed.

Lemma get_run_eq id st :
  api_store (GetRun id) st =
  (st, match ms_runs (ap_store st) !! id with
       | Some run => Done run
       | None => Refuse (from_runvane (RunvaneError.Storage (StorageError.NotFound ("run " +:+ id))))
       end).
Proof.
  rewrite api_store_eq. cbn [call MemoryStore mem_call fst snd]. rewrite with_store_id.
  unfold mem_get_run. by destruct (ms_runs (ap_store st) !! id).
Qed.

Lemma audit_id_eq st : ∃ id, api_audit_id uuid st =
  ({| ap_store := ap_store st; ap_audit := ap_audit st; ap_metrics := ap_metrics st;
      ap_reads := ap_reads st; ap_ids := ap_ids st + 1 |}, Done id).
Proof.
  unfold api_audit_id, api_bind, api_uuid. cbn [fst snd]. destruct (Huuid (ap_ids st)) as [Hb Hl].
  assert (Hk : AuditRecordId_kind ∈ id_kinds) by (unfold id_kinds; by repeat constructor).
  pose proof (generated_id_ok AuditRecordId_kind tx_char_debug (uuid (ap_ids st)) Hk Hb Hl) as Hp.
  cbn [id_prefix AuditRecordId_kind] in Hp. rewrite Hp. by eexists.
Qed.

Lemma run_id_eq bytes st : Forall is_u8 bytes → length bytes = 16%nat →
  api_run_id (S := MemoryState) (L := L) (generate_id bytes "rn_") st = (st, Done (generate_id bytes "rn_")).
Proof.
  intros Hb Hl. unfold api_run_id.
  assert (Hk : RunId_kind ∈ id_kinds) by (unfold id_kinds; by repeat constructor).
  pose proof (generated_id_ok RunId_kind tx_char_debug bytes Hk Hb Hl) as Hp.
  cbn [id_prefix RunId_kind] in Hp. by rewrite Hp.
Qed.

(** The next run number of a workflow name. *)
Definition next_number (s : MemoryState) (name : string) : Z :=
  wrap_u64 (default 0 (ms_run_numbers s !! name) + 1).

(** The store with a run submitted into it. *)
Definition submitted_store (s : MemoryState) (run : Run) (now_ms : Z) : MemoryState :=
  set_queue (<[rn_id run := submission_entry (rn_id run) now_ms]> (ms_queue s))
    (set_runs (<[rn_id run := run]> (ms_runs s))
      (set_run_numbers (<[rn_def_name run := rn_run_number run]> (ms_run_numbers s)) s)).

(** The run a submission stores. *)
Definition expected_run st (tenant name : string) (rec : WorkflowRecord) (body : SubmitRunRequest) : Run :=
  submitted_run (generate_id (uuid (ap_ids st)) "rn_") tenant name (wd_version (wr_def rec))
    (default empty_object (sr_input body)) (default ∅ (sr_tags body)) (clock (ap_reads st))
    (next_number (ap_store st) name).

Lemma submit_run_ok tenant name body st rec :
  ms_defs (ap_store st) !! (tenant, name) = Some rec →
  validate_run_input tx_number (default empty_object (sr_input body)) = Ok tt →
  ms_queue (ap_store st) !! generate_id (uuid (ap_ids st)) "rn_" = None →
  let run := expected_run st tenant name rec body in
  ∃ record, submit_run clock uuid tenant name body st =
    ({| ap_store := submitted_store (ap_store st) run (clock (ap_reads st));
        ap_audit := (al_record (ap_audit st) record).1; ap_metrics := add_submission (ap_metrics st);
        ap_reads := ap_reads st + 1; ap_ids := ap_ids st + 1 + 1 |}, Done run) ∧
    au_action record = RunSubmitted (rn_id run) name ∧ au_tenant record = Some tenant.
Proof.
  intros Hdef Hin Hq run. unfold submit_run.
  rewrite (bind_done _ _ st st rec) by (by rewrite get_workflow_eq, Hdef).
  rewrite (bind_done _ _ st st tt) by (by rewrite Hin).
  erewrite bind_done by reflexivity. erewrite bind_done by (rewrite api_store_eq; reflexivity).
  erewrite bind_done by reflexivity. erewrite bind_done by (rewrite api_store_eq; reflexivity).
  cbn [with_store ap_store ap_reads ap_ids ap_audit ap_metrics call MemoryStore mem_call mem_put_run
    mem_next_run_number fst snd].
  erewrite bind_done.
  2:{ rewrite api_store_eq. cbn [with_store ap_store call MemoryStore mem_call]. unfold mem_enqueue, mem_put_run.
      cbn [ms_queue set_runs set_run_numbers qe_run_id submission_entry]. rewrite Hq. reflexivity. }
  erewrite bind_done by reflexivity. edestruct audit_id_eq as [aid Haid]. erewrite bind_done by apply Haid.
  erewrite bind_done by reflexivity. eexists. split; [reflexivity|]. done.
Qed.

(** What an accepted submission went through. *)
Lemma submit_run_inv tenant name body st st' run :
  submit_run clock uuid tenant name body st = (st', Done run) →
  ∃ rec, ms_defs (ap_store st) !! (tenant, name) = Some rec ∧ run = expected_run st tenant name rec body ∧
    ms_queue (ap_store st) !! rn_id run = None ∧
    ap_store st' = submitted_store (ap_store st) run (clock (ap_reads st)).
Proof.
  intros Hsub. destruct (ms_defs (ap_store st) !! (tenant, name)) as [rec|] eqn:Hrec.
  2:{ unfold submit_run in Hsub. erewrite bind_refuse in Hsub by (by rewrite get_workflow_eq, Hrec). done. }
  destruct (validate_run_input tx_number (default empty_object (sr_input body))) as [[]|e] eqn:Hin.
  2:{ unfold submit_run in Hsub. erewrite bind_done in Hsub by (by rewrite get_workflow_eq, Hrec).
      erewrite bind_refuse in Hsub by (by rewrite Hin). done. }
  destruct (ms_queue (ap_store st) !! generate_id (uuid (ap_ids st)) "rn_") as [x|] eqn:Hq.
  - exfalso. unfold submit_run in Hsub. erewrite bind_done in Hsub by (by rewrite get_workflow_eq, Hrec).
    erewrite bind_done in Hsub by (by rewrite Hin). erewrite bind_done in Hsub by reflexivity.
    erewrite bind_done in Hsub by (rewrite api_store_eq; reflexivity). erewrite bind_done in Hsub by reflexivity.
    erewrite bind_done in Hsub by (rewrite api_store_eq; reflexivity).
    erewrite bind_refuse in Hsub; [discriminate Hsub|]. rewrite api_store_eq.
    cbn [with_store ap_store ap_ids ap_reads call MemoryStore mem_call mem_next_run_number fst snd].
    unfold mem_enqueue, mem_put_run.
    cbn [ms_queue set_runs set_run_numbers qe_run_id submission_entry].
    rewrite Hq. reflexivity.
  - destruct (submit_run_ok tenant name body st rec Hrec Hin Hq) as (record&Heq&_). rewrite Heq in Hsub.
    injection Hsub as <- <-. by exists rec.
Qed.

(** What an accepted definition went through. *)
Lemma create_workflow_inv spec st st' def :
  create_workflow clock uuid spec st = (st', Done def) →
  into_definition spec (uuid (ap_ids st)) (clock (ap_reads st)) = Ok def ∧
  ap_store st' = set_defs (<[(wd_tenant def, wd_name def) := {| wr_def := def |}]> (ms_defs (ap_store st)))
    (ap_store st).
Proof.
  intros Hc. unfold create_workflow in Hc. erewrite bind_done in Hc by reflexivity.
  erewrite bind_done in Hc by reflexivity. cbn [ap_reads ap_ids] in Hc.
  destruct (into_definition spec _ _) as [d|e] eqn:Hd; [|discriminate Hc].
  erewrite bind_done in Hc by reflexivity. erewrite bind_done in Hc by (rewrite api_store_eq; reflexivity).
  erewrite bind_done in Hc by reflexivity. edestruct audit_id_eq as [aid Haid].
  erewrite bind_done in Hc by apply Haid. erewrite bind_done in Hc by reflexivity.
  erewrite bind_done in Hc by reflexivity. cbn in Hc. by injection Hc as <- <-.
Qed.

(** The record of a run an operator cancels at [now_ms]. *)
Definition cancelled_run (run : Run) (now_ms : Z) : Run :=
  run_set_error None (run_set_finished_at_ms (Some now_ms) (run_set_status RunStatus.Cancelled run)).

Definition cancelled_store (s : MemoryState) (rid : RunId) (run : Run) : MemoryState :=
  set_queue (delete rid (ms_queue s)) (set_runs (<[rid := run]> (ms_runs s)) s).

Lemma cancel_active_eq rid run st :
  ms_runs (ap_store st) !! rid = Some run → run_is_terminal (rn_status run) = false →
  let run' := cancelled_run run (clock (ap_reads st)) in
  ∃ st', cancel_active_run clock uuid rid st = (st', Done run') ∧
    ap_store st' = cancelled_store (ap_store st) rid run' ∧ ap_metrics st' = add_cancellation (ap_metrics st).
Proof.
  intros Hrun Hact run'. unfold cancel_active_run. erewrite bind_done by reflexivity.
  erewrite bind_done.
  2:{ rewrite api_store_eq. cbn [call MemoryStore mem_call ap_store]. unfold mem_cancel_run, Run_is_terminal.
      rewrite Hrun, Hact. reflexivity. }
  erewrite bind_done by reflexivity.
  erewrite bind_done.
  2:{ rewrite get_run_eq. cbn [ap_store with_store fst snd ms_runs set_queue set_runs].
      rewrite lookup_insert_eq. reflexivity. }
  edestruct audit_id_eq as [aid Haid]. erewrite bind_done by apply Haid.
  erewrite bind_done by reflexivity. erewrite bind_done by reflexivity.
  eexists. split; [reflexivity|]. done.
Qed.

Lemma run_validate_active status : run_is_terminal status = false →
  RunFsm.run_validate status RunStatus.Cancelled = Ok tt.
Proof. by destruct status. Qed.
End Memory.

(** ** Properties *)

(** No request makes the server panic, on any store: with sixteen random bytes
    behind every generated id, each route answers or refuses, the unwrapped parse
    of the audit id included. *)
Theorem serve_never_panics {S L} `{Store S, AuditLogger L, Texts} clock uuid cfg presented req (st : App S L) :
  uuids_ok uuid → (serve clock uuid cfg presented req st).2 ≠ Crash.
Proof.
  intros Hu. unfold serve. destruct (level_of req); [|by apply safe_route].
  apply (safe_bind (api_lift _)); [apply safe_lift|]. intros _. by apply safe_route.
Qed.

(** ** Access control

    What src/src/auth.rs documents: the operator level is for every route under /v1 but
    the health view, the admin level for cancelling a run; without a secret everything is
    open; the operator secret opens the guarded routes, the admin secret, where there is
    one, the admin route. *)

(** The path a request is routed by. *)
Definition path_of (req : Request) : string :=
  match req with
  | ReqDashboard => "/"
  | ReqPrometheus => "/metrics"
  | ReqHealthz => "/healthz"
  | ReqReadyz => "/readyz"
  | ReqHealth => "/v1/health"
  | ReqMetrics => "/v1/debug/metrics"
  | ReqAudit _ => "/v1/audit"
  | ReqListWorkflows | ReqCreateWorkflow _ => "/v1/workflows"
  | ReqGetWorkflow _ _ => "/v1/workflows/:tenant/:name"
  | ReqSubmitRun _ _ _ => "/v1/workflows/:tenant/:name/runs"
  | ReqListRuns _ => "/v1/runs"
  | ReqGetRun _ => "/v1/runs/:id"
  | ReqCancelRun _ => "/v1/runs/:id/cancel"
  end.

Inductive Access := Anyone | Nobody | Bearer (secret : string).

(** Who may use a path. *)
Definition documented_access (c : AuthConfig) (path : string) : Access :=
  if negb (starts_with "/v1/" path) || bool_decide (path = "/v1/health"%string) then Anyone
  else match operator_token c, admin_token c with
       | None, None => Anyone
       | None, Some _ => Nobody
       | Some operator, admin =>
           if ends_with "/cancel" path then Bearer (default operator admin) else Bearer operator
       end.

(** A request without a token presents the empty one. *)
Definition may_use (a : Access) (presented : option string) : bool :=
  match a with
  | Anyone => true
  | Nobody => false
  | Bearer secret => bool_decide (default EmptyString presented = secret)
  end.

Lemma guard_documented cfg presented req :
  match level_of req with Some level => authorized (ac_auth cfg) presented level | None => true end =
  may_use (documented_access (ac_auth cfg) (path_of req)) presented.
Proof.
  assert (Hct : ∀ a b, ct_eq a b = bool_decide (a = b)).
  { intros a b. apply eq_true_iff_eq. rewrite ct_eq_spec. by rewrite bool_decide_eq_true. }
  unfold authorized, enabled, documented_access.
  destruct req; cbn [level_of path_of]; try reflexivity;
    destruct (operator_token (ac_auth cfg)), (admin_token (ac_auth cfg)); cbv zeta;
    rewrite ?Hct; reflexivity.
Qed.


(** Requests served one after the other, each with the token it presents. *)
Definition serve_all {L} `{HashIter, AuditLogger L, Texts} clock uuid cfg (reqs : list (option string * Request))
    (st : App MemoryState L) : App MemoryState L :=
  foldl (fun st '(presented, req) => (serve clock uuid cfg presented req st).1) st reqs.

(** Without a secret nothing can be changed over HTTP: on a guarded server over the in-memory
    store, any sequence of requests whose tokens are none of the configured secrets leaves
    the stored state, the audit trail, the counters and the id draws as they were. *)
Theorem outsiders_change_nothing {L} `{HashIter, AuditLogger L, Texts} clock uuid cfg reqs (st : App MemoryState L) :
  enabled (ac_auth cfg) = true →
  Forall (fun '(presented, _) =>
    operator_token (ac_auth cfg) ≠ Some (default EmptyString presented) ∧
    admin_token (ac_auth cfg) ≠ Some (default EmptyString presented)) reqs →
  let st' := serve_all clock uuid cfg reqs st in
  ap_store st' = ap_store st ∧ ap_audit st' = ap_audit st ∧ ap_metrics st' = ap_metrics st ∧ ap_ids st' = ap_ids st.
Proof.
  intros Hon Hreqs. cbv zeta. unfold serve_all. revert st.
  induction Hreqs as [|[presented req] reqs [Hop Hadm] _ IH]; intros st; cbn [foldl]; [done|].
  assert (∀ st' : App MemoryState L, (serve clock uuid cfg presented req st).1 = st' →
    ap_store st' = ap_store st ∧ ap_audit st' = ap_audit st ∧ ap_metrics st' = ap_metrics st ∧
    ap_ids st' = ap_ids st) as Hone.
  { intros st' <-. pose proof (guard_documented cfg presented req) as Hg.
    unfold serve, check_auth. destruct (level_of req) as [level|] eqn:Hl.
    - assert (may_use (documented_access (ac_auth cfg) (path_of req)) presented = false) as Hno.
      { unfold documented_access, enabled in *.
        destruct req; try done; cbn [path_of];
          destruct (operator_token (ac_auth cfg)) as [op|], (admin_token (ac_auth cfg)) as [adm|]; try done;
          apply bool_decide_eq_false_2; cbn; congruence. }
      rewrite Hg, Hno. by repeat case_match.
    - by destruct req. }
  destruct (Hone _ eq_refl) as (<-&<-&<-&<-). apply IH.
Qed.

(** A server over an empty store, with fixed random bytes. *)
#[local] Instance plain_texts : Texts := {|
  tx_url_parse u := Ok ("http"%string, Some u); tx_str_debug s := s; tx_char_debug s := s;
  tx_float _ := "1"%string; tx_number _ := "1"%string
|}.

Definition counting_uuid (n : nat) : list Z := replicate 16 (Z.of_nat n mod 256).

Lemma counting_uuid_ok : uuids_ok counting_uuid.
Proof.
  intros n. split; [|apply length_replicate]. apply Forall_replicate. unfold is_u8.
  pose proof (Z.mod_pos_bound (Z.of_nat n) 256). lia.
Qed.

Definition fresh_app (s : MemoryState) : App MemoryState MemoryAuditLogger :=
  {| ap_store := s; ap_audit := memory_logger_new 100; ap_metrics := metrics_new; ap_reads := 0; ap_ids := 0 |}.

Definition guarded_config : AppConfig :=
  {| ac_auth := from_config (Some "op") (Some "root"); ac_boot_ms := 0; ac_version := "0.1.0" |}%string.

Lemma serve_never_panics_witness :
  (serve (fun n => Z.of_nat n) counting_uuid guarded_config (Some "root"%string) (ReqCancelRun "rn_0")
    (fresh_app mem_new)).2 ≠ Crash.
Proof. apply serve_never_panics, counting_uuid_ok. Defined.

Lemma outsiders_change_nothing_witness :
  ap_store (serve_all (fun n => Z.of_nat n) counting_uuid guarded_config
    [(Some "guess"%string, ReqCancelRun "rn_0"); (None, ReqDashboard); (None, ReqListWorkflows)]
    (fresh_app mem_new)) = mem_new.
Proof.
  apply (outsiders_change_nothing (fun n => Z.of_nat n) counting_uuid guarded_config); [reflexivity|].
  repeat constructor; discriminate.
Defined.

(** C32. Submitting a run: without such a definition the answer is 404, for an input over
    the limits 400, and nothing changes. Otherwise, with an unused id, the run is
    accepted: it is queued at the definition's version with the next number of its
    workflow name, a read of its id returns the same record, its queue entry can be
    claimed at once by any token, the metrics count it and the audit log records it,
    and no other run, entry, definition or task run changes. *)
Theorem submit_run_spec {L} `{HashIter, AuditLogger L, Texts} clock uuid tenant name body (st : App MemoryState L) :
  let s := ap_store st in
  let input := default empty_object (sr_input body) in
  let id := generate_id (uuid (ap_ids st)) "rn_" in
  uuids_ok uuid →
  (ms_defs s !! (tenant, name) = None →
     ∃ e, submit_run clock uuid tenant name body st = (st, Refuse e) ∧ ae_status e = 404) ∧
  (is_Some (ms_defs s !! (tenant, name)) → is_ok (validate_run_input tx_number input) = false →
     ∃ e, submit_run clock uuid tenant name body st = (st, Refuse e) ∧ ae_status e = 400) ∧
  ∀ rec, ms_defs s !! (tenant, name) = Some rec → validate_run_input tx_number input = Ok tt →
    ms_queue s !! id = None →
    ∃ st' run record, submit_run clock uuid tenant name body st = (st', Done run) ∧
      rn_id run = id ∧ rn_status run = RunStatus.Queued ∧ rn_def_version run = wd_version (wr_def rec) ∧
      rn_run_number run = next_number s name ∧
      get_run id st' = (st', Done run) ∧
      (∀ token now lease, (mem_claim id token now lease (ap_store st')).2 = Ok tt) ∧
      ap_metrics st' = add_submission (ap_metrics st) ∧ ap_audit st' = (al_record (ap_audit st) record).1 ∧
      au_action record = RunSubmitted id name ∧
      ms_runs (ap_store st') = <[id := run]> (ms_runs s) ∧
      delete id (ms_queue (ap_store st')) = ms_queue s ∧
      ms_defs (ap_store st') = ms_defs s ∧ ms_task_runs (ap_store st') = ms_task_runs s.
Proof.
  cbv zeta. intros Hu. split; [|split].
  - intros Hn. unfold submit_run. eexists. split; [eapply bind_refuse; by rewrite get_workflow_eq, Hn|done].
  - intros [rec Hrec] Hin. unfold submit_run. erewrite bind_done by (by rewrite get_workflow_eq, Hrec).
    unfold validate_run_input in *. destruct (_ <? _); [by eexists|]. destruct (_ <? _); [by eexists|done].
  - intros rec Hrec Hin Hq.
    destruct (submit_run_ok clock uuid Hu tenant name body st rec Hrec Hin Hq) as (record&Heq&Hact&_).
    eexists _, _, record. split; [exact Heq|]. cbn [ap_store ap_metrics ap_audit].
    split_and!; try done.
    + unfold get_run. destruct (Hu (ap_ids st)) as [Hb Hl]. rewrite (bind_done _ _ _ _ _ (run_id_eq _ _ Hb Hl)).
      rewrite get_run_eq. cbn. by rewrite lookup_insert_eq.
    + intros token now lease. unfold mem_claim. cbn. rewrite lookup_insert_eq. cbn. by rewrite andb_false_r.
    + cbn. by rewrite delete_insert_eq, delete_id.
Qed.

Lemma submit_run_spec_witness :
  ∃ st' run record, submit_run (fun n => Z.of_nat n) counting_uuid "acme" "etl" {| sr_input := None; sr_tags := None |}
      (fresh_app (set_defs {[("acme", "etl")%string := {| wr_def := workflow_default |}]} mem_new))
    = (st', Done run) ∧ rn_run_number run = 1 ∧ ap_audit st' = (al_record (memory_logger_new 100) record).1.
Proof.
  destruct (submit_run_spec (fun n => Z.of_nat n) counting_uuid "acme" "etl" {| sr_input := None; sr_tags := None |}
    (fresh_app (set_defs {[("acme", "etl")%string := {| wr_def := workflow_default |}]} mem_new)) counting_uuid_ok)
    as (_&_&Hacc).
  destruct (Hacc {| wr_def := workflow_default |}) as (st'&run&record&Hs&_&_&_&Hn&_&_&_&Ha&_).
  - reflexivity.
  - reflexivity.
  - reflexivity.
  - exists st', run, record. split; [exact Hs|]. split; [exact Hn|exact Ha].
Defined.

(** C33. Cancelling a run: a malformed id is 400 and an unknown one 404; a run already
    cancelled is returned as it is; one that finished otherwise is 409; none of these
    changes anything. An active run is stored as [Cancelled] with a finish time, its
    queue entry is gone, that run is returned, and nothing else in the store changes. *)
Theorem cancel_run_spec {L} `{HashIter, AuditLogger L, Texts} clock uuid id (st : App MemoryState L) :
  uuids_ok uuid →
  let s := ap_store st in
  match parse_id RunId_kind tx_char_debug id with
  | Err _ => ∃ e, cancel_run clock uuid id st = (st, Refuse e) ∧ ae_status e = 400
  | Ok rid =>
      match ms_runs s !! rid with
      | None => ∃ e, cancel_run clock uuid id st = (st, Refuse e) ∧ ae_status e = 404
      | Some run =>
          if run_is_active (rn_status run) then
            let run' := cancelled_run run (clock (ap_reads st)) in
            ∃ st', cancel_run clock uuid id st = (st', Done run') ∧
              ap_store st' = cancelled_store s rid run' ∧ ap_metrics st' = add_cancellation (ap_metrics st)
          else if bool_decide (rn_status run = RunStatus.Cancelled) then
            cancel_run clock uuid id st = (st, Done run)
          else ∃ e, cancel_run clock uuid id st = (st, Refuse e) ∧ ae_status e = 409
      end
  end.
Proof.
  intros Hu. cbv zeta. unfold cancel_run, api_run_id. destruct (parse_id _ _ id) as [rid|e] eqn:Hp; [|by eexists].
  rewrite (bind_done _ _ st st rid) by done.
  destruct (ms_runs (ap_store st) !! rid) as [run|] eqn:Hrun.
  2:{ eexists. split; [eapply bind_refuse; by rewrite get_run_eq, Hrun|done]. }
  rewrite (bind_done _ _ st st run) by (by rewrite get_run_eq, Hrun). cbv zeta. rewrite run_active_terminal.
  destruct (run_is_terminal (rn_status run)) eqn:Ht; cbn [negb]; [case_bool_decide; [done|by eexists]|].
  rewrite bool_decide_false by (by intros Hc; rewrite Hc in Ht).
  rewrite (bind_done _ _ st st tt) by (by rewrite run_validate_active).
  by apply cancel_active_eq.
Qed.

Lemma cancel_run_spec_witness :
  ∃ st', cancel_run (fun n => Z.of_nat n) counting_uuid "rn_0"
      (fresh_app (set_runs {["rn_0"%string := sample_run]} mem_new)) = (st', Done (cancelled_run sample_run 0)).
Proof.
  pose proof (cancel_run_spec (fun n => Z.of_nat n) counting_uuid "rn_0"
    (fresh_app (set_runs {["rn_0"%string := sample_run]} mem_new)) counting_uuid_ok) as Hc.
  cbv zeta in Hc. change (parse_id RunId_kind tx_char_debug "rn_0") with (Ok "rn_0" : result string IdError) in Hc.
  cbn [ap_store fresh_app] in Hc.
  change (ms_runs (set_runs {["rn_0"%string := sample_run]} mem_new) !! "rn_0"%string) with (Some sample_run) in Hc.
  destruct Hc as (st'&Hc&_). by exists st'.
Defined.
