(* ===== verification/DashboardSpec.v ===== *)
(** * The dashboard shows data, never markup

    The page inserts tenants, names and identifiers without escaping. It is safe because
    of what the rest of the control plane admits: whatever requests were served, the
    markup of the page depends only on how many rows it has. *)
From stdpp Require Import pretty.
From S2P Require Import Prelude RustStrings Text Ids Status Errors StateMachine Float64 FloatText Json RetryPolicy.
From S2P Require Import Workflow Dag Validation Store MemoryStore StoreLaws AuditLog Auth Telemetry Dashboard Api ApiSpec.
Local Open Scope Z_scope.

(** The opening brackets of a text; a text without one is inert. *)
Definition marks (s : string) : nat := length (List.filter (Z.eqb 60) (as_bytes s)).
Definition inert (s : string) : Prop := lacks 60 s.

Lemma marks_app s t : marks (s +:+ t) = (marks s + marks t)%nat.
Proof. unfold marks. by rewrite as_bytes_app, List.filter_app, length_app. Qed.

Lemma inert_marks s : inert s → marks s = 0%nat.
Proof.
  unfold inert, lacks, marks. induction (as_bytes s) as [|b l IH]; [done|]. intros [Hb Hl]%not_elem_of_cons. cbn [List.filter].
  rewrite (proj2 (Z.eqb_neq 60 b)) by done. by apply IH.
Qed.

Lemma inert_app s t : inert (s +:+ t) ↔ inert s ∧ inert t.
Proof. apply lacks_app. Qed.

Lemma inert_pretty (z : Z) : inert (pretty z).
Proof. apply lacks_pretty; lia. Qed.

Lemma inert_names s : Forall name_byte (as_bytes s) → inert s.
Proof. intros Hs Hin. rewrite Forall_forall in Hs. by apply Hs in Hin. Qed.

Ltac inert_const := unfold inert, lacks; apply (bool_decide_unpack _); vm_compute; exact I.

Lemma inert_tenths x : inert (display_tenths x).
Proof.
  unfold display_tenths. destruct x as [[]|[]| |s m e]; try inert_const. cbn zeta.
  destruct s; rewrite !inert_app; split_and!; try apply inert_pretty; inert_const.
Qed.

Lemma inert_group s : inert (group_of s).
Proof. destruct s; inert_const. Qed.

Lemma inert_status s : inert (run_display s).
Proof. destruct s; inert_const. Qed.

(** ** The page *)

(** Counts the brackets of a concatenation whose open parts are inert. *)
Ltac count_marks := rewrite !marks_app; rewrite ?(inert_marks (pretty _)) by apply inert_pretty;
  rewrite ?(inert_marks (display_tenths _)) by apply inert_tenths.

Ltac const_marks := repeat match goal with
  | |- context [marks ?s] => let n := eval vm_compute in (marks s) in change (marks s) with n
  end.

Lemma bar_marks runs : marks (page_bar runs) = 10%nat.
Proof. unfold page_bar. cbn zeta. count_marks. const_marks. reflexivity. Qed.

Lemma workflow_row_marks s : inert (wd_tenant (wr_def (ws_workflow s))) → inert (wd_name (wr_def (ws_workflow s))) →
  marks (dash_workflow_row s) = 8%nat.
Proof. intros Ht%inert_marks Hn%inert_marks. unfold dash_workflow_row. count_marks. rewrite Ht, Hn. reflexivity. Qed.

Lemma run_row_marks r : inert (rn_id r) → inert (rn_tenant r) → inert (rn_def_name r) → marks (dash_run_row r) = 14%nat.
Proof.
  intros Hi%inert_marks Ht%inert_marks Hn%inert_marks. unfold dash_run_row. cbn zeta. count_marks. rewrite Hi, Ht, Hn.
  rewrite (inert_marks (group_of _)) by apply inert_group. rewrite (inert_marks (run_display _)) by apply inert_status.
  reflexivity.
Qed.

Lemma rows_marks {A} (row : A → string) n l : Forall (fun x => marks (row x) = n) l →
  marks (concat_rows (map row l)) = (n * length l)%nat.
Proof.
  unfold concat_rows. induction 1 as [|x l Hx Hl IH]; [cbn; lia|]. cbn [map length].
  assert (Hcons : ∀ s ss, String.concat EmptyString (s :: ss) = s +:+ String.concat EmptyString ss).
  { intros s [|s' ss]; [|done]. cbn. induction s as [|c s IHs]; [done|]. change (String c s +:+ "") with (String c (s +:+ "")). by rewrite <-IHs. }
  rewrite Hcons, marks_app, IH, Hx. lia.
Qed.

Lemma page_marks version uptime depth runs summaries :
  inert version →
  Forall (fun r => inert (rn_id r) ∧ inert (rn_tenant r) ∧ inert (rn_def_name r)) runs →
  Forall (fun s => inert (wd_tenant (wr_def (ws_workflow s))) ∧ inert (wd_name (wr_def (ws_workflow s)))) summaries →
  marks (dashboard_page version uptime depth runs summaries) =
    (78 + (if runs is [] then 0 else 10) + 8 * length summaries + 14 * length runs)%nat.
Proof.
  intros Hv%inert_marks Hr Hs. unfold dashboard_page.
  rewrite !(marks_app page_head), !(marks_app (page_title _ _ _)), !(marks_app (page_cards _ _ _ _)), !marks_app.
  rewrite (rows_marks dash_run_row 14), (rows_marks dash_workflow_row 8).
  2:{ eapply Forall_impl; [exact Hs|]. intros s []. by apply workflow_row_marks. }
  2:{ eapply Forall_impl; [exact Hr|]. intros r (?&?&?). by apply run_row_marks. }
  assert (Ht : marks (page_title version uptime depth) = 4%nat)
    by (unfold page_title; count_marks; rewrite Hv; const_marks; reflexivity).
  assert (Hc : ∀ a b c d, marks (page_cards a b c d) = 26%nat) by (intros; unfold page_cards; count_marks; const_marks; reflexivity).
  rewrite Ht, Hc. assert (Hh : marks page_head = 10%nat) by (vm_compute; reflexivity). rewrite Hh.
  destruct runs as [|r runs]; [|rewrite bar_marks]; const_marks; cbn [length]; lia.
Qed.

(** ** What the control plane stores *)

Definition run_inert (r : Run) : Prop := inert (rn_id r) ∧ inert (rn_tenant r) ∧ inert (rn_def_name r).

Definition def_inert (d : WorkflowDef) : Prop := inert (wd_tenant d) ∧ inert (wd_name d).

Definition shown_inert (s : MemoryState) : Prop :=
  (∀ k rec, ms_defs s !! k = Some rec → k = (wd_tenant (wr_def rec), wd_name (wr_def rec)) ∧ def_inert (wr_def rec)) ∧
  (∀ k r, ms_runs s !! k = Some r → run_inert r).

Lemma shown_inert_new : shown_inert mem_new.
Proof. split; intros k x Hx; cbn in Hx; by rewrite lookup_empty in Hx. Qed.

(** The names in a call are inert. *)
Definition call_inert {A} (c : StoreCall A) : Prop :=
  match c with
  | PutWorkflow d => def_inert d
  | UpdateWorkflowVersion _ _ _ _ => False
  | PutRun r => run_inert r
  | _ => True
  end.

Lemma call_shown {A} `{HashIter} (c : StoreCall A) s : call_inert c → shown_inert s → shown_inert (call c s).1.
Proof.
  intros Hc [Hd Hr].
  destruct c; cbn [call MemoryStore mem_call fst call_inert] in *; try (split; assumption); try done.
  - split; [|exact Hr]. cbn. intros k rec [[<- <-]|[_ Hk]]%lookup_insert_Some; [done|by apply Hd].
  - split; [exact Hd|]. cbn. intros k r [[<- <-]|[_ Hk]]%lookup_insert_Some; [done|by apply (Hr k)].
  - split; [exact Hd|]. cbn. intros k r [_ Hk]%lookup_delete_Some. by apply (Hr k).
  - unfold mem_enqueue. destruct (ms_queue s !! _); split; assumption.
  - unfold mem_claim. repeat case_step; split; assumption.
  - unfold mem_ack, rbind. repeat case_step; split; assumption.
  - unfold mem_release, rbind. repeat case_step; split; assumption.
  - unfold mem_failclaim, rbind. repeat case_step; split; assumption.
  - unfold mem_renew_lease, rbind. repeat case_step; split; assumption.
  - unfold mem_cancel_run. destruct (ms_runs s !! run_id) as [run|] eqn:Hrun; [|split; assumption].
    destruct (Run_is_terminal run); [split; assumption|]. split; [exact Hd|]. cbn.
    intros k r [[<- <-]|[_ Hk]]%lookup_insert_Some; [exact (Hr _ _ Hrun)|by apply (Hr k)].
  - unfold mem_recover_expired_leases. destruct (foldl _ _ _). split; assumption.
Qed.

(** ** What a request adds *)

Section Requests.
Context {L : Type} `{HashIter, AuditLogger L, Texts} (clock : nat → Z) (uuid : nat → list Z) (cfg : AppConfig).
Context (Huuid : uuids_ok uuid).
Implicit Types st : App MemoryState L.

(** The computation keeps_shown what is stored inert, and its result satisfies [Q]. *)
Definition keeps_shown {A} (Q : A → Prop) (c : ApiM MemoryState L A) : Prop :=
  ∀ st, shown_inert (ap_store st) → shown_inert (ap_store (c st).1) ∧ ∀ a, (c st).2 = Done a → Q a.

Lemma shown_by_bind {A B} Q R (c : ApiM MemoryState L A) (k : A → ApiM MemoryState L B) :
  keeps_shown Q c → (∀ a, Q a → keeps_shown R (k a)) → keeps_shown R (api_bind c k).
Proof.
  intros Hc Hk st Hst. destruct (Hc st Hst) as [Hs Hq]. unfold api_bind. destruct (c st) as [st' [a|e|]]; cbn in *.
  - apply Hk; [by apply Hq|done].
  - by split.
  - by split.
Qed.

Lemma shown_by_same {A} (Q : A → Prop) (c : ApiM MemoryState L A) :
  (∀ st, ap_store (c st).1 = ap_store st) → (∀ st a, (c st).2 = Done a → Q a) → keeps_shown Q c.
Proof. intros Hs Hq st Hst. rewrite Hs. split; [done|apply Hq]. Qed.

Lemma shown_by_calm {A} (c : ApiM MemoryState L A) : (∀ st, ap_store (c st).1 = ap_store st) → keeps_shown (fun _ => True) c.
Proof. intros Hs. by apply shown_by_same. Qed.

Lemma shown_by_ret {A} (a : A) : keeps_shown (fun _ => True) (api_ret a).
Proof. by apply shown_by_calm. Qed.

Lemma shown_by_lift {A} (r : result A ApiError) : keeps_shown (fun a => r = Ok a) (api_lift r).
Proof. apply shown_by_same; intros st; destruct r; try done. cbn. intros a' [= ->]. done. Qed.

Lemma shown_by_call {A} (c : StoreCall A) : call_inert c → keeps_shown (fun _ => True) (api_call c).
Proof.
  intros Hc st Hst. pose proof (call_shown c (ap_store st) Hc Hst) as Hk. unfold api_call.
  destruct (call c (ap_store st)). by split.
Qed.

Lemma shown_by_store {A} (c : StoreCall (result A StorageError)) : call_inert c → keeps_shown (fun _ => True) (api_store c).
Proof.
  intros Hc. unfold api_store. eapply shown_by_bind; [by apply shown_by_call|]. intros r _ st Hst.
  destruct (shown_by_lift (map_err (fun e => from_runvane (RunvaneError.Storage e)) r) st Hst). by split.
Qed.

Lemma shown_by_audit_id : keeps_shown (fun _ => True) (api_audit_id uuid).
Proof.
  apply shown_by_calm. intros st. unfold api_audit_id, api_bind, api_uuid. by destruct (parse_id _ _ _).
Qed.

(** A definition that can be found under a key has that key as its names. *)
Lemma shown_by_get_workflow tenant name : keeps_shown (fun _ => inert tenant ∧ inert name) (api_store (GetWorkflow tenant name)).
Proof.
  intros st Hst. unfold api_store, api_bind, api_call. cbn [call MemoryStore mem_call]. unfold mem_get_workflow.
  destruct (ms_defs (ap_store st) !! (tenant, name)) as [rec|] eqn:Hrec; cbn; [|by split].
  split; [done|]. intros _ _. destruct (proj1 Hst _ _ Hrec) as [Hk Hi]. by injection Hk as -> ->.
Qed.

Lemma digit_inert v : b32_digit v ≠ 60.
Proof.
  unfold b32_digit. destruct (nth_in_or_default (Z.to_nat v) B32HEX 0) as [Hin|Hz]; [|by rewrite Hz].
  intros Heq. rewrite Heq in Hin. vm_compute in Hin. repeat destruct Hin as [Hin|Hin]; done.
Qed.

Lemma drain_inert fuel buffer bits : 60 ∉ (drain fuel buffer bits).1.
Proof.
  revert bits. induction fuel as [|fuel IH]; intros bits; cbn [drain]; [apply not_elem_of_nil|].
  destruct (5 <=? bits); [|apply not_elem_of_nil]. specialize (IH (bits - 5)).
  destruct (drain fuel buffer (bits - 5)) as [out rest]. cbn [fst] in *.
  apply not_elem_of_cons. split; [|done]. intros Heq. by apply (digit_inert _ (eq_sym Heq)).
Qed.

Lemma encode_inert src buffer bits : 60 ∉ encode_loop src buffer bits.
Proof.
  revert buffer bits. induction src as [|b src IH]; intros buffer bits; cbn [encode_loop].
  - destruct (0 <? bits); [|apply not_elem_of_nil]. apply not_elem_of_cons. split; [|apply not_elem_of_nil].
    intros Heq. by apply (digit_inert _ (eq_sym Heq)).
  - pose proof (drain_inert 3 (push_byte buffer b) (bits + 8)) as Hd.
    destruct (drain 3 _ _) as [out rest]. cbn [fst] in Hd. apply not_elem_of_app. by split.
Qed.

Lemma generated_inert n : inert (generate_id (uuid n) "rn_").
Proof.
  unfold generate_id. apply inert_app. split; [inert_const|]. unfold inert, lacks, encode_base32hex.
  rewrite as_bytes_of_bytes; [apply encode_inert|]. destruct (Huuid n) as [Hu _].
  eapply Forall_impl; [apply (encode_ascii _ 0 0 Hu); lia|]. intros b Hb. unfold is_u8. cbn in Hb. lia.
Qed.

Lemma definition_inert spec bytes now def : into_definition spec bytes now = Ok def → def_inert def.
Proof.
  unfold into_definition. intros Hd.
  destruct (TenantId_parse (sp_tenant spec)) as [tenant|] eqn:Ht; cbn [map_err rbind] in Hd; [|done].
  destruct (try_map into_task (sp_tasks spec)) as [tasks|]; cbn [rbind] in Hd; [|done].
  destruct (validate_definition _ _ _ _) as [[]|] eqn:Hv; cbn [map_err rbind] in Hd; [|done].
  destruct (validate_workflow_policy _ _) as [[]|]; cbn [map_err rbind] in Hd; [|done]. injection Hd as <-.
  apply validate_definition_spec in Hv as ((_&_&Hn)&_). split; apply inert_names; [|exact Hn].
  unfold TenantId_parse in Ht. destruct (validate_tenant_id (sp_tenant spec)) as [[]|] eqn:Hvt; [|done].
  cbn in Ht. injection Ht as <-. by apply validate_tenant_id_iff in Hvt as (_&_&?).
Qed.

Lemma shown_by_create spec : keeps_shown (fun _ => True) (create_workflow clock uuid spec).
Proof.
  unfold create_workflow. eapply shown_by_bind; [by apply shown_by_calm|intros now _].
  eapply shown_by_bind; [by apply shown_by_calm|intros bytes _]. eapply shown_by_bind; [apply shown_by_lift|intros def Hdef].
  eapply shown_by_bind; [apply shown_by_store|intros stored _].
  { destruct (into_definition spec bytes now) as [d|] eqn:Hd; cbn in Hdef; [|done]. injection Hdef as <-.
    by apply definition_inert in Hd. }
  eapply shown_by_bind; [by apply shown_by_calm|intros _ _]. eapply shown_by_bind; [apply shown_by_audit_id|intros id _].
  eapply shown_by_bind; [by apply shown_by_calm|intros at_ms _]. eapply shown_by_bind; [by apply shown_by_calm|intros _ _].
  apply shown_by_ret.
Qed.

Lemma shown_by_uuid : keeps_shown (fun bytes => ∃ n, bytes = uuid n) (api_uuid uuid).
Proof. apply shown_by_same; [done|]. intros st a. cbn. intros [= <-]. by eexists. Qed.

Lemma shown_by_submit tenant name body : keeps_shown (fun _ => True) (submit_run clock uuid tenant name body).
Proof.
  unfold submit_run. eapply shown_by_bind; [apply shown_by_get_workflow|intros rec [Ht Hn]].
  eapply shown_by_bind; [apply shown_by_lift|intros _ _]. eapply shown_by_bind; [by apply shown_by_calm|intros now _].
  eapply shown_by_bind; [by apply shown_by_store|intros number _]. eapply shown_by_bind; [apply shown_by_uuid|intros bytes [n ->]].
  eapply shown_by_bind; [apply shown_by_store; split_and!; [apply generated_inert|exact Ht|exact Hn]|intros _ _].
  eapply shown_by_bind; [by apply shown_by_store|intros _ _]. eapply shown_by_bind; [by apply shown_by_calm|intros _ _].
  eapply shown_by_bind; [apply shown_by_audit_id|intros id _]. eapply shown_by_bind; [by apply shown_by_calm|intros _ _].
  apply shown_by_ret.
Qed.

Lemma shown_by_cancel id : keeps_shown (fun _ => True) (cancel_run clock uuid id).
Proof.
  unfold cancel_run, api_run_id. eapply shown_by_bind; [apply shown_by_lift|intros rid _].
  eapply shown_by_bind; [by apply shown_by_store|intros cur _]. cbn zeta. case_bool_decide; [apply shown_by_ret|].
  destruct (run_is_terminal (rn_status cur)); [by apply shown_by_calm|].
  eapply shown_by_bind; [apply shown_by_lift|intros _ _]. unfold cancel_active_run.
  eapply shown_by_bind; [by apply shown_by_calm|intros now _]. eapply shown_by_bind; [by apply shown_by_store|intros _ _].
  eapply shown_by_bind; [by apply shown_by_calm|intros _ _]. eapply shown_by_bind; [by apply shown_by_store|intros upd _].
  eapply shown_by_bind; [apply shown_by_audit_id|intros aid _]. eapply shown_by_bind; [by apply shown_by_calm|intros at_ms _].
  eapply shown_by_bind; [by apply shown_by_calm|intros _ _]. apply shown_by_ret.
Qed.

Lemma shown_by_route req : keeps_shown (fun _ => True) (route clock uuid cfg req).
Proof.
  assert (Hm : ∀ A B (f : A → B) c, keeps_shown (fun _ => True) c → keeps_shown (fun _ => True) (api_map (S := MemoryState) (L := L) f c)).
  { intros A B f c Hc. unfold api_map. eapply shown_by_bind; [exact Hc|]. intros a _. apply shown_by_ret. }
  destruct req; cbn [route]; try apply Hm; try apply shown_by_ret; try (by apply shown_by_calm).
  - apply shown_by_calm. intros st. unfold list_audit_events. by destruct (al_query _ _).
  - apply shown_by_create.
  - apply shown_by_calm. intros st. unfold get_workflow. unfold api_store, api_bind, api_call. cbn.
    unfold mem_get_workflow. by destruct (ms_defs _ !! _).
  - apply shown_by_submit.
  - apply shown_by_calm. intros st. unfold list_runs, api_bind. by destruct (into_filter query).
  - apply shown_by_calm. intros st. unfold get_run, api_run_id, api_bind. destruct (parse_id _ _ _); [|done].
    unfold api_store, api_bind, api_call. cbn. unfold mem_get_run. by destruct (ms_runs _ !! _).
  - apply shown_by_cancel.
Qed.

Lemma serve_shown presented req st : shown_inert (ap_store st) →
  shown_inert (ap_store (serve clock uuid cfg presented req st).1).
Proof.
  intros Hst. unfold serve. destruct (level_of req); [|by apply shown_by_route].
  apply (shown_by_bind (fun _ => True) (fun _ => True)); [|intros _ _; apply shown_by_route|exact Hst].
  intros st' Hst'. destruct (shown_by_lift (check_auth cfg presented l) st' Hst'). by split.
Qed.
End Requests.

(** ** Property *)

(** C35. No markup reaches the dashboard: after any sequence of requests, with or without valid
    tokens, the root route answers with a page whose number of tags is fixed by the number of
    runs and definitions stored; no tenant, name or identifier adds one, although the page
    escapes nothing. *)
Theorem dashboard_inert {L} `{HashIter, AuditLogger L, Texts} clock uuid cfg reqs (st : App MemoryState L) :
  uuids_ok uuid → inert (ac_version cfg) → shown_inert (ap_store st) →
  let st' := serve_all clock uuid cfg reqs st in
  let n_runs := size (ms_runs (ap_store st')) in
  ∃ page, (serve clock uuid cfg None ReqDashboard st').2 = Done (200, PlText page) ∧
    marks page = (78 + (if decide (n_runs = 0) then 0 else 10) + 8 * size (ms_defs (ap_store st')) + 14 * n_runs)%nat.
Proof.
  intros Hu Hv Hst. cbn zeta. assert (Hst' : shown_inert (ap_store (serve_all clock uuid cfg reqs st))).
  { unfold serve_all. revert st Hst. induction reqs as [|[presented req] reqs IH]; intros st Hst; [done|].
    cbn [foldl]. by apply IH, serve_shown. }
  set (st' := serve_all clock uuid cfg reqs st) in *. clearbody st'. eexists. split; [reflexivity|].
  cbn [or_nil]. set (runs := mem_list_runs filter_default (ap_store st')).
  assert (Hperm : runs ≡ₚ (map_to_list (ms_runs (ap_store st'))).*2) by apply list_all_perm.
  assert (Hlen : length runs = size (ms_runs (ap_store st')))
    by (by rewrite Hperm, length_fmap, length_map_to_list).
  rewrite page_marks; [|done| |].
  - rewrite Hlen. unfold mem_list_workflow_summaries, hash_values. rewrite length_map, length_fmap, hash_iter_perm.
    rewrite length_map_to_list. cbn [ap_store]. destruct runs as [|r runs]; cbn [length] in Hlen; case_decide; lia.
  - apply Forall_forall. intros r Hr. rewrite Hperm in Hr. apply list_elem_of_fmap in Hr as ([k r']&->&Hr).
    apply elem_of_map_to_list in Hr. exact (proj2 Hst' _ _ Hr).
  - apply Forall_forall. intros s Hs. unfold mem_list_workflow_summaries in Hs. apply list_elem_of_fmap in Hs as (rec&->&Hrec).
    apply hash_values_elem in Hrec as [k Hk]. exact (proj2 (proj1 Hst' _ _ Hk)).
Qed.

(** A definition whose name is a tag is refused, a good one is created and run; the page
    shows one definition and one run. *)
Definition etl_spec (name : string) : WorkflowSpec := {|
  sp_tenant := "acme"; sp_name := name; sp_description := None;
  sp_tasks := [{| tp_name := "fetch"; tp_handler := "runvane.noop"; tp_input := None; tp_depends_on := None;
                  tp_timeout_ms := None; tp_retry := None; tp_meta := None |}];
  sp_timeout_ms := None; sp_retry := None; sp_default_priority := None; sp_hooks := None; sp_tags := None |}.

Definition page_requests : list (option string * Request) :=
  [(None, ReqCreateWorkflow (etl_spec "<script>")); (None, ReqCreateWorkflow (etl_spec "etl"));
   (None, ReqSubmitRun "acme" "etl" {| sr_input := None; sr_tags := None |})].

Definition page_config : AppConfig := {| ac_auth := from_config None None; ac_boot_ms := 0; ac_version := "0.1.0" |}.

Lemma dashboard_inert_witness :
  ∃ page, (serve (H1 := plain_texts) (fun n => Z.of_nat n) counting_uuid page_config None ReqDashboard
      (serve_all (H1 := plain_texts) (fun n => Z.of_nat n) counting_uuid page_config page_requests (fresh_app mem_new))).2
      = Done (200, PlText page) ∧ marks page = 110%nat.
Proof.
  destruct (dashboard_inert (H1 := plain_texts) (fun n => Z.of_nat n) counting_uuid page_config page_requests
    (fresh_app mem_new) counting_uuid_ok ltac:(inert_const) shown_inert_new) as (page&Hp&Hm).
  exists page. split; [exact Hp|]. rewrite Hm. vm_compute. reflexivity.
Defined.
