(* ===== verification/ApiEnd.v ===== *)
(** * From the API to success

    The HTTP surface, the dispatcher, the worker, the executor and the built-in
    handlers composed: a definition and a run the API accepts are executed to
    success, and the API reports it. *)
From S2P Require Import Prelude RustStrings Text Ids Status Errors StateMachine Float64 Json RetryPolicy Workflow.
From S2P Require Import Dag Validation Store MemoryStore LruStore StoreLaws Pick Executor ExecutorLogic ExecutorFrame.
From S2P Require Import ExecutorOrder ExecutorOutcome ExecutorSuccess Pool PoolEnd Handlers AuditLog Auth Telemetry.
From S2P Require Import Api ApiSpec.
Local Open Scope Z_scope.

(** Every built-in handler leaves the store as the other threads leave it. *)
Lemma installed_effect {S} `{Spawner, Http} (during : TaskContext → S → S) delays id h ctx s :
  install_builtins during delays registry_new !! id = Some h → (h ctx s).1 = during ctx s.
Proof.
  unfold install_builtins, register, registry_new. cbn zeta.
  do 6 (rewrite lookup_insert_Some; intros [[_ <-]|[_ Hl]]; [done|revert Hl]). done.
Qed.

Lemma into_definition_runnable `{Texts} spec uuid now def : into_definition spec uuid now = Ok def →
  NoDup (map ts_name (wd_tasks def)) ∧ ∃ order, topo_order (wd_tasks def) = Ok order.
Proof.
  unfold into_definition. destruct (TenantId_parse (sp_tenant spec)) as [t|]; [|done]. cbn [map_err rbind].
  destruct (try_map into_task (sp_tasks spec)) as [tasks|]; [|done]. cbn [rbind]. set (d := stamped _ _ _ _ _).
  destruct (validate_definition _ _ _ d) as [[]|] eqn:Hv; [|done]. cbn [map_err rbind].
  destruct (validate_workflow_policy _ d); [|done]. cbn. intros [= <-]. by apply validated_runnable in Hv.
Qed.

Section Accepted.
Context {L : Type} `{HashIter, AuditLogger L, Texts}.

Lemma put_workflow_wf def s : mem_wf s →
  mem_wf (set_defs (<[(wd_tenant def, wd_name def) := {| wr_def := def |}]> (ms_defs s)) s).
Proof. intros Hwf. exact (mem_call_wf (PutWorkflow def) s Hwf). Qed.

Lemma submitted_wf s run now : mem_wf s → rn_run_number run = next_number s (rn_def_name run) →
  ms_queue s !! rn_id run = None → mem_wf (submitted_store s run now).
Proof.
  intros Hwf Hn Hq. pose proof (mem_call_wf (NextRunNumber (rn_def_name run)) s Hwf) as Hw1.
  pose proof (mem_call_wf (PutRun run) _ Hw1) as Hw2.
  pose proof (mem_call_wf (Enqueue (submission_entry (rn_id run) now)) _ Hw2) as Hw3. revert Hw3.
  cbn [call MemoryStore mem_call mem_next_run_number fst snd]. unfold mem_enqueue, mem_put_run.
  cbn [ms_queue set_runs set_run_numbers qe_run_id submission_entry]. rewrite Hq. cbn [fst].
  unfold submitted_store. by rewrite Hn.
Qed.
End Accepted.

(** ** Property *)

(** C1. End to end: a definition answered with 201 and a run of it answered with 202, all
    of whose tasks use built-in handlers that succeed, is dispatched by the next round of
    the scheduler (whatever else is queued, given room) and executed by the worker that
    takes the job; a read of the run's id then answers with a [Succeeded] run. Nothing is
    assumed of the definition beyond its acceptance. *)
Theorem accepted_run_succeeds {L} `{HashIter, AuditLogger L, Texts, Spawner, Http} clock uuid spec body
    (st st1 st2 : App MemoryState L) def run during delays dclock fresh batch lease wclock seed powf rng
    (d : Dispatch MemoryState) :
  uuids_ok uuid → mem_wf (ap_store st) →
  create_workflow clock uuid spec st = (st1, Done def) →
  submit_run clock uuid (wd_tenant def) (wd_name def) body st1 = (st2, Done run) →
  fresh_run (rn_id run) (ap_store st) →
  (∀ t, t ∈ wd_tasks def → harmless delays (ts_handler t)) →
  (∀ ctx s, mem_wf s → undisturbed (rn_id run) s (during ctx s) ∧
    ms_queue (during ctx s) !! rn_id run = ms_queue s !! rn_id run) →
  dp_store d = ap_store st2 → rn_created_at_ms run ≤ dclock (dp_reads d) →
  (size (ms_queue (ap_store st2)) ≤ batch)%nat → wp_open (dp_pool d) = true →
  (length (wp_jobs (dp_pool d)) + size (ms_queue (ap_store st2)) ≤ wp_bound (dp_pool d))%nat →
  let d' := (step dclock fresh alone batch lease d).1 in
  ∃ new job, sent_jobs (dp_pool d') = sent_jobs (dp_pool d) ++ new ∧ job ∈ new ∧ jb_run_id job = rn_id run ∧
    let s' := w_store (worker_job (install_builtins during delays registry_new) wclock seed powf rng job
      (world0 (dp_store d'))) in
    ∃ r, get_run (rn_id run) (with_store st2 s') = (with_store st2 s', Done r) ∧
      rn_status r = RunStatus.Succeeded.
Proof.
  intros Hu Hwf Hcreate Hsub Hfresh Htasks Hduring Hstore Hdue Hbatch Hopen Hroom. cbv zeta.
  apply create_workflow_inv in Hcreate as [Hdef Hst1]; [|done].
  apply into_definition_runnable in Hdef as [Hnd [order Htopo]].
  apply submit_run_inv in Hsub as (rec&Hrec&Hrun&Hq&Hst2); [|done].
  rewrite Hst1 in Hrec. cbn in Hrec. rewrite lookup_insert_eq in Hrec. injection Hrec as <-.
  assert (Hid : rn_id run = generate_id (uuid (ap_ids st1)) "rn_") by by rewrite Hrun.
  destruct (dispatched_run_succeeds dclock fresh batch lease (install_builtins during delays registry_new) wclock
    seed powf rng (submission_entry (rn_id run) (clock (ap_reads st1))) run {| wr_def := def |} order d)
    as (new&job&Hnew&Hjob&Hjid&(r&Hr&Hs)&_); rewrite ?Hstore, ?Hst2; cbn [wr_def]; try done.
  - apply submitted_wf; [|by rewrite Hrun|done]. rewrite Hst1. by apply put_workflow_wf.
  - cbn. by rewrite lookup_insert_eq.
  - unfold is_ready. cbn. rewrite andb_true_r. apply Z.leb_le. by rewrite Hrun in Hdue.
  - cbn. by rewrite lookup_insert_eq.
  - by rewrite Hrun.
  - cbn. rewrite Hst1, Hrun. cbn. by rewrite lookup_insert_eq.
  - unfold fresh_run in *. cbn. by rewrite Hst1.
  - by rewrite <-Hst2.
  - by rewrite <-Hst2.
  - apply harmless_succeed; [done|]. intros ctx s Hs. by apply Hduring.
  - intros id h ctx s Hh Hs. rewrite (installed_effect _ _ _ _ ctx s Hh).
    destruct (Hduring ctx s Hs) as [(Hs'&_) Hqs]. done.
  - by rewrite Hrun.
  - exists new, job. split; [done|]. split; [done|]. split; [done|]. exists r. split; [|done].
    unfold get_run. destruct (Hu (ap_ids st1)) as [Hb Hl]. rewrite Hid at 1.
    rewrite (bind_done _ _ _ _ _ (run_id_eq _ _ Hb Hl)). rewrite get_run_eq. cbn [ap_store with_store].
    rewrite <-Hid. by rewrite Hr.
Qed.

(** Two tasks, submitted to an idle server. *)
Definition step_payload (name handler : string) (deps : list string) : TaskSpecPayload := {|
  tp_name := name; tp_handler := handler; tp_input := None; tp_depends_on := Some deps; tp_timeout_ms := None;
  tp_retry := None; tp_meta := None |}.

Definition two_steps : WorkflowSpec := {|
  sp_tenant := "acme"; sp_name := "etl"; sp_description := None;
  sp_tasks := [step_payload "fetch" "runvane.echo" []; step_payload "load" "runvane.noop" ["fetch"]];
  sp_timeout_ms := None; sp_retry := None; sp_default_priority := None; sp_hooks := None; sp_tags := None
|}%string.

Definition no_body : SubmitRunRequest := {| sr_input := None; sr_tags := None |}.

Definition created : App MemoryState MemoryAuditLogger * reply WorkflowDef :=
  create_workflow (H1 := plain_texts) (fun n => Z.of_nat n) counting_uuid two_steps (fresh_app mem_new).

Definition created_def : WorkflowDef :=
  match created.2 with Done def => def | _ => workflow_default end.

Definition submitted : App MemoryState MemoryAuditLogger * reply Run :=
  submit_run (H1 := plain_texts) (fun n => Z.of_nat n) counting_uuid "acme" "etl" no_body created.1.

Definition submitted_record : Run := match submitted.2 with Done run => run | _ => sample_run end.

Definition is_done {A} (r : reply A) : bool := match r with Done _ => true | _ => false end.

Lemma done_eta {S A} (p : S * reply A) (d : A) : is_done p.2 = true →
  p = (p.1, Done (match p.2 with Done a => a | _ => d end)).
Proof. by destruct p as [s []]. Qed.

Lemma created_ok : created = (created.1, Done created_def).
Proof. apply done_eta. vm_compute. reflexivity. Qed.

Lemma submitted_ok : submitted = (submitted.1, Done submitted_record).
Proof. apply done_eta. vm_compute. reflexivity. Qed.

Lemma accepted_run_succeeds_witness :
  let d' := (step (fun n => 100 + Z.of_nat n) unary_token alone 10 1000 (idle_dispatch (ap_store submitted.1))).1 in
  ∃ new job, sent_jobs (dp_pool d') = [] ++ new ∧ job ∈ new ∧ jb_run_id job = rn_id submitted_record ∧
    let s' := w_store (worker_job (install_builtins (H := no_spawner) (H0 := no_http) (fun _ s => s) calm registry_new)
      (fun n => Z.of_nat n) 0 (fun x _ => x) (fun _ u => u) job (world0 (dp_store d'))) in
    ∃ r, get_run (H1 := plain_texts) (rn_id submitted_record) (with_store submitted.1 s')
        = (with_store submitted.1 s', Done r) ∧ rn_status r = RunStatus.Succeeded.
Proof.
  apply (accepted_run_succeeds (H1 := plain_texts) (H2 := no_spawner) (H3 := no_http) (fun n => Z.of_nat n)
    counting_uuid two_steps no_body (fresh_app mem_new) created.1 submitted.1 created_def submitted_record).
  - apply counting_uuid_ok.
  - apply mem_new_wf.
  - exact created_ok.
  - exact submitted_ok.
  - unfold fresh_run. change (view_tasks (ap_store (fresh_app mem_new))) with (∅ : gmap TaskRunId TaskRun).
    split; [intros k t Hk; rewrite lookup_empty in Hk; discriminate Hk|intros n; apply lookup_empty].
  - intros t Ht. left. unfold created_def in Ht. vm_compute in Ht.
    repeat (apply elem_of_cons in Ht as [->|Ht]; [vm_compute; auto|]). by apply elem_of_nil in Ht.
  - done.
  - reflexivity.
  - vm_compute. discriminate.
  - apply (bool_decide_unpack _). vm_compute. exact I.
  - reflexivity.
  - apply (bool_decide_unpack _). vm_compute. exact I.
Defined.
