(* ===== verification/Grpc.v ===== *)
(** * The gRPC mirror (src/src/api/grpc.rs)

    The service behind the protobuf stubs. A message is the record of the fields
    the service reads; JSON bytes are decoded by [JsonBytes] (serde_json). A
    response carries the document itself in place of its JSON bytes. *)
From stdpp Require Import pretty.
From S2P Require Import Prelude RustStrings Text Ids Status Errors StateMachine Float64 Json RetryPolicy Workflow.
From S2P Require Import Dag Validation Store MemoryStore AuditLog Auth Telemetry Api ApiSpec.
Local Open Scope Z_scope.

(** ** Status codes *)

Module Code.
Inductive Code :=
| Ok | Cancelled | Unknown | InvalidArgument | DeadlineExceeded | NotFound | AlreadyExists | PermissionDenied
| ResourceExhausted | FailedPrecondition | Aborted | OutOfRange | Unimplemented | Internal | Unavailable | DataLoss
| Unauthenticated.
End Code.
Abbreviation Code := Code.Code.

Record GrpcStatus := { gs_code : Code; gs_message : string }.

Definition invalid_argument (message : string) : GrpcStatus :=
  {| gs_code := Code.InvalidArgument; gs_message := message |}.

Definition code_of (http : Z) : Code :=
  if http =? 400 then Code.InvalidArgument
  else if http =? 401 then Code.Unauthenticated
  else if http =? 403 then Code.PermissionDenied
  else if http =? 404 then Code.NotFound
  else if http =? 409 then Code.FailedPrecondition
  else if http =? 502 then Code.Unavailable
  else Code.Internal.

Definition to_tonic_api (e : ApiError) : GrpcStatus :=
  {| gs_code := code_of (ae_status e); gs_message := ae_message e |}.

(** ** Messages *)

Record ProtoRetryPolicy := {
  pr_max_attempts : Z;
  pr_base_delay_ms : Z;
  pr_max_delay_ms : Z;
  pr_multiplier : f64;
  pr_backoff : string;
  pr_jitter : string;
  pr_retryable_only : bool
}.

Record ProtoHookSpec := { ph_webhook_url : string; ph_event_filter : string; ph_headers : gmap string string }.

Record ProtoHooksSpec := {
  ph_on_start : list ProtoHookSpec;
  ph_on_success : list ProtoHookSpec;
  ph_on_failure : list ProtoHookSpec;
  ph_on_cancel : list ProtoHookSpec
}.

Record ProtoTaskSpec := {
  pt_name : string;
  pt_handler : string;
  pt_input_json : list Z;
  pt_depends_on : list string;
  pt_timeout_ms : Z;
  pt_retry : option ProtoRetryPolicy;
  pt_meta_json : list Z
}.

Record ProtoWorkflowSpec := {
  pw_tenant : string;
  pw_name : string;
  pw_description : string;
  pw_tasks : list ProtoTaskSpec;
  pw_timeout_ms : Z;
  pw_retry : option ProtoRetryPolicy;
  pw_default_priority : string;
  pw_hooks : option ProtoHooksSpec;
  pw_tags_json : list Z
}.

Record ProtoSubmitRun := {
  ps_tenant : string;
  ps_name : string;
  ps_input_json : list Z;
  ps_tags_json : list Z
}.

Record ProtoListRuns := { pl_tenant : string; pl_name : string; pl_status : string; pl_limit : nat }.

(** [serde_json::from_slice] at the three types the service decodes. *)
Class JsonBytes := {
  jb_value : list Z → result Json string;
  jb_strings : list Z → result (gmap string string) string;
  jb_object : list Z → result (gmap string Json) string
}.

(** ** Conversions *)

(** [(!s.is_empty()).then_some(s)] *)
Definition non_empty (s : string) : option string := if is_empty s then None else Some s.
Definition non_zero (n : Z) : option Z := if n =? 0 then None else Some n.

Section Convert.
Context `{Texts, JsonBytes}.

Definition parse_json (field : string) (bytes : list Z) : result Json GrpcStatus :=
  match bytes with
  | [] => Ok JNull
  | _ => map_err (fun e => invalid_argument (field +:+ " is not valid JSON: " +:+ e)) (jb_value bytes)
  end.

Definition parse_tags (field : string) (bytes : list Z) : result (gmap string string) GrpcStatus :=
  match bytes with
  | [] => Ok ∅
  | _ => map_err (fun e => invalid_argument (field +:+ " is not an object of strings: " +:+ e)) (jb_strings bytes)
  end.

Definition priority_from (s : string) : result Priority GrpcStatus :=
  if is_empty s then Ok priority_default
  else match priority_from_str s with
       | Some p => Ok p
       | None => Err (invalid_argument ("invalid priority " +:+ tx_str_debug s))
       end.

(** Every field unset. *)
Definition absent (r : ProtoRetryPolicy) : bool :=
  (pr_max_attempts r =? 0) && (pr_base_delay_ms r =? 0) && (pr_max_delay_ms r =? 0) &&
  f64_eqb (pr_multiplier r) f64_zero && is_empty (pr_backoff r) && is_empty (pr_jitter r).

Definition backoff_from (s : string) : result BackoffKind GrpcStatus :=
  if is_empty s || bool_decide (s = "fixed"%string) then Ok Fixed
  else if bool_decide (s = "linear"%string) then Ok Linear
  else if bool_decide (s = "exponential"%string) then Ok Exponential
  else Err (invalid_argument ("invalid backoff " +:+ tx_str_debug s)).

Definition jitter_from (s : string) : result JitterKind GrpcStatus :=
  if is_empty s || bool_decide (s = "none"%string) then Ok JitterKind.None
  else if bool_decide (s = "full"%string) then Ok JitterKind.Full
  else if bool_decide (s = "equal"%string) then Ok JitterKind.Equal
  else Err (invalid_argument ("invalid jitter " +:+ tx_str_debug s)).

Definition retry_from (proto : option ProtoRetryPolicy) : result (option RetryPolicy) GrpcStatus :=
  match proto with
  | None => Ok None
  | Some r =>
      if absent r then Ok None
      else
        let? backoff := backoff_from (pr_backoff r) in
        let? jitter := jitter_from (pr_jitter r) in
        let policy := {| max_attempts := pr_max_attempts r; base_delay_ms := pr_base_delay_ms r;
          max_delay_ms := pr_max_delay_ms r; multiplier := pr_multiplier r; backoff := backoff;
          jitter := jitter; retryable_only := pr_retryable_only r |} in
        let? _ := map_err (fun e => invalid_argument (policy_error_text tx_float e)) (policy_validate policy) in
        Ok (Some policy)
  end.

Definition hook_from (proto : ProtoHookSpec) : result HookSpec GrpcStatus :=
  let spec := {| webhook_url := non_empty (ph_webhook_url proto); event_filter := non_empty (ph_event_filter proto);
                 headers := ph_headers proto |} in
  let? _ := match webhook_url spec with
            | Some url => map_err invalid_argument (validate_webhook_url tx_url_parse tx_str_debug url)
            | None => Ok tt
            end in
  Ok spec.

Definition hooks_from (proto : option ProtoHooksSpec) : result (option Hooks) GrpcStatus :=
  match proto with
  | None => Ok None
  | Some p =>
      let? start := try_map hook_from (ph_on_start p) in
      let? success := try_map hook_from (ph_on_success p) in
      let? failure := try_map hook_from (ph_on_failure p) in
      let? cancel := try_map hook_from (ph_on_cancel p) in
      Ok (Some {| on_start := start; on_success := success; on_failure := failure; on_cancel := cancel |})
  end.

(** [match parse_json(..)? { Json::Null => None, json => Some(json) }] *)
Definition not_null (j : Json) : option Json := match j with JNull => None | _ => Some j end.

Definition meta_from (bytes : list Z) : result (option (gmap string Json)) GrpcStatus :=
  match bytes with
  | [] => Ok None
  | _ =>
      let? meta := map_err (fun e => invalid_argument ("meta is not an object: " +:+ e)) (jb_object bytes) in
      Ok (if bool_decide (meta = ∅) then None else Some meta)
  end.

Definition task_from (proto : ProtoTaskSpec) : result TaskSpecPayload GrpcStatus :=
  let? input := parse_json "input" (pt_input_json proto) in
  let? retry := retry_from (pt_retry proto) in
  let? meta := meta_from (pt_meta_json proto) in
  Ok {| tp_name := pt_name proto; tp_handler := pt_handler proto; tp_input := not_null input;
        tp_depends_on := match pt_depends_on proto with [] => None | deps => Some deps end;
        tp_timeout_ms := non_zero (pt_timeout_ms proto); tp_retry := retry; tp_meta := meta |}.

(** The [WorkflowSpec] the service assembles. *)
Definition spec_from (wire : ProtoWorkflowSpec) : result WorkflowSpec GrpcStatus :=
  let? tasks := try_map task_from (pw_tasks wire) in
  let? retry := retry_from (pw_retry wire) in
  let? priority := priority_from (pw_default_priority wire) in
  let? hooks := hooks_from (pw_hooks wire) in
  let? tags := parse_tags "tags" (pw_tags_json wire) in
  Ok {| sp_tenant := pw_tenant wire; sp_name := pw_name wire; sp_description := non_empty (pw_description wire);
        sp_tasks := tasks; sp_timeout_ms := non_zero (pw_timeout_ms wire); sp_retry := retry;
        sp_default_priority := Some priority; sp_hooks := hooks; sp_tags := Some tags |}.
End Convert.

(** ** The service *)

Definition GrpcM (S L A : Type) := App S L → App S L * result A GrpcStatus.

Definition g_ret {S L A} (a : A) : GrpcM S L A := fun st => (st, Ok a).

Definition g_bind {S L A B} (c : GrpcM S L A) (k : A → GrpcM S L B) : GrpcM S L B := fun st =>
  match c st with
  | (st, Ok a) => k a st
  | (st, Err e) => (st, Err e)
  end.

Notation "'let+' x ':=' c 'in' k" := (g_bind c (fun x => k))
  (at level 10, x pattern, c at level 100, k at level 200) : runvane_scope.

Definition g_lift {S L A} (r : result A GrpcStatus) : GrpcM S L A := fun st => (st, r).

Section Service.
Context {S L : Type} `{Store S, AuditLogger L, Texts, JsonBytes} (clock : nat → Z) (uuid : nat → list Z) (cfg : AppConfig).

(** [to_tonic] of an error that flattens into [ApiError] *)
Definition to_tonic (e : RunvaneError) : GrpcStatus := to_tonic_api (from_runvane e).

Definition g_store {A} (c : StoreCall (result A StorageError)) : GrpcM S L A := fun st =>
  let '(s, r) := call c (ap_store st) in
  ({| ap_store := s; ap_audit := ap_audit st; ap_metrics := ap_metrics st; ap_reads := ap_reads st;
      ap_ids := ap_ids st |}, map_err (fun e => to_tonic (RunvaneError.Storage e)) r).

Definition g_now : GrpcM S L Z := fun st =>
  ({| ap_store := ap_store st; ap_audit := ap_audit st; ap_metrics := ap_metrics st;
      ap_reads := ap_reads st + 1; ap_ids := ap_ids st |}, Ok (clock (ap_reads st))).

Definition g_uuid : GrpcM S L (list Z) := fun st =>
  ({| ap_store := ap_store st; ap_audit := ap_audit st; ap_metrics := ap_metrics st;
      ap_reads := ap_reads st; ap_ids := ap_ids st + 1 |}, Ok (uuid (ap_ids st))).

Definition grpc_require (presented : option string) (level : Level) : result unit GrpcStatus :=
  if authorized (ac_auth cfg) presented level then Ok tt
  else if bool_decide (level = Admin) && bool_decide (is_Some presented) then
    Err {| gs_code := Code.PermissionDenied; gs_message := "token valid for the operator tier is not an admin token" |}
  else Err {| gs_code := Code.Unauthenticated; gs_message := "missing or invalid api token (metadata: x-api-token)" |}.

Definition grpc_health : GrpcM S L HealthView :=
  let+ now_ms := g_now in
  fun st =>
    let '(s, depth) := call LenQueue (ap_store st) in
    ({| ap_store := s; ap_audit := ap_audit st; ap_metrics := ap_metrics st; ap_reads := ap_reads st;
        ap_ids := ap_ids st |},
     Ok {| hv_status := "ok"; hv_booted_at_ms := ac_boot_ms cfg; hv_now_ms := now_ms;
           hv_queue_depth := depth; hv_spec_version := 1 |}).

Definition grpc_create_workflow (presented : option string) (wire : ProtoWorkflowSpec) : GrpcM S L WorkflowDef :=
  let+ _ := g_lift (grpc_require presented Operator) in
  let+ spec := g_lift (spec_from wire) in
  let+ now_ms := g_now in
  let+ bytes := g_uuid in
  let+ def := g_lift (map_err to_tonic (into_definition spec bytes now_ms)) in
  let+ stored := g_store (PutWorkflow def) in
  g_ret (wr_def stored).

Definition grpc_list_workflows (presented : option string) (tenant : string) : GrpcM S L (list WorkflowDef) :=
  let+ _ := g_lift (grpc_require presented Operator) in
  let+ recs := g_store ListWorkflows in
  g_ret (List.filter (fun def => is_empty tenant || bool_decide (wd_tenant def = tenant)) (map wr_def recs)).

Definition grpc_get_workflow (presented : option string) (tenant name : string) : GrpcM S L WorkflowDef :=
  let+ _ := g_lift (grpc_require presented Operator) in
  let+ rec := g_store (GetWorkflow tenant name) in
  g_ret (wr_def rec).

Definition grpc_submit_run (presented : option string) (req : ProtoSubmitRun) : GrpcM S L Run :=
  let+ _ := g_lift (grpc_require presented Operator) in
  let+ rec := g_store (GetWorkflow (ps_tenant req) (ps_name req)) in
  let+ parsed := g_lift (parse_json "input" (ps_input_json req)) in
  let input := default empty_object (not_null parsed) in
  let+ _ := g_lift (map_err (fun e => to_tonic (RunvaneError.Domain e)) (validate_run_input tx_number input)) in
  let+ now_ms := g_now in
  let+ run_number := g_store (NextRunNumber (ps_name req)) in
  let+ bytes := g_uuid in
  let id := generate_id bytes "rn_" in
  let+ tags := g_lift (parse_tags "tags" (ps_tags_json req)) in
  let run := submitted_run id (ps_tenant req) (ps_name req) (wd_version (wr_def rec)) input tags now_ms run_number in
  let+ _ := g_store (PutRun run) in
  let+ _ := g_store (Enqueue (submission_entry id now_ms)) in
  g_ret run.

Definition grpc_list_runs (presented : option string) (req : ProtoListRuns) : GrpcM S L (list Run) :=
  let+ _ := g_lift (grpc_require presented Operator) in
  let+ status := g_lift (if is_empty (pl_status req) then Ok None
                         else match run_from_str (pl_status req) with
                              | Some s => Ok (Some s)
                              | None => Err (invalid_argument ("invalid status " +:+ tx_str_debug (pl_status req)))
                              end) in
  g_store (ListRuns {| rf_name := non_empty (pl_name req); rf_name_prefix := None; rf_status := status;
    rf_status_in := []; rf_tenant := non_empty (pl_tenant req); rf_tags := ∅; rf_has_tag_keys := [];
    rf_from_ms := None; rf_to_ms := None; rf_finished_from_ms := None; rf_finished_to_ms := None;
    rf_min_duration_ms := None; rf_limit := if (0 <? pl_limit req)%nat then Some (pl_limit req) else None;
    rf_offset := 0 |}).

Definition grpc_run_id (id : string) : GrpcM S L RunId :=
  g_lift (map_err (fun e => to_tonic (RunvaneError.Id e)) (parse_id RunId_kind tx_char_debug id)).

Definition grpc_get_run (presented : option string) (id : string) : GrpcM S L Run :=
  let+ _ := g_lift (grpc_require presented Operator) in
  let+ run_id := grpc_run_id id in
  g_store (GetRun run_id).

Definition grpc_cancel_run (presented : option string) (id : string) : GrpcM S L Run :=
  let+ _ := g_lift (grpc_require presented Admin) in
  let+ run_id := grpc_run_id id in
  let+ current := g_store (GetRun run_id) in
  let status := rn_status current in
  let+ _ := if bool_decide (status = RunStatus.Cancelled) then g_ret tt
            else if run_is_terminal status then
              g_lift (Err {| gs_code := Code.FailedPrecondition;
                gs_message := "run " +:+ run_id +:+ " is already " +:+ run_display status +:+ " and cannot be cancelled" |})
            else
              let+ _ := g_lift (map_err to_tonic (RunFsm.run_validate status RunStatus.Cancelled)) in
              let+ now_ms := g_now in
              let+ _ := g_store (CancelRun run_id now_ms) in
              g_ret tt in
  g_store (GetRun run_id).
End Service.

(** ** The two transports in lockstep *)

Section Mirror.
Context {S L : Type} `{Store S, AuditLogger L, Texts, JsonBytes} (clock : nat → Z) (uuid : nat → list Z) (cfg : AppConfig).

(** The same answer, or the same refusal under the code that mirrors its status. *)
Definition answers {A} (h : reply A) (g : result A GrpcStatus) : Prop :=
  match h, g with
  | Done a, Ok b => a = b
  | Refuse e, Err s => s = to_tonic_api e
  | _, _ => False
  end.

(** The two computations take the same step, or end alike up to metrics and audit. *)
Definition same {A} (c : ApiM S L A) (g : GrpcM S L A) : Prop :=
  ∀ st, (c st).1 = (g st).1 ∧ answers (c st).2 (g st).2.

Definition mirror {A} (c : ApiM S L A) (g : GrpcM S L A) : Prop :=
  ∀ st, ap_store (c st).1 = ap_store (g st).1 ∧ answers (c st).2 (g st).2.

Lemma mirror_bind {A B} (c : ApiM S L A) (g : GrpcM S L A) (k : A → ApiM S L B) k' :
  same c g → (∀ a, mirror (k a) (k' a)) → mirror (api_bind c k) (g_bind g k').
Proof.
  intros Hc Hk st. specialize (Hc st). unfold api_bind, g_bind.
  destruct (c st) as [s1 [a|e|]], (g st) as [s2 [b|x]]; destruct Hc as [Hs Ha]; cbn in *; subst; try done.
  apply Hk.
Qed.

Lemma same_store {A} (c : StoreCall (result A StorageError)) : same (api_store c) (g_store c).
Proof.
  intros st. unfold api_store, api_bind, api_call, g_store. destruct (call c (ap_store st)) as [s [a|e]]; done.
Qed.

Lemma same_lift {A E} (f : E → ApiError) (r : result A E) :
  same (api_lift (map_err f r)) (g_lift (map_err (fun e => to_tonic_api (f e)) r)).
Proof. intros st. by destruct r. Qed.

Lemma same_now : same (api_now clock) (g_now clock).
Proof. done. Qed.

Lemma same_uuid : same (api_uuid uuid) (g_uuid uuid).
Proof. done. Qed.

(** What only the HTTP handler does after the store calls: count and log. *)
Definition calm_step {A} (c : ApiM S L A) : Prop :=
  ∀ st, ap_store (c st).1 = ap_store st ∧ ∃ a, (c st).2 = Done a.

Lemma mirror_calm {A B} (c : ApiM S L A) (k : A → ApiM S L B) b :
  calm_step c → (∀ a, mirror (k a) (g_ret b)) → mirror (api_bind c k) (g_ret b).
Proof.
  intros Hc Hk st. destruct (Hc st) as [Hs [a Ha]]. unfold api_bind.
  destruct (c st) as [s1 r]. cbn in Hs, Ha. subst r. destruct (Hk a s1) as [Hs1 Ha1]. by rewrite Hs1.
Qed.

(** A conversion only the gRPC service makes. *)
Lemma mirror_lift {A B} (c : ApiM S L B) (r : result A GrpcStatus) (k : A → GrpcM S L B) a :
  r = Ok a → mirror c (k a) → mirror c (g_bind (g_lift r) k).
Proof. by intros ->. Qed.

Lemma mirror_ret {A} (a : A) : mirror (api_ret a) (g_ret a).
Proof. done. Qed.

Lemma calm_count f : calm_step (api_count f).
Proof. intros st. split; [done|]. by eexists. Qed.

Lemma calm_now : calm_step (api_now clock).
Proof. intros st. split; [done|]. by eexists. Qed.

Lemma calm_log r : calm_step (api_log r).
Proof. intros st. split; [done|]. by eexists. Qed.

Lemma calm_audit_id : uuids_ok uuid → calm_step (api_audit_id uuid).
Proof.
  intros Hu st. pose proof (safe_audit_id uuid Hu st) as Hsafe. revert Hsafe.
  unfold api_audit_id, api_bind, api_uuid. destruct (parse_id _ _ _); [|done]. split; [done|]. by eexists.
Qed.

Lemma create_mirrored presented spec wire :
  uuids_ok uuid → grpc_require cfg presented Operator = Ok tt → spec_from wire = Ok spec →
  mirror (create_workflow clock uuid spec) (grpc_create_workflow clock uuid cfg presented wire).
Proof.
  intros Hu Hreq Hspec. unfold create_workflow, grpc_create_workflow.
  apply (mirror_lift _ _ _ _ Hreq), (mirror_lift _ _ _ _ Hspec).
  apply mirror_bind; [apply same_now|intros now]. apply mirror_bind; [apply same_uuid|intros bytes].
  apply mirror_bind; [apply same_lift|intros def]. apply mirror_bind; [apply same_store|intros stored].
  apply mirror_calm; [apply calm_count|intros _]. apply mirror_calm; [by apply calm_audit_id|intros id].
  apply mirror_calm; [apply calm_now|intros at_ms]. apply mirror_calm; [apply calm_log|intros _]. apply mirror_ret.
Qed.

(** The HTTP body that corresponds to a gRPC submission. *)
Definition submit_body (input : Json) (tags : gmap string string) : SubmitRunRequest :=
  {| sr_input := not_null input; sr_tags := Some tags |}.

Lemma submit_mirrored presented req input tags :
  uuids_ok uuid → grpc_require cfg presented Operator = Ok tt →
  parse_json "input" (ps_input_json req) = Ok input → parse_tags "tags" (ps_tags_json req) = Ok tags →
  mirror (submit_run clock uuid (ps_tenant req) (ps_name req) (submit_body input tags))
    (grpc_submit_run clock uuid cfg presented req).
Proof.
  intros Hu Hreq Hin Htags. unfold submit_run, grpc_submit_run. apply (mirror_lift _ _ _ _ Hreq).
  apply mirror_bind; [apply same_store|intros rec]. apply (mirror_lift _ _ _ _ Hin).
  apply mirror_bind; [apply same_lift|intros _]. apply mirror_bind; [apply same_now|intros now].
  apply mirror_bind; [apply same_store|intros number]. apply mirror_bind; [apply same_uuid|intros bytes].
  apply (mirror_lift _ _ _ _ Htags).
  apply mirror_bind; [apply same_store|intros _]. apply mirror_bind; [apply same_store|intros _].
  apply mirror_calm; [apply calm_count|intros _]. apply mirror_calm; [by apply calm_audit_id|intros id].
  apply mirror_calm; [apply calm_log|intros _]. apply mirror_ret.
Qed.
End Mirror.

Section MirrorMemory.
Context {L : Type} `{HashIter, AuditLogger L, Texts} (clock : nat → Z) (uuid : nat → list Z) (cfg : AppConfig).
Implicit Types st : App MemoryState L.

Lemma g_get_run_eq id st :
  g_store (GetRun id) st =
  (st, match ms_runs (ap_store st) !! id with
       | Some run => Ok run
       | None => Err (to_tonic (RunvaneError.Storage (StorageError.NotFound ("run " +:+ id))))
       end).
Proof.
  unfold g_store. cbn [call MemoryStore mem_call]. destruct st. cbn. unfold mem_get_run.
  by destruct (ms_runs _ !! id).
Qed.

Lemma g_bind_ok {A B} (c : GrpcM MemoryState L A) (k : A → GrpcM MemoryState L B) st st' a :
  c st = (st', Ok a) → g_bind c k st = k a st'.
Proof. intros Hc. unfold g_bind. by rewrite Hc. Qed.

Lemma g_bind_err {A B} (c : GrpcM MemoryState L A) (k : A → GrpcM MemoryState L B) st st' e :
  c st = (st', Err e) → g_bind c k st = (st', Err e).
Proof. intros Hc. unfold g_bind. by rewrite Hc. Qed.

Lemma parse_id_same k dbg value w : parse_id k dbg value = Ok w → w = value.
Proof.
  unfold parse_id. intros Hp. repeat case_step; inv_result; done.
Qed.

Lemma cancel_mirrored presented id :
  uuids_ok uuid → grpc_require cfg presented Admin = Ok tt →
  mirror (cancel_run clock uuid id) (grpc_cancel_run clock cfg presented id).
Proof.
  intros Hu Hreq. unfold grpc_cancel_run. apply (mirror_lift _ _ _ _ Hreq). intros st.
  unfold cancel_run, api_run_id, grpc_run_id.
  destruct (parse_id RunId_kind tx_char_debug id) as [rid|e] eqn:Hp; [|done].
  rewrite (bind_done _ _ st st rid), (g_bind_ok _ _ st st rid) by done. apply parse_id_same in Hp as ->.
  destruct (ms_runs (ap_store st) !! id) as [run|] eqn:Hrun.
  2:{ erewrite bind_refuse, g_bind_err by (by rewrite ?get_run_eq, ?g_get_run_eq, Hrun). done. }
  rewrite (bind_done _ _ st st run), (g_bind_ok _ _ st st run) by (by rewrite ?get_run_eq, ?g_get_run_eq, Hrun).
  cbv zeta. case_bool_decide as Hc.
  { rewrite (g_bind_ok _ _ st st tt) by done. rewrite g_get_run_eq, Hrun. done. }
  destruct (run_is_terminal (rn_status run)) eqn:Ht; [done|].
  rewrite (bind_done _ _ st st tt) by (by rewrite run_validate_active).
  destruct (cancel_active_eq clock uuid Hu id run st Hrun Ht) as (st'&Heq&Hst&_). rewrite Heq. cbn [fst snd].
  erewrite g_bind_ok.
  2:{ rewrite (g_bind_ok _ _ st st tt) by (by rewrite run_validate_active). erewrite g_bind_ok by reflexivity.
      erewrite g_bind_ok; [reflexivity|]. unfold g_store. cbn [call MemoryStore mem_call ap_store].
      unfold mem_cancel_run, Run_is_terminal. rewrite Hrun, Ht. reflexivity. }
  rewrite g_get_run_eq, Hst. cbn. rewrite lookup_insert_eq. done.
Qed.
End MirrorMemory.

(** ** Properties *)

(** C5. The gRPC service mirrors the HTTP surface: whenever its conversions accept a
    message and the caller is admitted, creating a definition, submitting a run and
    cancelling a run leave the store exactly as the HTTP handler does on the
    corresponding request and give the same document, or refuse with the HTTP
    message under the code of the HTTP status; and a caller is refused with the
    code that mirrors the HTTP refusal. *)
Theorem grpc_mirrors_http {L} `{HashIter, AuditLogger L, Texts, JsonBytes} clock uuid cfg (st : App MemoryState L) :
  uuids_ok uuid →
  let in_step {A} (h : App MemoryState L * reply A) (g : App MemoryState L * result A GrpcStatus) :=
    ap_store h.1 = ap_store g.1 ∧ answers h.2 g.2 in
  (∀ presented wire spec, grpc_require cfg presented Operator = Ok tt → spec_from wire = Ok spec →
     in_step (create_workflow clock uuid spec st) (grpc_create_workflow clock uuid cfg presented wire st)) ∧
  (∀ presented req input tags, grpc_require cfg presented Operator = Ok tt →
     parse_json "input" (ps_input_json req) = Ok input → parse_tags "tags" (ps_tags_json req) = Ok tags →
     in_step (submit_run clock uuid (ps_tenant req) (ps_name req) (submit_body input tags) st)
       (grpc_submit_run clock uuid cfg presented req st)) ∧
  (∀ presented id, grpc_require cfg presented Admin = Ok tt →
     in_step (cancel_run clock uuid id st) (grpc_cancel_run clock cfg presented id st)) ∧
  (∀ presented level, match check_auth cfg presented level, grpc_require cfg presented level with
     | Ok _, Ok _ => True
     | Err e, Err s => gs_code s = code_of (ae_status e)
     | _, _ => False
     end).
Proof.
  intros Hu in_step. split_and!.
  - intros presented wire spec Hreq Hspec. by apply create_mirrored.
  - intros presented req input tags Hreq Hin Htags. by apply submit_mirrored.
  - intros presented id Hreq. by apply cancel_mirrored.
  - intros presented level. unfold check_auth, grpc_require. destruct (authorized _ _ _); [done|].
    destruct (bool_decide (level = Admin) && bool_decide (is_Some presented)); done.
Qed.

(** Bytes that are no JSON. *)
#[local] Instance no_json : JsonBytes := {|
  jb_value _ := Err "expected value"%string; jb_strings _ := Err "expected value"%string;
  jb_object _ := Err "expected value"%string |}.

Definition open_config : AppConfig := {| ac_auth := from_config None None; ac_boot_ms := 0; ac_version := "0.1.0" |}.

Definition one_def : App MemoryState MemoryAuditLogger :=
  fresh_app (set_defs {[("acme", "etl")%string := {| wr_def := workflow_default |}]} mem_new).

Definition plain_submit (tags : list Z) : ProtoSubmitRun :=
  {| ps_tenant := "acme"; ps_name := "etl"; ps_input_json := []; ps_tags_json := tags |}.

Lemma grpc_mirrors_http_witness :
  ap_store (submit_run (H1 := plain_texts) (fun n => Z.of_nat n) counting_uuid "acme" "etl" (submit_body JNull ∅) one_def).1 =
  ap_store (grpc_submit_run (H1 := plain_texts) (fun n => Z.of_nat n) counting_uuid open_config None (plain_submit [])
    one_def).1.
Proof.
  destruct (grpc_mirrors_http (H1 := plain_texts) (fun n => Z.of_nat n) counting_uuid open_config one_def counting_uuid_ok)
    as (_&Hsub&_).
  destruct (Hsub None (plain_submit []) JNull ∅ eq_refl eq_refl eq_refl) as [Heq _]. exact Heq.
Defined.

(** Nothing the gRPC service does reaches the metrics or the audit log: whatever a
    submission does to the store, both stay as they were. *)
Theorem grpc_submission_uncounted {S L} `{Store S, AuditLogger L, Texts, JsonBytes} clock uuid cfg presented req
    (st : App S L) :
  let st' := (grpc_submit_run clock uuid cfg presented req st).1 in
  ap_metrics st' = ap_metrics st ∧ ap_audit st' = ap_audit st.
Proof.
  assert (Hb : ∀ A B (c : GrpcM S L A) (k : A → GrpcM S L B),
    (∀ st, ap_metrics (c st).1 = ap_metrics st ∧ ap_audit (c st).1 = ap_audit st) →
    (∀ a st, ap_metrics (k a st).1 = ap_metrics st ∧ ap_audit (k a st).1 = ap_audit st) →
    ∀ st, ap_metrics (g_bind c k st).1 = ap_metrics st ∧ ap_audit (g_bind c k st).1 = ap_audit st).
  { intros A B c k Hc Hk st0. unfold g_bind. destruct (Hc st0) as [<- <-]. destruct (c st0) as [s1 [a|e]]; [apply Hk|done]. }
  assert (Hs : ∀ A (c : StoreCall (result A StorageError)) st,
    ap_metrics (g_store (L := L) c st).1 = ap_metrics st ∧ ap_audit (g_store (L := L) c st).1 = ap_audit st).
  { intros A c st0. unfold g_store. by destruct (call c (ap_store st0)). }
  revert st. cbv zeta. unfold grpc_submit_run.
  repeat (apply Hb; [first [apply Hs|done]|intros ?]). done.
Qed.

(** A gRPC submission whose tags do not decode is refused, yet it takes a run number:
    the tags are decoded after the number is drawn, so the next run skips it. *)
Theorem grpc_bad_tags_take_number :
  let r := grpc_submit_run (H1 := plain_texts) (fun n => Z.of_nat n) counting_uuid open_config None (plain_submit [0]) one_def in
  is_ok r.2 = false ∧ ms_runs (ap_store r.1) = ∅ ∧ next_number (ap_store one_def) "etl" = 1 ∧
  next_number (ap_store r.1) "etl" = 2.
Proof. vm_compute. done. Qed.
