(* ===== verification/TypedApi.v ===== *)
(** * The two servers keep the records sound

    Every request of the HTTP server and every call of the gRPC service, on any store
    that upholds the discipline [sound] and under whatever the other threads do within
    it: what they store has its machine types, the definitions they store passed
    validation, the counters stay 64-bit, and the documents they answer with are sound
    as well. *)
From S2P Require Import Prelude RustStrings Ids Status Errors StateMachine Float64 Json RetryPolicy Workflow Dag.
From S2P Require Import Validation Store Interference MemoryStore Typed AuditLog Auth Telemetry Api Grpc.
Local Open Scope Z_scope.

(** ** Requests as serde and prost decode them *)

Definition task_payload_typed (p : TaskSpecPayload) : Prop :=
  opt_u64 (tp_timeout_ms p) ∧ from_option policy_typed True (tp_retry p).

Definition spec_typed (s : WorkflowSpec) : Prop :=
  opt_u64 (sp_timeout_ms s) ∧ from_option policy_typed True (sp_retry s) ∧ Forall task_payload_typed (sp_tasks s).

Definition request_typed (req : Request) : Prop :=
  match req with ReqCreateWorkflow spec => spec_typed spec | _ => True end.

Definition proto_retry_typed (r : ProtoRetryPolicy) : Prop :=
  in_u32 (pr_max_attempts r) ∧ in_u64 (pr_base_delay_ms r) ∧ in_u64 (pr_max_delay_ms r).

Definition wire_typed (w : ProtoWorkflowSpec) : Prop :=
  in_u64 (pw_timeout_ms w) ∧ from_option proto_retry_typed True (pw_retry w) ∧
  Forall (fun t => in_u64 (pt_timeout_ms t) ∧ from_option proto_retry_typed True (pt_retry t)) (pw_tasks w).

Definition histogram_typed (h : Histogram) : Prop := Forall in_u64 (hg_counts h) ∧ in_u64 (hg_count h).

(** The [AtomicU64]s. *)
Definition metrics_typed (m : Metrics) : Prop :=
  Forall in_u64 (counters m) ∧ histogram_typed (run_duration m) ∧ histogram_typed (task_duration m).

Definition payload_sound (p : Payload) : Prop :=
  match p with
  | PlWorkflows defs => Forall def_sound defs
  | PlWorkflow def => def_sound def
  | PlRuns runs => Forall run_typed runs
  | PlRun run => run_typed run
  | PlHealth v => in_i64 (hv_now_ms v)
  | PlMetrics snapshot _ => Forall in_u64 (mx_counters snapshot)
  | PlText _ | PlAudit _ => True
  end.

(** ** Definitions and runs *)

Lemma stamped_tasks ps tasks : try_map into_task ps = Ok tasks → Forall task_payload_typed ps →
  Forall (task_ok) tasks → Forall task_sound tasks.
Proof.
  intros Htry%try_map_ok Hp Hok. induction Htry as [|p t ps tasks Ht _ IH]; [done|].
  apply Forall_cons in Hp as [[Hto Hre] Hp]. apply Forall_cons in Hok as [(_&_&Hv) Hok].
  constructor; [|by apply IH]. unfold into_task in Ht. destruct (HandlerId_parse _); [|done].
  cbn in Ht. injection Ht as <-. split; [exact Hto|]. cbn in *. destruct (tp_retry p) as [r|]; [|done].
  split; [exact Hre|by apply Hv].
Qed.

Lemma into_definition_sound `{Texts} spec bytes now def : spec_typed spec → in_i64 now →
  into_definition spec bytes now = Ok def → def_sound def.
Proof.
  intros (Hto&Hre&Hts) Hnow. unfold into_definition. destruct (TenantId_parse (sp_tenant spec)) as [t|]; [|done].
  cbn [map_err rbind]. destruct (try_map into_task (sp_tasks spec)) as [tasks|] eqn:Htry; [|done]. cbn [rbind].
  set (d := stamped _ _ _ _ _). destruct (validate_definition _ _ _ d) as [[]|] eqn:Hv; [|done]. cbn [map_err rbind].
  destruct (validate_workflow_policy _ d) as [[]|] eqn:Hp; [|done]. cbn. intros [= <-].
  pose proof (validated_runnable _ _ _ _ Hv) as [Hnd Hord].
  apply validate_definition_spec in Hv as (_&_&_&_&Hok&_). unfold validate_workflow_policy in Hp.
  constructor; try done; cbn.
  - destruct (sp_timeout_ms spec); [exact Hto|]. cbn. unfold in_u64, u64_max. lia.
  - split; [|change (policy_validate (wd_retry d) = Ok tt); by destruct (policy_validate (wd_retry d)) as [[]|]].
    destruct (sp_retry spec); [exact Hre|]. cbn. unfold policy_typed, in_u32, in_u64, u32_max, u64_max. cbn. lia.
  - by eapply stamped_tasks.
Qed.

Lemma submitted_run_typed id tenant name version input tags now number : in_u32 version → in_i64 now → in_u64 number →
  run_typed (submitted_run id tenant name version input tags now number).
Proof. by constructor. Qed.

Lemma submission_entry_typed id now : in_i64 now → entry_typed (submission_entry id now).
Proof. by constructor. Qed.

Lemma metrics_new_typed : metrics_typed metrics_new.
Proof.
  assert (in_u64 0) by (unfold in_u64, u64_max; lia).
  split_and!; repeat constructor; try done; by vm_compute.
Qed.

Lemma add_typed m : metrics_typed m →
  metrics_typed (add_creation m) ∧ metrics_typed (add_submission m) ∧ metrics_typed (add_cancellation m).
Proof.
  intros [Hc Hh]. unfold counters in Hc. repeat (apply Forall_cons in Hc as [? Hc]).
  split; [|split]; (split; [|exact Hh]); unfold counters; cbn; repeat (constructor; [first [done|apply wrap_u64_range]|]);
    constructor.
Qed.

(** ** The HTTP server *)

Create HintDb serves discriminated.

Section Http.
Context {S L : Type} `{Store S, AuditLogger L, Texts} (I : S → Prop) `{!Upholds sound I}.
Context (clock : nat → Z) (uuid : nat → list Z) (cfg : AppConfig) (Hclock : ∀ n, in_i64 (clock n)).

Definition app_sound (st : App S L) : Prop := I (ap_store st) ∧ metrics_typed (ap_metrics st).

(** The handler keeps the state sound, and what it answers satisfies [Q]. *)
Definition serves {A} (Q : A → Prop) (c : ApiM S L A) : Prop := ∀ st, app_sound st →
  app_sound (c st).1 ∧ ∀ a, (c st).2 = Done a → Q a.

Lemma serves_bind {A B} (Q : A → Prop) (R : B → Prop) (c : ApiM S L A) (k : A → ApiM S L B) :
  serves Q c → (∀ a, Q a → serves R (k a)) → serves R (api_bind c k).
Proof.
  intros Hc Hk st Hst. destruct (Hc st Hst) as [Hs Hq]. unfold api_bind. destruct (c st) as [st' [a|e|]]; cbn in *.
  - apply Hk; [by apply Hq|done].
  - by split.
  - by split.
Qed.

Lemma serves_ret {A} (Q : A → Prop) a : Q a → serves Q (api_ret a).
Proof. intros Ha st Hst. split; [done|]. by intros _ [= <-]. Qed.

Lemma serves_refuse {A} (Q : A → Prop) e : serves Q (api_refuse e).
Proof. by intros st Hst. Qed.

Lemma serves_lift {A} (Q : A → Prop) r : ok_is Q r → serves Q (api_lift r).
Proof. destruct r; intros Hr; [by apply serves_ret|apply serves_refuse]. Qed.

Lemma serves_call {A} (c : StoreCall A) : sound_call c → serves (sound_answer c) (api_call c).
Proof.
  intros Hc st [Hst Hm]. pose proof (upholds (D := sound) A c (ap_store st) Hst Hc) as [Hi Ha]. unfold api_call.
  destruct (call c (ap_store st)) as [s a]. split; [by split|]. by intros _ [= <-].
Qed.

Lemma serves_store {A} (Q : A → Prop) (c : StoreCall (result A StorageError)) :
  sound_call c → (∀ r, sound_answer c r → ok_is Q r) → serves Q (api_store c).
Proof.
  intros Hc Hq. unfold api_store. eapply serves_bind; [by apply serves_call|]. intros r Hr. apply serves_lift.
  specialize (Hq r Hr). by destruct r.
Qed.

Lemma serves_now : serves in_i64 (api_now clock).
Proof. intros st Hst. split; [done|]. intros a [= <-]. apply Hclock. Qed.

Lemma serves_uuid : serves (fun _ => True) (api_uuid uuid).
Proof. by intros st Hst. Qed.

Lemma serves_count f : (∀ m, metrics_typed m → metrics_typed (f m)) → serves (fun _ => True) (api_count (S := S) (L := L) f).
Proof. intros Hf st [Hst Hm]. split; [|done]. split; [done|by apply Hf]. Qed.

Lemma serves_log r : serves (fun _ => True) (api_log r).
Proof. by intros st Hst. Qed.
Local Hint Resolve serves_now serves_uuid serves_log : serves.
Local Hint Extern 2 (serves _ (api_call _)) => apply serves_call; exact Logic.I : serves.

Lemma serves_audit_id : serves (fun _ => True) (api_audit_id uuid).
Proof.
  unfold api_audit_id. eapply serves_bind; [eauto with serves|intros bytes _].
  destruct (parse_id _ _ _); [by apply serves_ret|]. by intros st Hst.
Qed.
Local Hint Resolve serves_audit_id : serves.

Ltac srv := eapply serves_bind; [solve [eauto with serves]|].

Lemma serves_create spec : spec_typed spec → serves def_sound (create_workflow clock uuid spec).
Proof.
  intros Hspec. unfold create_workflow. srv. intros now Hnow. srv. intros bytes _.
  eapply (serves_bind def_sound).
  { apply serves_lift. destruct (into_definition spec bytes now) as [def|] eqn:Hd; [|done].
    by eapply into_definition_sound. }
  intros def Hdef. eapply (serves_bind rec_sound); [by apply serves_store|intros stored Hstored].
  eapply serves_bind; [apply serves_count; intros m Hm; by apply add_typed|intros _ _].
  srv. intros id _. srv. intros at_ms _. srv. intros _ _. by apply serves_ret.
Qed.

Lemma serves_submit tenant name body : serves run_typed (submit_run clock uuid tenant name body).
Proof.
  unfold submit_run. eapply (serves_bind rec_sound); [by apply serves_store|intros rec Hrec].
  eapply (serves_bind (fun _ => True)); [apply serves_lift; by destruct (validate_run_input _ _)|intros _ _].
  srv. intros now Hnow. eapply (serves_bind in_u64); [by apply serves_store|intros number Hnum].
  srv. intros bytes _. set (run := submitted_run _ _ _ _ _ _ _ _).
  assert (Hrun : run_typed run) by (apply submitted_run_typed; [apply Hrec|done|done]).
  eapply (serves_bind (fun _ => True)); [by apply serves_store; [|intros []]|intros _ _].
  eapply (serves_bind (fun _ => True)).
  { apply serves_store; [by apply submission_entry_typed|by intros []]. }
  intros _ _. eapply serves_bind; [apply serves_count; intros m Hm; by apply add_typed|intros _ _].
  srv. intros id _. srv. intros _ _. by apply serves_ret.
Qed.

Lemma serves_run_id id : serves (fun _ => True) (api_run_id (S := S) (L := L) id).
Proof. apply serves_lift. by destruct (parse_id _ _ _). Qed.

Lemma serves_get_run run_id : serves run_typed (api_store (GetRun run_id)).
Proof. by apply serves_store. Qed.
Local Hint Resolve serves_run_id serves_get_run : serves.

Lemma serves_cancel id : serves run_typed (cancel_run clock uuid id).
Proof.
  unfold cancel_run. srv. intros run_id _. srv. intros current Hcur. cbn zeta.
  case_bool_decide; [by apply serves_ret|]. destruct (run_is_terminal _); [apply serves_refuse|].
  eapply (serves_bind (fun _ => True)); [apply serves_lift; by destruct (RunFsm.run_validate _ _)|intros _ _].
  unfold cancel_active_run. srv. intros now Hnow.
  eapply (serves_bind (fun _ => True)); [by apply serves_store; [|intros []]|intros _ _].
  eapply serves_bind; [apply serves_count; intros m Hm; by apply add_typed|intros _ _].
  srv. intros updated Hup. srv. intros aid _. srv. intros at_ms _. srv. intros _ _. by apply serves_ret.
Qed.

Lemma serves_map {A B} (Q : A → Prop) (R : B → Prop) (f : A → B) (c : ApiM S L A) :
  serves Q c → (∀ a, Q a → R (f a)) → serves R (api_map f c).
Proof. intros Hc Hf. unfold api_map. eapply serves_bind; [exact Hc|]. intros a Ha. by apply serves_ret, Hf. Qed.

Lemma serves_text (c : ApiM S L string) (code : Z) : serves (fun _ => True) c →
  serves (fun p : Z * Payload => payload_sound p.2) (api_map (fun t => (code, PlText t)) c).
Proof. intros Hc. by eapply serves_map. Qed.

Lemma serves_dashboard : serves (fun _ => True) (dashboard clock cfg).
Proof.
  unfold dashboard. srv. intros runs _. srv. intros summaries _. srv. intros now _. srv. intros depth _.
  by apply serves_ret.
Qed.

Lemma serves_prometheus : serves (fun _ => True) (prometheus_metrics clock cfg).
Proof.
  unfold prometheus_metrics. srv. intros now _. srv. intros depth _. srv. intros wfs _. srv. intros runs _.
  by intros st Hst.
Qed.

Lemma serves_metrics : serves (fun p => Forall in_u64 (mx_counters p.1)) (metrics cfg).
Proof.
  intros st Hst. pose proof (proj1 (proj2 Hst)) as Hm. unfold metrics. cbn zeta.
  match goal with |- app_sound (?c st).1 ∧ _ =>
    cut (serves (fun p => Forall in_u64 (mx_counters p.1)) c); [by intros Hs; apply Hs|] end.
  srv. intros depth _. srv. intros wfs _. srv. intros runs _. by apply serves_ret.
Qed.

Lemma serves_route req : request_typed req → serves (fun p : Z * Payload => payload_sound p.2) (route clock uuid cfg req).
Proof.
  intros Hreq. destruct req; cbn [route].
  - apply serves_text, serves_dashboard.
  - by apply serves_ret.
  - eapply (serves_map (fun _ => True)); [|done]. unfold readyz. srv. intros r _. by apply serves_ret.
  - eapply (serves_map (fun v => in_i64 (hv_now_ms v))); [|done]. unfold health. srv. intros now Hnow. srv. intros depth _.
    by apply serves_ret.
  - apply serves_text, serves_prometheus.
  - eapply serves_map; [apply serves_metrics|done].
  - eapply (serves_map (fun _ => True)); [|done]. intros st. apply serves_lift. by destruct (al_query _ _).
  - eapply (serves_map (Forall def_sound)); [|done]. unfold list_workflows.
    eapply (serves_bind (Forall rec_sound)); [by apply serves_store|intros recs Hrecs]. apply serves_ret.
    by apply Forall_fmap.
  - eapply (serves_map def_sound); [by apply serves_create|done].
  - eapply (serves_map def_sound); [|done]. unfold get_workflow.
    eapply (serves_bind rec_sound); [by apply serves_store|intros rec Hrec]. by apply serves_ret.
  - eapply (serves_map run_typed); [apply serves_submit|done].
  - eapply (serves_map (Forall run_typed)); [|done]. unfold list_runs.
    eapply (serves_bind (fun _ => True)); [apply serves_lift; by destruct (into_filter _)|intros f _].
    by apply serves_store.
  - eapply (serves_map run_typed); [|done]. unfold get_run. srv. intros rid _. eauto with serves.
  - eapply (serves_map run_typed); [apply serves_cancel|done].
Qed.

Lemma serve_sound presented req : request_typed req →
  serves (fun p : Z * Payload => payload_sound p.2) (serve clock uuid cfg presented req).
Proof.
  intros Hreq. unfold serve. destruct (level_of req); [|by apply serves_route].
  eapply (serves_bind (fun _ => True)); [apply serves_lift; by destruct (check_auth _ _ _)|intros _ _].
  by apply serves_route.
Qed.
End Http.

(** ** The gRPC service *)

Section Conversions.
Context `{Texts, JsonBytes}.

Lemma retry_from_typed proto : from_option proto_retry_typed True proto →
  ok_is (from_option policy_typed True) (retry_from proto).
Proof.
  intros Hp. unfold retry_from. destruct proto as [r|]; [|done]. destruct (absent r); [done|].
  destruct (backoff_from _) as [b|]; [|done]. cbn [rbind]. destruct (jitter_from _) as [j|]; [|done]. cbn [rbind].
  by destruct (policy_validate _).
Qed.

Lemma non_zero_typed n : in_u64 n → opt_u64 (non_zero n).
Proof. intros Hn. unfold non_zero. by destruct (n =? 0). Qed.

Lemma spec_from_typed wire : wire_typed wire → ok_is spec_typed (spec_from wire).
Proof.
  intros (Hto&Hre&Hts). unfold spec_from.
  assert (Htasks : ok_is (Forall task_payload_typed) (try_map task_from (pw_tasks wire))).
  { induction Hts as [|t ts [Ht Hr] _ IH]; cbn [try_map]; [constructor|]. unfold task_from at 1.
    destruct (parse_json _ _); [|done]. cbn [rbind]. pose proof (retry_from_typed (pt_retry t) Hr) as Hty.
    destruct (retry_from (pt_retry t)) as [p|]; [|done]. cbn [rbind]. destruct (meta_from _); [|done]. cbn [rbind].
    destruct (try_map task_from ts); [|done]. cbn. constructor; [|exact IH]. split; [by apply non_zero_typed|exact Hty]. }
  destruct (try_map task_from (pw_tasks wire)) as [tasks|]; [|done]. cbn [rbind].
  pose proof (retry_from_typed (pw_retry wire) Hre) as Hty. destruct (retry_from (pw_retry wire)); [|done]. cbn [rbind].
  destruct (priority_from _); [|done]. cbn [rbind]. destruct (hooks_from _); [|done]. cbn [rbind].
  destruct (parse_tags _ _); [|done]. split_and!; [by apply non_zero_typed|exact Hty|exact Htasks].
Qed.
End Conversions.

(** The messages of the service, with the token of the metadata. *)
Inductive GrpcCall :=
| RpcHealth
| RpcCreateWorkflow (wire : ProtoWorkflowSpec)
| RpcListWorkflows (tenant : string)
| RpcGetWorkflow (tenant name : string)
| RpcSubmitRun (req : ProtoSubmitRun)
| RpcListRuns (req : ProtoListRuns)
| RpcGetRun (id : string)
| RpcCancelRun (id : string).

Definition rpc_typed (r : GrpcCall) : Prop :=
  match r with RpcCreateWorkflow wire => wire_typed wire | _ => True end.

Section Rpc.
Context {S L : Type} `{Store S, AuditLogger L, Texts, JsonBytes} (I : S → Prop) `{!Upholds sound I}.
Context (clock : nat → Z) (uuid : nat → list Z) (cfg : AppConfig) (Hclock : ∀ n, in_i64 (clock n)).

(** The method of the service a message calls, as a change of the shared state. *)
Definition grpc_serve (presented : option string) (r : GrpcCall) (st : App S L) : App S L :=
  match r with
  | RpcHealth => (grpc_health clock cfg st).1
  | RpcCreateWorkflow wire => (grpc_create_workflow clock uuid cfg presented wire st).1
  | RpcListWorkflows tenant => (grpc_list_workflows cfg presented tenant st).1
  | RpcGetWorkflow tenant name => (grpc_get_workflow cfg presented tenant name st).1
  | RpcSubmitRun req => (grpc_submit_run clock uuid cfg presented req st).1
  | RpcListRuns req => (grpc_list_runs cfg presented req st).1
  | RpcGetRun id => (grpc_get_run cfg presented id st).1
  | RpcCancelRun id => (grpc_cancel_run clock cfg presented id st).1
  end.

Definition replies {A} (Q : A → Prop) (c : GrpcM S L A) : Prop := ∀ st, app_sound I st →
  app_sound I (c st).1 ∧ ok_is Q (c st).2.

Lemma replies_bind {A B} (Q : A → Prop) (R : B → Prop) (c : GrpcM S L A) (k : A → GrpcM S L B) :
  replies Q c → (∀ a, Q a → replies R (k a)) → replies R (g_bind c k).
Proof.
  intros Hc Hk st Hst. destruct (Hc st Hst) as [Hs Hq]. unfold g_bind. destruct (c st) as [st' [a|e]]; cbn in *; [|done].
  by apply Hk.
Qed.

Lemma replies_state {A} (Q : A → Prop) (c : GrpcM S L A) st : replies Q c → app_sound I st → app_sound I (c st).1.
Proof. intros Hc Hst. by apply Hc. Qed.

Lemma replies_ret {A} (Q : A → Prop) a : Q a → replies Q (g_ret a).
Proof. by intros Ha st Hst. Qed.

Lemma replies_lift {A} (Q : A → Prop) r : ok_is Q r → replies Q (g_lift r).
Proof. by intros Hr st Hst. Qed.

Lemma replies_any {A} (r : result A GrpcStatus) : replies (fun _ => True) (g_lift r).
Proof. apply replies_lift. by destruct r. Qed.

Lemma replies_now : replies in_i64 (g_now clock).
Proof. intros st Hst. split; [done|apply Hclock]. Qed.

Lemma replies_uuid : replies (fun _ => True) (g_uuid uuid).
Proof. by intros st Hst. Qed.

Lemma replies_store {A} (Q : A → Prop) (c : StoreCall (result A StorageError)) :
  sound_call c → (∀ r, sound_answer c r → ok_is Q r) → replies Q (g_store c).
Proof.
  intros Hc Hq st [Hst Hm]. destruct (upholds (D := sound) _ c (ap_store st) Hst Hc) as [Hi Ha].
  apply Hq in Ha. unfold g_store. destruct (call c (ap_store st)) as [s r]. split; [by split|]. by destruct r.
Qed.

Lemma replies_get_run id : replies run_typed (g_store (GetRun id)).
Proof. by apply replies_store. Qed.
Local Hint Resolve replies_any replies_now replies_uuid replies_get_run : serves.

Ltac rpc := eapply replies_bind; [solve [eauto with serves]|].

Lemma replies_create presented wire : wire_typed wire → replies def_sound (grpc_create_workflow clock uuid cfg presented wire).
Proof.
  intros Hwire. unfold grpc_create_workflow. rpc. intros _ _.
  eapply replies_bind; [by apply replies_lift, spec_from_typed|intros spec Hspec].
  rpc. intros now Hnow. rpc. intros bytes _. eapply (replies_bind def_sound).
  { apply replies_lift. destruct (into_definition spec bytes now) as [def|] eqn:Hd; [|done].
    by eapply into_definition_sound. }
  intros def Hdef. eapply (replies_bind rec_sound); [by apply replies_store|intros stored Hs]. by apply replies_ret.
Qed.

Lemma replies_submit presented req : replies run_typed (grpc_submit_run clock uuid cfg presented req).
Proof.
  unfold grpc_submit_run. rpc. intros _ _. eapply (replies_bind rec_sound); [by apply replies_store|intros rec Hrec].
  rpc. intros parsed _. rpc. intros _ _. rpc. intros now Hnow.
  eapply (replies_bind in_u64); [by apply replies_store|intros number Hnum]. rpc. intros bytes _. rpc. intros tags _.
  set (run := submitted_run _ _ _ _ _ _ _ _).
  assert (Hrun : run_typed run) by (apply submitted_run_typed; [apply Hrec|done|done]).
  eapply (replies_bind (fun _ => True)); [by apply replies_store; [|intros []]|intros _ _].
  eapply (replies_bind (fun _ => True)); [by apply replies_store; [apply submission_entry_typed|intros []]|intros _ _].
  by apply replies_ret.
Qed.

Lemma replies_cancel presented id : replies run_typed (grpc_cancel_run clock cfg presented id).
Proof.
  unfold grpc_cancel_run, grpc_run_id. rpc. intros _ _. rpc. intros rid _. rpc. intros current _. cbn zeta.
  eapply (replies_bind (fun _ => True)); [|intros _ _; apply replies_get_run].
  case_bool_decide; [by apply replies_ret|]. destruct (run_is_terminal _); [by apply replies_lift|].
  rpc. intros _ _. rpc. intros now Hnow.
  eapply (replies_bind (fun _ => True)); [by apply replies_store; [|intros []]|intros _ _]. by apply replies_ret.
Qed.

Lemma grpc_serve_sound presented r st : rpc_typed r → app_sound I st → app_sound I (grpc_serve presented r st).
Proof.
  intros Hr Hst. destruct r; cbn [grpc_serve].
  - unfold grpc_health, g_bind, g_now. destruct Hst as [Hst Hm]. cbn [ap_store].
    pose proof (proj1 (upholds (D := sound) _ LenQueue (ap_store st) Hst Logic.I)) as Hi.
    by destruct (call LenQueue (ap_store st)).
  - by eapply replies_state; [apply replies_create|].
  - eapply (replies_state (fun _ => True)); [|exact Hst]. unfold grpc_list_workflows. rpc. intros _ _.
    eapply (replies_bind (Forall rec_sound)); [by apply replies_store|intros recs _]. by apply replies_ret.
  - eapply (replies_state (fun _ => True)); [|exact Hst]. unfold grpc_get_workflow. rpc. intros _ _.
    eapply (replies_bind rec_sound); [by apply replies_store|intros rec _]. by apply replies_ret.
  - by eapply replies_state; [apply replies_submit|].
  - eapply (replies_state (Forall run_typed)); [|exact Hst]. unfold grpc_list_runs. rpc. intros _ _. rpc. intros f _.
    by apply replies_store.
  - eapply (replies_state run_typed); [|exact Hst]. unfold grpc_get_run, grpc_run_id. rpc. intros _ _. rpc.
    intros rid _. apply replies_get_run.
  - by eapply replies_state; [apply replies_cancel|].
Qed.
End Rpc.
