(* ===== verification/Completion.v ===== *)
(** * Shell completion scripts (src/src/cli/completion.rs)

    The shells the command accepts and the script printed for each. *)
From S2P Require Import Prelude RustStrings.
Local Open Scope Z_scope.

Inductive Shell := Bash | Zsh | Fish.

(** [str::to_ascii_lowercase] *)
Fixpoint to_ascii_lowercase (s : string) : string :=
  match s with
  | EmptyString => EmptyString
  | String c s =>
      String (if is_ascii_uppercase (byte_of c) then ascii_of (byte_of c + 32) else c) (to_ascii_lowercase s)
  end.

Definition shell_parse (s : string) : option Shell :=
  let s := to_ascii_lowercase s in
  if bool_decide (s = "bash"%string) then Some Bash
  else if bool_decide (s = "zsh"%string) then Some Zsh
  else if bool_decide (s = "fish"%string) then Some Fish
  else None.

(** The lines of a text. *)
Definition script (lines : list string) : string := foldr (fun l rest => l +:+ of_bytes [10] +:+ rest) EmptyString lines.

Definition generate_bash : string := script [
  "# Bash completion script for runvane";
  "_runvane() {";
  "    local cur prev words cword";
  "    _init_completion || return";
  EmptyString;
  "    local subcommands=" +:+ dq +:+ "serve workflows runs dry-run stats completion version help" +:+ dq;
  EmptyString;
  "    case " +:+ dq +:+ "${prev}" +:+ dq +:+ " in";
  "        runvane)";
  "            COMPREPLY=( $(compgen -W " +:+ dq +:+ "${subcommands}" +:+ dq +:+ " -- " +:+ dq +:+ "${cur}" +:+ dq +:+ ") )";
  "            return 0";
  "            ;;";
  "        workflows)";
  "            COMPREPLY=( $(compgen -W " +:+ dq +:+ "create list get" +:+ dq +:+ " -- " +:+ dq +:+ "${cur}" +:+ dq +:+ ") )";
  "            return 0";
  "            ;;";
  "        runs)";
  "            COMPREPLY=( $(compgen -W " +:+ dq +:+ "submit list get cancel" +:+ dq +:+ " -- " +:+ dq +:+ "${cur}" +:+ dq +:+ ") )";
  "            return 0";
  "            ;;";
  "        completion)";
  "            COMPREPLY=( $(compgen -W " +:+ dq +:+ "bash zsh fish" +:+ dq +:+ " -- " +:+ dq +:+ "${cur}" +:+ dq +:+ ") )";
  "            return 0";
  "            ;;";
  "        --format|-f)";
  "            COMPREPLY=( $(compgen -W " +:+ dq +:+ "text json" +:+ dq +:+ " -- " +:+ dq +:+ "${cur}" +:+ dq +:+ ") )";
  "            return 0";
  "            ;;";
  "        *)";
  "            ;;";
  "    esac";
  EmptyString;
  "    COMPREPLY=( $(compgen -W " +:+ dq +:+ "--endpoint --help --version" +:+ dq +:+ " -- " +:+ dq +:+ "${cur}" +:+ dq +:+ ") )";
  "}";
  "complete -F _runvane runvane"
]%string.

Definition generate_zsh : string := script [
  "#compdef runvane";
  "# Zsh completion script for runvane";
  EmptyString;
  "_runvane() {";
  "    local -a commands";
  "    commands=(";
  "        'serve:Start HTTP server, gRPC server, and scheduler worker pool'";
  "        'workflows:Inspect and mutate workflow definitions'";
  "        'runs:Inspect and mutate runs'";
  "        'dry-run:Statically simulate and analyze a workflow DAG without running it'";
  "        'stats:Display real-time control plane health and execution telemetry'";
  "        'completion:Generate shell autocompletion script'";
  "        'version:Print product and build info'";
  "    )";
  EmptyString;
  "    _arguments \";
  "        '--endpoint[Control plane gRPC endpoint]:URL:_urls' \";
  "        '--help[Print help information]' \";
  "        '--version[Print version information]' \";
  "        '*::command:->subcmd'";
  EmptyString;
  "    case " +:+ dq +:+ "$state" +:+ dq +:+ " in";
  "        subcmd)";
  "            _describe -t commands 'runvane command' commands";
  "            ;;";
  "    esac";
  "}";
  EmptyString;
  "_runvane " +:+ dq +:+ "$@" +:+ dq
]%string.

Definition generate_fish : string := script [
  "# Fish completion script for runvane";
  EmptyString;
  "complete -c runvane -f";
  "complete -c runvane -n " +:+ dq +:+ "__fish_use_subcommand" +:+ dq +:+ " -a " +:+ dq +:+ "serve" +:+ dq +:+ " -d " +:+ dq +:+ "Start control plane servers and worker pool" +:+ dq;
  "complete -c runvane -n " +:+ dq +:+ "__fish_use_subcommand" +:+ dq +:+ " -a " +:+ dq +:+ "workflows" +:+ dq +:+ " -d " +:+ dq +:+ "Inspect and mutate workflow definitions" +:+ dq;
  "complete -c runvane -n " +:+ dq +:+ "__fish_use_subcommand" +:+ dq +:+ " -a " +:+ dq +:+ "runs" +:+ dq +:+ " -d " +:+ dq +:+ "Inspect and mutate workflow runs" +:+ dq;
  "complete -c runvane -n " +:+ dq +:+ "__fish_use_subcommand" +:+ dq +:+ " -a " +:+ dq +:+ "dry-run" +:+ dq +:+ " -d " +:+ dq +:+ "Statically simulate and analyze a workflow DAG" +:+ dq;
  "complete -c runvane -n " +:+ dq +:+ "__fish_use_subcommand" +:+ dq +:+ " -a " +:+ dq +:+ "stats" +:+ dq +:+ " -d " +:+ dq +:+ "Display real-time control plane health and diagnostics" +:+ dq;
  "complete -c runvane -n " +:+ dq +:+ "__fish_use_subcommand" +:+ dq +:+ " -a " +:+ dq +:+ "completion" +:+ dq +:+ " -d " +:+ dq +:+ "Generate shell autocompletion script" +:+ dq;
  "complete -c runvane -n " +:+ dq +:+ "__fish_use_subcommand" +:+ dq +:+ " -a " +:+ dq +:+ "version" +:+ dq +:+ " -d " +:+ dq +:+ "Print version information" +:+ dq;
  EmptyString;
  "complete -c runvane -l endpoint -d " +:+ dq +:+ "Control plane gRPC endpoint" +:+ dq +:+ " -r";
  "complete -c runvane -l help -d " +:+ dq +:+ "Print help information" +:+ dq;
  "complete -c runvane -l version -d " +:+ dq +:+ "Print version information" +:+ dq;
  EmptyString;
  "complete -c runvane -n " +:+ dq +:+ "__fish_seen_subcommand_from completion" +:+ dq +:+ " -a " +:+ dq +:+ "bash zsh fish" +:+ dq
]%string.

Definition generate_completion (sh : Shell) : string :=
  match sh with
  | Bash => generate_bash
  | Zsh => generate_zsh
  | Fish => generate_fish
  end.

(** The names of the subcommands. *)
Definition subcommands : list string := ["serve"; "workflows"; "runs"; "dry-run"; "stats"; "completion"; "version"].

(** Every script offers every subcommand, and every shell is accepted under its name in
    any case and under no other name. *)
Theorem completion_complete :
  (∀ sh, Forall (fun name => ∃ i, String.index 0 name (generate_completion sh) = Some i) subcommands) ∧
  (∀ s sh, shell_parse s = Some sh ↔
    to_ascii_lowercase s = match sh with Bash => "bash" | Zsh => "zsh" | Fish => "fish" end%string).
Proof.
  split.
  - intros []; repeat (constructor; [eexists; vm_compute; reflexivity|]); constructor.
  - intros s sh. unfold shell_parse. repeat case_bool_decide; destruct sh; split; intros; congruence.
Qed.
