(* ===== verification/Cli.v ===== *)
(** * The command line (src/src/cli/mod.rs, src/src/cli/client.rs)

    The subcommands as functions of the parsed arguments, on top of the service they
    talk to: a command reads its files, builds the wire message, calls the methods of
    Grpc.v through a link that may lose a request or a reply, and renders the answer.
    What clap, serde_json and the file system do is a parameter. *)
From stdpp Require Import pretty.
From S2P Require Import Prelude RustStrings Text Ids Status Errors StateMachine Float64 Json RetryPolicy Workflow.
From S2P Require Import Dag DryRun Validation Store MemoryStore AuditLog Auth Telemetry Api ApiSpec Grpc Config Completion.
Local Open Scope Z_scope.

(** ** Spec files *)

Record RetryFile := {
  fr_max_attempts : option Z;
  fr_base_delay_ms : option Z;
  fr_max_delay_ms : option Z;
  fr_multiplier : option f64;
  fr_backoff : option string;
  fr_jitter : option string;
  fr_retryable_only : option bool
}.

Record HookFile := {
  fh_webhook_url : option string;
  fh_event_filter : option string;
  fh_headers : option (gmap string string)
}.

Record HooksFile := {
  fh_on_start : option (list HookFile);
  fh_on_success : option (list HookFile);
  fh_on_failure : option (list HookFile);
  fh_on_cancel : option (list HookFile)
}.

Record TaskFile := {
  ft_name : string;
  ft_handler : string;
  ft_depends_on : list string;
  ft_input : option Json;
  ft_timeout_ms : option Z;
  ft_retry : option RetryFile;
  ft_meta : option Json
}.

Record SpecFile := {
  sf_description : option string;
  sf_default_retry : option RetryFile;
  sf_default_timeout_ms : option Z;
  sf_default_priority : option string;
  sf_tags : option (gmap string string);
  sf_hooks : option HooksFile;
  sf_tasks : list TaskFile
}.

(** serde_json at the types the command line reads and writes. *)
Class CliJson := {
  cj_spec_file : string → result SpecFile string;
  cj_definition : string → result WorkflowDef string;
  cj_value : string → result Json string;
  cj_to_vec : Json → result (list Z) string;
  cj_strings_to_vec : gmap string string → result (list Z) string;
  cj_pretty : Json → result string string;
  cj_pretty_report : DryRunReport → result string string;
  (** the bytes a response carries for a document *)
  cj_definition_json : WorkflowDef → list Z;
  cj_run_json : Run → list Z
}.

(** ** From a spec file to the wire *)

(** [x.unwrap_or(0) as u64] for an [i64] *)
Definition as_u64 (x : option Z) : Z := wrap_u64 (default 0 x).

Definition retry_into_proto (r : RetryFile) : ProtoRetryPolicy := {|
  pr_max_attempts := default 0 (fr_max_attempts r);
  pr_base_delay_ms := as_u64 (fr_base_delay_ms r);
  pr_max_delay_ms := as_u64 (fr_max_delay_ms r);
  pr_multiplier := default f64_one (fr_multiplier r);
  pr_backoff := default EmptyString (fr_backoff r);
  pr_jitter := default EmptyString (fr_jitter r);
  pr_retryable_only := default false (fr_retryable_only r)
|}.

Definition hook_spec_into_proto (h : HookFile) : ProtoHookSpec := {|
  ph_webhook_url := default EmptyString (fh_webhook_url h);
  ph_event_filter := default EmptyString (fh_event_filter h);
  ph_headers := default ∅ (fh_headers h)
|}.

Definition hooks_file_into_proto (hooks : option HooksFile) : option ProtoHooksSpec :=
  match hooks with
  | None => None
  | Some h => Some {|
      ph_on_start := default [] (map hook_spec_into_proto <$> fh_on_start h);
      ph_on_success := default [] (map hook_spec_into_proto <$> fh_on_success h);
      ph_on_failure := default [] (map hook_spec_into_proto <$> fh_on_failure h);
      ph_on_cancel := default [] (map hook_spec_into_proto <$> fh_on_cancel h) |}
  end.

Section Build.
Context `{CliJson}.

(** [match value { None | Some(Null) => vec![], Some(json) => to_vec(&json)? }] *)
Definition document_bytes (j : option Json) : result (list Z) RunvaneError :=
  match j ≫= not_null with
  | None => Ok []
  | Some j => map_err RunvaneError.Server (cj_to_vec j)
  end.

Definition task_into_proto (t : TaskFile) : result ProtoTaskSpec RunvaneError :=
  let? input_json := document_bytes (ft_input t) in
  let? meta_json := document_bytes (ft_meta t) in
  Ok {| pt_name := ft_name t; pt_handler := ft_handler t; pt_input_json := input_json;
        pt_depends_on := ft_depends_on t; pt_timeout_ms := as_u64 (ft_timeout_ms t);
        pt_retry := retry_into_proto <$> ft_retry t; pt_meta_json := meta_json |}.

Definition build_workflow_spec (tenant name raw : string) : result ProtoWorkflowSpec RunvaneError :=
  let? spec := map_err (fun e => RunvaneError.Config ("spec file does not parse: " +:+ e)) (cj_spec_file raw) in
  let? tasks := try_map task_into_proto (sf_tasks spec) in
  let? tags_json := match sf_tags spec with
                    | None => Ok []
                    | Some m => map_err RunvaneError.Server (cj_strings_to_vec m)
                    end in
  Ok {| pw_tenant := tenant; pw_name := name; pw_description := default EmptyString (sf_description spec);
        pw_tasks := tasks; pw_timeout_ms := as_u64 (sf_default_timeout_ms spec);
        pw_retry := retry_into_proto <$> sf_default_retry spec;
        pw_default_priority := default EmptyString (sf_default_priority spec);
        pw_hooks := hooks_file_into_proto (sf_hooks spec); pw_tags_json := tags_json |}.
End Build.

(** ** The client *)

Definition from_tonic (err : GrpcStatus) : RunvaneError :=
  match gs_code err with
  | Code.NotFound => RunvaneError.Domain (DomainError.NotFound "entity" (gs_message err))
  | Code.InvalidArgument | Code.FailedPrecondition => RunvaneError.Config (gs_message err)
  | _ => RunvaneError.Server (gs_message err)
  end.

(** What the network does to one exchange. *)
Inductive Link :=
| Carried
| RequestLost (status : GrpcStatus)
| ReplyLost (status : GrpcStatus).

Definition CONNECT_ATTEMPTS : nat := 25.

Section Render.
Context `{CliJson, JsonBytes, Texts}.

Definition render_json (bytes : list Z) : result string RunvaneError :=
  let? value := map_err RunvaneError.Server (jb_value bytes) in
  map_err RunvaneError.Server (cj_pretty value).

Definition render_json_list (each : list (list Z)) : result string RunvaneError :=
  let? out := try_map (fun bytes => map_err RunvaneError.Server (jb_value bytes)) each in
  map_err RunvaneError.Server (cj_pretty (JArray out)).

Definition parse_json_bytes (raw what : string) : result (list Z) RunvaneError :=
  let? value := map_err (fun e => RunvaneError.Config (what +:+ " does not parse as JSON: " +:+ e)) (cj_value raw) in
  map_err RunvaneError.Server (cj_to_vec value).

(** [str::split_once('=')] *)
Fixpoint split_once_eq (s : string) : option (string * string) :=
  match s with
  | EmptyString => None
  | String c s =>
      if bool_decide (c = "="%char) then Some (EmptyString, s)
      else match split_once_eq s with Some (k, v) => Some (String c k, v) | None => None end
  end.

(** The loop over the flags; [seen] is the key set of [map]. *)
Fixpoint collect_tags (tags : list string) (map : gmap string string) : result (gmap string string) RunvaneError :=
  match tags with
  | [] => Ok map
  | tag :: tags =>
      match split_once_eq tag with
      | None => Err (RunvaneError.Config ("tag " +:+ tx_str_debug tag +:+ " must be key=value"))
      | Some (k, v) =>
          match map !! k with
          | Some _ => Err (RunvaneError.Config ("tag key " +:+ tx_str_debug k +:+ " given more than once"))
          | None => collect_tags tags (<[k := v]> map)
          end
      end
  end.

Definition tags_to_json (tags : list string) : result (list Z) RunvaneError :=
  let? map := collect_tags tags ∅ in
  map_err RunvaneError.Server (cj_strings_to_vec map).
End Render.

(** ** Arguments *)

Record SubmitArgs := { su_tenant : string; su_name : string; su_input : option string; su_tag : list string }.
Record RunListArgs := {
  rl_tenant : option string; rl_name : option string; rl_status : option string; rl_limit : nat
}.

Inductive WorkflowOp :=
| WCreate (tenant name file : string)
| WList (tenant : option string)
| WGet (tenant name : string).

Inductive RunOp :=
| RSubmit (args : SubmitArgs)
| RList (args : RunListArgs)
| RGet (id : string)
| RCancel (id : string).

Inductive Command :=
| CServe (args : ServeArgs)
| CWorkflows (op : WorkflowOp)
| CRuns (op : RunOp)
| CDryRun (file format : string)
| CStats (format : string)
| CCompletion (shell : string)
| CVersion.

(** How a command ends: what it printed, or the error [main] reports. *)
Inductive Exit :=
| Printed (out : string)
| Failed (e : RunvaneError)
| Panicked.

Definition println (s : string) : string := s +:+ newline.

(** ** Commands *)

Section Commands.
Context {S L : Type} `{Store S, AuditLogger L, Texts, JsonBytes, CliJson}.
Context (clock : nat → Z) (uuid : nat → list Z) (cfg : AppConfig).
(** The files, the connection attempts (the debug text of a failure) and the
    exchanges of one invocation; the server a [serve] command runs until it stops;
    random bytes for an id the command itself makes; the version of the build. *)
Context (read_file : string → result string string) (reach : nat → option string) (link : nat → Link).
Context (run_server : ServeArgs → result unit RunvaneError) (own_uuid : list Z) (version endpoint : string).

(** A command on the state of the server it talks to. *)
Definition CliM (A : Type) := App S L → App S L * result A RunvaneError.

Definition c_lift {A} (r : result A RunvaneError) : CliM A := fun st => (st, r).

Definition c_bind {A B} (c : CliM A) (k : A → CliM B) : CliM B := fun st =>
  match c st with
  | (st, Ok a) => k a st
  | (st, Err e) => (st, Err e)
  end.

Notation "'let/' x ':=' c 'in' k" := (c_bind c (fun x => k))
  (at level 10, x pattern, c at level 100, k at level 200).

Fixpoint connect_loop (attempts : nat) (i : nat) (last_error : option string) : result unit RunvaneError :=
  match attempts with
  | O => Err (RunvaneError.Server ("cannot reach control plane at " +:+ endpoint +:+ ": " +:+
           match last_error with None => "None" | Some e => "Some(" +:+ e +:+ ")" end))
  | Datatypes.S attempts =>
      match reach i with
      | None => Ok tt
      | Some e => connect_loop attempts (Datatypes.S i) (Some e)
      end
  end.

Definition connect : result unit RunvaneError := connect_loop CONNECT_ATTEMPTS 0 None.

(** The [i]-th exchange. The client sends no metadata, so no token is presented. *)
Definition rpc {A} (i : nat) (method : GrpcM S L A) : CliM A := fun st =>
  match link i with
  | Carried => let '(st, r) := method st in (st, map_err from_tonic r)
  | RequestLost s => (st, Err (from_tonic s))
  | ReplyLost s => ((method st).1, Err (from_tonic s))
  end.

Definition read_text (path : string) : result string RunvaneError :=
  map_err (fun e => RunvaneError.Config ("cannot read " +:+ path +:+ ": " +:+ e)) (read_file path).

Definition workflows (op : WorkflowOp) : CliM string :=
  let/ _ := c_lift connect in
  match op with
  | WCreate tenant name file =>
      let/ raw := c_lift (read_text file) in
      let/ spec := c_lift (build_workflow_spec tenant name raw) in
      let/ def := rpc 0 (grpc_create_workflow clock uuid cfg None spec) in
      c_lift (render_json (cj_definition_json def))
  | WList tenant =>
      let/ defs := rpc 0 (grpc_list_workflows cfg None (default EmptyString tenant)) in
      c_lift (render_json_list (map cj_definition_json defs))
  | WGet tenant name =>
      let/ def := rpc 0 (grpc_get_workflow cfg None tenant name) in
      c_lift (render_json (cj_definition_json def))
  end.

Definition run_commands (op : RunOp) : CliM string :=
  let/ _ := c_lift connect in
  match op with
  | RSubmit args =>
      let/ input_json := c_lift (match su_input args with
                                 | Some path => let? raw := read_text path in parse_json_bytes raw "input"
                                 | None => Ok [123; 125]
                                 end) in
      let/ tags := c_lift (tags_to_json (su_tag args)) in
      let/ run := rpc 0 (grpc_submit_run clock uuid cfg None
        {| ps_tenant := su_tenant args; ps_name := su_name args; ps_input_json := input_json; ps_tags_json := tags |}) in
      c_lift (render_json (cj_run_json run))
  | RList args =>
      let/ runs := rpc 0 (grpc_list_runs cfg None
        {| pl_tenant := default EmptyString (rl_tenant args); pl_name := default EmptyString (rl_name args);
           pl_status := default EmptyString (rl_status args); pl_limit := rl_limit args |}) in
      c_lift (render_json_list (map cj_run_json runs))
  | RGet id =>
      let/ run := rpc 0 (grpc_get_run cfg None id) in
      c_lift (render_json (cj_run_json run))
  | RCancel id =>
      let/ run := rpc 0 (grpc_cancel_run clock cfg None id) in
      c_lift (render_json (cj_run_json run))
  end.

Definition printed (r : result string RunvaneError) : Exit :=
  match r with Ok out => Printed (println out) | Err e => Failed e end.

(** The definition a spec file previews as: only what the simulation reads is kept. *)
Definition preview_task (t : ProtoTaskSpec) : TaskSpecPayload := {|
  tp_name := pt_name t; tp_handler := pt_handler t;
  tp_input := Some (match pt_input_json t with
                    | [] => empty_object
                    | bytes => match jb_value bytes with Ok j => j | Err _ => empty_object end
                    end);
  tp_depends_on := Some (pt_depends_on t); tp_timeout_ms := non_zero (pt_timeout_ms t);
  tp_retry := None; tp_meta := None
|}.

Definition preview_spec (spec : ProtoWorkflowSpec) : WorkflowSpec := {|
  sp_tenant := pw_tenant spec; sp_name := pw_name spec; sp_description := non_empty (pw_description spec);
  sp_tasks := map preview_task (pw_tasks spec); sp_timeout_ms := non_zero (pw_timeout_ms spec); sp_retry := None;
  sp_default_priority := None; sp_hooks := None; sp_tags := None
|}.

Definition preview_definition (raw : string) : result WorkflowDef RunvaneError :=
  match cj_definition raw with
  | Ok d => Ok d
  | Err _ =>
      let? spec := build_workflow_spec "preview" "dryrun" raw in
      into_definition (preview_spec spec) own_uuid 0
  end.

Definition dry_run (file format : string) : Exit :=
  match (let? raw := read_text file in preview_definition raw) with
  | Err e => Failed e
  | Ok def =>
      match simulate_workflow def with
      | None => Panicked
      | Some (Err e) => Failed (RunvaneError.Server ("simulation failed: " +:+ domain_error_text e))
      | Some (Ok report) =>
          if bool_decide (format = "json"%string) then printed (map_err RunvaneError.Server (cj_pretty_report report))
          else Printed (format_text report)
      end
  end.

(** The counters of the diagnostics, in the order succeeded, running, queued, failed. *)
Record RunTally := { ta_succeeded : nat; ta_running : nat; ta_queued : nat; ta_failed : nat }.

Definition tally_one (t : RunTally) (status : string) : RunTally :=
  if bool_decide (status = "succeeded"%string) then
    {| ta_succeeded := Datatypes.S (ta_succeeded t); ta_running := ta_running t; ta_queued := ta_queued t;
       ta_failed := ta_failed t |}
  else if bool_decide (status = "running"%string) then
    {| ta_succeeded := ta_succeeded t; ta_running := Datatypes.S (ta_running t); ta_queued := ta_queued t;
       ta_failed := ta_failed t |}
  else if bool_decide (status = "queued"%string) then
    {| ta_succeeded := ta_succeeded t; ta_running := ta_running t; ta_queued := Datatypes.S (ta_queued t);
       ta_failed := ta_failed t |}
  else
    {| ta_succeeded := ta_succeeded t; ta_running := ta_running t; ta_queued := ta_queued t;
       ta_failed := Datatypes.S (ta_failed t) |}.

(** [from_slice(bytes).ok()?.get("status")?.as_str()] *)
Definition status_field (bytes : list Z) : option string :=
  match jb_value bytes with
  | Ok value => match json_get "status" value with Some (JString s) => Some s | _ => None end
  | Err _ => None
  end.

Definition tally (docs : list (list Z)) : RunTally :=
  foldl (fun t bytes => match status_field bytes with Some s => tally_one t s | None => t end)
    {| ta_succeeded := 0; ta_running := 0; ta_queued := 0; ta_failed := 0 |} docs.

Definition json_count (n : nat) : Json := JNumber (PosInt (Z.of_nat n)).

(** [Value::from(i64)] *)
Definition json_i64 (n : Z) : Json := JNumber (if n <? 0 then NegInt n else PosInt n).

Definition stats_payload (health : HealthView) (uptime_s : Z) (n_workflows n_runs : nat) (t : RunTally) : Json :=
  JObject [
    ("queue_depth", json_i64 (hv_queue_depth health));
    ("runs", JObject [("failed", json_count (ta_failed t)); ("queued", json_count (ta_queued t));
      ("running", json_count (ta_running t)); ("succeeded", json_count (ta_succeeded t));
      ("total", json_count n_runs)]);
    ("status", JString (hv_status health));
    ("uptime_seconds", json_i64 uptime_s);
    ("workflow_count", json_count n_workflows)]%string.

Definition stats_text (health : HealthView) (uptime_s : Z) (n_workflows n_runs : nat) (t : RunTally) : string :=
  println "=== Runvane Control Plane Diagnostics ===" +:+
  println ("Status:       " +:+ hv_status health) +:+
  println ("Uptime:       " +:+ pretty uptime_s +:+ "s") +:+
  println ("Queue Depth:  " +:+ pretty (hv_queue_depth health)) +:+
  println ("Workflows:    " +:+ pretty n_workflows) +:+
  println ("Total Runs:   " +:+ pretty n_runs) +:+
  println ("  - Succeeded: " +:+ pretty (ta_succeeded t)) +:+
  println ("  - Running:   " +:+ pretty (ta_running t)) +:+
  println ("  - Queued:    " +:+ pretty (ta_queued t)) +:+
  println ("  - Failed:    " +:+ pretty (ta_failed t)).

Definition stats_fetch : CliM (HealthView * list WorkflowDef * list Run) :=
  let/ _ := c_lift connect in
  let/ health := rpc 0 (grpc_health clock cfg) in
  let/ defs := rpc 1 (grpc_list_workflows cfg None EmptyString) in
  let/ runs := rpc 2 (grpc_list_runs cfg None
    {| pl_tenant := EmptyString; pl_name := EmptyString; pl_status := EmptyString; pl_limit := 500 |}) in
  c_lift (Ok (health, defs, runs)).

Definition stats_command (format : string) (st : App S L) : App S L * Exit :=
  match stats_fetch st with
  | (st, Err e) => (st, Failed e)
  | (st, Ok (health, defs, runs)) =>
      let uptime_s := Z.max (wrap_i64 (hv_now_ms health - hv_booted_at_ms health)) 0 ÷ 1000 in
      let docs := map cj_run_json runs in
      let t := tally docs in
      (st, if bool_decide (format = "json"%string) then
             match cj_pretty (stats_payload health uptime_s (length defs) (length docs) t) with
             | Ok out => Printed (println out)
             | Err _ => Panicked
             end
           else Printed (stats_text health uptime_s (length defs) (length docs) t))
  end.

Definition completion_command (shell : string) : Exit :=
  match shell_parse shell with
  | Some sh => Printed (generate_completion sh)
  | None => Failed (RunvaneError.Config
      ("unsupported shell '" +:+ shell +:+ "'; expected 'bash', 'zsh', or 'fish'"))
  end.

Definition execute (command : Command) (st : App S L) : App S L * Exit :=
  match command with
  | CServe args => (st, match run_server args with Ok _ => Printed EmptyString | Err e => Failed e end)
  | CWorkflows op => let '(st, r) := workflows op st in (st, printed r)
  | CRuns op => let '(st, r) := run_commands op st in (st, printed r)
  | CDryRun file format => (st, dry_run file format)
  | CStats format => stats_command format st
  | CCompletion shell => (st, completion_command shell)
  | CVersion => (st, Printed (println ("Runvane " +:+ version +:+ " — durable distributed workflow orchestration")))
  end.
End Commands.
