(* ===== verification/CliSpec.v ===== *)
(** * What the command line guarantees

    Against the definitions of Cli.v: a spec file reaches the service as the payload it
    denotes, tags survive the wire, the tallies add up, and a control plane with a
    secret refuses every command. *)
From S2P Require Import Prelude RustStrings Text Ids Status Errors StateMachine Float64 Json RetryPolicy Workflow.
From S2P Require Import Dag DryRun DryRunPath Validation Store MemoryStore AuditLog Auth Telemetry Api ApiSpec Grpc Config.
From S2P Require Import Completion Cli.
Local Open Scope Z_scope.

(** ** What a spec file denotes *)

Section Denotation.
Context `{Texts}.

Definition backoff_word (w : option string) : option BackoffKind := result_ok (backoff_from (default EmptyString w)).
Definition jitter_word (w : option string) : option JitterKind := result_ok (jitter_from (default EmptyString w)).
Definition priority_word (w : option string) : option Priority := result_ok (priority_from (default EmptyString w)).

(** A number of the file travels as an unsigned one of 64 bits: absent it is zero, and
    one that is out of range, a negative one say, arrives reduced modulo 2^64. *)
Definition file_number (x : option Z) : Z := default 0 x `mod` 2 ^ 64.

(** A retry section is a policy whose absent fields are zero, one, fixed, none and
    [false]; it must be a valid one. *)
Definition file_retry (r : RetryFile) : option RetryPolicy :=
  b ← backoff_word (fr_backoff r);
  j ← jitter_word (fr_jitter r);
  let p := {| max_attempts := default 0 (fr_max_attempts r); base_delay_ms := file_number (fr_base_delay_ms r);
              max_delay_ms := file_number (fr_max_delay_ms r); multiplier := default f64_one (fr_multiplier r);
              backoff := b; jitter := j; retryable_only := default false (fr_retryable_only r) |} in
  if is_ok (policy_validate p) then Some p else None.

(** Everything zero or empty, the multiplier included: the service takes it for no
    retry section at all. *)
Definition blank (r : RetryFile) : bool :=
  (default 0 (fr_max_attempts r) =? 0) && (file_number (fr_base_delay_ms r) =? 0) &&
  (file_number (fr_max_delay_ms r) =? 0) && f64_eqb (default f64_one (fr_multiplier r)) f64_zero &&
  is_empty (default EmptyString (fr_backoff r)) && is_empty (default EmptyString (fr_jitter r)).

Definition file_retries (r : option RetryFile) : option (option RetryPolicy) :=
  match r with
  | None => Some None
  | Some r => if blank r then Some None else Some <$> file_retry r
  end.

Definition file_hook (h : HookFile) : option HookSpec :=
  let url := fh_webhook_url h ≫= non_empty in
  if match url with Some u => is_ok (validate_webhook_url tx_url_parse tx_str_debug u) | None => true end
  then Some {| webhook_url := url; event_filter := fh_event_filter h ≫= non_empty; headers := default ∅ (fh_headers h) |}
  else None.

Definition file_hooks (h : HooksFile) : option Hooks :=
  start ← mapM file_hook (default [] (fh_on_start h));
  success ← mapM file_hook (default [] (fh_on_success h));
  failure ← mapM file_hook (default [] (fh_on_failure h));
  cancel ← mapM file_hook (default [] (fh_on_cancel h));
  Some {| on_start := start; on_success := success; on_failure := failure; on_cancel := cancel |}.

(** Metadata is an object; an empty one counts as absent. *)
Definition file_meta (m : option Json) : option (option (gmap string Json)) :=
  match m ≫= not_null with
  | None => Some None
  | Some (JObject fields) =>
      let m : gmap string Json := list_to_map fields in Some (if bool_decide (m = ∅) then None else Some m)
  | Some _ => None
  end.

Definition file_task (t : TaskFile) : option TaskSpecPayload :=
  retry ← file_retries (ft_retry t);
  meta ← file_meta (ft_meta t);
  Some {| tp_name := ft_name t; tp_handler := ft_handler t; tp_input := ft_input t ≫= not_null;
          tp_depends_on := match ft_depends_on t with [] => None | deps => Some deps end;
          tp_timeout_ms := non_zero (file_number (ft_timeout_ms t)); tp_retry := retry; tp_meta := meta |}.

Definition file_payload (tenant name : string) (f : SpecFile) : option WorkflowSpec :=
  tasks ← mapM file_task (sf_tasks f);
  retry ← file_retries (sf_default_retry f);
  priority ← priority_word (sf_default_priority f);
  hooks ← match sf_hooks f with None => Some None | Some h => Some <$> file_hooks h end;
  Some {| sp_tenant := tenant; sp_name := name; sp_description := sf_description f ≫= non_empty; sp_tasks := tasks;
          sp_timeout_ms := non_zero (file_number (sf_default_timeout_ms f)); sp_retry := retry;
          sp_default_priority := Some priority; sp_hooks := hooks; sp_tags := Some (default ∅ (sf_tags f)) |}.
End Denotation.

(** serde_json reads back what it wrote, for the documents of the file. *)
Definition reads_back `{JsonBytes, CliJson} (j : option Json) : Prop :=
  match j ≫= not_null with
  | None => True
  | Some j => ∃ bytes, cj_to_vec j = Ok bytes ∧ bytes ≠ [] ∧ jb_value bytes = Ok j ∧
      result_ok (jb_object bytes) = match j with JObject fields => Some (list_to_map fields) | _ => None end
  end.

Definition strings_read_back `{JsonBytes, CliJson} (m : gmap string string) : Prop :=
  ∃ bytes, cj_strings_to_vec m = Ok bytes ∧ bytes ≠ [] ∧ jb_strings bytes = Ok m.

Definition file_reads_back `{JsonBytes, CliJson} (f : SpecFile) : Prop :=
  Forall (fun t => reads_back (ft_input t) ∧ reads_back (ft_meta t)) (sf_tasks f) ∧
  match sf_tags f with Some m => strings_read_back m | None => True end.

(** ** The file through the wire *)

Section Wire.
Context `{Texts, JsonBytes, CliJson}.

Lemma as_u64_number x : as_u64 x = file_number x.
Proof. reflexivity. Qed.

Lemma non_empty_default x : non_empty (default EmptyString x) = x ≫= non_empty.
Proof. by destruct x. Qed.

Lemma retry_read r : result_ok (retry_from (retry_into_proto <$> r)) = file_retries r.
Proof.
  destruct r as [r|]; [|done]. cbn [fmap option_fmap option_map file_retries].
  assert (Hblank : absent (retry_into_proto r) = blank r)
    by (unfold absent, blank; cbn; by rewrite !as_u64_number).
  unfold retry_from. rewrite Hblank. destruct (blank r); [done|].
  rewrite result_ok_bind. unfold file_retry, backoff_word, jitter_word. cbn [pr_backoff pr_jitter retry_into_proto].
  destruct (backoff_from _) as [b|]; [|done]. cbn [result_ok option_bind mbind].
  rewrite result_ok_bind. destruct (jitter_from _) as [j|]; [|done]. cbn. rewrite !as_u64_number.
  by destruct (policy_validate _).
Qed.

Lemma hook_read h : result_ok (hook_from (hook_spec_into_proto h)) = file_hook h.
Proof.
  unfold hook_from, file_hook. cbn [hook_spec_into_proto ph_webhook_url ph_event_filter ph_headers webhook_url].
  rewrite !non_empty_default, result_ok_bind. destruct (fh_webhook_url h ≫= non_empty) as [url|]; [|done].
  rewrite result_ok_map_err. by destruct (validate_webhook_url _ _ url).
Qed.

Lemma hook_list_read hs :
  result_ok (try_map hook_from (default [] (map hook_spec_into_proto <$> hs))) = mapM file_hook (default [] hs).
Proof.
  rewrite result_ok_try_map. destruct hs as [hs|]; [|done]. cbn [fmap option_fmap option_map default id from_option].
  induction hs as [|h hs IH]; [done|]. cbn [map mapM]. by rewrite IH, hook_read.
Qed.

Lemma hooks_read h :
  result_ok (hooks_from (hooks_file_into_proto h)) = match h with None => Some None | Some h => Some <$> file_hooks h end.
Proof.
  destruct h as [h|]; [|done]. cbn [hooks_file_into_proto hooks_from]. unfold file_hooks.
  cbn [ph_on_start ph_on_success ph_on_failure ph_on_cancel].
  rewrite result_ok_bind, hook_list_read. destruct (mapM file_hook (default [] (fh_on_start h))); [|done].
  cbn [option_bind mbind]. rewrite result_ok_bind, hook_list_read. destruct (mapM file_hook _); [|done].
  cbn [option_bind mbind]. rewrite result_ok_bind, hook_list_read. destruct (mapM file_hook _); [|done].
  cbn [option_bind mbind]. rewrite result_ok_bind, hook_list_read. by destruct (mapM file_hook _).
Qed.

(** The bytes of an optional document and what the service makes of them. *)
Lemma document_read j : reads_back j → ∃ bytes, document_bytes j = Ok bytes ∧
  (∃ v, parse_json "input" bytes = Ok v ∧ not_null v = j ≫= not_null) ∧
  result_ok (meta_from bytes) = file_meta j.
Proof.
  unfold reads_back, document_bytes, file_meta. destruct (j ≫= not_null) as [v|] eqn:Hj.
  - intros (bytes&->&Hne&Hv&Ho). exists bytes. split; [done|]. destruct bytes as [|b bytes]; [done|].
    split.
    + exists v. unfold parse_json. rewrite Hv. split; [done|].
      destruct j as [j|]; [|done]. cbn in Hj. destruct j; cbn in Hj |- *; by simplify_eq.
    + unfold meta_from. rewrite result_ok_bind, result_ok_map_err, Ho. by destruct v.
  - intros _. exists []. split; [done|]. split; [by exists JNull|done].
Qed.

Lemma task_read t : reads_back (ft_input t) → reads_back (ft_meta t) →
  ∃ wire, task_into_proto t = Ok wire ∧ result_ok (task_from wire) = file_task t.
Proof.
  intros Hi Hm. unfold task_into_proto.
  destruct (document_read _ Hi) as (input&->&(v&Hv&Hn)&_). destruct (document_read _ Hm) as (meta&->&_&Hmeta).
  cbn [rbind]. eexists. split; [done|]. unfold task_from, file_task.
  cbn [pt_input_json pt_retry pt_meta_json pt_name pt_handler pt_depends_on pt_timeout_ms]. rewrite Hv. cbn [rbind].
  rewrite result_ok_bind, retry_read. destruct (file_retries (ft_retry t)); [|done]. cbn [option_bind mbind].
  rewrite result_ok_bind, Hmeta. destruct (file_meta (ft_meta t)); [|done]. cbn.
  by rewrite Hn, as_u64_number.
Qed.

Lemma tasks_read ts :
  Forall (fun t => reads_back (ft_input t) ∧ reads_back (ft_meta t)) ts →
  ∃ wires, try_map task_into_proto ts = Ok wires ∧ result_ok (try_map task_from wires) = mapM file_task ts.
Proof.
  induction ts as [|t ts IH]; intros Hb; [by exists []|].
  apply Forall_cons in Hb as [[Hi Hm] Hbs].
  destruct (task_read t Hi Hm) as (w&Hw&Hok). destruct (IH Hbs) as (ws&Hws&Hoks).
  exists (w :: ws). cbn [try_map mapM]. rewrite Hw, Hws. split; [done|].
  rewrite result_ok_bind, Hok. destruct (file_task t); [|done]. cbn. rewrite result_ok_bind, Hoks.
  by destruct (mapM file_task ts).
Qed.

Lemma tags_read m : match m with Some m => strings_read_back m | None => True end →
  ∃ bytes, match m with None => Ok [] | Some m => map_err RunvaneError.Server (cj_strings_to_vec m) end = Ok bytes ∧
    parse_tags "tags" bytes = Ok (default ∅ m).
Proof.
  destruct m as [m|]; [|by exists []]. intros (bytes&->&Hne&Hr). exists bytes. split; [done|].
  unfold parse_tags. destruct bytes; [done|]. by rewrite Hr.
Qed.

Lemma spec_read tenant name raw f :
  cj_spec_file raw = Ok f → file_reads_back f →
  ∃ wire, build_workflow_spec tenant name raw = Ok wire ∧ result_ok (spec_from wire) = file_payload tenant name f.
Proof.
  intros Hf [Hb Htags]. unfold build_workflow_spec. rewrite Hf. cbn [map_err rbind].
  destruct (tasks_read _ Hb) as (wires&->&Htasks). destruct (tags_read _ Htags) as (bytes&->&Hp). cbn [rbind].
  eexists. split; [done|]. unfold spec_from, file_payload.
  cbn [pw_tenant pw_name pw_description pw_tasks pw_timeout_ms pw_retry pw_default_priority pw_hooks pw_tags_json].
  rewrite result_ok_bind, Htasks. destruct (mapM file_task _); [|done]. cbn [option_bind mbind].
  rewrite result_ok_bind, retry_read. destruct (file_retries _); [|done]. cbn [option_bind mbind].
  unfold priority_word. rewrite result_ok_bind. destruct (priority_from _); [|done]. cbn [result_ok option_bind mbind].
  rewrite result_ok_bind, hooks_read. destruct (match sf_hooks f with None => _ | Some h => _ end); [|done].
  cbn [option_bind mbind]. rewrite Hp. cbn. by rewrite non_empty_default, as_u64_number.
Qed.
End Wire.

(** ** One invocation *)

Section Invocation.
Context {S L : Type} `{Store S, AuditLogger L, Texts, JsonBytes, CliJson}.
Context (clock : nat → Z) (uuid : nat → list Z) (cfg : AppConfig).
Context (read_file : string → result string string) (reach : nat → option string) (link : nat → Link).
Context (run_server : ServeArgs → result unit RunvaneError) (own_uuid : list Z) (version endpoint : string).

Lemma connect_loop_ok n i last :
  connect_loop reach endpoint n i last = Ok tt ↔ ∃ j, (i ≤ j < i + n)%nat ∧ reach j = None.
Proof.
  revert i last. induction n as [|n IH]; intros i last; cbn [connect_loop].
  - split; [done|]. intros (j&Hj&_). lia.
  - destruct (reach i) as [e|] eqn:Hr.
    + rewrite IH. split; intros (j&Hj&Hn); exists j; (split; [|done]); [lia|].
      destruct (decide (j = i)) as [->|]; [congruence|lia].
    + split; [|done]. intros _. exists i. split; [lia|done].
Qed.

(** The client gets through exactly when one of its first 25 attempts does. *)
Lemma connect_ok : connect reach endpoint = Ok tt ↔ ∃ j, (j < 25)%nat ∧ reach j = None.
Proof.
  unfold connect, CONNECT_ATTEMPTS. rewrite connect_loop_ok. split; intros (j&Hj&Hn); exists j; (split; [lia|done]).
Qed.

Lemma c_bind_ok {A B} (c : CliM A) (k : A → CliM (S := S) (L := L) B) st st' a :
  c st = (st', Ok a) → c_bind c k st = k a st'.
Proof. intros Hc. unfold c_bind. by rewrite Hc. Qed.

Lemma require_ok presented level :
  authorized (ac_auth cfg) presented level = true → grpc_require cfg presented level = Ok tt.
Proof. intros Ha. unfold grpc_require. by rewrite Ha. Qed.

Definition reachable : bool := existsb (fun i => bool_decide (reach i = None)) (seq 0 25).

Lemma reachable_connect : reachable = true ↔ connect reach endpoint = Ok tt.
Proof.
  rewrite connect_ok. unfold reachable. rewrite existsb_exists. split.
  - intros (j&Hj%in_seq&Hr%bool_decide_eq_true). exists j. split; [lia|done].
  - intros (j&Hj&Hr). exists j. split; [apply in_seq; lia|by apply bool_decide_eq_true].
Qed.

(** The spec file the command gets to send. *)
Definition spec_file_at (file : string) : option SpecFile :=
  if reachable then result_ok (read_file file) ≫= fun raw => result_ok (cj_spec_file raw) else None.

(** How a creation on the state [st] that HTTP would make [h] of ends over a link. *)
Definition create_outcome (st : App S L) (l : Link) (h : App S L * reply WorkflowDef) (c : App S L * Exit) : Prop :=
  match l with
  | Carried => ap_store c.1 = ap_store h.1 ∧
      match h.2 with
      | Done def => c.2 = printed (render_json (cj_definition_json def))
      | Refuse e => c.2 = Failed (from_tonic (to_tonic_api e))
      | Crash => False
      end
  | RequestLost status => c = (st, Failed (from_tonic status))
  | ReplyLost status => ap_store c.1 = ap_store h.1 ∧ c.2 = Failed (from_tonic status)
  end.

(** A command that fails with the server untouched. *)
Definition refused_command (st : App S L) (c : App S L * Exit) : Prop := c.1 = st ∧ ∃ e, c.2 = Failed e.

(** Once the connection stands and the file is read, the command is its one exchange. *)
Lemma create_exchange file tenant name f (st : App S L) :
  (∀ raw f, cj_spec_file raw = Ok f → file_reads_back f) → spec_file_at file = Some f →
  ∃ wire, result_ok (spec_from wire) = file_payload tenant name f ∧
    execute clock uuid cfg read_file reach link run_server own_uuid version endpoint
      (CWorkflows (WCreate tenant name file)) st =
    (let '(st', r) := c_bind (rpc link 0 (grpc_create_workflow clock uuid cfg None wire))
       (fun def => c_lift (render_json (cj_definition_json def))) st in (st', printed r)).
Proof.
  intros Hback Hfile. unfold spec_file_at in Hfile. destruct reachable eqn:Hreach; [|done].
  destruct (read_file file) as [raw|] eqn:Hraw; [|done]. cbn in Hfile.
  destruct (cj_spec_file raw) as [f'|] eqn:Hspec; [|done]. cbn in Hfile. injection Hfile as ->.
  destruct (spec_read tenant name raw f Hspec (Hback _ _ Hspec)) as (wire&Hwire&Hok).
  exists wire. split; [done|]. cbn [execute]. unfold workflows.
  rewrite (c_bind_ok _ _ st st tt) by (unfold c_lift; by rewrite (proj1 reachable_connect Hreach)).
  rewrite (c_bind_ok _ _ st st raw) by (unfold c_lift, read_text; by rewrite Hraw).
  by rewrite (c_bind_ok _ _ st st wire) by (unfold c_lift; by rewrite Hwire).
Qed.

Lemma create_unread file tenant name (st : App S L) : spec_file_at file = None →
  refused_command st (execute clock uuid cfg read_file reach link run_server own_uuid version endpoint
    (CWorkflows (WCreate tenant name file)) st).
Proof.
  intros Hfile. cbn [execute]. unfold workflows, spec_file_at in *. unfold refused_command, c_bind, c_lift.
  destruct (connect reach endpoint) as [[]|e] eqn:Hc; [|by eauto].
  rewrite (proj2 reachable_connect Hc) in Hfile. unfold read_text.
  destruct (read_file file) as [raw|e]; [|by eauto]. cbn in Hfile |- *. unfold build_workflow_spec.
  destruct (cj_spec_file raw); [done|]. cbn. by eauto.
Qed.

(** An exchange whose method refuses without touching the server. *)
Lemma create_refused wire k e (st : App S L) : grpc_create_workflow clock uuid cfg None wire st = (st, Err e) →
  refused_command st (let '(st', r) := c_bind (rpc link 0 (grpc_create_workflow clock uuid cfg None wire)) k st in
    (st', printed r)).
Proof. intros Hg. unfold refused_command, c_bind, rpc. rewrite Hg. destruct (link 0); by eauto. Qed.

Lemma create_command file tenant name (st : App S L) :
  uuids_ok uuid → (∀ raw f, cj_spec_file raw = Ok f → file_reads_back f) →
  let c := execute clock uuid cfg read_file reach link run_server own_uuid version endpoint
    (CWorkflows (WCreate tenant name file)) st in
  match spec_file_at file ≫= file_payload tenant name with
  | Some spec =>
      if may_use (documented_access (ac_auth cfg) (path_of (ReqCreateWorkflow spec))) None
      then create_outcome st (link 0%nat) (create_workflow clock uuid spec st) c
      else c.1 = st ∧ ∃ e, c.2 = Failed e
  | None => c.1 = st ∧ ∃ e, c.2 = Failed e
  end.
Proof.
  intros Hu Hback. cbv zeta. destruct (spec_file_at file) as [f|] eqn:Hfile; [|by apply create_unread].
  destruct (create_exchange file tenant name f st Hback Hfile) as (wire&Hok&->). cbn [option_bind mbind].
  destruct (file_payload tenant name f) as [spec|].
  2: { destruct (spec_from wire) as [spec'|e] eqn:Hs; cbn in Hok; [done|].
       destruct (grpc_require cfg None Operator) as [[]|e'] eqn:Hreq;
         eapply create_refused; unfold grpc_create_workflow, g_bind, g_lift; rewrite Hreq, ?Hs; done. }
  destruct (spec_from wire) as [spec'|e] eqn:Hs; cbn in Hok; [|done]. injection Hok as ->.
  rewrite <- guard_documented. cbn [level_of]. destruct (authorized (ac_auth cfg) None Operator) eqn:Hauth.
  - destruct (create_mirrored clock uuid cfg None spec wire Hu (require_ok _ _ Hauth) Hs st) as [Hst Ha].
    unfold create_outcome, c_bind, rpc.
    destruct (create_workflow clock uuid spec st) as [st1 r], (grpc_create_workflow _ _ _ _ _ st) as [st2 [def|e]];
      destruct r as [d|x|]; cbn in Hst, Ha; try done; subst; destruct (link 0); cbn; unfold c_lift; cbn; by rewrite ?Hst.
  - eapply create_refused. unfold grpc_create_workflow, g_bind, g_lift, grpc_require. by rewrite Hauth.
Qed.
End Invocation.

(** ** A control plane with a secret *)

Section Sealed.
Context {L : Type} `{HashIter, AuditLogger L, Texts, JsonBytes, CliJson}.
Context (clock : nat → Z) (uuid : nat → list Z) (cfg : AppConfig).
Context (read_file : string → result string string) (reach : nat → option string) (link : nat → Link).
Context (run_server : ServeArgs → result unit RunvaneError) (own_uuid : list Z) (version endpoint : string).
Context (Hsealed : ∀ level, authorized (ac_auth cfg) None level = false).
Implicit Types st : App MemoryState L.

(** A command that ends in an error and leaves the records alone. *)
Definition shut_out {A} (c : CliM (S := MemoryState) (L := L) A) : Prop :=
  ∀ st, ∃ st' e, c st = (st', Err e) ∧ ap_store st' = ap_store st.

Lemma shut_out_lift {A B} (r : result A RunvaneError) (k : A → CliM B) :
  (∀ a, shut_out (k a)) → shut_out (c_bind (c_lift r) k).
Proof. intros Hk st. unfold c_bind, c_lift. destruct r as [a|e]; [apply Hk|]. by eexists _, _. Qed.

Lemma shut_out_rpc {B C} i level (k : unit → GrpcM MemoryState L B) (k' : B → CliM C) :
  shut_out (c_bind (rpc link i (g_bind (g_lift (grpc_require cfg None level)) k)) k').
Proof.
  intros st. unfold c_bind, rpc.
  assert (Hm : ∃ e, g_bind (g_lift (grpc_require cfg None level)) k st = (st, Err e)).
  { unfold g_bind, g_lift, grpc_require. rewrite Hsealed. destruct (_ && _); by eexists. }
  destruct Hm as [e ->]. destruct (link i); by eexists _, _.
Qed.

Lemma shut_out_health {A} i (k : HealthView → CliM A) :
  (∀ h, shut_out (k h)) → shut_out (c_bind (rpc link i (grpc_health clock cfg)) k).
Proof.
  intros Hk st. unfold c_bind, rpc, grpc_health, g_bind, g_now. cbn [call MemoryStore mem_call].
  destruct (link i); cbn; [|by eexists _, _..]. destruct (Hk {| hv_status := "ok"; hv_booted_at_ms := ac_boot_ms cfg;
    hv_now_ms := clock (ap_reads st); hv_queue_depth := Z.of_nat (size (ms_queue (ap_store st))); hv_spec_version := 1 |}
    {| ap_store := ap_store st; ap_audit := ap_audit st; ap_metrics := ap_metrics st; ap_reads := (ap_reads st + 1)%nat;
       ap_ids := ap_ids st |}) as (st'&e&Hc&Hs). exists st', e. split; [exact Hc|exact Hs].
Qed.

Lemma workflows_shut_out op : shut_out (workflows clock uuid cfg read_file reach link endpoint op).
Proof.
  unfold workflows. apply shut_out_lift. intros _. destruct op.
  - apply shut_out_lift. intros raw. apply shut_out_lift. intros spec. apply shut_out_rpc.
  - apply shut_out_rpc.
  - apply shut_out_rpc.
Qed.

Lemma runs_shut_out op : shut_out (run_commands clock uuid cfg read_file reach link endpoint op).
Proof.
  unfold run_commands. apply shut_out_lift. intros _. destruct op.
  - apply shut_out_lift. intros input. apply shut_out_lift. intros tags. apply shut_out_rpc.
  - apply shut_out_rpc.
  - apply shut_out_rpc.
  - apply shut_out_rpc.
Qed.

Lemma stats_shut_out : shut_out (stats_fetch clock cfg reach link endpoint).
Proof.
  unfold stats_fetch. apply shut_out_lift. intros _. apply shut_out_health. intros h. apply shut_out_rpc.
Qed.

(** The commands that talk to a control plane. *)
Definition remote (c : Command) : bool :=
  match c with CWorkflows _ | CRuns _ | CStats _ => true | _ => false end.

Lemma remote_shut_out command st : remote command = true →
  let c := execute clock uuid cfg read_file reach link run_server own_uuid version endpoint command st in
  ap_store c.1 = ap_store st ∧ ∃ e, c.2 = Failed e.
Proof.
  intros Hr. destruct command as [| op | op | | format | |]; try done; cbn [execute].
  - destruct (workflows_shut_out op st) as (st'&e&->&Hs). cbn. eauto.
  - destruct (runs_shut_out op st) as (st'&e&->&Hs). cbn. eauto.
  - unfold stats_command. destruct (stats_shut_out st) as (st'&e&->&Hs). cbn. eauto.
Qed.
End Sealed.

(** ** Tags *)

(** [k] and [v] are what is before and after the first equals sign. *)
Definition tag_of (k v tag : string) : Prop := tag = k +:+ "=" +:+ v ∧ "="%char ∉ String.list_ascii_of_string k.

Lemma split_once_eq_spec tag k v : split_once_eq tag = Some (k, v) ↔ tag_of k v tag.
Proof.
  unfold tag_of. revert k v. induction tag as [|c tag IH]; intros k v; cbn [split_once_eq].
  { split; [done|]. intros [Heq _]. by destruct k. }
  case_bool_decide as Hc.
  - subst c. split; [intros [= <- <-]; split; [done|apply not_elem_of_nil]|].
    intros [Heq Hk]. destruct k as [|c' k]; cbn in Heq; [by injection Heq as ->|].
    injection Heq as <- _. destruct Hk. cbn. apply elem_of_cons. by left.
  - assert (Hstep : ∀ k', tag_of (String c k') v (String c tag) ↔ tag_of k' v tag).
    { intros k'. unfold tag_of. cbn. rewrite not_elem_of_cons. split.
      - intros [Heq [_ Hk]]. by injection Heq as ->.
      - intros [-> Hk]. split_and!; [done|congruence|done]. }
    destruct k as [|c' k].
    { split; [by destruct (split_once_eq tag) as [[]|]|]. intros [Heq _]. by injection Heq as ->. }
    destruct (decide (c' = c)) as [->|Hne].
    + fold (tag_of (String c k) v (String c tag)). rewrite Hstep. unfold tag_of. rewrite <-IH.
      destruct (split_once_eq tag) as [[]|]; split; by intros [= -> ->].
    + split; [destruct (split_once_eq tag) as [[]|]; congruence|]. intros [Heq _]. by injection Heq as ->.
Qed.

Section Tags.
Context `{Texts, JsonBytes, CliJson}.

(** The keys the flags set. *)
Definition tag_keys (tags : list string) : list string := omap (fun t => fst <$> split_once_eq t) tags.

Lemma collect_tags_spec tags m :
  match collect_tags tags m with
  | Ok m' =>
      Forall (fun t => is_Some (split_once_eq t)) tags ∧ NoDup (tag_keys tags) ∧
      (∀ k, k ∈ tag_keys tags → m !! k = None) ∧
      ∀ k v, m' !! k = Some v ↔ m !! k = Some v ∨ ∃ t, t ∈ tags ∧ tag_of k v t
  | Err _ =>
      (∃ t, t ∈ tags ∧ split_once_eq t = None) ∨ ¬ NoDup (tag_keys tags) ∨ ∃ k, k ∈ tag_keys tags ∧ is_Some (m !! k)
  end.
Proof.
  revert m. induction tags as [|t tags IH]; intros m; cbn [collect_tags].
  { split_and!; [done|constructor|intros k Hk; by apply elem_of_nil in Hk|]. intros k v.
    split; [by left|]. intros [|(t&[]%elem_of_nil&_)]; done. }
  unfold tag_keys. cbn [omap list_omap]. fold (tag_keys tags).
  destruct (split_once_eq t) as [[k0 v0]|] eqn:Hs; cbn [fmap option_fmap option_map fst].
  2:{ left. exists t. split; [left|done]. }
  destruct (m !! k0) as [old|] eqn:Hm; [right; right; exists k0; split; [left|by eauto]|].
  specialize (IH (<[k0 := v0]> m)). destruct (collect_tags tags _) as [m'|e].
  - destruct IH as (Hall&Hnd&Hfresh&Hm'). assert (Hk0 : k0 ∉ tag_keys tags).
    { intros Hin. specialize (Hfresh k0 Hin). by rewrite lookup_insert_eq in Hfresh. }
    split_and!; [by constructor; eauto|by constructor|..].
    + intros k [->|Hk]%elem_of_cons; [done|]. specialize (Hfresh k Hk). by apply lookup_insert_None in Hfresh as [].
    + intros k v. rewrite Hm', lookup_insert_Some. setoid_rewrite elem_of_cons. split.
      * intros [[[-> ->]|[_ Hk]]|(t'&Ht'&Ho)]; [right; exists t|by left|right; exists t'; by eauto].
        split; [by left|]. by apply split_once_eq_spec.
      * intros [Hk|(t'&[->|Ht']&Ho)]; [left; right; split; congruence| |right; by eauto].
        apply split_once_eq_spec in Ho. rewrite Hs in Ho. simplify_eq. left. by left.
  - destruct IH as [(t'&Ht'&Hn)|[Hnd|(k&Hk&[x Hx])]].
    + left. exists t'. split; [by right|done].
    + right. left. intros Hc. by apply NoDup_cons in Hc as [_ ?].
    + apply lookup_insert_Some in Hx as [[<- _]|[_ Hx]].
      * right. left. intros Hc. by apply NoDup_cons in Hc as [? _].
      * right. right. exists k. split; [by right|by eauto].
Qed.
End Tags.

(** ** Properties *)

(** C6. Creating a definition from the command line is creating it over HTTP. For every file, link
    and configuration, on every store: when one of the 25 connection attempts succeeds, the
    file reads and denotes a payload (its numbers as unsigned 64-bit ones, a negative one
    reduced modulo 2^64), and no secret is asked of the request, the exchange leaves the
    records as the HTTP handler does on that payload and prints the stored definition or
    fails with the translated refusal; a lost request changes nothing and a lost reply fails
    after the creation. In every other case, a configured secret included, the command fails
    and the server is left as it was. *)
Theorem cli_create_is_http {S L} `{Store S, AuditLogger L, Texts, JsonBytes, CliJson} clock uuid cfg read_file reach link
    run_server own_uuid version endpoint file tenant name (st : App S L) :
  uuids_ok uuid → (∀ raw f, cj_spec_file raw = Ok f → file_reads_back f) →
  let c := execute clock uuid cfg read_file reach link run_server own_uuid version endpoint
    (CWorkflows (WCreate tenant name file)) st in
  match spec_file_at read_file reach file ≫= file_payload tenant name with
  | Some spec =>
      if may_use (documented_access (ac_auth cfg) (path_of (ReqCreateWorkflow spec))) None
      then create_outcome st (link 0%nat) (create_workflow clock uuid spec st) c
      else c.1 = st ∧ ∃ e, c.2 = Failed e
  | None => c.1 = st ∧ ∃ e, c.2 = Failed e
  end.
Proof. apply create_command. Qed.

(** A file with one task whose input is [true] and whose timeout is negative, and a codec for
    that document. *)
Definition one_task_file : SpecFile := {|
  sf_description := None; sf_default_retry := None; sf_default_timeout_ms := Some 5000; sf_default_priority := None;
  sf_tags := None; sf_hooks := None;
  sf_tasks := [{| ft_name := "fetch"; ft_handler := "noop"; ft_depends_on := []; ft_input := Some (JBool true);
                  ft_timeout_ms := Some (-1); ft_retry := None; ft_meta := None |}]
|}.

#[local] Instance true_bytes : JsonBytes := {|
  jb_value _ := Ok (JBool true); jb_strings _ := Err "expected a map"%string; jb_object _ := Err "expected a map"%string |}.

#[local] Instance demo_json : CliJson := {|
  cj_spec_file _ := Ok one_task_file; cj_definition _ := Err "missing field"%string; cj_value _ := Ok (JBool true);
  cj_to_vec _ := Ok [116; 114; 117; 101]; cj_strings_to_vec _ := Ok [123; 125];
  cj_pretty _ := Ok "true"%string; cj_pretty_report _ := Ok "{}"%string;
  cj_definition_json _ := [116; 114; 117; 101]; cj_run_json _ := [116; 114; 117; 101] |}.

(** One invocation against a fresh server. *)
Definition demo (cfg : AppConfig) (command : Command) : App MemoryState MemoryAuditLogger * Exit :=
  execute (H1 := plain_texts) (fun n => Z.of_nat n) counting_uuid cfg (fun _ => Ok "spec"%string)
    (fun i => if decide (i = 0)%nat then Some "refused"%string else None) (fun _ => Carried) (fun _ => Ok tt) [] "0.1.0"
    "http://127.0.0.1:9090" command (fresh_app mem_new).

Definition demo_create : Command := CWorkflows (WCreate "acme" "etl" "spec.json").

Lemma cli_create_is_http_witness :
  (demo open_config demo_create).2 = Printed (println "true") ∧
  is_Some (ms_defs (ap_store (demo open_config demo_create).1) !! ("acme", "etl")%string).
Proof.
  pose proof (cli_create_is_http (H1 := plain_texts) (fun n => Z.of_nat n) counting_uuid open_config
    (fun _ => Ok "spec"%string) (fun i => if decide (i = 0)%nat then Some "refused"%string else None) (fun _ => Carried)
    (fun _ => Ok tt) [] "0.1.0" "http://127.0.0.1:9090" "spec.json" "acme" "etl" (fresh_app mem_new) counting_uuid_ok) as Hc.
  assert (Hback : ∀ raw f, cj_spec_file (CliJson := demo_json) raw = Ok f → file_reads_back f).
  { intros raw f [= <-]. split; [|exact I]; constructor; [|constructor]; split; [|exact I];
      exists [116; 114; 117; 101]; split_and!; [reflexivity|discriminate|reflexivity|reflexivity]. }
  specialize (Hc Hback). cbv zeta in Hc.
  assert (Hp : spec_file_at (H3 := demo_json) (fun _ => Ok "spec"%string)
      (fun i => if decide (i = 0)%nat then Some "refused"%string else None) "spec.json"
      ≫= file_payload (H := plain_texts) "acme" "etl" =
    Some {| sp_tenant := "acme"; sp_name := "etl"; sp_description := None;
            sp_tasks := [{| tp_name := "fetch"; tp_handler := "noop"; tp_input := Some (JBool true);
              tp_depends_on := None; tp_timeout_ms := Some 18446744073709551615; tp_retry := None; tp_meta := None |}];
            sp_timeout_ms := Some 5000; sp_retry := None; sp_default_priority := Some priority_default;
            sp_hooks := None; sp_tags := Some ∅ |}) by (vm_compute; reflexivity).
  rewrite Hp in Hc. destruct Hc as [Hs Hr]. unfold demo, demo_create. rewrite Hs. split.
  - revert Hr. vm_compute. intros Hr. exact Hr.
  - vm_compute. eexists. reflexivity.
Defined.

(** The command line cannot speak to a guarded control plane: it presents no token, so with
    secrets configured every command that talks to the server fails and the records stay as
    they were, whatever its arguments, files and network. *)
Theorem cli_shut_out {L} `{HashIter, AuditLogger L, Texts, JsonBytes, CliJson} clock uuid cfg read_file reach link
    run_server own_uuid version endpoint secret command (st : App MemoryState L) :
  operator_token (ac_auth cfg) = Some secret → secret ≠ EmptyString → admin_token (ac_auth cfg) ≠ Some EmptyString →
  remote command = true →
  let c := execute clock uuid cfg read_file reach link run_server own_uuid version endpoint command st in
  ap_store c.1 = ap_store st ∧ ∃ e, c.2 = Failed e.
Proof.
  intros Hop Hne Hadm Hr. apply remote_shut_out; [|done]. intros level. apply not_true_iff_false.
  destruct (authorized_spec (ac_auth cfg) None level) as [_ Ha]. rewrite Ha by (by rewrite Hop).
  unfold secret_for. cbn [default from_option]. destruct level; rewrite ?Hop; [congruence|].
  destruct (admin_token (ac_auth cfg)) as [a|]; rewrite ?Hop; congruence.
Qed.

Definition guarded_config : AppConfig :=
  {| ac_auth := from_config (Some "s3cret"%string) None; ac_boot_ms := 0; ac_version := "0.1.0" |}.

Lemma cli_shut_out_witness :
  ap_store (demo guarded_config demo_create).1 = mem_new ∧ ∃ e, (demo guarded_config demo_create).2 = Failed e.
Proof.
  apply (cli_shut_out (H1 := plain_texts) (fun n => Z.of_nat n) counting_uuid guarded_config
    (fun _ => Ok "spec"%string) (fun i => if decide (i = 0)%nat then Some "refused"%string else None) (fun _ => Carried)
    (fun _ => Ok tt) [] "0.1.0" "http://127.0.0.1:9090" "s3cret" demo_create (fresh_app mem_new)).
  - reflexivity.
  - discriminate.
  - discriminate.
  - reflexivity.
Defined.

(** Tags survive the wire: the flags are accepted exactly when each has an equals sign and no key
    repeats, and what the service decodes is the map of the flags, each split at its first
    equals sign. *)
Theorem tags_survive `{Texts, JsonBytes, CliJson} tags : (∀ m, strings_read_back m) →
  match tags_to_json tags with
  | Ok bytes => Forall (fun t => ∃ k v, tag_of k v t) tags ∧ NoDup (tag_keys tags) ∧
      ∃ m, parse_tags "tags" bytes = Ok m ∧ ∀ k v, m !! k = Some v ↔ ∃ t, t ∈ tags ∧ tag_of k v t
  | Err _ => (∃ t, t ∈ tags ∧ ∀ k v, ¬ tag_of k v t) ∨ ¬ NoDup (tag_keys tags)
  end.
Proof.
  intros Hback. unfold tags_to_json. pose proof (collect_tags_spec tags ∅) as Hc.
  destruct (collect_tags tags ∅) as [m|e]; cbn [rbind].
  - destruct Hc as (Hall&Hnd&_&Hm). destruct (Hback m) as (bytes&->&Hne&Hr). cbn. split_and!; [|done|].
    + eapply Forall_impl; [exact Hall|]. intros t [[k v] Hs]. exists k, v. by apply split_once_eq_spec.
    + exists m. split; [unfold parse_tags; destruct bytes; [done|]; by rewrite Hr|]. intros k v. rewrite Hm.
      rewrite lookup_empty. split; [by intros [|]|by right].
  - destruct Hc as [(t&Ht&Hn)|[|(k&_&[x Hx])]]; [|by right|by rewrite lookup_empty in Hx].
    left. exists t. split; [done|]. intros k v Ho%split_once_eq_spec. congruence.
Qed.

(** A negative number of a spec file wraps into an enormous unsigned one instead of being
    refused. *)
Theorem negative_timeout_wraps : as_u64 (Some (-1)) = 18446744073709551615.
Proof. reflexivity. Qed.

(** A retry section that leaves out the base delay denotes no policy, although each of its
    fields is optional. *)
Theorem partial_retry_refused `{Texts} r : fr_base_delay_ms r = None → blank r = false → file_retries (Some r) = None.
Proof.
  intros Hb Hblank. cbn. rewrite Hblank. unfold file_retry.
  destruct (backoff_word _); [|done]. destruct (jitter_word _); [|done]. cbn. rewrite Hb.
  unfold policy_validate. cbn. destruct (_ || _); done.
Qed.

(** The tally of a list of documents counts every document with a status once: the four
    counters add up, and the last one takes whatever is neither queued, running nor
    succeeded, cancelled runs included. *)
Theorem tally_counts `{JsonBytes} docs :
  let t := tally docs in
  let count name := length (filter (fun s => s = name) (omap status_field docs)) in
  ta_succeeded t = count "succeeded"%string ∧ ta_running t = count "running"%string ∧
  ta_queued t = count "queued"%string ∧
  (ta_succeeded t + ta_running t + ta_queued t + ta_failed t = length (omap status_field docs))%nat.
Proof.
  cbn zeta. unfold tally. induction docs as [|d docs IH] using rev_ind; [done|].
  rewrite foldl_app, omap_app. cbn [foldl omap list_omap]. destruct (status_field d) as [s|]; [|by rewrite app_nil_r].
  rewrite !filter_app, !length_app, !filter_cons, !filter_nil. set (t := foldl _ _ docs) in *. clearbody t.
  destruct IH as (Hs&Hr&Hq&Ht).
  unfold tally_one. repeat case_bool_decide; subst; cbn [ta_succeeded ta_running ta_queued ta_failed length];
    repeat case_decide; try done; cbn [length]; split_and!; lia.
Qed.
