(* ===== verification/Serve.v ===== *)
(** * Booting and the scheduler thread (src/src/cli/serve.rs)

    [boot] wires the components a configuration selects; [scheduler_round] is the body
    of the scheduler thread's loop: a dispatch round, the recovery of expired leases,
    the retention sweep and a poll of the event watcher, with the counters. Other
    threads act before each store call of the dispatcher and before each of the three
    later stages ([others]). *)
From S2P Require Import Prelude RustStrings Ids Status Errors StateMachine Float64 Json RetryPolicy.
From S2P Require Import Workflow Dag Store MemoryStore LruStore StoreLaws Sqlite Events Watcher AuditLog Auth.
From S2P Require Import Pick Executor ExecutorOrder Pool PoolEnd Telemetry Api Config.
Local Open Scope Z_scope.

Definition SCHEDULER_SEED : Z := 5932734216997240833.
Definition DISPATCH_BATCH : nat := 128.

(** ** Booting *)

(** [Arc<dyn Store>] over the two backends. *)
Inductive Backend := OnMemory (s : MemoryState) | OnSqlite (d : Db).

#[export] Instance Backend_Store `{Sqlite} `{HashIter} : Store Backend := fun A c b =>
  match b with
  | OnMemory s => let '(s, a) := call c s in (OnMemory s, a)
  | OnSqlite d => let '(d, a) := call c d in (OnSqlite d, a)
  end.

(** [Arc<dyn AuditLogger>] *)
Inductive AuditBackend := ToMemory (l : MemoryAuditLogger) | ToFile (l : FileAuditLogger).

#[export] Instance AuditBackend_Logger `{RecordCodec} : AuditLogger AuditBackend := {|
  al_record l r := match l with
                   | ToMemory l => let '(l, a) := al_record l r in (ToMemory l, a)
                   | ToFile l => let '(l, a) := al_record l r in (ToFile l, a)
                   end;
  al_query l f := match l with ToMemory l => al_query l f | ToFile l => al_query l f end;
  al_count l f := match l with ToMemory l => al_count l f | ToFile l => al_count l f end
|}.

Section Boot.
Context `{Sqlite, HashIter, RecordCodec} {C : Type} `{LruCache C}.
(** The database at a path, and the audit file that opens there or why none does. *)
Context (database : string → Db) (audit_file : string → result AuditDisk string) (version : string).

Definition open_store (cfg : Config) : result Backend RunvaneError :=
  match cf_sqlite_path cfg with
  | Some path =>
      match sqlite_open (database path) with
      | (d, Ok _) => Ok (OnSqlite d)
      | (_, Err e) => Err (RunvaneError.Storage e)
      end
  | None => Ok (OnMemory mem_new)
  end.

Definition open_audit (cfg : Config) : result AuditBackend RunvaneError :=
  match cf_audit_log_path cfg with
  | Some path =>
      let? disk := map_err (fun e => RunvaneError.Config ("cannot open audit log at " +:+ path +:+ ": " +:+ e))
                     (audit_file path) in
      Ok (ToFile (file_open disk))
  | None => Ok (ToMemory (memory_logger_new (Z.to_nat 10000)))
  end.

(** The state the two servers share. [None] is the panic of a cache without
    capacity; [boot_ms] is the first clock reading. *)
Definition boot (cfg : Config) (boot_ms : Z)
    : result (option (AppConfig * App (LruStore Backend C) AuditBackend)) RunvaneError :=
  let? store := open_store cfg in
  match LruStore.wrap store with
  | None => Ok None
  | Some store =>
      let? audit := open_audit cfg in
      Ok (Some ({| ac_auth := from_config (cf_auth_token cfg) (cf_admin_token cfg); ac_boot_ms := boot_ms;
                   ac_version := version |},
                {| ap_store := store; ap_audit := audit; ap_metrics := metrics_new; ap_reads := 1; ap_ids := 0 |}))
  end.
End Boot.

(** ** The scheduler thread *)

Record Scheduler (S K : Type) := {
  sc_dispatch : Dispatch S;
  sc_watcher : Watcher K;
  sc_metrics : Metrics
}.
Arguments sc_dispatch {S K}.
Arguments sc_watcher {S K}.
Arguments sc_metrics {S K}.

(** [fetch_add(n)] on the counters of a round. *)
Definition round_metrics (m : Metrics) (reaped : Z) (w : WatchStats) : Metrics := {|
  workflow_creations_total := workflow_creations_total m;
  run_submissions_total := run_submissions_total m;
  run_cancellations_total := run_cancellations_total m;
  dispatches_total := fetch_add (dispatches_total m);
  watch_terminals_total := wrap_u64 (watch_terminals_total m + Z.of_nat (wt_finished w));
  event_deliveries_total := wrap_u64 (event_deliveries_total m + Z.of_nat (wt_dispatched w));
  event_deliveries_ok_total := wrap_u64 (event_deliveries_ok_total m + Z.of_nat (wt_dispatched w));
  reaped_runs_total := wrap_u64 (reaped_runs_total m + reaped);
  lease_renewals_total := lease_renewals_total m;
  run_duration := run_duration m; task_duration := task_duration m |}.

Section Scheduler.
Context {S K : Type} `{Store S} `{WebhookSink K} `{EventCodec}.
Context (clock : nat → Z) (fresh : nat → ClaimToken) (others : nat → list AnyCall).

Definition dp_with_store (s : S) (d : Dispatch S) : Dispatch S :=
  {| dp_store := s; dp_pool := dp_pool d; dp_reads := dp_reads d; dp_calls := dp_calls d; dp_tokens := dp_tokens d |}.

(** What the other threads do before the next stage. *)
Definition meanwhile (d : Dispatch S) : Dispatch S :=
  {| dp_store := run_calls (others (dp_calls d)) (dp_store d); dp_pool := dp_pool d; dp_reads := dp_reads d;
     dp_calls := Datatypes.S (dp_calls d); dp_tokens := dp_tokens d |}.

Definition reap_stage (d : Dispatch S) : Dispatch S :=
  let '(d, now) := dp_now clock (meanwhile d) in
  dp_with_store (reap_expired_leases now (dp_store d)).1 d.

Definition retention_stage (retention_ms : option Z) (d : Dispatch S) : Dispatch S * Z :=
  match retention_ms with
  | None => (d, 0)
  | Some window =>
      let '(d, now) := dp_now clock (meanwhile d) in
      let cutoff := wrap_i64 (now - wrap_i64 window) in
      match reap_finished_runs cutoff (dp_store d) with
      | (s, Ok n) => (dp_with_store s d, n)
      | (s, Err _) => (dp_with_store s d, 0)
      end
  end.

(** One iteration of the loop; [None] is a panic of the thread. *)
Definition scheduler_round (lease_ms : Z) (retention_ms : option Z) (sc : Scheduler S K)
    : option (Scheduler S K) :=
  let '(d, stats) := step clock fresh others DISPATCH_BATCH lease_ms (sc_dispatch sc) in
  let d := reap_stage d in
  let '(d, reaped) := retention_stage retention_ms d in
  let '(d, now) := dp_now clock (meanwhile d) in
  match poll (sc_watcher sc) now (dp_store d) with
  | None => None
  | Some (s, w, watch) =>
      Some {| sc_dispatch := dp_with_store s d; sc_watcher := w;
              sc_metrics := round_metrics (sc_metrics sc) reaped watch |}
  end.

(** The loop, for as many rounds as it is let run. *)
Fixpoint scheduler_rounds (n : nat) (lease_ms : Z) (retention_ms : option Z) (sc : Scheduler S K)
    : option (Scheduler S K) :=
  match n with
  | O => Some sc
  | Datatypes.S n =>
      match scheduler_round lease_ms retention_ms sc with
      | None => None
      | Some sc => scheduler_rounds n lease_ms retention_ms sc
      end
  end.
End Scheduler.

(** [spawn_scheduler_thread]: the pool, the dispatcher and the watcher of a boot; [receives]
    is what the pool's threads will take from its channel. *)
Definition spawn_scheduler {S} (store : S) (workers : nat) (receives : list nat) (boot_ms : Z) (metrics : Metrics) : Scheduler S unit := {|
  sc_dispatch := {| dp_store := store; dp_pool := spawn workers receives; dp_reads := 0; dp_calls := 0; dp_tokens := 0 |};
  sc_watcher := with_sink tt boot_ms;
  sc_metrics := metrics
|}.

(** ** Lemmas *)

Section Rounds.
Context {S K : Type} `{Store S} `{WebhookSink K} `{EventCodec}.
Context (clock : nat → Z) (fresh : nat → ClaimToken) (others : nat → list AnyCall).

Lemma round_total lease retention (sc : Scheduler S K) :
  ∃ sc', scheduler_round clock fresh others lease retention sc = Some sc' ∧
    dispatches_total (sc_metrics sc') = fetch_add (dispatches_total (sc_metrics sc)).
Proof.
  unfold scheduler_round. destruct (step _ _ _ _ _ _) as [d st].
  destruct (retention_stage _ _ _ _) as [d2 reaped]. destruct (dp_now _ _) as [d3 now].
  destruct (poll_total (sc_watcher sc) now (dp_store d3)) as (s'&w'&watch&->). by eexists.
Qed.

(** Clock readings of a dispatch round: one for the scan, at most one per entry. *)
Lemma mark_running_reads run_id (d : Dispatch S) :
  (dp_reads d ≤ dp_reads (mark_running clock others run_id d).1 ≤ Datatypes.S (dp_reads d))%nat.
Proof.
  unfold mark_running, dp_call, dp_now.
  repeat (case_match; cbn in *; simplify_eq; try lia).
Qed.

Lemma dispatch_entry_reads now lease e (d : Dispatch S) st :
  (dp_reads d ≤ dp_reads (dispatch_entry clock fresh others now lease e d st).1 ≤ Datatypes.S (dp_reads d))%nat.
Proof.
  assert (Hcall : ∀ A (c : StoreCall A) d, dp_reads (dp_call others c d).1 = dp_reads d)
    by (intros A c d'; unfold dp_call; by destruct (call c _)).
  unfold dispatch_entry. cbn [dp_token].
  set (d0 := {| dp_store := _ |}). pose proof (Hcall _ (Claim (qe_run_id e) (fresh (dp_tokens d)) now lease) d0) as Hr1.
  destruct (dp_call others (Claim _ _ _ _) d0) as [d1 [u|[]]]; cbn in Hr1 |- *; try lia.
  pose proof (mark_running_reads (qe_run_id e) d1) as Hr2.
  destruct (mark_running clock others (qe_run_id e) d1) as [d2 t]. cbn in Hr2.
  set (job := {| jb_run_id := _ |}). assert (dp_reads (dp_submit job d2).1 = dp_reads d2) as Hr3
    by (unfold dp_submit; by destruct (submit _ _)).
  destruct (dp_submit job d2) as [d3 s]. cbn in Hr3. destruct (is_ok t && is_ok s); [cbn; lia|].
  pose proof (Hcall _ (FailClaim (qe_run_id e) (fresh (dp_tokens d))) d3) as Hr4.
  destruct (dp_call others (FailClaim _ _) d3) as [d4 u']. cbn in *. lia.
Qed.

Lemma dispatch_all_reads now lease ready : ∀ (d : Dispatch S) st,
  (dp_reads d ≤ dp_reads (dispatch_all clock fresh others now lease ready d st).1 ≤ dp_reads d + length ready)%nat.
Proof.
  induction ready as [|e ready IH]; intros d st; cbn [dispatch_all length]; [cbn; lia|].
  pose proof (dispatch_entry_reads now lease e d st) as He.
  destruct (dispatch_entry clock fresh others now lease e d st) as [d1 st1]. cbn in He.
  specialize (IH d1 st1). lia.
Qed.
End Rounds.

(** *** On the in-memory store, undisturbed *)

Section Memory.
Context `{HashIter} {K : Type} `{WebhookSink K} `{EventCodec}.
Context (clock : nat → Z) (fresh : nat → ClaimToken).

Lemma step_reads batch lease (d : Dispatch MemoryState) :
  (dp_reads d < dp_reads (step clock fresh alone batch lease d).1 ≤ dp_reads d + 1 + batch)%nat.
Proof.
  unfold step, dp_now, dp_call, alone.
  cbn [run_calls call MemoryStore mem_call dp_store dp_pool dp_calls dp_reads dp_tokens].
  pose proof (dispatch_all_reads clock fresh alone (clock (dp_reads d)) lease
    (mem_scan_ready (clock (dp_reads d)) batch (dp_store d))
    {| dp_store := dp_store d; dp_pool := dp_pool d; dp_reads := Datatypes.S (dp_reads d);
       dp_calls := Datatypes.S (dp_calls d); dp_tokens := dp_tokens d |}
    {| scanned := length (mem_scan_ready (clock (dp_reads d)) batch (dp_store d)); claimed := 0; submit_failed := 0;
       contended := 0 |}) as Hr.
  assert (Hlen : (length (mem_scan_ready (clock (dp_reads d)) batch (dp_store d)) ≤ batch)%nat)
    by (unfold mem_scan_ready; rewrite length_take; lia).
  unfold alone in Hr. cbn [dp_reads] in Hr. lia.
Qed.

Lemma step_wf batch lease (d : Dispatch MemoryState) : mem_wf (dp_store d) →
  mem_wf (dp_store (step clock fresh alone batch lease d).1).
Proof.
  intros Hwf. unfold step, dp_now, dp_call, alone.
  cbn [run_calls call MemoryStore mem_call dp_store dp_pool dp_calls dp_reads dp_tokens].
  set (d1 := {| dp_store := _ |}). assert (Hd1 : mem_wf (dp_store d1)) by exact Hwf. clearbody d1.
  generalize (mem_scan_ready (clock (dp_reads d)) batch (dp_store d)) as ready.
  set (st := stats_default). intros ready.
  assert (Hall : ∀ st', mem_wf (dp_store (dispatch_all clock fresh alone (clock (dp_reads d)) lease ready d1 st').1));
    [|apply Hall].
  revert d1 Hd1. induction ready as [|e ready IH]; intros d1 Hd1 st'; cbn [dispatch_all]; [done|].
  pose proof (dispatch_entry_wf clock fresh alone (clock (dp_reads d)) lease e d1 st' Hd1) as He.
  destruct (dispatch_entry _ _ _ _ _ e d1 st') as [d2 st2]. by apply IH.
Qed.

Lemma mem_recover_wf now s : mem_wf s → mem_wf (mem_recover_expired_leases now s).1.
Proof.
  intros Hwf. pose proof (mem_call_wf (RecoverExpiredLeases now) s Hwf) as Hr.
  cbn [call MemoryStore mem_call] in Hr. by destruct (mem_recover_expired_leases _ _).
Qed.

(** A poll reads the store only. *)
Lemma dispatch_events_store now es : ∀ s (dp : Dispatcher K) s' dp',
  foldl (dispatch_event now) (Some (s, dp)) es = Some (s', dp') → s' = s.
Proof.
  assert (Hnone : ∀ es, foldl (dispatch_event (S := MemoryState) (K := K) now) None es = None)
    by (intros es'; induction es'; done).
  induction es as [|e es IH]; intros s dp s' dp'; cbn [foldl]; [by intros [= -> _]|].
  unfold dispatch_event at 2. destruct e as [[at_ms kind] run]. cbn [call MemoryStore mem_call].
  destruct (mem_get_workflow _ _ s) as [rec|err].
  - destruct (dispatch dp _ kind _) as [[d2 ms]|]; [apply IH|]. by rewrite Hnone.
  - apply IH.
Qed.

Lemma poll_store (w : Watcher K) now (s s' : MemoryState) w' st : poll w now s = Some (s', w', st) → s' = s.
Proof.
  unfold poll. cbn [call MemoryStore mem_call].
  destruct (foldl _ _ _) as [[s1 dp]|] eqn:Hf; [|done]. intros [= <- _ _]. by eapply dispatch_events_store.
Qed.

(** The stages of an undisturbed round, one after the other. *)
Lemma round_alone lease retention (sc : Scheduler MemoryState K) :
  let d := (step clock fresh alone DISPATCH_BATCH lease (sc_dispatch sc)).1 in
  let s := (mem_recover_expired_leases (clock (dp_reads d)) (dp_store d)).1 in
  ∃ sc', scheduler_round clock fresh alone lease retention sc = Some sc' ∧
    dp_pool (sc_dispatch sc') = dp_pool d ∧
    dp_store (sc_dispatch sc') =
      match retention with
      | None => s
      | Some w => (reap_finished_runs (wrap_i64 (clock (Datatypes.S (dp_reads d)) - wrap_i64 w)) s).1
      end.
Proof.
  cbn zeta. unfold scheduler_round. destruct (step _ _ _ _ _ _) as [d st]. cbn [fst].
  unfold reap_stage, retention_stage, reap_expired_leases, meanwhile, dp_now, alone, dp_with_store.
  cbn [run_calls call MemoryStore mem_call dp_store dp_pool dp_calls dp_reads dp_tokens].
  destruct (mem_recover_expired_leases _ _) as [s n].
  destruct retention as [w|]; [destruct (reap_finished_runs _ _) as [s' [k|err]]|];
    cbn [fst dp_store dp_pool dp_calls dp_reads dp_tokens run_calls].
  all: match goal with |- context [poll ?w ?n ?x] =>
         destruct (poll_total w n x) as (s3&w3&watch&Hp) end; rewrite Hp;
       pose proof (poll_store _ _ _ _ _ _ Hp) as ->; eexists; split; [reflexivity|done].
Qed.
End Memory.

(** ** Properties *)

(** C14. Recovery after a crash, on the in-memory store: a queued or running run whose entry is
    due and whose lease, if any, has run out (its worker died) is dispatched again by one round
    of the scheduler thread that no other thread's store calls disturb, when the queue fits the
    batch and the channel has room for all of it: the channel accepts a job for the run, whatever
    the workers receive meanwhile, and the whole round (its own sweep of expired leases, the
    retention sweep and the event poll included) leaves the entry with the token of that job and
    the new lease, as long as the round reads the clock before that lease runs out. (The SQLite
    store refuses a claim on an expired lease until a sweep has cleared it, and the round sweeps
    after it dispatches.) *)
Theorem round_redispatches `{HashIter} {K} `{WebhookSink K} `{EventCodec} clock fresh lease retention e run
    (sc : Scheduler MemoryState K) :
  let d := sc_dispatch sc in
  let rid := rn_id run in
  let exp := wrap_i64 (clock (dp_reads d) + lease) in
  mem_wf (dp_store d) → ms_queue (dp_store d) !! rid = Some e → is_ready e (clock (dp_reads d)) = true →
  ms_runs (dp_store d) !! rid = Some run → run_is_active (rn_status run) = true →
  (size (ms_queue (dp_store d)) ≤ DISPATCH_BATCH)%nat → wp_open (dp_pool d) = true →
  (length (wp_jobs (dp_pool d)) + size (ms_queue (dp_store d)) ≤ wp_bound (dp_pool d))%nat →
  (∀ i, (dp_reads d ≤ i ≤ dp_reads d + 1 + DISPATCH_BATCH)%nat → clock i < exp) →
  ∃ sc' e' new, scheduler_round clock fresh alone lease retention sc = Some sc' ∧
    sent_jobs (dp_pool (sc_dispatch sc')) = sent_jobs (dp_pool d) ++ new ∧
    {| jb_run_id := rid; jb_token := qe_token e' |} ∈ new ∧
    ms_queue (dp_store (sc_dispatch sc')) !! rid = Some e' ∧ qe_lease_until_ms e' = Some exp.
Proof.
  intros d rid exp Hwf He Hready Hrun Hact Hbatch Hopen Hroom Hclock.
  destruct (step_dispatches clock fresh rid DISPATCH_BATCH lease e run d)
    as (token&new&Hnew&Hjob&Hwf'&Hdis); try done.
  destruct Hdis as ((e'&He'&Htok&Hlease)&_).
  pose proof (step_reads clock fresh DISPATCH_BATCH lease d) as Hreads.
  destruct (round_alone clock fresh lease retention sc) as (sc'&Hsc&Hpool&Hstore).
  fold d in Hpool, Hstore. set (d1 := (step clock fresh alone DISPATCH_BATCH lease d).1) in *.
  exists sc', e', new. split; [done|]. rewrite Htok, Hpool. split; [done|]. split; [done|]. split; [|done].
  rewrite Hstore.
  destruct (recover_spec (clock (dp_reads d1)) (dp_store d1) Hwf') as [Hq _]. specialize (Hq rid).
  rewrite He' in Hq. unfold lease_expired in Hq. rewrite Hlease in Hq. fold exp in Hq.
  specialize (Hclock (dp_reads d1) ltac:(lia)). rewrite (proj2 (Z.leb_gt _ _) Hclock) in Hq.
  set (s1 := (mem_recover_expired_leases _ _).1) in *.
  destruct retention as [w|]; [|done].
  assert (Hwf1 : mem_wf s1) by (by apply mem_recover_wf).
  pose proof (reap_spec (wrap_i64 (clock (Datatypes.S (dp_reads d1)) - wrap_i64 w)) s1 Hwf1) as Hr.
  destruct (reap_finished_runs _ s1) as [s2 r]. destruct Hr as (_&_&_&_&Hq2). cbn [fst]. by rewrite Hq2.
Qed.

(** A store whose only worker died: the run is [Running], its lease ended at 1000. *)
Definition abandoned_state : MemoryState :=
  run_calls [Any (PutWorkflow (def_with diamond)); Any (PutRun (run_set_status RunStatus.Running sample_run));
    Any (Enqueue (fresh_entry "rn_0" 0)); Any (Claim "rn_0" "dead" 0 1000)] mem_new.

Definition abandoned_scheduler : Scheduler MemoryState unit := {|
  sc_dispatch := idle_dispatch abandoned_state; sc_watcher := with_sink tt 0; sc_metrics := metrics_new
|}.

#[local] Instance plain_codec : EventCodec := {| sha256_hex := fun s => s; event_text := ev_kind |}.

Lemma round_redispatches_witness :
  ∃ sc' e' new, scheduler_round (fun i => 5000 + Z.of_nat i) unary_token alone 1000 (Some 60000) abandoned_scheduler
      = Some sc' ∧
    sent_jobs (dp_pool (sc_dispatch sc')) = [] ++ new ∧
    {| jb_run_id := "rn_0"; jb_token := qe_token e' |} ∈ new ∧
    ms_queue (dp_store (sc_dispatch sc')) !! "rn_0"%string = Some e' ∧ qe_lease_until_ms e' = Some 6000.
Proof.
  assert (He : ∃ e, ms_queue abandoned_state !! "rn_0"%string = Some e ∧ is_ready e 5000 = true)
    by (eexists; split; vm_compute; reflexivity).
  destruct He as (e&He&Hready).
  apply (round_redispatches (fun i => 5000 + Z.of_nat i) unary_token 1000 (Some 60000) e
    (run_set_status RunStatus.Running sample_run) abandoned_scheduler).
  - apply mem_run_calls_wf, mem_new_wf.
  - exact He.
  - exact Hready.
  - vm_compute. reflexivity.
  - reflexivity.
  - apply (bool_decide_unpack _). vm_compute. exact I.
  - reflexivity.
  - apply (bool_decide_unpack _). vm_compute. exact I.
  - intros i Hi. change (wrap_i64 _) with 6000. unfold DISPATCH_BATCH in Hi. cbn in Hi. lia.
Defined.

(** Housekeeping of a round: whatever the dispatcher did, at the end of an undisturbed round no
    queue entry carries a lease that had run out when the round swept them, and with a
    retention window exactly the runs that finished at or before the cut-off are gone. *)
Theorem round_housekeeping `{HashIter} {K} `{WebhookSink K} `{EventCodec} clock fresh lease retention
    (sc : Scheduler MemoryState K) :
  let d := (step clock fresh alone DISPATCH_BATCH lease (sc_dispatch sc)).1 in
  mem_wf (dp_store (sc_dispatch sc)) →
  ∃ sc', scheduler_round clock fresh alone lease retention sc = Some sc' ∧
    (∀ k e exp, ms_queue (dp_store (sc_dispatch sc')) !! k = Some e → qe_lease_until_ms e = Some exp →
      clock (dp_reads d) < exp) ∧
    ms_runs (dp_store (sc_dispatch sc')) =
      match retention with
      | None => ms_runs (dp_store d)
      | Some w =>
          filter (fun kv => reapable (wrap_i64 (clock (Datatypes.S (dp_reads d)) - wrap_i64 w)) kv.2 = false)
            (ms_runs (dp_store d))
      end.
Proof.
  intros d Hwf. pose proof (step_wf clock fresh DISPATCH_BATCH lease (sc_dispatch sc) Hwf) as Hwf'. fold d in Hwf'.
  destruct (round_alone clock fresh lease retention sc) as (sc'&Hsc&_&Hstore). fold d in Hstore.
  exists sc'. split; [done|]. destruct (recover_spec (clock (dp_reads d)) (dp_store d) Hwf') as [Hq _].
  assert (Hruns : ms_runs (mem_recover_expired_leases (clock (dp_reads d)) (dp_store d)).1 = ms_runs (dp_store d))
    by (unfold mem_recover_expired_leases; by destruct (foldl _ _ _)).
  pose proof (mem_recover_wf (clock (dp_reads d)) (dp_store d) Hwf') as Hwf1.
  set (s1 := (mem_recover_expired_leases _ _).1) in *.
  assert (Hfree : ∀ k e exp, ms_queue s1 !! k = Some e → qe_lease_until_ms e = Some exp → clock (dp_reads d) < exp).
  { intros k e exp. rewrite Hq. destruct (ms_queue (dp_store d) !! k) as [x|]; [|done]. intros [= <-].
    destruct (lease_expired _ x) eqn:Hx; [done|]. intros Hl. unfold lease_expired in Hx. rewrite Hl in Hx.
    by apply Z.leb_gt in Hx. }
  rewrite Hstore. destruct retention as [w|]; [|done].
  pose proof (reap_spec (wrap_i64 (clock (Datatypes.S (dp_reads d)) - wrap_i64 w)) s1 Hwf1) as Hr.
  destruct (reap_finished_runs _ s1) as [s2 r]. destruct Hr as (Hr&_&_&_&Hq2). cbn [fst].
  rewrite Hq2, Hr, Hruns. done.
Qed.

Lemma round_housekeeping_witness :
  let sc := {| sc_dispatch := idle_dispatch finished_state; sc_watcher := with_sink tt 0; sc_metrics := metrics_new |} in
  mem_wf finished_state ∧
  ∃ sc', scheduler_round (fun i => 5000 + Z.of_nat i) unary_token alone 1000 (Some 1000) sc = Some sc' ∧
    ms_runs finished_state ≠ ∅ ∧ ms_runs (dp_store (sc_dispatch sc')) = ∅.
Proof.
  assert (Hwf : mem_wf finished_state).
  { constructor; cbn; intros k x Hx.
    2,3,4: rewrite lookup_empty in Hx; discriminate Hx.
    apply lookup_singleton_Some in Hx as [<- <-]. reflexivity. }
  cbn zeta. split; [exact Hwf|].
  destruct (round_housekeeping (fun i => 5000 + Z.of_nat i) unary_token 1000 (Some 1000)
    {| sc_dispatch := idle_dispatch finished_state; sc_watcher := with_sink tt 0; sc_metrics := metrics_new |} Hwf)
    as (sc'&Hsc&_&Hr).
  exists sc'. split; [exact Hsc|]. split; [intros Hx; vm_compute in Hx; discriminate Hx|].
  rewrite Hr. vm_compute. reflexivity.
Defined.

(** The scheduler thread never panics, on any store and whatever the other threads do, and counts
    its rounds modulo 2{^64}. *)
Theorem scheduler_rounds_total {S K} `{Store S} `{WebhookSink K} `{EventCodec} clock fresh others lease retention n :
  ∀ sc : Scheduler S K, in_u64 (dispatches_total (sc_metrics sc)) →
  ∃ sc', scheduler_rounds clock fresh others n lease retention sc = Some sc' ∧
    dispatches_total (sc_metrics sc') = wrap_u64 (dispatches_total (sc_metrics sc) + Z.of_nat n).
Proof.
  induction n as [|n IH]; intros sc Hu; cbn [scheduler_rounds].
  - exists sc. split; [done|]. rewrite Z.add_0_r. symmetry. by apply wrap_u64_id.
  - destruct (round_total clock fresh others lease retention sc) as (sc1&->&Hd).
    destruct (IH sc1) as (sc'&Hs&Hn); [rewrite Hd; apply wrap_u64_range|].
    exists sc'. split; [done|]. rewrite Hn, Hd. unfold fetch_add, wrap_u64. rewrite Zplus_mod_idemp_l. f_equal. lia.
Qed.
