(* ===== verification/System.v ===== *)
(** * The running control plane

    The components that [serve] starts share one store, one clock and one set of
    counters: the HTTP server, the gRPC service, the scheduler thread and the workers
    behind its channel. An [Activity] is what one of their threads does between two
    looks at its inbox: serve a request, run one round of the scheduler loop, take a job
    from the channel and work on it. [system_step] runs an activity while the other threads make
    the calls of a script between its store calls, and reports the calls it makes
    itself. [reach] is the closure: what any sequence of activities, each under any
    sound interference, leads to from a booted process. *)
From S2P Require Import Prelude RustStrings Ids Status Errors StateMachine Float64 Json RetryPolicy Workflow Dag.
From S2P Require Import Store Interference MemoryStore LruStore Typed Sqlite SqliteSpec TypedSql Events Watcher AuditLog Auth Config.
From S2P Require Import Pick Executor ExecutorLogic ExecutorOrder Pool TypedRun PoolEnd Telemetry Api ApiSpec ApiEnd Grpc TypedApi Serve.
Local Open Scope Z_scope.

(** The store as a thread sees it, with a record of its own calls. *)
Abbreviation Traced S := (Logged (Interfered S)).

Definition enter {S} (script : list (list AnyCall)) (s : S) : Traced S :=
  {| lg_store := {| if_store := s; if_script := script |}; lg_calls := [] |}.

Definition leave {S} (x : Traced S) : S := if_store (lg_store x).

Record System (S L K : Type) := {
  sy_store : S;
  sy_audit : L;
  sy_metrics : Metrics;
  sy_watcher : Watcher K;
  sy_pool : WorkerPool;
  sy_reads : nat;
  sy_ids : nat;
  sy_tokens : nat
}.
Arguments sy_store {S L K}.
Arguments sy_audit {S L K}.
Arguments sy_metrics {S L K}.
Arguments sy_watcher {S L K}.
Arguments sy_pool {S L K}.
Arguments sy_reads {S L K}.
Arguments sy_ids {S L K}.
Arguments sy_tokens {S L K}.

Inductive Activity :=
| Http (presented : option string) (req : Request)
| Rpc (presented : option string) (msg : GrpcCall)
| Round
| Work.

Definition activity_typed (a : Activity) : Prop :=
  match a with Http _ req => request_typed req | Rpc _ msg => rpc_typed msg | Round | Work => True end.

Section System.
Context {S L K : Type} `{Store S, AuditLogger L, Texts, JsonBytes, WebhookSink K, EventCodec}.
Context (registry : gmap HandlerId (Handler (Traced S))) (clock : nat → Z) (seed : Z).
Context (powf : f64 → f64 → f64) (rng : Z → Z → Z) (uuid : nat → list Z) (fresh : nat → ClaimToken).
Context (cfg : AppConfig) (lease_ms : Z) (retention_ms : option Z).

(** The shared state as the servers see it, and back. *)
Definition as_app (x : Traced S) (sy : System S L K) : App (Traced S) L := {|
  ap_store := x; ap_audit := sy_audit sy; ap_metrics := sy_metrics sy; ap_reads := sy_reads sy; ap_ids := sy_ids sy |}.

Definition from_app (sy : System S L K) (st : App (Traced S) L) : System S L K * list AnyCall :=
  ({| sy_store := leave (ap_store st); sy_audit := ap_audit st; sy_metrics := ap_metrics st;
      sy_watcher := sy_watcher sy; sy_pool := sy_pool sy; sy_reads := ap_reads st; sy_ids := ap_ids st;
      sy_tokens := sy_tokens sy |}, lg_calls (ap_store st)).

(** As the scheduler thread sees it, and back. *)
Definition as_scheduler (x : Traced S) (sy : System S L K) : Scheduler (Traced S) K := {|
  sc_dispatch := {| dp_store := x; dp_pool := sy_pool sy; dp_reads := sy_reads sy; dp_calls := 0;
                    dp_tokens := sy_tokens sy |};
  sc_watcher := sy_watcher sy; sc_metrics := sy_metrics sy |}.

Definition from_scheduler (sy : System S L K) (sc : Scheduler (Traced S) K) : System S L K * list AnyCall :=
  let d := sc_dispatch sc in
  ({| sy_store := leave (dp_store d); sy_audit := sy_audit sy; sy_metrics := sc_metrics sc;
      sy_watcher := sc_watcher sc; sy_pool := dp_pool d; sy_reads := dp_reads d; sy_ids := sy_ids sy;
      sy_tokens := dp_tokens d |}, lg_calls (dp_store d)).

(** A worker: the receiving end of the channel gives the oldest job. *)
Definition take_job (sy : System S L K) : option (Job * WorkerPool) :=
  match wp_jobs (sy_pool sy) with
  | [] => None
  | job :: rest => Some (job, {| wp_size := wp_size (sy_pool sy); wp_bound := wp_bound (sy_pool sy);
                                 wp_jobs := rest; wp_open := wp_open (sy_pool sy);
                                 wp_taken := wp_taken (sy_pool sy) ++ [job];
                                 wp_receives := wp_receives (sy_pool sy) |})
  end.

Definition as_world (x : Traced S) (sy : System S L K) : World (Traced S) :=
  {| w_store := x; w_reads := sy_reads sy; w_cancel := false; w_log := [] |}.

Definition from_world (sy : System S L K) (p : WorkerPool) (w : World (Traced S)) : System S L K * list AnyCall :=
  ({| sy_store := leave (w_store w); sy_audit := sy_audit sy; sy_metrics := sy_metrics sy;
      sy_watcher := sy_watcher sy; sy_pool := p; sy_reads := w_reads w; sy_ids := sy_ids sy;
      sy_tokens := sy_tokens sy |}, lg_calls (w_store w)).

(** One activity, with the calls of the script made by the other threads meanwhile. There
    is no scheduler thread without workers, and a round does not panic
    ([scheduler_rounds_total]). *)
Definition system_step (script : list (list AnyCall)) (a : Activity) (sy : System S L K) : System S L K * list AnyCall :=
  let x := enter script (sy_store sy) in
  match a with
  | Http presented req => from_app sy (serve clock uuid cfg presented req (as_app x sy)).1
  | Rpc presented msg => from_app sy (grpc_serve clock uuid cfg presented msg (as_app x sy))
  | Round =>
      if bool_decide (wp_size (sy_pool sy) = 0%nat) then (sy, [])
      else match scheduler_round clock fresh alone lease_ms retention_ms (as_scheduler x sy) with
      | Some sc => from_scheduler sy sc
      | None => (sy, [])
      end
  | Work =>
      match take_job sy with
      | Some (job, p) => from_world sy p (worker_job registry clock seed powf rng job (as_world x sy))
      | None => (sy, [])
      end
  end.

(** Any sequence of activities under sound interference. *)
Inductive reach (sy0 : System S L K) : System S L K → Prop :=
| reach_start : reach sy0 sy0
| reach_act sy script a : reach sy0 sy → Forall (Forall (d_any sound)) script → activity_typed a →
    reach sy0 (system_step script a sy).1.
End System.

(** ** What every activity keeps *)

Section Sound.
Context {S L K : Type} `{Store S, AuditLogger L, Texts, JsonBytes, WebhookSink K, EventCodec}.
Context (I : S → Prop) `{!Upholds sound I}.

Definition traced_inv (x : Traced S) : Prop :=
  (I (leave x) ∧ Forall (Forall (d_any sound)) (if_script (lg_store x))) ∧ Forall (d_any sound) (lg_calls x).

#[export] Instance Traced_upholds : Upholds sound traced_inv := Logged_upholds sound _.

Lemma enter_inv script s : I s → Forall (Forall (d_any sound)) script → traced_inv (enter script s).
Proof. intros Hs Hscript. by repeat split. Qed.

(** *** The scheduler thread *)

Section Rounds.
Context {T : Type} `{Store T} (J : T → Prop) `{!Upholds sound J}.
Context (clock : nat → Z) (fresh : nat → ClaimToken) (Hclock : ∀ n, in_i64 (clock n)).

Lemma alone_sound n : Forall (d_any sound) (alone n).
Proof. constructor. Qed.

Lemma reap_loop_inv before runs : ∀ n (s : T), J s → J (reap_loop before n runs s).1.
Proof.
  induction runs as [|r runs IH]; intros n s Hs; cbn [reap_loop]; [done|].
  destruct (rn_finished_at_ms r) as [f|]; [destruct (f <=? before)|]; try by apply IH.
  pose proof (proj1 (upholds (D := sound) _ (DeleteRun (rn_id r)) s Hs Logic.I)) as Hd.
  destruct (call (DeleteRun (rn_id r)) s) as [s' []]; cbn in Hd; [by apply IH|done].
Qed.

Lemma reap_finished_inv before (s : T) : J s → J (reap_finished_runs before s).1.
Proof.
  intros Hs. unfold reap_finished_runs. pose proof (proj1 (upholds (D := sound) _ (ListRuns filter_default) s Hs Logic.I)) as Hl.
  destruct (call (ListRuns filter_default) s) as [s' []]; cbn in Hl; [by apply reap_loop_inv|done].
Qed.

Lemma dispatch_events_inv now es : ∀ (s : T) (dp : Dispatcher K) s' dp', J s →
  foldl (dispatch_event now) (Some (s, dp)) es = Some (s', dp') → J s'.
Proof.
  assert (Hnone : ∀ es, foldl (dispatch_event (S := T) (K := K) now) None es = None) by (intros es'; induction es'; done).
  induction es as [|[[at_ms kind] run] es IH]; intros s dp s' dp' Hs; cbn [foldl]; [by intros [= <- _]|].
  unfold dispatch_event at 2.
  pose proof (proj1 (upholds (D := sound) _ (GetWorkflow (rn_tenant run) (rn_def_name run)) s Hs Logic.I)) as Hg.
  destruct (call (GetWorkflow (rn_tenant run) (rn_def_name run)) s) as [s1 [rec|]]; cbn in Hg; [|by apply IH].
  destruct (dispatch dp _ _ _) as [[dp1 st]|]; [by apply IH|by rewrite Hnone].
Qed.

Lemma poll_inv (w : Watcher K) now (s s' : T) w' st : J s → poll w now s = Some (s', w', st) → J s'.
Proof.
  intros Hs. unfold poll. pose proof (proj1 (upholds (D := sound) _ (ListRuns filter_default) s Hs Logic.I)) as Hl.
  destruct (call (ListRuns filter_default) s) as [s1 [runs|]]; cbn in Hl; [|by intros [= <- _ _]].
  destruct (foldl _ _ _) as [[s2 dp]|] eqn:Hf; [|done]. intros [= <- _ _]. by eapply dispatch_events_inv.
Qed.

Lemma round_metrics_typed m reaped w : metrics_typed m → metrics_typed (round_metrics m reaped w).
Proof.
  intros [Hc Hh]. unfold counters in Hc. repeat (apply Forall_cons in Hc as [? Hc]). split; [|exact Hh].
  unfold counters; cbn; repeat (constructor; [first [done|apply wrap_u64_range]|]); constructor.
Qed.

Lemma meanwhile_inv (d : Dispatch T) : J (dp_store d) → J (dp_store (meanwhile alone d)).
Proof. done. Qed.

Lemma retention_stage_inv retention (d : Dispatch T) : J (dp_store d) →
  J (dp_store (retention_stage clock alone retention d).1).
Proof.
  intros Hd. unfold retention_stage. destruct retention as [w|]; [|done]. cbn.
  pose proof (reap_finished_inv (wrap_i64 (clock (dp_reads d) - wrap_i64 w)) (dp_store d) Hd) as Hr.
  by destruct (reap_finished_runs _ _) as [s []].
Qed.

Lemma round_inv lease retention (sc sc' : Scheduler T K) :
  J (dp_store (sc_dispatch sc)) → metrics_typed (sc_metrics sc) →
  scheduler_round clock fresh alone lease retention sc = Some sc' →
  J (dp_store (sc_dispatch sc')) ∧ metrics_typed (sc_metrics sc').
Proof.
  intros Hs Hm. unfold scheduler_round.
  pose proof (step_sound J clock Hclock fresh alone alone_sound DISPATCH_BATCH lease (sc_dispatch sc) Hs) as Hd1.
  destruct (step _ _ _ _ _ (sc_dispatch sc)) as [d1 stats]. cbn [fst] in Hd1.
  assert (Hd2 : J (dp_store (reap_stage clock alone d1))).
  { unfold reap_stage, reap_expired_leases. cbn.
    pose proof (proj1 (upholds (D := sound) _ (RecoverExpiredLeases (clock (dp_reads d1))) (dp_store d1) Hd1 Logic.I)) as Hr.
    by destruct (call (RecoverExpiredLeases _) _). }
  pose proof (retention_stage_inv retention _ Hd2) as Hd3. destruct (retention_stage _ _ _ _) as [d3 reaped]. cbn [fst] in Hd3.
  cbn zeta. destruct (dp_now clock (meanwhile alone d3)) as [d4 now] eqn:Hd4.
  assert (Hst4 : J (dp_store d4)) by (by injection Hd4 as <- _).
  destruct (poll (sc_watcher sc) now (dp_store d4)) as [[[s w] watch]|] eqn:Hp; [|done]. intros [= <-]. cbn. split.
  - by eapply poll_inv.
  - by apply round_metrics_typed.
Qed.
End Rounds.

(** *** Every activity *)

Definition system_sound (sy : System S L K) : Prop := I (sy_store sy) ∧ metrics_typed (sy_metrics sy).

Section Acts.
Context (registry : gmap HandlerId (Handler (Traced S))) (clock : nat → Z) (seed : Z).
Context (powf : f64 → f64 → f64) (rng : Z → Z → Z) (uuid : nat → list Z) (fresh : nat → ClaimToken).
Context (cfg : AppConfig) (lease_ms : Z) (retention_ms : option Z).
Context (Hclock : ∀ n, in_i64 (clock n)).
Context (Hreg : ∀ id h ctx x, registry !! id = Some h → traced_inv x → traced_inv (h ctx x).1).

Local Abbreviation system_step := (system_step registry clock seed powf rng uuid fresh cfg lease_ms retention_ms).
Local Abbreviation reach := (reach registry clock seed powf rng uuid fresh cfg lease_ms retention_ms).

Lemma from_app_sound (sy : System S L K) st : app_sound traced_inv st →
  system_sound (from_app sy st).1 ∧ Forall (d_any sound) (from_app sy st).2.
Proof. intros [[[Hi _] Hlog] Hm]. split; [by split|done]. Qed.

Lemma system_step_sound script a sy : system_sound sy → Forall (Forall (d_any sound)) script → activity_typed a →
  system_sound (system_step script a sy).1 ∧ Forall (d_any sound) (system_step script a sy).2.
Proof.
  intros [Hs Hm] Hscript Ha. pose proof (enter_inv script (sy_store sy) Hs Hscript) as Hx.
  assert (Hap : app_sound traced_inv (as_app (enter script (sy_store sy)) sy)) by (by split).
  destruct a as [presented req|presented msg| |]; cbn [System.system_step].
  - apply from_app_sound.
    exact (proj1 (serve_sound traced_inv clock uuid cfg Hclock presented req Ha _ Hap)).
  - apply from_app_sound.
    exact (grpc_serve_sound traced_inv clock uuid cfg Hclock presented msg _ Ha Hap).
  - case_bool_decide; [by split; [split|constructor]|].
    destruct (scheduler_round _ _ _ _ _ _) as [sc|] eqn:Hr; [|by split; [split|constructor]].
    destruct (round_inv traced_inv clock fresh Hclock _ _ (as_scheduler (enter script (sy_store sy)) sy) sc Hx Hm Hr)
      as [[[Hi _] Hlog] Hm'].
    split; [by split|done].
  - destruct (take_job sy) as [[job p]|]; [|by split; [split|constructor]].
    pose proof (worker_job_sound traced_inv registry clock seed powf rng Hclock Hreg job
      (as_world (enter script (sy_store sy)) sy) Hx) as [[Hi _] Hlog].
    split; [by split|done].
Qed.

Lemma reach_sound sy0 sy : system_sound sy0 → reach sy0 sy → system_sound sy.
Proof. intros Hsy0. induction 1 as [|sy script a _ IH Hscript Ha]; [done|]. by apply system_step_sound. Qed.
End Acts.
End Sound.

(** ** A booted process *)

Definition backend_sound `{DocCodec} (b : Backend) : Prop :=
  match b with OnMemory s => mem_sound s | OnSqlite d => db_sound d end.

#[export] Instance Backend_upholds `{DocCodec} `{HashIter} : Upholds sound backend_sound.
Proof.
  intros A c [s|d] Hb Hc; unfold call, Backend_Store.
  - pose proof (upholds (D := sound) A c s Hb Hc) as Hu. by destruct (call c s).
  - pose proof (upholds (D := sound) A c d Hb Hc) as Hu. by destruct (call c d).
Qed.

Section Booted.
Context `{DocCodec, HashIter, RecordCodec} {C : Type} `{LruLaws C}.
Context (database : string → Db) (audit_file : string → result AuditDisk string) (version : string).

(** The process [serve] has started: the watcher is anchored at the second reading. *)
Definition booted (cfg : Config) (clock : nat → Z) (app : App (LruStore Backend C) AuditBackend)
    : System (LruStore Backend C) AuditBackend unit := {|
  sy_store := ap_store app; sy_audit := ap_audit app; sy_metrics := ap_metrics app;
  sy_watcher := with_sink tt (clock 1%nat); sy_pool := spawn (Z.to_nat (cf_workers cfg)) []; sy_reads := 2;
  sy_ids := ap_ids app; sy_tokens := 0 |}.

Lemma boot_sound cfg boot_ms acfg app : (∀ path, db_sound (database path)) →
  boot (C := C) database audit_file version cfg boot_ms = Ok (Some (acfg, app)) →
  lru_sound backend_sound (ap_store app) ∧ ap_metrics app = metrics_new.
Proof.
  intros Hdb. unfold boot.
  assert (Hopen : ok_is backend_sound (open_store database cfg)).
  { unfold open_store. destruct (cf_sqlite_path cfg) as [path|]; [|apply mem_new_sound].
    pose proof (retains_open (database path) (Hdb path)) as [Ho _]. by destruct (sqlite_open (database path)) as [d []]. }
  destruct (open_store database cfg) as [store|]; [|done]. cbn [rbind] in *.
  destruct (open_audit audit_file cfg) as [audit|]; [|done]. cbn. intros [= <- <-]. split; [|done].
  split; [done|]. intros k rec. cbn. by rewrite lru_peek_new.
Qed.
End Booted.

(** ** Property *)

(** C2. The control plane is type-sound. Start the process on any configuration, with a
    new or previously written database, and let its threads serve any well-typed HTTP and
    gRPC requests, run scheduler rounds and work on jobs in any order, each with
    arbitrary sound calls of the other threads between its own. Then every stored record
    has the machine types of its fields and every stored definition passed validation
    (valid retry policies, distinct task names, a topological order), on the in-memory
    and on the SQLite store behind the cache; every call any thread goes on to make is
    sound again, so the threads are sound interference for each other; and an attempt can
    panic only if a handler does. *)
Theorem control_plane_sound `{DocCodec, HashIter, RecordCodec, Texts, JsonBytes, EventCodec} {C} `{LruLaws C}
    database audit_file version registry clock seed powf rng uuid fresh cfg lease_ms retention_ms acfg
    (app : App (LruStore Backend C) AuditBackend) sy :
  (∀ n, in_i64 (clock n)) → (∀ path, db_sound (database path)) →
  (∀ id h ctx x, registry !! id = Some h → traced_inv (lru_sound backend_sound) x →
    traced_inv (lru_sound backend_sound) (h ctx x).1) →
  boot database audit_file version cfg (clock 0%nat) = Ok (Some (acfg, app)) →
  reach registry clock seed powf rng uuid fresh acfg lease_ms retention_ms (booted cfg clock app) sy →
  system_sound (lru_sound backend_sound) sy ∧
  ∀ script, Forall (Forall (d_any sound)) script →
    (∀ a, activity_typed a →
      Forall (d_any sound) (system_step registry clock seed powf rng uuid fresh acfg lease_ms retention_ms script a sy).2) ∧
    ∀ job, let r := attempt_with_token registry clock seed powf rng (jb_run_id job) (Some (jb_token job)) 60000
                      (as_world (enter script (sy_store sy)) sy) in
      r.2 = Abort Panicked → ∃ c, c ∈ w_log r.1 ∧ hc_outcome c = Unwound.
Proof.
  intros Hclock Hdb Hreg Hboot Hreach.
  assert (Hsy : system_sound (lru_sound backend_sound) sy).
  { eapply (reach_sound (lru_sound backend_sound)); [exact Hclock|exact Hreg| |exact Hreach].
    destruct (boot_sound _ _ _ _ _ _ _ Hdb Hboot) as [Hs Hm]. split; [exact Hs|]. cbn. rewrite Hm. apply metrics_new_typed. }
  split; [done|]. intros script Hscript. split.
  - intros a Ha. by apply (system_step_sound (lru_sound backend_sound)).
  - intros job. cbn zeta. apply (attempt_panics_by_handler (traced_inv (lru_sound backend_sound))).
    by apply enter_inv; [apply Hsy|].
Qed.

(** *** A process that serves, dispatches and works *)

#[local] Instance demo_sqlite : Sqlite := plain_sqlite no_fault.

Lemma demo_codec : DocCodec.
Proof.
  constructor.
  - intros d _. cbn. constructor; try done; cbn; [constructor|by exists []].
  - intros r _. by constructor.
  - intros t _. by constructor.
Qed.

#[local] Instance demo_texts : Texts := plain_texts.
#[local] Instance demo_bytes : JsonBytes := {|
  jb_value _ := Err "expected value"%string; jb_strings _ := Err "expected value"%string;
  jb_object _ := Err "expected value"%string |}.
#[local] Instance demo_events : EventCodec := {| sha256_hex := fun s => s; event_text := ev_kind |}.
#[local] Instance demo_records : RecordCodec := sample_codec.

Definition demo_clock (n : nat) : Z := sat_i64 (1000 * Z.of_nat n).

Definition demo_handler {S} : Handler S := fun _ s => (s, Returned (Ok JNull)).

Definition demo_registry {S} : gmap HandlerId (Handler S) :=
  <["runvane.echo"%string := demo_handler]> {["runvane.noop"%string := demo_handler]}.

Definition demo_config : AppConfig :=
  {| ac_auth := from_config None None; ac_boot_ms := demo_clock 0; ac_version := "0.1.0" |}.

Definition demo_app : App (LruStore Backend ListLru) AuditBackend := {|
  ap_store := {| ls_inner := OnMemory mem_new; ls_cache := lru_new DEFAULT_CACHE_CAPACITY; ls_hits := 0; ls_misses := 0 |};
  ap_audit := ToMemory (memory_logger_new (Z.to_nat 10000)); ap_metrics := metrics_new; ap_reads := 1; ap_ids := 0 |}.

(** Another thread counts the queue and sweeps the leases before the second call. *)
Definition demo_script : list (list AnyCall) := [[]; [Any LenQueue; Any (RecoverExpiredLeases 5)]].

Definition demo_act (a : Activity) (sy : System (LruStore Backend ListLru) AuditBackend unit) :=
  (system_step demo_registry demo_clock 0 (fun x _ => x) (fun _ u => u) counting_uuid unary_token demo_config 60000 None
     demo_script a sy).1.

Definition demo_activities : list Activity :=
  [Http None (ReqCreateWorkflow two_steps); Http None (ReqSubmitRun "acme" "etl" no_body); Round; Work].

Definition demo_end : System (LruStore Backend ListLru) AuditBackend unit :=
  foldl (fun sy a => demo_act a sy) (booted config_default demo_clock demo_app) demo_activities.

(** The statuses of the stored runs. *)
Definition demo_statuses (b : Backend) : list RunStatus :=
  match b with OnMemory s => map (fun kv => rn_status kv.2) (map_to_list (ms_runs s)) | OnSqlite _ => [] end.

Lemma control_plane_sound_witness :
  demo_statuses (ls_inner (sy_store demo_end)) = [RunStatus.Succeeded] ∧
  system_sound (lru_sound (backend_sound (H0 := demo_codec))) demo_end.
Proof.
  split; [vm_compute; reflexivity|].
  refine (proj1 (control_plane_sound (H0 := demo_codec) (fun _ => db_empty) (fun _ => Err "none"%string) "0.1.0"
    demo_registry demo_clock 0 (fun x _ => x) (fun _ u => u) counting_uuid unary_token config_default 60000 None
    demo_config demo_app demo_end _ _ _ _ _)).
  - intros n. apply sat_i64_range.
  - intros path. constructor; apply map_Forall_empty.
  - intros id h ctx x Hh. unfold demo_registry in Hh.
    apply lookup_insert_Some in Hh as [[_ <-]|[_ Hh]]; [done|]. by apply lookup_singleton_Some in Hh as [_ <-].
  - reflexivity.
  - unfold demo_end, demo_activities. cbn [foldl].
    repeat (apply reach_act; [|repeat constructor|]); try constructor; cbn; repeat constructor.
Defined.
