(* ===== verification/Process.v ===== *)
(** * The server process and the program's exit
    (src/src/cli/serve.rs: [serve]; src/src/main.rs)

    [serve] as the sequence of what it starts and stops: the scheduler thread, the HTTP
    listener, the task of the gRPC listener, and the shutdown after the signal. Sockets,
    the two server loops and the signal are the [Host]. [main] turns the result of a
    command into the exit status and what is written to the error stream. *)
From S2P Require Import Prelude RustStrings Ids Status Errors Float64 Json Workflow Store MemoryStore LruStore Sqlite.
From S2P Require Import AuditLog Auth Config Pool Telemetry Api Grpc Cli Serve.
Local Open Scope Z_scope.

(** The operating system and the two server loops, as far as [serve] observes them:
    binding a listener (with the text of the error), [FromStr] of [SocketAddr], what the
    gRPC server's loop ends with before it is aborted, and what the HTTP loop ends with
    once the shutdown signal has come. *)
Class Host := {
  ho_bind : string → result unit string;
  ho_socket_addr : string → result unit string;
  ho_grpc_loop : string → result unit string;
  ho_http_loop : result unit string
}.

(** The spawned task of the gRPC listener. Nobody awaits it, so its end is not reported. *)
Inductive GrpcTask :=
| GrpcUnwound
| GrpcEnded (r : result unit string).

(** What the process does, in order. *)
Inductive Effect :=
| SchedulerSpawned (workers : nat) (lease_ms poll_ms : Z) (retention_ms : option Z)
| HttpBound (addr : string)
| GrpcSpawned (task : GrpcTask)
| HttpServed
| StopRaised
| GrpcAborted.

Section Serve.
Context `{Host}.

(** [grpc_addr.parse().unwrap()] inside the task, then the server loop. *)
Definition grpc_task (addr : string) : GrpcTask :=
  match ho_socket_addr addr with
  | Err _ => GrpcUnwound
  | Ok _ => GrpcEnded (ho_grpc_loop addr)
  end.

(** [spawn_scheduler_thread], when there are workers. The pause between rounds is at
    least a millisecond. *)
Definition start_scheduler (cfg : Config) : list Effect :=
  if 0 <? cf_workers cfg then
    [SchedulerSpawned (Z.to_nat (cf_workers cfg)) (cf_lease_ms cfg) (Z.max (cf_reap_interval_ms cfg) 1) (cf_retention_ms cfg)]
  else [].

(** [serve] once the shared state is up. *)
Definition serve_listeners (cfg : Config) : list Effect * result unit RunvaneError :=
  let started := start_scheduler cfg in
  match ho_bind (http_addr cfg) with
  | Err e => (started, Err (RunvaneError.Server ("cannot bind http listener: " +:+ e)))
  | Ok _ =>
      let up := started ++ [HttpBound (http_addr cfg); GrpcSpawned (grpc_task (grpc_addr cfg))] in
      match ho_http_loop with
      | Err e => (up, Err (RunvaneError.Server ("http listener failed: " +:+ e)))
      | Ok _ => (up ++ [HttpServed; StopRaised; GrpcAborted], Ok tt)
      end
  end.

Context `{Sqlite, HashIter, RecordCodec} {C : Type} `{LruCache C}.
Context (toml_parse : string → result ConfigFile string) (read_file : string → result string string).
Context (str_debug : string → string) (env : gmap string string).
Context (database : string → Db) (audit_file : string → result AuditDisk string) (version : string) (boot_ms : Z).

(** The whole command: the configuration, the shared state, the listeners. A cache
    without capacity panics. *)
Definition run_serve (args : ServeArgs) : list Effect * Exit :=
  match resolved_config toml_parse read_file str_debug env args with
  | Err e => ([], Failed e)
  | Ok cfg =>
      match boot (C := C) database audit_file version cfg boot_ms with
      | Err e => ([], Failed e)
      | Ok None => ([], Panicked)
      | Ok (Some _) =>
          let '(effects, r) := serve_listeners cfg in
          (effects, match r with Ok _ => Printed EmptyString | Err e => Failed e end)
      end
  end.
End Serve.

(** ** The program *)

(** The filter of the log subscriber: [RUST_LOG] unless it is unset or empty. *)
Definition log_filter (env : gmap string string) : string :=
  match env !! "RUST_LOG"%string with
  | Some v => if is_empty v then "info" else v
  | None => "info"
  end.

(** The exit status and the line on the error stream; a panic ends the main thread. *)
Definition main_exit `{Texts} (e : Exit) : Z * string :=
  match e with
  | Printed _ => (0, EmptyString)
  | Failed err => (1, println ("runvane: " +:+ runvane_error_text err))
  | Panicked => (101, EmptyString)
  end.

(** [main] on the command line clap parsed, or the status clap exits with. *)
Definition main {S L} `{Texts} (parsed : result Command Z) (run : Command → App S L → App S L * Exit) (st : App S L)
    : App S L * (Z * string) :=
  match parsed with
  | Err code => (st, (code, EmptyString))
  | Ok command => let '(st, e) := run command st in (st, main_exit e)
  end.

(** ** What a run of the server leaves behind *)

Definition is_spawn (e : Effect) : bool := match e with SchedulerSpawned _ _ _ _ => true | _ => false end.

(** The scheduler thread runs on: it was spawned and the stop flag was never raised. *)
Definition scheduler_left (effects : list Effect) : bool :=
  existsb is_spawn effects && negb (existsb (fun e => match e with StopRaised => true | _ => false end) effects).

Section Lemmas.
Context `{Host}.

Lemma start_scheduler_spawns cfg : existsb is_spawn (start_scheduler cfg) = (0 <? cf_workers cfg) ∧
  existsb (fun e => match e with StopRaised => true | _ => false end) (start_scheduler cfg) = false.
Proof. unfold start_scheduler. by destruct (0 <? cf_workers cfg). Qed.

(** The command ends well exactly when the listener could be bound and the HTTP loop
    ended well; then the stop flag was raised. Otherwise the scheduler thread of a
    process with workers is left running when the error is reported. *)
Lemma serve_listeners_spec cfg :
  let '(effects, r) := serve_listeners cfg in
  (is_ok r = true ↔ is_ok (ho_bind (http_addr cfg)) = true ∧ is_ok ho_http_loop = true) ∧
  scheduler_left effects = negb (is_ok r) && (0 <? cf_workers cfg) ∧
  (is_ok r = true → last effects = Some GrpcAborted).
Proof.
  unfold serve_listeners, scheduler_left. cbn zeta. destruct (start_scheduler_spawns cfg) as [Hsp Hst].
  destruct (ho_bind (http_addr cfg)) as [[]|e]; [|cbn; rewrite Hsp, Hst, andb_true_r; naive_solver].
  destruct ho_http_loop as [[]|e]; rewrite !existsb_app, Hsp, Hst; cbn; rewrite ?orb_false_r, ?andb_true_r, ?andb_false_r.
  - split_and!; try done. intros _. change [HttpServed; StopRaised; GrpcAborted] with ([HttpServed; StopRaised] ++ [GrpcAborted]).
    by rewrite (assoc_L (++)), last_snoc.
  - naive_solver.
Qed.

(** A host name instead of an address: the HTTP listener comes up, the task of the gRPC
    listener unwinds, and the command still ends well. *)
Lemma grpc_lost_silently cfg : is_ok (ho_bind (http_addr cfg)) = true → is_ok ho_http_loop = true →
  is_ok (ho_socket_addr (grpc_addr cfg)) = false →
  GrpcSpawned GrpcUnwound ∈ (serve_listeners cfg).1 ∧ (serve_listeners cfg).2 = Ok tt.
Proof.
  intros Hb Hh Hs. unfold serve_listeners, grpc_task. destruct (ho_bind _) as [[]|]; [|done].
  destruct ho_http_loop as [[]|]; [|done]. destruct (ho_socket_addr _); [done|]. split; [|done]. cbn. set_solver.
Qed.
End Lemmas.

(** The state is always up once the stores have opened: the cache has a capacity. *)
Lemma boot_no_panic `{Sqlite, HashIter, RecordCodec} {C} `{LruCache C} database audit_file version cfg boot_ms :
  boot (C := C) database audit_file version cfg boot_ms ≠ Ok None.
Proof.
  unfold boot. destruct (open_store database cfg); [|done]. cbn. by destruct (open_audit audit_file cfg).
Qed.
