(* ===== verification/Replay.v ===== *)
(** * The repository's unit tests, replayed on the model (domain layer)

    Each lemma evaluates the definitions of this development on the inputs of one
    [#[test]] function of src/src/domain, src/src/state, src/src/retry,
    src/src/scheduler, src/src/clock, src/src/persistence/filter.rs and src/src/auth.rs, and states
    what that function asserts. They are checks of the translation, run by the kernel:
    a definition that departs from the code on an input its authors chose fails here.
    A test of a serde round trip has no counterpart where the codec is a parameter. *)
From S2P Require Import Prelude RustStrings Text Ids Status Errors StateMachine Float64 Json.
From S2P Require Import RetryPolicy Workflow Versioning Dag DryRun Validation Cron Store.
From S2P Require Import Auth Pick Throttle Clock.
Local Open Scope Z_scope.

(** ** Fixtures *)

Ltac replay := vm_compute; repeat split; try reflexivity; try discriminate.

Definition is_err {A E} (r : result A E) : bool := negb (is_ok r).

Definition letters (c : string) (n : nat) : string := Nat.iter n (String.append c) "".

(** Stands for [{:?}] where a message is not looked at. *)
Definition shown (s : string) : string := s.

(** [str::contains] *)
Definition has (p s : string) : bool := bool_decide (is_Some (find p s)).

Definition same_edges {L} `{EqDecision L} (l k : list (L * L)) : bool :=
  forallb (fun e => bool_decide (e ∈ k)) l && forallb (fun e => bool_decide (e ∈ l)) k.

Definition plain_task (name : string) (deps : list string) (input : Json) : TaskSpec := {|
  ts_name := name; ts_handler := "runvane.echo"; ts_input := input; ts_depends_on := deps;
  ts_timeout_ms := None; ts_retry := None; ts_meta := ∅
|}.

Definition plain_def (tasks : list TaskSpec) : WorkflowDef := {|
  wd_id := "wf_x"; wd_tenant := "acme"; wd_name := "nightly"; wd_version := 1;
  wd_description := ""; wd_tasks := tasks; wd_timeout_ms := 60000;
  wd_retry := retry_fixed 3 1000; wd_default_priority := priority_default;
  wd_hooks := hooks_default; wd_tags := ∅; wd_spec_version := 1; wd_created_at_ms := 0;
  wd_updated_at_ms := 0
|}.

(** ** src/src/domain/ids.rs *)
Module IdTests.
Definition uuid : list Z := [18; 52; 86; 120; 154; 188; 64; 222; 128; 17; 34; 51; 68; 85; 102; 119].

Definition parse (k : IdKind) (v : string) : result string IdError := parse_id k shown v.

Lemma run_id_parses_and_round_trips :
  parse RunId_kind (generate_id uuid "rn_") = Ok (generate_id uuid "rn_").
Proof. replay. Qed.

Lemma rejected_ids :
  parse RunId_kind "wf_aaaa" = Err (WrongPrefix "wf_aaaa" "rn_") ∧
  parse WorkflowId_kind "wf_" = Err (Malformed "wf" "wf_" "missing id body") ∧
  parse RunId_kind ("rn_" +:+ letters "a" (Z.to_nat MAX_ID_LEN))
    = Err (TooLong ("rn_" +:+ letters "a" (Z.to_nat MAX_ID_LEN)) MAX_ID_LEN) ∧
  parse RunId_kind "rn_z!" = Err (Malformed "entity" "z!" "invalid base32hex character z").
Proof. replay. Qed.

Lemma node_encode_decoder_round_trip :
  decode_base32hex shown (encode_base32hex [0; 1; 2; 3; 255; 170; 85]) 16
    = Ok [0; 1; 2; 3; 255; 170; 85] ∧
  is_err (decode_base32hex shown "000G40VVL9AG" 16) = true.
Proof. replay. Qed.

Lemma tenant_id_validation :
  map (fun t => is_ok (TenantId_parse t))
    ["acme"; "a-1-b"; "Acme"; "1acme"; "acme!"; ""; letters "a" 49]%string
  = [true; true; false; false; false; false; false].
Proof. replay. Qed.

Lemma handler_id_validation :
  map (fun h => is_ok (HandlerId_parse h))
    ["runvane.http.call"; "shell"; "runvane..dup"; "runvane."; ".leading"; "UPPER";
     "has space"]%string
  = [true; true; false; false; false; false; false].
Proof. replay. Qed.

Lemma audit_record_id_round_trips :
  parse AuditRecordId_kind (generate_id uuid "au_") = Ok (generate_id uuid "au_").
Proof. replay. Qed.
End IdTests.

(** ** src/src/domain/status.rs, error.rs and workflow.rs *)
Module DomainTests.
Lemma run_status_labels_and_flags :
  run_is_terminal RunStatus.Succeeded = true ∧ run_is_terminal RunStatus.TimedOut = true ∧
  run_is_terminal RunStatus.Running = false ∧ run_is_active RunStatus.Queued = true ∧
  run_is_active RunStatus.Cancelled = false ∧ run_label RunStatus.Failed = "failed"%string.
Proof. replay. Qed.

Lemma task_status_flags :
  task_is_terminal TaskStatus.Succeeded = true ∧ task_is_active TaskStatus.Pending = true ∧
  task_is_active TaskStatus.Running = true ∧ task_is_terminal TaskStatus.Failed = true.
Proof. replay. Qed.

Lemma failure_kinds_retry :
  map retryable [FailureKind.TransientFailure; FailureKind.Timeout; FailureKind.InvalidInput;
                 FailureKind.Rejected] = [true; true; false; false].
Proof. replay. Qed.

Lemma priority_ordering :
  priority_value Priority.High > priority_value Priority.Normal ∧
  priority_value Priority.Normal > priority_value Priority.Low ∧
  priority_default = Priority.Normal.
Proof. replay. Qed.

Lemma error_categories :
  domain_category (DomainError.IllegalTransition RunStatus.Succeeded RunStatus.Queued)
    = "state_machine"%string ∧
  domain_http_status (DomainError.IllegalTransition RunStatus.Succeeded RunStatus.Queued) = 409 ∧
  domain_category (DomainError.InvalidName "bad") = "validation"%string ∧
  domain_http_status (DomainError.InvalidName "bad") = 400 ∧
  domain_http_status (DomainError.NotFound "run" "rn_x") = 404 ∧
  domain_category (DomainError.NotFound "run" "rn_x") = "not_found"%string ∧
  domain_category (DomainError.IllegalTaskTransition TaskStatus.Succeeded TaskStatus.Running)
    = "state_machine"%string.
Proof. replay. Qed.

Definition hook_to (url : string) : HookSpec :=
  {| webhook_url := Some url; event_filter := None; headers := ∅ |}.

Lemma hooks_iterate_in_stable_order :
  omap webhook_url (all_hooks {| on_start := [hook_to "u1"]; on_success := [hook_to "u2"];
    on_failure := [hook_to "u3"]; on_cancel := [hook_to "u4"] |}) = ["u1"; "u2"; "u3"; "u4"]%string.
Proof. replay. Qed.

Lemma minimal_validity_guards :
  is_minimally_valid (plain_def [plain_task "a" [] JNull]) = true ∧
  is_minimally_valid workflow_default = false.
Proof. replay. Qed.

Lemma description_length_capped :
  sanitize_description (letters "x" 512) = Ok tt ∧
  sanitize_description (letters "x" 513) = Err DomainError.DescriptionTooLong.
Proof. replay. Qed.
End DomainTests.

(** ** src/src/domain/retry_policy.rs, src/src/retry *)
Module RetryTests.
Definition sample : RetryPolicy := retry_exponential 3 1000 30000.

Definition with_attempts (n : Z) (p : RetryPolicy) : RetryPolicy := {|
  max_attempts := n; base_delay_ms := base_delay_ms p; max_delay_ms := max_delay_ms p;
  multiplier := multiplier p; backoff := backoff p; jitter := jitter p;
  retryable_only := retryable_only p |}.

Definition with_delays (base max : Z) (p : RetryPolicy) : RetryPolicy := {|
  max_attempts := max_attempts p; base_delay_ms := base; max_delay_ms := max;
  multiplier := multiplier p; backoff := backoff p; jitter := jitter p;
  retryable_only := retryable_only p |}.

Definition with_curve (k : BackoffKind) (m : f64) (j : JitterKind) (p : RetryPolicy) : RetryPolicy := {|
  max_attempts := max_attempts p; base_delay_ms := base_delay_ms p; max_delay_ms := max_delay_ms p;
  multiplier := m; backoff := k; jitter := j; retryable_only := retryable_only p |}.

Definition strict (p : RetryPolicy) : RetryPolicy := {|
  max_attempts := max_attempts p; base_delay_ms := base_delay_ms p; max_delay_ms := max_delay_ms p;
  multiplier := multiplier p; backoff := backoff p; jitter := jitter p; retryable_only := true |}.

(** [powf] at a natural exponent, by repeated multiplication; a power above every
    finite value of a base of two or more is infinite. *)
Definition powf (x y : f64) : f64 :=
  let n := f64_trunc y in
  if 2000 <? n then S754_infinity false else Nat.iter (Z.to_nat n) (f64_mul x) f64_one.

Definition one_and_a_half : f64 := f64_div (f64_of_Z 3) (f64_of_Z 2).
Definition one_half : f64 := f64_div f64_one (f64_of_Z 2).

Lemma policies_validate :
  policy_validate retry_default = Ok tt ∧ policy_validate sample = Ok tt ∧
  backoff sample = Exponential ∧ jitter sample = JitterKind.Full.
Proof. replay. Qed.

Lemma bad_policies_rejected :
  policy_validate (with_attempts 0 sample) = Err (BadAttempts 0) ∧
  policy_validate (with_attempts (MAX_ATTEMPTS + 1) sample) = Err (BadAttempts (MAX_ATTEMPTS + 1)) ∧
  policy_validate (with_delays 0 30000 sample) = Err (ZeroBaseDelay 0) ∧
  policy_validate (with_delays 500 100 sample) = Err (MaxBelowBase 100 500) ∧
  policy_validate (with_delays 1000 (MAX_BACKOFF_MS + 1) sample)
    = Err (DelayOverCeiling (MAX_BACKOFF_MS + 1)) ∧
  forallb (fun m => is_err (policy_validate (with_curve Exponential m JitterKind.Full sample)))
    [one_half; S754_nan; S754_infinity false] = true.
Proof. replay. Qed.

Lemma fixed_policy_shape :
  let p := retry_fixed 5 2000 in
  backoff p = Fixed ∧ jitter p = JitterKind.None ∧ f64_eqb (multiplier p) f64_one = true ∧
  policy_validate p = Ok tt.
Proof. replay. Qed.

Lemma allows_attempt_semantics :
  map (allows_attempt (retry_fixed 3 1000)) [0; 1; 2; 3; 4] = [true; true; true; false; false].
Proof. replay. Qed.

Lemma fixed_without_jitter_is_constant :
  map (raw_delay powf (retry_fixed 5 2000)) [0; 1; 2; 3; 4] = replicate 5 (Some 2000) ∧
  map (next_delay powf (fun _ => 0) (retry_fixed 5 2000)) [0; 1; 2; 3; 4] = replicate 5 (Some 2000).
Proof. replay. Qed.

Lemma exponential_raw_grows_and_caps :
  map (raw_delay powf (with_curve Exponential (f64_of_Z 2) JitterKind.None
                         (with_delays 1000 4000 (with_attempts 10 sample)))) [0; 1; 2; 3]
  = [Some 1000; Some 2000; Some 4000; Some 4000].
Proof. replay. Qed.

Lemma linear_adds_per_attempt :
  map (raw_delay powf (with_curve Linear one_and_a_half JitterKind.None
                         (with_delays 1000 10000 (with_attempts 10 sample)))) [0; 1; 2]
  = [Some 1000; Some 1500; Some 2000].
Proof. replay. Qed.

Lemma huge_attempt_index_does_not_overflow_or_panic :
  raw_delay powf (retry_exponential 100 1000 60000) u32_max = Some 60000 ∧
  raw_delay powf (with_curve Linear (f64_of_Z 2) JitterKind.None
                    (retry_exponential 100 1000 60000)) u32_max = Some 60000.
Proof. replay. Qed.

Lemma should_retry_respects_attempt_budget :
  map (fun n => should_retry (retry_fixed 3 100) n true) [0; 2; 3] = [true; true; false] ∧
  should_retry (strict (retry_fixed 3 100)) 0 false = false ∧
  should_retry (strict (retry_fixed 3 100)) 0 true = true.
Proof. replay. Qed.

Lemma next_attempt_at_ms_exhaustion :
  next_attempt_at_ms powf (fun _ _ => 0) (retry_fixed 1 1000) 1 true 5000 42 = Some None ∧
  next_attempt_at_ms powf (fun _ _ => 0) (retry_fixed 2 1000) 1 true 5000 42 = Some (Some 6000).
Proof. replay. Qed.

Lemma planner_decisions :
  let planned p k := plan powf (fun _ _ => 0) p 5000 1 1 k in
  planned (retry_fixed 1 1000) FailureKind.TransientFailure = Some GiveUp ∧
  planned (retry_fixed 3 1000) FailureKind.TransientFailure = Some (RetryAt 6000) ∧
  planned (strict (retry_fixed 3 1000)) FailureKind.Rejected = Some GiveUp ∧
  planned (strict (retry_fixed 3 1000)) FailureKind.TransientFailure = Some (RetryAt 6000).
Proof. replay. Qed.
End RetryTests.

(** ** src/src/domain/versioning.rs *)
Module VersioningTests.
Definition versioned (version timeout : Z) (tasks : list (string * string * list string)) : WorkflowDef := {|
  wd_id := "wf_000000000000000000000001"; wd_tenant := "acme"; wd_name := "pipeline";
  wd_version := version; wd_description := "test pipeline";
  wd_tasks := map (fun '(n, h, deps) => {| ts_name := n; ts_handler := h; ts_input := JObject [];
    ts_depends_on := deps; ts_timeout_ms := None; ts_retry := None; ts_meta := ∅ |}) tasks;
  wd_timeout_ms := timeout; wd_retry := retry_default; wd_default_priority := Priority.Normal;
  wd_hooks := hooks_default; wd_tags := ∅; wd_spec_version := SPEC_VERSION;
  wd_created_at_ms := 1000; wd_updated_at_ms := 1000
|}.

Definition report := analyze (fun names => "[" +:+ join ", " names +:+ "]").

Lemma canary_policy_selects_by_weight_and_key :
  map (select_version_by_sample (canary_new 1 2 25)) [10; 24; 25; 99] = [2; 2; 1; 1] ∧
  select_version_by_key (canary_new 1 2 0) "any" = 1 ∧
  select_version_by_key (canary_new 1 2 100) "any" = 2.
Proof. replay. Qed.

Lemma compatibility_analyzer_detects_clean_evolution :
  report (versioned 1 60000 [("step1", "runvane.echo", [])])
         (versioned 2 60000 [("step1", "runvane.echo", []); ("step2", "runvane.echo", ["step1"])])%string
  = {| is_backward_compatible := true; issues := [] |}.
Proof. replay. Qed.

Lemma compatibility_analyzer_detects_breaking_changes :
  let r := report
    (versioned 1 60000 [("step1", "runvane.echo", []); ("step2", "runvane.echo", ["step1"])])%string
    (versioned 2 30000 [("step1", "runvane.noop", [])])%string in
  is_backward_compatible r = false ∧
  map (fun i => (ci_severity i, ci_task_name i)) (issues r)
  = [(Breaking, Some "step2"%string); (Breaking, Some "step1"%string); (Warning, None)].
Proof. replay. Qed.
End VersioningTests.

(** ** src/src/domain/dag.rs *)
Module DagTests.
Definition spec (name : string) (deps : list string) : TaskSpec := plain_task name deps JNull.

Lemma orders :
  topo_order [] = Ok [] ∧
  topo_order [spec "b" []; spec "a" []; spec "c" []] = Ok ["a"; "b"; "c"]%string ∧
  topo_order [spec "root" []; spec "l" ["root"]; spec "r" ["root"]; spec "leaf" ["l"; "r"]]%string
    = Ok ["root"; "l"; "r"; "leaf"]%string ∧
  topo_order [spec "one" []; spec "two" ["one"]; spec "three" ["two"]]%string
    = Ok ["one"; "two"; "three"]%string.
Proof. replay. Qed.

Lemma cycle_is_detected :
  topo_order [spec "a" ["b"]; spec "b" ["a"]]%string = Err DomainError.CycleDetected ∧
  is_acyclic [spec "a" ["b"]; spec "b" ["a"]]%string = false ∧
  topo_order [spec "a" ["a"]]%string = Err DomainError.CycleDetected.
Proof. replay. Qed.

Lemma unknown_dependency_is_reported :
  topo_order [spec "a" ["ghost"]]%string = Err (DomainError.UnknownDependency "ghost" "a").
Proof. replay. Qed.
End DagTests.

(** ** src/src/domain/validation.rs *)
Module ValidationTests.
(** [Url::parse] on the URLs of the tests: the scheme is what precedes the separator,
    and http and https need a host after it. *)
Definition url_parse (u : string) : result (string * option string) string :=
  match find "://" u with
  | None => Err "relative URL without a base"%string
  | Some i =>
      let rest := str_drop (i + 3) u in
      if is_empty rest then Err "empty host"%string else Ok (str_take i u, Some rest)
  end.

Definition validate (def : WorkflowDef) : result unit DomainError :=
  validate_definition url_parse shown (fun _ => ""%string) def.

Definition t1 (deps : list string) : TaskSpec := plain_task "t1" deps JNull.

Definition renamed (name : string) (d : WorkflowDef) : WorkflowDef := {|
  wd_id := wd_id d; wd_tenant := wd_tenant d; wd_name := name; wd_version := wd_version d;
  wd_description := wd_description d; wd_tasks := wd_tasks d; wd_timeout_ms := wd_timeout_ms d;
  wd_retry := wd_retry d; wd_default_priority := wd_default_priority d; wd_hooks := wd_hooks d;
  wd_tags := wd_tags d; wd_spec_version := wd_spec_version d;
  wd_created_at_ms := wd_created_at_ms d; wd_updated_at_ms := wd_updated_at_ms d |}.

Definition with_timeout (ms : Z) (h : Hooks) (d : WorkflowDef) : WorkflowDef := {|
  wd_id := wd_id d; wd_tenant := wd_tenant d; wd_name := wd_name d; wd_version := wd_version d;
  wd_description := wd_description d; wd_tasks := wd_tasks d; wd_timeout_ms := ms;
  wd_retry := wd_retry d; wd_default_priority := wd_default_priority d; wd_hooks := h;
  wd_tags := wd_tags d; wd_spec_version := wd_spec_version d;
  wd_created_at_ms := wd_created_at_ms d; wd_updated_at_ms := wd_updated_at_ms d |}.

Definition retrying (p : RetryPolicy) (t : TaskSpec) : TaskSpec := {|
  ts_name := ts_name t; ts_handler := ts_handler t; ts_input := ts_input t;
  ts_depends_on := ts_depends_on t; ts_timeout_ms := ts_timeout_ms t; ts_retry := Some p;
  ts_meta := ts_meta t |}.

Lemma valid_def_passes : validate (plain_def [t1 []]) = Ok tt.
Proof. replay. Qed.

Lemma bad_definitions_rejected :
  validate (renamed "Nightly" (plain_def [t1 []])) = Err (DomainError.InvalidName "Nightly") ∧
  validate (plain_def []) = Err DomainError.EmptyTasks ∧
  validate (plain_def [t1 []; t1 []]) = Err (DomainError.DuplicateTaskName "t1") ∧
  validate (plain_def [t1 ["t2"]; plain_task "t2" ["t1"] JNull]%string) = Err DomainError.CycleDetected ∧
  validate (plain_def [t1 ["ghost"%string]]) = Err (DomainError.UnknownDependency "ghost" "t1") ∧
  validate (with_timeout 0 hooks_default (plain_def [t1 []])) = Err DomainError.ZeroTimeout ∧
  validate (plain_def [retrying (RetryTests.with_attempts 0 retry_default) (t1 [])])
    = Err (DomainError.InvalidPolicy "max_attempts must be within 1..=100, got 0").
Proof. replay. Qed.

Lemma bad_hook_url_rejected :
  is_err (validate (with_timeout 60000
    {| on_start := []; on_success := [DomainTests.hook_to "not-a-url"]; on_failure := []; on_cancel := [] |}
    (plain_def [t1 []]))) = true.
Proof. replay. Qed.

Lemma name_pattern_edges :
  map is_valid_name ["a"; "a-b-c"; "a1"; "1a"; "a b"; "a_b"; ""; letters "a" 65]%string
  = [true; true; true; false; false; false; false; false].
Proof. replay. Qed.

Lemma webhook_url_validation_edges :
  map (fun u => is_ok (validate_webhook_url url_parse shown u))
    ["https://hooks.example.com/endpoint"; "http://localhost:8080/x"; "ftp://x"; "https://";
     "nonsense"]%string
  = [true; true; false; false; false].
Proof. replay. Qed.

Lemma run_input_nesting_depth_guard :
  validate_run_input (fun _ => ""%string)
    (Nat.iter (Z.to_nat MAX_JSON_DEPTH + 5) (fun j => JArray [j]) (JString "leaf"))
  = Err (DomainError.InputTooDeep 69 64) ∧
  validate_run_input (fun _ => ""%string) JNull = Ok tt.
Proof. replay. Qed.
End ValidationTests.

(** ** src/src/engine/dry_run.rs *)
Module DryRunTests.
Definition simulated (tasks : list TaskSpec) : option DryRunReport :=
  match simulate_workflow (plain_def tasks) with Some (Ok r) => Some r | _ => None end.

Lemma dry_run_linear_pipeline_stages :
  (fun r => (rp_total_tasks r, rp_max_parallelism r, length (rp_stages r), rp_critical_path r,
             rp_variable_references r, rp_warnings r)) <$>
  simulated [plain_task "step1" [] (JObject [("src", JString "s3://data")]);
             plain_task "step2" ["step1"] (JObject [("prev", JString "${tasks.step1.output}")]);
             plain_task "step3" ["step2"] (JObject [])]%string
  = Some (3%nat, 1%nat, 3%nat, ["step1"; "step2"; "step3"], ["tasks.step1.output"], [])%string.
Proof. replay. Qed.

Lemma dry_run_diamond_dag_parallelism :
  (fun r => (rp_total_tasks r, rp_max_parallelism r, stage_tasks <$> rp_stages r)) <$>
  simulated [plain_task "start" [] (JObject []); plain_task "branch_a" ["start"] (JObject []);
             plain_task "branch_b" ["start"] (JObject []);
             plain_task "join" ["branch_a"; "branch_b"] (JObject [])]%string
  = Some (4%nat, 2%nat, [["start"]; ["branch_a"; "branch_b"]; ["join"]])%string.
Proof. replay. Qed.

Lemma dry_run_detects_unreachable_variable_dependency :
  (fun r => (map (has "not in its dependency chain") (rp_warnings r),
             has "Warnings:" (format_text r))) <$>
  simulated [plain_task "a" [] (JObject []);
             plain_task "b" [] (JObject [("unlinked", JString "${tasks.a.output.val}")])]%string
  = Some ([true], true).
Proof. replay. Qed.
End DryRunTests.

(** ** src/src/state *)
Module FsmTests.
Import RunFsm TaskFsm Invariants.

Lemma legal_table_matches_spec :
  same_edges run_legal_transitions
    [(RunStatus.Queued, RunStatus.Running); (RunStatus.Queued, RunStatus.Cancelled);
     (RunStatus.Running, RunStatus.Succeeded); (RunStatus.Running, RunStatus.Failed);
     (RunStatus.Running, RunStatus.Cancelled); (RunStatus.Running, RunStatus.TimedOut);
     (RunStatus.Failed, RunStatus.Queued); (RunStatus.Failed, RunStatus.Cancelled)] = true ∧
  forallb (fun e => is_ok (run_validate e.1 e.2) && is_ok (run_record e.1 e.2 0))
    run_legal_transitions = true.
Proof. replay. Qed.

Lemma representative_illegal_edges :
  forallb (fun e => negb (run_is_legal e.1 e.2) && is_err (run_record e.1 e.2 0))
    [(RunStatus.Succeeded, RunStatus.Queued); (RunStatus.Succeeded, RunStatus.Running);
     (RunStatus.Queued, RunStatus.Succeeded); (RunStatus.Running, RunStatus.Running);
     (RunStatus.Cancelled, RunStatus.Running); (RunStatus.TimedOut, RunStatus.Queued);
     (RunStatus.Queued, RunStatus.TimedOut); (RunStatus.Succeeded, RunStatus.Succeeded)] = true ∧
  map run_allowed_targets [RunStatus.Succeeded; RunStatus.Cancelled; RunStatus.TimedOut]
    = [[]; []; []] ∧
  length (run_allowed_targets RunStatus.Queued) = 2%nat.
Proof. replay. Qed.

Lemma record_marks_timestamps :
  run_record RunStatus.Queued RunStatus.Running 1234
  = Ok {| Machine.from := RunStatus.Queued; Machine.to := RunStatus.Running; Machine.at_ms := 1234 |}.
Proof. replay. Qed.

Lemma task_legal_edges_match_spec :
  same_edges task_legal_transitions
    [(TaskStatus.Pending, TaskStatus.Running); (TaskStatus.Pending, TaskStatus.Failed);
     (TaskStatus.Pending, TaskStatus.Skipped); (TaskStatus.Running, TaskStatus.Succeeded);
     (TaskStatus.Running, TaskStatus.Failed); (TaskStatus.Failed, TaskStatus.Running)] = true ∧
  forallb (fun e => is_ok (task_validate e.1 e.2)) task_legal_transitions = true.
Proof. replay. Qed.

Lemma representative_illegal_task_edges :
  forallb (fun e => negb (task_is_legal e.1 e.2) && is_err (task_record e.1 e.2 0))
    [(TaskStatus.Succeeded, TaskStatus.Pending); (TaskStatus.Succeeded, TaskStatus.Running);
     (TaskStatus.Skipped, TaskStatus.Running); (TaskStatus.Running, TaskStatus.Skipped);
     (TaskStatus.Pending, TaskStatus.Succeeded); (TaskStatus.Succeeded, TaskStatus.Failed);
     (TaskStatus.Skipped, TaskStatus.Skipped)] = true ∧
  map task_allowed_targets [TaskStatus.Succeeded; TaskStatus.Skipped] = [[]; []].
Proof. replay. Qed.

Lemma run_consistency :
  let check := check_run_consistency in
  check RunStatus.Succeeded [("a", TaskStatus.Succeeded); ("b", TaskStatus.Succeeded)]%string = Ok tt ∧
  check RunStatus.Succeeded [("a", TaskStatus.Succeeded); ("b", TaskStatus.Running)]%string
    = Err (SucceededWithNonTerminalTask "b") ∧
  check RunStatus.Failed [("a", TaskStatus.Running); ("b", TaskStatus.Failed)]%string
    = Err (TerminalWithRunningTask "a") ∧
  check RunStatus.Running [("a", TaskStatus.Succeeded); ("b", TaskStatus.Failed)]%string
    = Err RunBlocked ∧
  check RunStatus.Running [] = Err ActiveWithNoTasks ∧
  check RunStatus.Failed [("a", TaskStatus.Skipped); ("b", TaskStatus.Succeeded)]%string
    = Err (SkippedWithoutFailedDependency "a") ∧
  check RunStatus.Failed [("a", TaskStatus.Skipped); ("b", TaskStatus.Failed)]%string = Ok tt ∧
  check RunStatus.Queued [] = Ok tt ∧
  check RunStatus.Cancelled [("a", TaskStatus.Skipped)]%string = Ok tt ∧
  check RunStatus.TimedOut [("a", TaskStatus.Skipped)]%string
    = Err (SkippedWithoutFailedDependency "a").
Proof. replay. Qed.
End FsmTests.

(** ** src/src/persistence/filter.rs *)
Module FilterTests.
Import FilterBuilder.

Definition run (created : Z) (tenant : string) (status : RunStatus) (env : string) : Run := {|
  rn_id := "rn_x"; rn_tenant := tenant; rn_def_name := "pipeline"; rn_def_version := 1;
  rn_input := JObject []; rn_status := status; rn_attempts := 0; rn_next_attempt_at_ms := None;
  rn_deadline_at_ms := None; rn_started_at_ms := None; rn_finished_at_ms := None;
  rn_error := None; rn_output := None; rn_tags := {["env"%string := env]};
  rn_created_at_ms := created; rn_run_number := 1
|}.

Definition queued (created : Z) : Run := run created "acme" RunStatus.Queued "prod".

Lemma empty_filter_matches_everything : filter_matches filter_default (queued 0) = true.
Proof. replay. Qed.

Lemma dimensions_are_anded :
  let f := with_tenant "acme" (with_status RunStatus.Failed (with_tag "env" "prod"
             (with_name "pipeline" (with_time_range (Some 10) (Some 100) filter_default)))) in
  map (filter_matches f)
    [run 50 "acme" RunStatus.Failed "prod"; run 5 "acme" RunStatus.Failed "prod";
     run 50 "acme" RunStatus.Failed "staging"; run 50 "beta" RunStatus.Failed "prod";
     run 50 "acme" RunStatus.Queued "prod"] = [true; false; false; false; false].
Proof. replay. Qed.

Lemma limit_applied_after_newest_first :
  rn_created_at_ms <$> apply_order (with_limit 2 filter_default) [queued 1; queued 2; queued 3]
  = [3; 2].
Proof. replay. Qed.

Lemma prefix_and_status_in_filtering :
  let r := run 100 "acme" RunStatus.Failed "prod" in
  filter_matches (with_name_prefix "pipe" filter_default) r = true ∧
  filter_matches (with_name_prefix "batch" filter_default) r = false ∧
  filter_matches (with_status_in [RunStatus.Failed; RunStatus.TimedOut] filter_default) r = true ∧
  filter_matches (with_status_in [RunStatus.Queued; RunStatus.Succeeded] filter_default) r = false.
Proof. replay. Qed.

Lemma tag_keys_presence_filtering :
  map (fun k => filter_matches (with_has_tag_key k filter_default) (queued 100))
    ["env"; "missing_key"]%string = [true; false].
Proof. replay. Qed.

Lemma finished_range_and_duration_filtering :
  let r := run_set_started_at_ms (Some 150) (run_set_finished_at_ms (Some 450)
             (run 100 "acme" RunStatus.Succeeded "prod")) in
  filter_matches (with_finished_range (Some 400) (Some 500) filter_default) r = true ∧
  filter_matches (with_finished_range (Some 500) None filter_default) r = false ∧
  filter_matches (with_min_duration 250 filter_default) r = true ∧
  filter_matches (with_min_duration 350 filter_default) r = false.
Proof. replay. Qed.

Lemma pagination_offset_skips_entries :
  rn_created_at_ms <$> apply_order (with_limit 2 (with_offset 1 filter_default))
    [queued 1; queued 2; queued 3; queued 4] = [3; 2].
Proof. replay. Qed.
End FilterTests.

(** ** src/src/scheduler/pick.rs, cron.rs and throttle.rs *)
Module SchedulerTests.
Definition task (name : string) (deps : list string) : TaskSpec := bare_task name deps.
Definition chain3 : list TaskSpec := [task "a" []; task "b" ["a"]; task "c" ["b"]]%string.
Definition joint3 : list TaskSpec := [task "left" []; task "right" []; task "joint" ["left"; "right"]]%string.
Definition pair2 : list TaskSpec := [task "a" []; task "b" ["a"]]%string.

Lemma ready_sets :
  ready_tasks chain3 ∅ = ["a"]%string ∧
  ready_tasks chain3 {["a" := TaskStatus.Succeeded]} = ["b"]%string ∧
  ready_tasks chain3 {["a" := TaskStatus.Succeeded; "b" := TaskStatus.Succeeded]} = ["c"]%string ∧
  ready_tasks joint3 {["left" := TaskStatus.Succeeded]} = ["right"]%string ∧
  ready_tasks joint3 {["left" := TaskStatus.Succeeded; "right" := TaskStatus.Succeeded]}
    = ["joint"]%string ∧
  ready_tasks pair2 {["a" := TaskStatus.Succeeded; "b" := TaskStatus.Skipped]} = [] ∧
  ready_tasks pair2 {["a" := TaskStatus.Running]} = [] ∧
  ready_tasks pair2 {["a" := TaskStatus.Failed; "b" := TaskStatus.Succeeded]} = ["a"]%string.
Proof. replay. Qed.

Lemma failed_dep_skips_pending_tasks :
  (fun next => (next !! "b"%string, next !! "c"%string)) <$>
    pending_to_skip chain3 {["a"%string := TaskStatus.Failed]}
  = Some (Some TaskStatus.Skipped, Some TaskStatus.Skipped).
Proof. replay. Qed.

Lemma parse_standard_cron_expressions :
  map (fun e => is_ok (schedule_parse e))
    ["* * * * *"; "*/5 * * * *"; "0 12 * * 1-5"; "30 8 1,15 * *"]%string
  = [true; true; true; true].
Proof. replay. Qed.

Lemma reject_invalid_cron_expressions :
  schedule_parse "* * * *" = Err (InvalidFieldCount 4) ∧
  schedule_parse "60 * * * *" = Err (ValueOutOfRange "minute" 60 0 59) ∧
  match schedule_parse "10-5 * * * *" with Err (MalformedField "minute" _) => True | _ => False end.
Proof. replay. Qed.

Definition utc_2026_09_06_12_05_30 : Z := 1788696330000.
Definition utc_2026_01_01 : Z := 1767225600000.

Lemma schedule_calculates_next_tick :
  (fun s => @next_tick_ms gregorian s utc_2026_09_06_12_05_30) <$>
    result_ok (schedule_parse "*/15 * * * *")
  = Some (Some (Some (utc_2026_09_06_12_05_30 + 9 * 60000 + 30000))).
Proof. replay. Qed.

Lemma scheduled_trigger_lifecycle :
  match @trigger_new gregorian "trig_1" "acme" "backup" "0 2 * * *"
          (JObject [("mode"%string, JString "full")]) utc_2026_01_01 with
  | Some (Ok t) =>
      tr_enabled t = true ∧
      tr_next_trigger_at_ms t = Some (utc_2026_01_01 + 2 * 3600000) ∧
      match @advance_after_fire gregorian t (utc_2026_01_01 + 2 * 3600000) with
      | Some (Ok next2, t') =>
          tr_last_triggered_at_ms t' = Some (utc_2026_01_01 + 2 * 3600000) ∧
          next2 = Some (utc_2026_01_01 + 26 * 3600000)
      | _ => False
      end
  | _ => False
  end.
Proof. replay. Qed.

Lemma concurrency_limiter_enforces_limits_and_releases_via_permit :
  let l0 := Limiter.set_limit "acme" 2 (Limiter.new 2) in
  let '(l1, p1) := Limiter.try_acquire "acme" l0 in
  let '(l2, p2) := Limiter.try_acquire "acme" l1 in
  let '(l3, p3) := Limiter.try_acquire "acme" l2 in
  let l4 := Limiter.drop_permit "acme" l3 in
  let '(l5, p5) := Limiter.try_acquire "acme" l4 in
  (p1, p2, p5) = (Ok "acme", Ok "acme", Ok "acme")%string ∧
  p3 = Err (ConcurrencyLimitExceeded "acme" 2 2) ∧
  map (Limiter.active_count "acme") [l1; l2; l4; l5] = [1; 2; 1; 2].
Proof. replay. Qed.

Lemma leaky_bucket_rate_limiter_burst_and_leak :
  let take now b := Bucket.try_acquire f64_one now b in
  let '(b1, r1) := take 1000 (Bucket.new (f64_of_Z 2) f64_one 1000) in
  let '(b2, r2) := take 1000 b1 in
  let '(b3, r3) := take 1000 b2 in
  (r1, r2, r3, (take 2000 b3).2) = (Ok tt, Ok tt, Err 1000, Ok tt).
Proof. replay. Qed.

Lemma fair_share_dispatcher_interleaves_tenants :
  let d := FairShare.push "tenant_c" "job_c1" (FairShare.push "tenant_b" "job_b1"
    (FairShare.push "tenant_a" "job_a3" (FairShare.push "tenant_a" "job_a2"
    (FairShare.push "tenant_a" "job_a1" FairShare.new))))%string in
  FairShare.len d = 5%nat ∧
  (FairShare.run (replicate 6 FairShare.Pop) d).2
    = [Some ("tenant_a", "job_a1"); Some ("tenant_b", "job_b1"); Some ("tenant_c", "job_c1");
       Some ("tenant_a", "job_a2"); Some ("tenant_a", "job_a3"); None]%string ∧
  FairShare.is_empty (FairShare.run (replicate 6 FairShare.Pop) d).1 = true.
Proof. replay. Qed.
End SchedulerTests.

(** ** src/src/clock/mod.rs *)
Lemma manual_clock_set_and_advance :
  let c := clock_set 1000 clock_epoch in
  clock_value (clock_at 1700000000000) = 1700000000000 ∧ now c = 1000 ∧
  readings [250; 0] c = Some [1000; 1250; 1250] ∧ clock_advance (-5) clock_epoch = None.
Proof. replay. Qed.

(** ** src/src/auth.rs *)
Module AuthTests.
Lemma open_surface_accepts_everyone :
  let cfg := from_config None None in
  enabled cfg = false ∧ authorized cfg None Operator = true ∧
  authorized cfg (Some "anything"%string) Admin = true.
Proof. replay. Qed.

Lemma operator_token_guards_operator_routes :
  let cfg := from_config (Some "s3cret"%string) None in
  enabled cfg = true ∧ authorized cfg (Some "s3cret"%string) Operator = true ∧
  authorized cfg None Operator = false ∧ authorized cfg (Some "wrong"%string) Operator = false ∧
  authorized cfg (Some "s3cret"%string) Admin = true.
Proof. replay. Qed.

Lemma distinct_admin_token_gates_admin_routes :
  let cfg := from_config (Some "op"%string) (Some "adm"%string) in
  authorized cfg (Some "op"%string) Operator = true ∧ authorized cfg (Some "op"%string) Admin = false ∧
  authorized cfg (Some "adm"%string) Admin = true ∧
  authorized cfg (Some "adm"%string) Operator = false ∧ authorized cfg None Admin = false.
Proof. replay. Qed.

Lemma ct_eq_matches_only_exact_bytes :
  map (fun p => ct_eq p.1 p.2)
    [("abc", "abc"); ("abc", "abd"); ("abc", "abcd"); ("", "a"); ("", "");
     ("secret-value", "secret"); ("secret-value", "secret-valuX"); ("secret-value", "secret-value!")]%string
  = [true; false; false; false; true; false; false; false].
Proof. replay. Qed.
End AuthTests.
