(* ===== verification/ReplayRuns.v ===== *)
(** * The repository's end-to-end tests, replayed on the model

    The scenarios of src/src/scheduler/tests.rs (dispatcher, worker pool and executor
    over the in-memory store, with a clock that stands still between rounds) and of
    src/src/engine/tests.rs (the expression language), evaluated by the kernel. A round
    is one [step] of the dispatcher followed by the jobs it submitted, one after the
    other; the tests wait for the workers at the same point. *)
From S2P Require Import Prelude RustStrings Text Ids Status Errors StateMachine Float64 FloatText Json.
From S2P Require Import Expr RetryPolicy Workflow Dag Store MemoryStore Pick Executor Pool Fixtures Replay.
Local Open Scope Z_scope.

(** ** Fixtures *)

(** [Flaky::succeeds_after]: the handler counts its calls per task, which is the
    attempt number the executor hands it. *)
Definition succeeds_after (fail_count : Z) : Handler MemoryState := fun ctx s =>
  (s, Returned (if tc_attempt ctx <=? fail_count
                then Err (handler_transient "intentional flake")
                else Ok (JObject [("task"%string, JString (tc_task_name ctx));
                                  ("attempt"%string, JNumber (PosInt (tc_attempt ctx)))]))).

Definition always_fail : Handler MemoryState := fun _ s =>
  (s, Returned (Err (handler_transient "intentional flake"))).

Definition panicking : Handler MemoryState := fun _ s => (s, Unwound).

(** [CancellingHandler] *)
Definition cancelling (now : Z) : Handler MemoryState := fun ctx s =>
  ((mem_cancel_run (tc_run_id ctx) now s).1,
   Returned (Ok (JObject [("cancelled_during"%string, JString (tc_task_name ctx))]))).

Definition task (name handler : string) (deps : list string) : TaskSpec := {|
  ts_name := name; ts_handler := handler; ts_input := JObject []; ts_depends_on := deps;
  ts_timeout_ms := None; ts_retry := None; ts_meta := ∅
|}.

Definition def (name : string) (tasks : list TaskSpec) (retry : RetryPolicy) : WorkflowDef := {|
  wd_id := "wf_x"; wd_tenant := "tenant1"; wd_name := name; wd_version := 1;
  wd_description := "scheduler e2e fixture"; wd_tasks := tasks; wd_timeout_ms := 60000;
  wd_retry := retry; wd_default_priority := Priority.Normal; wd_hooks := hooks_default;
  wd_tags := ∅; wd_spec_version := 1; wd_created_at_ms := 1000000; wd_updated_at_ms := 1000000
|}.

Definition fixture_run (id def_name : string) (status : RunStatus) (at_ms : Z) : Run :=
  frun id "tenant1" def_name status at_ms.

Definition with_deadline (d : Z) (r : Run) : Run := {|
  rn_id := rn_id r; rn_tenant := rn_tenant r; rn_def_name := rn_def_name r;
  rn_def_version := rn_def_version r; rn_input := rn_input r; rn_status := rn_status r;
  rn_attempts := rn_attempts r; rn_next_attempt_at_ms := rn_next_attempt_at_ms r;
  rn_deadline_at_ms := Some d; rn_started_at_ms := rn_started_at_ms r;
  rn_finished_at_ms := rn_finished_at_ms r; rn_error := rn_error r; rn_output := rn_output r;
  rn_tags := rn_tags r; rn_created_at_ms := rn_created_at_ms r; rn_run_number := rn_run_number r
|}.

(** A store with one definition and its runs, each in the queue at [at_ms]. *)
Definition stored (d : WorkflowDef) (runs : list Run) (at_ms : Z) : MemoryState :=
  foldl (fun s r => (mem_enqueue (fresh_entry (rn_id r) at_ms) (mem_put_run r s)).1)
    (mem_put_workflow d mem_new).1 runs.

Definition numbered (n : nat) : ClaimToken := Nat.iter (Datatypes.S n) (String.append "t") "".

(** One round at time [t]: the statistics of the step and the store afterwards. *)
Definition round (reg : gmap HandlerId (Handler MemoryState)) (t : Z) (s : MemoryState)
    : MemoryState * (nat * nat) :=
  let '(d, st) := step (fun _ => t) numbered (fun _ => []) 8 60000
    {| dp_store := s; dp_pool := spawn 2 []; dp_reads := 0; dp_calls := 0; dp_tokens := 0 |} in
  (foldl (fun s job => w_store (worker_job reg (fun _ => t) 42 RetryTests.powf (fun _ _ => 0) job (world0 s)))
     (dp_store d) (wp_jobs (dp_pool d)), (scanned st, claimed st)).

(** Rounds at the given times. *)
Definition rounds (reg : gmap HandlerId (Handler MemoryState)) (ts : list Z) (s : MemoryState) : MemoryState :=
  foldl (fun s t => (round reg t s).1) s ts.

Definition seen_run (id : RunId) (s : MemoryState) : option (RunStatus * Z * option Z * option string) :=
  (fun r => (rn_status r, rn_attempts r, rn_next_attempt_at_ms r, re_message <$> rn_error r)) <$> ms_runs s !! id.

Definition seen_tasks (id : RunId) (s : MemoryState) : list (string * TaskStatus * Z) :=
  (fun t => (tr_task_name t, tr_status t, tr_attempts t)) <$> mem_list_task_runs_for_run id s.

Definition good : gmap HandlerId (Handler MemoryState) := {["testgood0000"%string := succeeds_after 0]}.
Definition bad : gmap HandlerId (Handler MemoryState) :=
  <["testalways0000"%string := always_fail]> good.

(** ** src/src/scheduler/tests.rs *)

Lemma dispatch_linear_run_succeeds :
  let s := stored (def "linear0001" [task "prepare" "testgood0000" [];
                                     task "publish" "testgood0000" ["prepare"%string]] (retry_fixed 2 25))
             [fixture_run "rn_linear00000000" "linear0001" RunStatus.Queued 1000000] 1000000 in
  let '(s', st) := round good 1000000 s in
  st = (1%nat, 1%nat) ∧
  rn_status <$> ms_runs s' !! "rn_linear00000000"%string = Some RunStatus.Succeeded ∧
  seen_tasks "rn_linear00000000" s'
    = [("prepare"%string, TaskStatus.Succeeded, 1); ("publish"%string, TaskStatus.Succeeded, 1)] ∧
  mem_len_queue s' = 0.
Proof. replay. Qed.

Lemma two_runs_dispatch_in_parallel_and_succeed :
  let a := "rn_parallel000000a"%string in
  let b := "rn_parallel000000b"%string in
  let s := stored (def "parallel0001" [task "work" "testgood0000" []] (retry_fixed 1 25))
             [fixture_run a "parallel0001" RunStatus.Queued 2000000;
              fixture_run b "parallel0001" RunStatus.Queued 2000000] 2000000 in
  let '(s', st) := round good 2000000 s in
  st = (2%nat, 2%nat) ∧
  map (fun id => rn_status <$> ms_runs s' !! id) [a; b]
    = [Some RunStatus.Succeeded; Some RunStatus.Succeeded] ∧
  mem_len_queue s' = 0.
Proof. replay. Qed.

Lemma flaky_run_cycles_through_retry_backoff_then_gives_up :
  let id := "rn_flaky000000000"%string in
  let s0 := stored (def "flaky0001" [task "work" "testalways0000" []] (retry_fixed 3 25))
              [fixture_run id "flaky0001" RunStatus.Queued 3000000] 3000000 in
  let s1 := rounds bad [3000000] s0 in
  let s2 := rounds bad [3000000; 3000025] s0 in
  let s3 := rounds bad [3000000; 3000025; 3000050] s0 in
  seen_run id s1 = Some (RunStatus.Queued, 1, Some 3000025, None) ∧
  seen_run id s2 = Some (RunStatus.Queued, 2, Some 3000050, None) ∧
  seen_run id s3 = Some (RunStatus.Failed, 2, Some 3000050, Some "intentional flake"%string) ∧
  seen_tasks id s3 = [("work"%string, TaskStatus.Failed, 3)] ∧ mem_len_queue s3 = 0.
Proof. replay. Qed.

Lemma flaky_run_retries_then_succeeds_within_budget :
  let id := "rn_recover00000000"%string in
  let reg : gmap HandlerId (Handler MemoryState) := {["testflaky000000"%string := succeeds_after 2]} in
  let s0 := stored (def "recover0001" [task "work" "testflaky000000" []] (retry_fixed 3 25))
              [fixture_run id "recover0001" RunStatus.Queued 4000000] 4000000 in
  let s3 := rounds reg [4000000; 4000025; 4000050] s0 in
  seen_run id (rounds reg [4000000] s0) = Some (RunStatus.Queued, 1, Some 4000025, None) ∧
  seen_run id (rounds reg [4000000; 4000025] s0) = Some (RunStatus.Queued, 2, Some 4000050, None) ∧
  rn_status <$> ms_runs s3 !! id = Some RunStatus.Succeeded ∧
  seen_tasks id s3 = [("work"%string, TaskStatus.Succeeded, 3)] ∧ mem_len_queue s3 = 0.
Proof. replay. Qed.

Lemma run_past_deadline_times_out_without_executing_tasks :
  let id := "rn_deadline0000000"%string in
  let s0 := stored (def "deadline0001" [task "work" "testalways0000" []] (retry_fixed 3 25))
              [with_deadline 6000060 (fixture_run id "deadline0001" RunStatus.Queued 6000000)] 6000000 in
  let s3 := rounds bad [6000000; 6000025; 6000070] s0 in
  seen_run id (rounds bad [6000000; 6000025] s0) = Some (RunStatus.Queued, 2, Some 6000050, None) ∧
  (fun r => (rn_status r, re_kind <$> rn_error r, has "deadline" <$> (re_message <$> rn_error r))) <$>
    ms_runs s3 !! id = Some (RunStatus.TimedOut, Some FailureKind.Timeout, Some true) ∧
  seen_tasks id s3 = [("work"%string, TaskStatus.Failed, 2)] ∧ mem_len_queue s3 = 0.
Proof. replay. Qed.

Lemma failed_dependency_skips_descendants_and_run_fails :
  let id := "rn_chain0000000000"%string in
  let s0 := stored (def "chain0001" [task "first" "testalways0000" [];
                                     task "second" "testgood0000" ["first"%string];
                                     task "third" "testgood0000" ["second"%string]] (retry_fixed 1 25))
              [fixture_run id "chain0001" RunStatus.Queued 5000000] 5000000 in
  let s1 := rounds bad [5000000] s0 in
  rn_status <$> ms_runs s1 !! id = Some RunStatus.Failed ∧
  seen_tasks id s1 = [("first", TaskStatus.Failed, 1); ("second", TaskStatus.Skipped, 0);
                      ("third", TaskStatus.Skipped, 0)]%string ∧ mem_len_queue s1 = 0.
Proof. replay. Qed.

Lemma in_flight_cancellation_aborts_run_cleanly :
  let id := "rn_cancelflight01"%string in
  let reg : gmap HandlerId (Handler MemoryState) :=
    {["testcancelmid"%string := cancelling 6000000; "testneverrun"%string := succeeds_after 0]} in
  let s0 := stored (def "wf_cancelflight" [task "first" "testcancelmid" [];
                                           task "second" "testneverrun" ["first"%string]] (retry_fixed 1 100))
              [fixture_run id "wf_cancelflight" RunStatus.Queued 6000000] 6000000 in
  let s1 := rounds reg [6000000] s0 in
  rn_status <$> ms_runs s1 !! id = Some RunStatus.Cancelled ∧
  seen_tasks id s1 = [("first"%string, TaskStatus.Succeeded, 1)] ∧ mem_len_queue s1 = 0.
Proof. replay. Qed.

(** The clock of [attempt_renews_lease_heartbeat_across_multi_task_execution] advances
    inside the handlers; the reading follows the number of readings made before. *)
Lemma attempt_renews_lease_heartbeat_across_multi_task_execution :
  let id := "rn_heartbeat0001"%string in
  let reg : gmap HandlerId (Handler MemoryState) :=
    {["testclockadv01"%string := succeeds_after 0; "testclockadv02"%string := succeeds_after 0]} in
  let clock n := if (n <? 2)%nat then 10000 else if (n <? 5)%nat then 10600 else 10700 in
  let s0 := stored (def "wf_heartbeat_test" [task "step1" "testclockadv01" [];
                                             task "step2" "testclockadv02" ["step1"%string]] (retry_fixed 1 100))
              [fixture_run id "wf_heartbeat_test" RunStatus.Running 10000] 10000 in
  let s1 := (mem_claim id "token" 10000 500 s0).1 in
  match attempt_with_token reg clock 42 RetryTests.powf (fun _ _ => 0) id (Some "token"%string) 2000
          (world0 s1) with
  | (w, Val o) => ao_run_status o = RunStatus.Succeeded ∧ ao_action o = AckEntry
  | _ => False
  end.
Proof. replay. Qed.

Lemma worker_pool_panic_boundary_recovers_and_serves_subsequent_jobs :
  let p := "rn_panic00000001"%string in
  let k := "rn_ok00000000001"%string in
  let reg : gmap HandlerId (Handler MemoryState) :=
    {["panichandler01"%string := panicking; "okhandler01"%string := succeeds_after 0]} in
  let s0 := stored (def "panic_def" [task "boom" "panichandler01" []] (retry_fixed 1 100))
              [fixture_run p "panic_def" RunStatus.Running 5000000;
               fixture_run k "ok_def" RunStatus.Running 5000000] 5000000 in
  let s1 := (mem_put_workflow (def "ok_def" [task "step1" "okhandler01" []] (retry_fixed 1 100)) s0).1 in
  let s2 := (mem_claim k "token_ok" 5000000 60000 (mem_claim p "token_panic" 5000000 60000 s1).1).1 in
  let job r t s := w_store (worker_job reg (fun _ => 5000000) 77 RetryTests.powf (fun _ _ => 0)
                              {| jb_run_id := r; jb_token := t |} (world0 s)) in
  let s3 := job p "token_panic"%string s2 in
  let s4 := job k "token_ok"%string s3 in
  qe_token <$> ms_queue s3 !! p = Some empty_token ∧
  rn_status <$> ms_runs s4 !! k = Some RunStatus.Succeeded.
Proof. replay. Qed.

(** ** src/src/engine/tests.rs *)
Module ExprTests.
Local Open Scope string_scope.

Definition num (n : Z) : Json := JNumber (PosInt n).

Definition user_ctx : ExprContext := with_run_input context_new (JObject [
  ("user", JObject [("id", num 12345); ("name", JString "alice"); ("active", JBool true)]);
  ("tags", JArray [JString "prod"; JString "us-east"])]).

Lemma context_resolves_run_input_paths :
  map (fun f => resolve_path user_ctx ["run"; "input"; "user"; f]) ["id"; "name"; "active"; "missing"]
  = [Ok (VNumber (f64_of_Z 12345)); Ok (VString "alice"); Ok (VBool true); Ok VNull].
Proof. replay. Qed.

Lemma context_resolves_task_outputs :
  let ctx := with_task_output context_new "query_db"
               (JObject [("rows_affected", num 42); ("status", JString "completed")]) in
  resolve_path ctx ["tasks"; "query_db"; "output"; "rows_affected"] = Ok (VNumber (f64_of_Z 42)) ∧
  resolve_path ctx ["tasks"; "query_db"; "status"] = Ok (VString "completed") ∧
  match resolve_path ctx ["tasks"; "unknown_step"; "out"] with
  | Err (UndefinedVariable _) => True
  | _ => False
  end.
Proof. replay. Qed.

Lemma string_template_interpolation :
  interpolate_string "Deploying to ${run.input.env} with ${tasks.fetch.output.count} instances"
    (with_task_output (with_run_input context_new (JObject [("env", JString "staging")]))
       "fetch" (JObject [("count", num 7)]))
  = Ok "Deploying to staging with 7 instances".
Proof. replay. Qed.

Lemma json_template_interpolation_exact_and_embedded :
  interpolate_json
    (JObject [("flag", JString "${run.input.enabled}"); ("limit", JString "${run.input.threshold}");
              ("msg", JString "Hello ${tasks.step1.output.data.val}!")])
    (with_task_output (with_run_input context_new (JObject [("enabled", JBool true); ("threshold", num 88)]))
       "step1" (JObject [("data", JObject [("val", JString "abc")])]))
  = Ok (JObject [("flag", JBool true); ("limit", JNumber (Float (f64_of_Z 88)));
                 ("msg", JString "Hello abc!")]).
Proof. replay. Qed.

Lemma boolean_and_comparison_expressions :
  let ctx := with_task_output (with_run_input context_new (JObject [("score", num 95); ("admin", JBool true)]))
               "check" (JObject [("passed", JBool true)]) in
  eval ctx (Gt_ (Variable_ ["run"; "input"; "score"]) (Literal (VNumber (f64_of_Z 90)))) = Ok (VBool true) ∧
  eval ctx (And (Expr.Eq (Variable_ ["tasks"; "check"; "passed"]) (Literal (VBool true)))
                (Expr.Eq (Variable_ ["run"; "input"; "admin"]) (Literal (VBool true)))) = Ok (VBool true) ∧
  eval ctx (Not (Variable_ ["run"; "input"; "admin"])) = Ok (VBool false).
Proof. replay. Qed.

Lemma unclosed_expression_syntax_error :
  match interpolate_string "Hello ${unclosed" context_new with Err (Syntax _) => True | _ => False end.
Proof. replay. Qed.
End ExprTests.
