(* ===== verification/ReplayStore.v ===== *)
(** * The store behaviour suite, replayed on every backend

    src/src/persistence/store_tests.rs is a suite of calls and assertions written
    against the [Store] trait, run by the repository on the in-memory store and on
    SQLite. Here it is one list of checked calls, generic in [Store], evaluated by the
    kernel on the in-memory model, on the SQLite model (opened by its migrations) and on
    the cached store over the in-memory one. The tests of src/src/persistence/mod.rs,
    lru_store.rs, migrations.rs and of src/src/events, src/src/audit and src/src/storage
    follow. *)
From S2P Require Import Prelude RustStrings Text Ids Status Errors StateMachine Float64 Json.
From S2P Require Import RetryPolicy Workflow Store MemoryStore LruStore Sqlite Events HttpSink Outbox.
From S2P Require Import Watcher AuditLog Artifacts FloatText Telemetry Fixtures Replay.
From stdpp Require Import pretty.
Local Open Scope Z_scope.

(** ** Checked calls *)

Inductive Checked :=
| Expect {A} (c : StoreCall A) (ok : A → bool).

(** The positions of the assertions that do not hold. *)
Fixpoint failures {S} `{Store S} (n : nat) (l : list Checked) (s : S) : list nat :=
  match l with
  | [] => []
  | Expect c ok :: rest =>
      let '(s, r) := call c s in
      if ok r then failures (Datatypes.S n) rest s else n :: failures (Datatypes.S n) rest s
  end.

(** [.unwrap()], then a test of the value. *)
Definition when_ok {A E} (p : A → bool) (r : result A E) : bool :=
  match r with Ok a => p a | Err _ => false end.

Definition unwrap {A E} (r : result A E) : bool := is_ok r.

Definition lookup_missed {A} (r : result A StorageError) : bool :=
  match r with Err (StorageError.NotFound _) => true | _ => false end.
Definition claim_lost {A} (r : result A StorageError) : bool :=
  match r with Err (StorageError.ClaimLost _) => true | _ => false end.
Definition conflicts {A} (r : result A StorageError) : bool :=
  match r with Err (StorageError.Conflict _) => true | _ => false end.
Definition concurrent_modification {A} (r : result A StorageError) : bool :=
  match r with Err (StorageError.ConcurrentModification _) => true | _ => false end.

Definition ids_are (ids : list string) : list Run → bool := fun l => bool_decide (rn_id <$> l = ids).
Definition count_is {A} (n : nat) : list A → bool := fun l => (length l =? n)%nat.

(** ** Fixtures *)

Definition ship (version : Z) : WorkflowDef := {|
  wd_id := "wf_abc"; wd_tenant := "acme"; wd_name := "ship"; wd_version := version;
  wd_description := ""; wd_tasks := []; wd_timeout_ms := 60000; wd_retry := retry_default;
  wd_default_priority := priority_default; wd_hooks := hooks_default; wd_tags := ∅;
  wd_spec_version := SPEC_VERSION; wd_created_at_ms := 1; wd_updated_at_ms := 1
|}.

Definition held_entry (id : RunId) (token : ClaimToken) (due until_ : Z) : QueueEntry :=
  {| qe_run_id := id; qe_token := token; qe_due_at_ms := due; qe_lease_until_ms := Some until_;
     qe_claimed_by := Some "dispatcher"%string |}.

(** ** The suite *)
Section Suite.
Local Open Scope string_scope.

Definition workflow_roundtrip_and_version_guard : list Checked := [
  Expect (PutWorkflow (ship 1)) unwrap;
  Expect (GetWorkflow "acme" "ship") (when_ok (fun r => bool_decide (wd_name (wr_def r) = "ship")));
  Expect (UpdateWorkflowVersion "acme" "ship" (ship 2) 1) (when_ok (fun r => wd_version (wr_def r) =? 2)%Z);
  Expect (UpdateWorkflowVersion "acme" "ship" (ship 2) 1) concurrent_modification;
  Expect (UpdateWorkflowVersion "acme" "ship" (ship 1) 2) conflicts;
  Expect ListWorkflows (when_ok (count_is 1))
].

Definition run_crud_and_filters : list Checked := [
  Expect (PutRun (frun "rn_a" "acme" "nightly" RunStatus.Queued 100)) unwrap;
  Expect (PutRun (frun "rn_b" "acme" "nightly" RunStatus.Running 200)) unwrap;
  Expect (PutRun (frun "rn_c" "beta" "nightly" RunStatus.Failed 300)) unwrap;
  Expect (GetRun "rn_a") (when_ok (fun r => bool_decide (rn_id r = "rn_a") &&
    bool_decide (rn_status r = RunStatus.Queued) && (rn_created_at_ms r =? 100)%Z));
  Expect (ListRuns filter_default) (when_ok (ids_are ["rn_c"; "rn_b"; "rn_a"]));
  Expect (ListRuns (FilterBuilder.with_status RunStatus.Failed filter_default)) (when_ok (ids_are ["rn_c"]));
  Expect (ListRuns (FilterBuilder.with_limit 1 (FilterBuilder.with_tenant "acme" filter_default)))
    (when_ok (ids_are ["rn_b"]));
  Expect (CountRuns (FilterBuilder.with_name "nightly" filter_default)) (when_ok (Z.eqb 3))
].

Definition task_run_crud : list Checked := [
  Expect (PutRun (frun "rn_t" "acme" "nightly" RunStatus.Running 1)) unwrap;
  Expect (PutTaskRun (ftask "rn_t" "fetch" TaskStatus.Running)) unwrap;
  Expect (PutTaskRun (ftask "rn_t" "build" TaskStatus.Pending)) unwrap;
  Expect (GetTaskRun "tr_tfetch") (when_ok (fun t => bool_decide (tr_task_name t = "fetch") &&
    bool_decide (tr_status t = TaskStatus.Running)));
  Expect (ListTaskRunsForRun "rn_t") (when_ok (fun l => bool_decide (tr_task_name <$> l = ["build"; "fetch"])))
].

Definition run_number_increments : list Checked := [
  Expect (NextRunNumber "nightly") (when_ok (Z.eqb 1));
  Expect (NextRunNumber "nightly") (when_ok (Z.eqb 2));
  Expect (NextRunNumber "other") (when_ok (Z.eqb 1))
].

Definition queue_lifecycle : list Checked := [
  Expect (PutRun (frun "rn_q" "acme" "nightly" RunStatus.Queued 0)) unwrap;
  Expect (Enqueue (fresh_entry "rn_q" 50)) unwrap;
  Expect (ScanReady 10 10) (when_ok (count_is 0));
  Expect (ScanReady 60 10) (when_ok (count_is 1));
  Expect (Claim "rn_q" "token" 60 100) unwrap;
  Expect (ScanReady 70 10) (when_ok (count_is 0));
  Expect (Claim "rn_q" "other" 70 100) claim_lost;
  Expect (Claim "rn_q" "token" 80 100) unwrap;
  Expect (Release "rn_q" "token" 200) unwrap;
  Expect (ScanReady 199 10) (when_ok (count_is 0));
  Expect (ScanReady 200 10) (when_ok (fun l => bool_decide (qe_run_id <$> l = ["rn_q"])));
  Expect (Claim "rn_q" "token" 200 100) unwrap;
  Expect (Ack "rn_q" "token") unwrap;
  Expect (ScanReady 10000 10) (when_ok (count_is 0));
  Expect LenQueue (Z.eqb 0)
].

Definition queue_claimed_entry_hides_from_scan : list Checked := [
  Expect (PutRun (frun "rn_h" "acme" "nightly" RunStatus.Queued 0)) unwrap;
  Expect (Enqueue (fresh_entry "rn_h" 0)) unwrap;
  Expect (Claim "rn_h" "token_h" 0 1000) unwrap;
  Expect (ScanReady 0 10) (when_ok (count_is 0));
  Expect (RecoverExpiredLeases 2000) (when_ok (Z.eqb 1));
  Expect (ScanReady 2000 10) (when_ok (count_is 1))
].

Definition cancel_run_semantics : list Checked := [
  Expect (PutRun (frun "rn_c1" "acme" "ship" RunStatus.Queued 100)) unwrap;
  Expect (Enqueue (fresh_entry "rn_c1" 100)) unwrap;
  Expect (CancelRun "rn_c1" 250) (when_ok (fun b => b));
  Expect (GetRun "rn_c1") (when_ok (fun r => bool_decide (rn_status r = RunStatus.Cancelled) &&
    bool_decide (rn_finished_at_ms r = Some 250%Z)));
  Expect (Enqueue (fresh_entry "rn_c1" 500)) unwrap;
  Expect (PutRun (frun "rn_c2" "acme" "ship" RunStatus.Running 100)) unwrap;
  Expect (Enqueue (held_entry "rn_c2" "holder" 100 1000)) unwrap;
  Expect (CancelRun "rn_c2" 300) (when_ok (fun b => b));
  Expect (GetRun "rn_c2") (when_ok (fun r => bool_decide (rn_status r = RunStatus.Cancelled)));
  Expect (Enqueue (fresh_entry "rn_c2" 600)) unwrap;
  Expect (PutRun (frun "rn_c3" "acme" "ship" RunStatus.Succeeded 100)) unwrap;
  Expect (CancelRun "rn_c3" 400) (when_ok negb);
  Expect (GetRun "rn_c3") (when_ok (fun r => bool_decide (rn_status r = RunStatus.Succeeded) &&
    bool_decide (rn_finished_at_ms r = None)));
  Expect (CancelRun "rn_zzz" 0) lookup_missed
].

Definition among (id : RunId) (l : list QueueEntry) : bool := bool_decide (id ∈ qe_run_id <$> l).

Definition renew_lease_semantics : list Checked := [
  Expect (PutRun (frun "rn_renew1" "acme" "ship" RunStatus.Running 100)) unwrap;
  Expect (Enqueue (fresh_entry "rn_renew1" 100)) unwrap;
  Expect (Claim "rn_renew1" "token_r" 100 1000) unwrap;
  Expect (RenewLease "rn_renew1" "wrong" 500 1000) claim_lost;
  Expect (RenewLease "rn_renew1" "token_r" 500 2000) unwrap;
  Expect (ScanReady 1500 100) (when_ok (fun l => negb (among "rn_renew1" l)));
  Expect (ScanReady 3000 100) (when_ok (among "rn_renew1"));
  Expect (Ack "rn_renew1" "token_r") unwrap
].

(** [run_store_suite], in its order. *)
Definition suite : list Checked :=
  workflow_roundtrip_and_version_guard ++ run_crud_and_filters ++ task_run_crud ++ run_number_increments ++
  queue_lifecycle ++ queue_claimed_entry_hides_from_scan ++ cancel_run_semantics ++ renew_lease_semantics.
End Suite.

Lemma memory_store_full_suite : failures 0 suite mem_new = [].
Proof. replay. Qed.

Lemma cached_store_full_suite : failures 0 suite (empty_lru mem_new) = [].
Proof. replay. Qed.

(** ** On SQLite

    A document is named by what distinguishes the records of the suite, and read back by
    that name, the id going through the strict parser serde uses. *)
Definition opt_text (o : option Z) : string := match o with None => "-" | Some n => pretty n end.

Definition run_name (r : Run) : string :=
  rn_id r +:+ " " +:+ run_label (rn_status r) +:+ " " +:+ opt_text (rn_finished_at_ms r).

Definition suite_runs : list Run := omap (fun c =>
  match c with Expect (PutRun r) _ => Some r | _ => None end) suite.

Definition cancelled_at (at_ms : Z) (r : Run) : Run :=
  run_set_finished_at_ms (Some at_ms) (run_set_status RunStatus.Cancelled r).

Definition known_runs : list Run :=
  suite_runs ++ (cancelled_at 250 <$> suite_runs) ++ (cancelled_at 300 <$> suite_runs).

Definition suite_sqlite : Sqlite := {|
  sq_fault _ := None; sq_unique _ := "UNIQUE constraint failed"%string; sq_conversion e := e;
  sq_no_table t := t; sq_no_rows := "no rows"%string;
  def_text d := pretty (wd_version d);
  def_read t := if bool_decide (t = "1"%string) then Ok (ship 1) else Ok (ship 2);
  run_text := run_name;
  run_read t :=
    match List.find (fun r => bool_decide (run_name r = t)) known_runs with
    | Some r => if is_ok (parse_id RunId_kind shown (rn_id r)) then Ok r else Err "malformed run id"%string
    | None => Err "expected value"%string
    end;
  task_text := tr_id;
  task_read t :=
    match List.find (fun r => bool_decide (tr_id r = t))
            [ftask "rn_t" "fetch" TaskStatus.Running; ftask "rn_t" "build" TaskStatus.Pending] with
    | Some r => if is_ok (parse_id TaskRunId_kind shown (tr_id r)) then Ok r else Err "malformed task id"%string
    | None => Err "expected value"%string
    end
|}.

Lemma sqlite_store_full_suite :
  let '(d, r) := sqlite_open (H := suite_sqlite) db_empty in
  r = Ok tt ∧ (schema_version (H := suite_sqlite) d).2 = Ok latest_version ∧
  failures (H := SqliteStore (H := suite_sqlite)) 0 suite d = [].
Proof. replay. Qed.

(** ** src/src/persistence/mod.rs and lru_store.rs *)
Section Backends.
Local Open Scope string_scope.

Definition finished (at_ms : Z) (r : Run) : Run := run_set_finished_at_ms (Some at_ms) r.

Lemma delete_run_cascades_to_tasks :
  failures 0 [
    Expect (PutRun (frun "rn_del" "acme" "nightly" RunStatus.Running 1)) unwrap;
    Expect (PutTaskRun (ftask "rn_del" "a" TaskStatus.Running)) unwrap;
    Expect (DeleteRun "rn_del") unwrap;
    Expect (ListTaskRunsForRun "rn_del") (when_ok (count_is 0));
    Expect (GetRun "rn_del") lookup_missed] mem_new = [].
Proof. replay. Qed.

Lemma retention_reaps_only_stale_terminal_runs :
  let s := run_calls [
    Any (PutRun (finished 100 (frun "rn_stale_r" "acme" "nightly" RunStatus.Succeeded 10)));
    Any (PutRun (finished 1000 (frun "rn_fresh_f" "acme" "nightly" RunStatus.Succeeded 900)));
    Any (PutRun (frun "rn_live_i" "acme" "nightly" RunStatus.Running 950))] mem_new in
  let '(s', reaped) := reap_finished_runs 500 s in
  reaped = Ok 1%Z ∧
  failures 0 [Expect (GetRun "rn_stale_r") lookup_missed; Expect (GetRun "rn_fresh_f") unwrap;
              Expect (GetRun "rn_live_i") unwrap; Expect (CountRuns filter_default) (when_ok (Z.eqb 2))] s' = [].
Proof. replay. Qed.

Lemma retention_with_no_finished_runs_is_a_no_op :
  (reap_finished_runs 100000 (mem_put_run (frun "rn_queued_q" "acme" "nightly" RunStatus.Queued 1) mem_new)).2
  = Ok 0%Z.
Proof. replay. Qed.

Definition cached_def (name : string) : WorkflowDef := ValidationTests.renamed name (plain_def []).

(** The cache statistics after some calls on a cache of the given capacity. *)
Definition stats_after (capacity : nat) (cs : list AnyCall) : option (Z * Z) :=
  (fun l : LruStore MemoryState ListLru => cache_stats (run_calls cs l)) <$> with_capacity mem_new capacity.

Lemma hits_serve_from_cache_and_evict_on_write :
  let read := Any (GetWorkflow "acme" "ship") in
  let write := Any (PutWorkflow (cached_def "ship")) in
  stats_after DEFAULT_CACHE_CAPACITY [write; read; read] = Some (1, 1)%Z ∧
  stats_after DEFAULT_CACHE_CAPACITY [write; read; read; write] = Some (1, 1)%Z ∧
  stats_after DEFAULT_CACHE_CAPACITY [write; read; read; write; read] = Some (1, 2)%Z.
Proof. replay. Qed.

Lemma capacity_evicts_least_recently_used_key :
  stats_after 2 (map (fun n => Any (PutWorkflow (cached_def n))) ["a"; "b"; "c"] ++
                 map (fun n => Any (GetWorkflow "acme" n)) ["b"; "c"; "a"; "c"; "a"; "b"])
  = Some (2, 4)%Z.
Proof. replay. Qed.

Lemma put_run_and_list_do_not_pollute_the_cache :
  stats_after DEFAULT_CACHE_CAPACITY
    [Any (PutWorkflow (cached_def "ship")); Any (GetWorkflow "acme" "ship"); Any (GetWorkflow "acme" "ship");
     Any (PutRun (frun "rn_1" "acme" "ship" RunStatus.Queued 1)); Any (ListRuns filter_default)]
  = Some (1, 1)%Z.
Proof. replay. Qed.
End Backends.

(** ** src/src/events *)
Section EventTests.
Local Open Scope string_scope.

#[local] Instance kind_codec : EventCodec :=
  {| sha256_hex := fun s => s; event_text := fun e => ev_run_id e +:+ " " +:+ ev_kind e +:+ " " +:+ ev_status e |}.

Definition hook (url : string) (filter : option string) : HookSpec :=
  {| webhook_url := Some url; event_filter := filter; headers := ∅ |}.

Definition hooked (h : Hooks) : WorkflowDef :=
  ValidationTests.with_timeout 60000 h (ValidationTests.renamed "ship" (plain_def [])).

Definition every_hook : Hooks := {|
  on_start := [hook "http://h/start" None]; on_success := [hook "http://h/success" None];
  on_failure := [hook "http://h/fail" None]; on_cancel := [hook "http://h/cancel" None] |}.

Lemma match_selects_the_right_slice :
  let def := hooked {| on_start := [hook "http://a/start" None];
    on_success := [hook "http://a/success" None; hook "http://a/s2" None];
    on_failure := [hook "http://a/fail" None]; on_cancel := [hook "http://a/cancel" None] |} in
  map (fun k => length (match_hooks def k).1) [RunStarted; RunSucceeded; RunFailed; RunTimedOut; RunCancelled]
  = [1; 2; 1; 1; 1]%nat.
Proof. replay. Qed.

Lemma event_filter_admits_code_or_status_name :
  let '(matched, stats) := match_hooks (hooked {| on_start := []; on_success := []; on_cancel := [];
    on_failure := [hook "http://a/x" (Some "run.failed"); hook "http://a/y" (Some "failed");
                   hook "http://a/z" (Some "run.succeeded")] |}) RunFailed in
  length matched = 2%nat ∧ ms_filtered stats = 1%nat.
Proof. replay. Qed.

Lemma no_url_specs_are_skipped_not_matched :
  match_hooks (hooked {| on_start := []; on_failure := []; on_cancel := [];
    on_success := [{| webhook_url := None; event_filter := None; headers := ∅ |}] |}) RunSucceeded
  = ([], {| ms_matched := 0; ms_filtered := 0; ms_no_url := 1 |}).
Proof. replay. Qed.

Lemma recording_sink_buffers_in_order :
  let ev := from_run (frun "rn_abc" "acme" "ship" RunStatus.Succeeded 200) RunSucceeded 200 in
  (fun r => (map dl_url (ds_sink r.1), ds_delivered r.1, ms_matched r.2)) <$>
    dispatch (dispatcher_new (K := list Delivery) []) (hooked every_hook) RunSucceeded ev
  = Some (["http://h/success"], 1%Z, 1%nat).
Proof. replay. Qed.

Lemma http_sink_says_what_it_supports :
  map http_supports ["http://localhost:8080/hook"; "https://localhost:8080/hook"; "not a url"]
  = [true; false; false].
Proof. replay. Qed.

Definition run_at (id : string) (status : RunStatus) (at_ms : Z) : Run :=
  finished at_ms (run_set_started_at_ms (Some (at_ms - 10)%Z) (frun id "acme" "ship" status (at_ms - 10))).

(** What two polls of a watcher booted at 1000 report, and the bodies delivered. *)
Definition polled (defs : list WorkflowDef) (runs : list Run) (t1 t2 : Z)
    : option (WatchStats * WatchStats * list string) :=
  let s := run_calls (map (fun r => Any (PutRun r)) runs)
             (run_calls (map (fun d => Any (PutWorkflow d)) defs) mem_new) in
  '(s, w, st1) ← poll (with_sink (K := list Delivery) [] 1000) t1 s;
  '(s, w, st2) ← poll w t2 s;
  Some (st1, st2, map dl_body_json (ds_sink (wa_dispatcher w))).

Definition watched_stats (started finished_ : nat) : WatchStats :=
  {| wt_started := started; wt_finished := finished_; wt_dispatched := started + finished_ |}.

Lemma poll_fires_started_and_terminal_events_in_order :
  polled [hooked every_hook] [run_at "rn_b" RunStatus.Failed 1200; run_at "rn_a" RunStatus.Succeeded 1100] 1300 1400
  = Some (watched_stats 0 2, watched_stats 0 0,
          ["rn_a run.succeeded succeeded"; "rn_b run.failed failed"]).
Proof. replay. Qed.

Lemma running_runs_fire_started_exactly_once :
  polled [hooked every_hook]
    [run_set_started_at_ms (Some 1150%Z) (frun "rn_live" "acme" "ship" RunStatus.Running 1100)] 1200 1300
  = Some (watched_stats 1 0, watched_stats 0 0, ["rn_live run.started running"]).
Proof. replay. Qed.

Lemma terminal_slices :
  polled [hooked every_hook] [run_at "rn_to" RunStatus.TimedOut 2100; run_at "rn_c" RunStatus.Cancelled 3000] 3100 3200
  = Some (watched_stats 0 2, watched_stats 0 0,
          ["rn_to run.timed_out timedout"; "rn_c run.cancelled cancelled"]).
Proof. replay. Qed.

Lemma definitionless_runs_do_not_panic :
  polled [] [run_at "rn_orphan" RunStatus.Succeeded 1500] 1600 1700
  = Some (watched_stats 0 1, watched_stats 0 0, []).
Proof. replay. Qed.

Definition outbox_delivery (id : string) : Delivery :=
  {| dl_id := id; dl_url := "http://127.0.0.1:8080/hook"; dl_headers := ∅; dl_body_json := "{}" |}.

Lemma outbox_enqueue_and_success_flow :
  let o := enqueue outbox_new (outbox_delivery "dlv_1") 3 1000 in
  let '((sink, o'), processed) := outbox_step (K := list Delivery) (processor_base 100) 1000 ([], o) in
  length (ready_items o 1000) = 1%nat ∧ processed = 1%nat ∧ length sink = 1%nat ∧
  outbox_stats o' = {| os_pending := 0; os_delivered := 1; os_dead_letter := 0 |}.
Proof. replay. Qed.

(** [FlakySink]: the number of failures it still has to report. *)
#[local] Instance flaky_sink : WebhookSink nat := fun k _ =>
  match k with O => (O, Ok tt) | Datatypes.S k => (k, Err "network timeout") end.

Lemma outbox_retries_with_backoff_and_moves_to_dlq :
  let st0 := (2%nat, enqueue outbox_new (outbox_delivery "dlv_flaky") 2 10000) in
  let '(st1, n1) := outbox_step (processor_base 500) 10000 st0 in
  let '(st2, n2) := outbox_step (processor_base 500) 10500 st1 in
  (n1, n2) = (1, 1)%nat ∧ ready_items st1.2 10100 = [] ∧
  (fun i => (it_id i, it_status i)) <$> dead_letter_items st2.2 = [("dlv_flaky", DeadLetter)] ∧
  os_dead_letter (outbox_stats st2.2) = 1%Z.
Proof. replay. Qed.
End EventTests.

(** ** src/src/audit/memory.rs, src/src/storage/gc.rs and src/src/telemetry.rs *)
Section KeepingTests.
Local Open Scope string_scope.

Definition audit_record (tenant : option string) (name : string) (t : Z) : AuditRecord :=
  let r := record_new "au_0" t (System "test") (Custom name) Success "test_resource" in
  match tenant with Some tenant => record_with_tenant r tenant | None => r end.

Definition times (r : result (list AuditRecord) AuditError) : option (list Z) :=
  match r with Ok l => Some (map au_timestamp_ms l) | Err _ => None end.

Lemma memory_logger_records_and_queries_newest_first :
  let l := record_all (memory_logger_new 10) [audit_record (Some "t1") "act1" 100;
             audit_record (Some "t1") "act2" 200; audit_record (Some "t2") "act3" 300] in
  forallb is_ok l.2 = true ∧
  times (al_query l.1 audit_filter_new) = Some [300; 200; 100]%Z ∧
  times (al_query l.1 (filter_with_tenant audit_filter_new "t1")) = Some [200; 100]%Z ∧
  al_count l.1 (filter_with_tenant audit_filter_new "t1") = Ok 2%nat.
Proof. replay. Qed.

Lemma memory_logger_respects_capacity_ring_buffer :
  let l := record_all (memory_logger_new 3) (map (audit_record None "n") [1; 2; 3; 4]%Z) in
  memory_len l.1 = 3%nat ∧
  times (al_query l.1 audit_filter_new) = Some [4; 3; 2]%Z.
Proof. replay. Qed.

Lemma memory_logger_pagination_offset_and_limit :
  let l := record_all (memory_logger_new 10) (map (audit_record None "act") [10; 20; 30; 40; 50]%Z) in
  times (al_query l.1 (with_pagination audit_filter_new 2 1)) = Some [40; 30]%Z.
Proof. replay. Qed.

(** A digest that names the blobs of the tests by their text. *)
#[local] Instance text_digest : Digest := fun data => of_bytes data.

Definition put_blob (name text : string) (t : Z) (s : MemoryArtifacts) : MemoryArtifacts :=
  (mem_put s "acme" name (as_bytes text) "text/plain" t).1.

Definition gc (retention : Z) (dry : bool) : ArtifactGcOptions :=
  {| retention_ms := retention; dry_run := dry; gc_tenants := ["acme"] |}.

Lemma sweep_reclaims_expired_unreferenced_artifacts :
  let s := put_blob "latest.json" "new" 9000 (put_blob "data.json" "old" 1000 memory_artifacts_new) in
  ∃ s' st, sweep_artifacts (gc 5000 false) ∅ 10000 s = (s', Ok st) ∧
  scanned_count st = 2%Z ∧ reclaimed_count st = 1%Z ∧ purged_ids st = ["old"] ∧
  mem_get s' "old" = Ok None ∧ mem_get s' "new" = Ok (Some (as_bytes "new")).
Proof. do 2 eexists. split; [vm_compute; reflexivity|replay]. Qed.

Lemma sweep_preserves_active_pinned_references_even_if_old :
  ∃ s' st, sweep_artifacts (gc 2000 false) {["pinned data"]} 10000
    (put_blob "gold.bin" "pinned data" 1000 memory_artifacts_new) = (s', Ok st) ∧
  scanned_count st = 1%Z ∧ reclaimed_count st = 0%Z ∧ is_ok (mem_get s' "pinned data") = true.
Proof. do 2 eexists. split; [vm_compute; reflexivity|replay]. Qed.

Lemma sweep_dry_run_does_not_delete_blobs :
  ∃ s' st, sweep_artifacts (gc 1000 true) ∅ 10000
    (put_blob "dry.txt" "preview content" 1000 memory_artifacts_new) = (s', Ok st) ∧
  reclaimed_count st = 1%Z ∧ mem_get s' "preview content" = Ok (Some (as_bytes "preview content")).
Proof. do 2 eexists. split; [vm_compute; reflexivity|replay]. Qed.

Lemma histogram_observe_and_prometheus_rendering :
  let h := observe (ratio 2 1) (observe (ratio 5 10) (observe (ratio 4 100) default_latencies)) in
  let bucket := {| hs_buckets := [(ratio 5 100, 1%Z)]; hs_count := 3; hs_sum := f64_zero |} in
  let text := render_histogram_prometheus "runvane_run_duration_seconds" "" bucket in
  hg_count h = 3%Z ∧ f64_ltb (ratio 2539999 1000000) (hg_sum h) = true ∧
  f64_ltb (hg_sum h) (ratio 2540001 1000000) = true ∧
  hs_buckets (histogram_snapshot h) !! 3%nat = Some (ratio 5 100, 1%Z) ∧
  has "runvane_run_duration_seconds_count 3" text = true ∧
  has ("runvane_run_duration_seconds_bucket{le=" +:+ quoted "0.05" +:+ "} 1") text = true ∧
  has ("runvane_run_duration_seconds_bucket{le=" +:+ quoted "+Inf" +:+ "} 3") text = true.
Proof. replay. Qed.
End KeepingTests.
