(* ===== verification/ReplayApi.v ===== *)
(** * The control plane's tests, replayed on the model

    The scenarios of src/src/api/server.rs and payloads.rs, of src/src/config.rs,
    src/src/error.rs, src/src/domain/run.rs, src/src/plugins and src/src/cli, evaluated by
    the kernel: requests are served one after the other over the in-memory store, as the
    tests send them to the router, and each answer is checked. Left out are the answers
    whose text renders every histogram bound, and the megabyte input. *)
From S2P Require Import Prelude RustStrings Text Ids Status Errors StateMachine Float64 Json RetryPolicy.
From S2P Require Import Workflow Store MemoryStore AuditLog Auth Config Executor Handlers Telemetry.
From S2P Require Import Dashboard Api Grpc Completion Replay.
Local Open Scope Z_scope.

(** ** Serving a script *)

#[local] Instance test_texts : Texts := {|
  tx_url_parse := ValidationTests.url_parse; tx_str_debug := shown; tx_char_debug := shown;
  tx_float := fun _ => ""%string; tx_number := fun _ => ""%string
|}.

Definition boot_at : Z := 1720000000000.

Definition test_uuid (n : nat) : list Z := replicate 16 (Z.of_nat n mod 256).

Definition test_app : App MemoryState MemoryAuditLogger := {|
  ap_store := mem_new; ap_audit := memory_logger_new 100; ap_metrics := metrics_new; ap_reads := 0;
  ap_ids := 0 |}.

(** A request, the token it presents, and what its answer must satisfy. *)
Record Sent := { sn_token : option string; sn_request : Request; sn_check : reply (Z * Payload) → bool }.

Fixpoint refuted (n : nat) (auth : AuthConfig) (l : list Sent) (st : App MemoryState MemoryAuditLogger) : list nat :=
  match l with
  | [] => []
  | x :: rest =>
      let '(st, r) := serve (fun _ => boot_at) test_uuid {| ac_auth := auth; ac_boot_ms := boot_at; ac_version := "0.1.0" |}
                        (sn_token x) (sn_request x) st in
      if sn_check x r then refuted (Datatypes.S n) auth rest st else n :: refuted (Datatypes.S n) auth rest st
  end.

Definition status_is (code : Z) (r : reply (Z * Payload)) : bool :=
  match r with
  | Done (c, _) => c =? code
  | Refuse e => ae_status e =? code
  | Crash => false
  end.

Definition answered (code : Z) (p : Payload → bool) (r : reply (Z * Payload)) : bool :=
  match r with Done (c, x) => (c =? code) && p x | _ => false end.

Definition refused (code : Z) (label : string) (r : reply (Z * Payload)) : bool :=
  match r with Refuse e => (ae_status e =? code) && bool_decide (ae_code e = label) | _ => false end.

Definition open_ (req : Request) (check : reply (Z * Payload) → bool) : Sent :=
  {| sn_token := None; sn_request := req; sn_check := check |}.

Definition with_token (t : string) (req : Request) (check : reply (Z * Payload) → bool) : Sent :=
  {| sn_token := Some t; sn_request := req; sn_check := check |}.

(** ** Payloads of the tests *)

Definition payload_task (name : string) (deps : option (list string)) : TaskSpecPayload := {|
  tp_name := name; tp_handler := "runvane.echo"; tp_input := None; tp_depends_on := deps;
  tp_timeout_ms := None; tp_retry := None; tp_meta := None |}.

Definition spec_with (name : string) (tasks : list TaskSpecPayload) (timeout : option Z) : WorkflowSpec := {|
  sp_tenant := "acme"; sp_name := name; sp_description := Some "release pipeline"%string; sp_tasks := tasks;
  sp_timeout_ms := timeout; sp_retry := None; sp_default_priority := None; sp_hooks := None;
  sp_tags := None |}.

Definition sample_spec : WorkflowSpec :=
  spec_with "ship" [payload_task "build" None; payload_task "deploy" (Some ["build"%string])] (Some 120000).

Definition no_query : RunQuery := {|
  rq_tenant := None; rq_name := None; rq_name_prefix := None; rq_status := None; rq_status_in := None;
  rq_from_ms := None; rq_to_ms := None; rq_finished_from_ms := None; rq_finished_to_ms := None;
  rq_min_duration_ms := None; rq_has_tag_keys := None; rq_limit := None; rq_offset := None |}.

Definition query (status status_in : option string) (limit : option nat) : RunQuery := {|
  rq_tenant := None; rq_name := None; rq_name_prefix := None; rq_status := status; rq_status_in := status_in;
  rq_from_ms := None; rq_to_ms := None; rq_finished_from_ms := None; rq_finished_to_ms := None;
  rq_min_duration_ms := None; rq_has_tag_keys := None; rq_limit := limit; rq_offset := None |}.

Definition ranges (from to finished_from finished_to min_duration : option Z) : RunQuery := {|
  rq_tenant := None; rq_name := None; rq_name_prefix := None; rq_status := None; rq_status_in := None;
  rq_from_ms := from; rq_to_ms := to; rq_finished_from_ms := finished_from; rq_finished_to_ms := finished_to;
  rq_min_duration_ms := min_duration; rq_has_tag_keys := None; rq_limit := None; rq_offset := None |}.

Definition audit_all : AuditQuery := {|
  aq_tenant := None; aq_actor_kind := None; aq_action_name := None; aq_status := None;
  aq_resource_type := None; aq_resource_id := None; aq_since_ms := None; aq_until_ms := None;
  aq_limit := None; aq_offset := None |}.

Definition empty_body : SubmitRunRequest := {| sr_input := None; sr_tags := None |}.

Definition is_health (depth : Z) (p : Payload) : bool :=
  match p with PlHealth v => (hv_queue_depth v =? depth) && (hv_spec_version v =? 1) | _ => false end.
Definition run_that (p : Run → bool) (x : Payload) : bool := match x with PlRun r => p r | _ => false end.
Definition runs_count (n : nat) (x : Payload) : bool :=
  match x with PlRuns l => (length l =? n)%nat | _ => false end.
Definition workflows_count (n : nat) (x : Payload) : bool :=
  match x with PlWorkflows l => (length l =? n)%nat | _ => false end.

(** ** src/src/api/server.rs *)
Section ServerTests.
Local Open Scope string_scope.

Definition open_auth : AuthConfig := from_config None None.
Definition seed : Sent := open_ (ReqCreateWorkflow sample_spec) (status_is 201).
Definition submit_ship : Request := ReqSubmitRun "acme" "ship" empty_body.
(** The id of the [n]-th generated identifier, as a run. *)
Definition run_no (n : nat) : string := generate_id (test_uuid n) "rn_".

Lemma health_reports_ok_and_queue_depth :
  refuted 0 open_auth [open_ ReqHealth (answered 200 (is_health 0))] test_app = [].
Proof. replay. Qed.

Lemma create_workflow_stamps_id_version_and_defaults :
  refuted 0 open_auth [open_ (ReqCreateWorkflow sample_spec) (answered 201 (fun p =>
    match p with
    | PlWorkflow d => starts_with "wf_" (wd_id d) && bool_decide (wd_name d = "ship") &&
        (wd_version d =? 1)%Z && (wd_spec_version d =? 1)%Z && (wd_timeout_ms d =? 120000)%Z &&
        bool_decide (wd_default_priority d = Priority.Normal) &&
        bool_decide (ts_handler <$> wd_tasks d = ["runvane.echo"; "runvane.echo"])
    | _ => false
    end))] test_app = [].
Proof. replay. Qed.

Lemma create_workflow_rejects_invalid_definitions :
  refuted 0 open_auth [
    open_ (ReqCreateWorkflow (spec_with "ship" [] None)) (refused 400 "validation");
    open_ (ReqCreateWorkflow (spec_with "dups" [payload_task "t" None; payload_task "t" None] None)) (status_is 400);
    open_ ReqListWorkflows (answered 200 (workflows_count 0))] test_app = [].
Proof. replay. Qed.

Lemma get_workflow_happy_and_missing :
  refuted 0 open_auth [seed;
    open_ (ReqGetWorkflow "acme" "ship") (answered 200 (fun p =>
      match p with PlWorkflow d => bool_decide (wd_name d = "ship") | _ => false end));
    open_ (ReqGetWorkflow "acme" "missing") (refused 404 "not_found")] test_app = [].
Proof. replay. Qed.

Definition queued_number (n : Z) : Payload → bool := run_that (fun r =>
  bool_decide (rn_status r = RunStatus.Queued) && (rn_run_number r =? n)%Z && starts_with "rn_" (rn_id r)).

Lemma submit_run_queues_and_increments_counter :
  refuted 0 open_auth [seed;
    open_ (ReqSubmitRun "acme" "ship" {| sr_input := Some (JObject [("ref", JString "main")]);
                                         sr_tags := Some {["env" := "prod"]} |}) (answered 202 (queued_number 1));
    open_ submit_ship (answered 202 (queued_number 2));
    open_ (ReqListRuns (query (Some "queued") None None)) (answered 200 (runs_count 2));
    open_ ReqHealth (answered 200 (is_health 2));
    open_ (ReqSubmitRun "acme" "other" empty_body) (status_is 404)] test_app = [].
Proof. replay. Qed.

(** The run submitted after one workflow, whose creation drew two identifiers. *)
Definition first_run : RunId := run_no 2.

Lemma get_run_round_trips_submitted_run :
  refuted 0 open_auth [seed;
    open_ submit_ship (answered 202 (run_that (fun r => bool_decide (rn_id r = first_run))));
    open_ (ReqGetRun first_run) (answered 200 (run_that (fun r => bool_decide (rn_id r = first_run) &&
      bool_decide (rn_def_name r = "ship") && (rn_def_version r =? 1)%Z)));
    open_ (ReqGetRun "rn_nope123") (status_is 404)] test_app = [].
Proof. replay. Qed.

Lemma list_runs_filters_and_caps_limit :
  refuted 0 open_auth [seed; open_ submit_ship (status_is 202); open_ submit_ship (status_is 202); open_ submit_ship (status_is 202);
    open_ (ReqListRuns (query None None (Some 2%nat))) (answered 200 (runs_count 2));
    open_ (ReqListRuns (query (Some "running") None None)) (answered 200 (runs_count 0));
    open_ (ReqListRuns (query (Some "banana") None None)) (status_is 400);
    open_ (ReqListRuns (query None None (Some 0%nat))) (status_is 400)] test_app = [].
Proof. replay. Qed.

Lemma cancel_queued_run_transitions_and_idempotency :
  refuted 0 open_auth [seed; open_ submit_ship (status_is 202);
    open_ (ReqCancelRun first_run) (answered 200 (run_that (fun r => bool_decide (rn_status r = RunStatus.Cancelled))));
    open_ (ReqCancelRun first_run) (status_is 200);
    open_ ReqHealth (answered 200 (is_health 0));
    open_ (ReqCancelRun "rn_nope123") (status_is 404);
    open_ (ReqCancelRun "not-an-id") (status_is 400)] test_app = [].
Proof. replay. Qed.

Lemma dashboard_renders_overview_with_rows :
  refuted 0 open_auth [
    open_ (ReqCreateWorkflow (spec_with "nightly" [payload_task "a" None] None)) (status_is 201);
    open_ ReqDashboard (answered 200 (fun p =>
      match p with
      | PlText t => has "acme/nightly" t && has "queue depth" t && has "/v1/debug/metrics" t
      | _ => false
      end))] test_app = [].
Proof. replay. Qed.

Lemma debug_metrics_reports_counters_and_gauges :
  refuted 0 open_auth [seed; open_ submit_ship (status_is 202);
    open_ ReqMetrics (answered 200 (fun p =>
      match p with
      | PlMetrics s g => bool_decide (take 2 (mx_counters s) = [1; 1]%Z) && (ga_queue_depth g =? 1)%Z &&
          (ga_runs g =? 1)%Z && negb (is_empty (mx_version s))
      | _ => false
      end))] test_app = [].
Proof. replay. Qed.

Definition op_only : AuthConfig := from_config (Some "op-secret") None.
Definition two_tier : AuthConfig := from_config (Some "op-secret") (Some "adm-secret").

Lemma auth_requires_an_operator_token_on_guarded_routes :
  refuted 0 op_only [
    open_ ReqListWorkflows (status_is 401); with_token "wrong" ReqListWorkflows (status_is 401);
    with_token "op-secret" ReqListWorkflows (status_is 200); with_token "op-secret" ReqMetrics (status_is 200);
    open_ ReqHealth (status_is 200); open_ ReqDashboard (status_is 200);
    with_token "op-secret" (ReqCancelRun "rn_nope123") (status_is 404)] test_app = [].
Proof. replay. Qed.

Lemma auth_demands_admin_tier_for_cancel :
  refuted 0 two_tier [
    open_ (ReqCancelRun "rn_nope123") (status_is 401);
    with_token "op-secret" (ReqCancelRun "rn_nope123") (status_is 403);
    with_token "adm-secret" (ReqCancelRun "rn_nope123") (status_is 404);
    with_token "adm-secret" ReqListWorkflows (status_is 401)] test_app = [].
Proof. replay. Qed.

Lemma auth_open_surface_ignores_bad_tokens :
  refuted 0 open_auth [with_token "trash" ReqListWorkflows (status_is 200);
                       open_ (ReqCancelRun "rn_nope123") (status_is 404)] test_app = [].
Proof. replay. Qed.

Lemma audit_events_endpoint_lists_recorded_operations :
  refuted 0 open_auth [seed; open_ (ReqAudit audit_all) (answered 200 (fun p =>
    match p with PlAudit l => bool_decide (au_resource_type <$> l = ["workflow"]) | _ => false end));
    open_ ReqHealthz (status_is 200); open_ ReqReadyz (status_is 200)] test_app = [].
Proof. replay. Qed.
End ServerTests.

(** ** src/src/api/payloads.rs and error.rs, src/src/error.rs, src/src/domain/run.rs *)
Section PayloadTests.
Local Open Scope string_scope.

Lemma run_query_defaults_to_empty_filter : into_filter no_query = Ok filter_default.
Proof. replay. Qed.

Lemma run_query_validates_status_and_status_in :
  is_err (into_filter (query (Some "invalid_status") None None)) = true ∧
  (fun f => (rf_status f, rf_status_in f)) <$>
    result_ok (into_filter (query (Some "running") (Some "queued, succeeded,failed") None))
  = Some (Some RunStatus.Running, [RunStatus.Queued; RunStatus.Succeeded; RunStatus.Failed]) ∧
  is_err (into_filter (query None (Some "queued, bogus") None)) = true.
Proof. replay. Qed.

Lemma run_query_validates_limits_and_ranges :
  forallb (fun q => is_err (into_filter q)) [
    query None None (Some 0%nat); query None None (Some (Datatypes.S MAX_LIST_LIMIT));
    ranges (Some 200%Z) (Some 100%Z) None None None; ranges None None (Some 500%Z) (Some 400%Z) None;
    ranges None None None None (Some (-10)%Z)] = true.
Proof. replay. Qed.

Lemma run_query_parses_tags_and_prefix :
  comma_list "env, team , region" = ["env"; "team"; "region"].
Proof. replay. Qed.

Lemma errors_render :
  let e := from_runvane (RunvaneError.Id (Malformed "run" "rn_1" "bad chars")) in
  (ae_status e, ae_code e) = (400%Z, "validation") ∧
  let e := from_runvane (RunvaneError.Storage (StorageError.NotFound "run rn_1")) in
  (ae_status e, ae_code e) = (404%Z, "not_found") ∧
  let e := conflict "run already terminal" in (ae_status e, ae_code e) = (409%Z, "conflict").
Proof. replay. Qed.

Lemma error_categories_flow_through :
  is_not_found (not_found "run" "rn_x") = true ∧ http_status (not_found "run" "rn_x") = 404%Z ∧
  category (not_found "run" "rn_x") = "not_found" ∧
  http_status (RunvaneError.Domain DomainError.CycleDetected) = 400%Z ∧
  category (RunvaneError.Domain DomainError.CycleDetected) = "validation" ∧
  category (RunvaneError.Storage (StorageError.Conflict "dup")) = "conflict" ∧
  http_status (RunvaneError.Storage (StorageError.Conflict "dup")) = 409%Z.
Proof. replay. Qed.

Definition reset (task : option string) : RunError := {|
  re_message := "connection reset"; re_kind := FailureKind.TransientFailure; re_task := task;
  re_depth := 1; re_attempts := 2 |}.

Lemma error_log_line_shapes :
  to_log_line (reset (Some "fetch")) = "[transient] fetch: connection reset (attempt 2)" ∧
  to_log_line (reset None) = "[transient] connection reset (attempt 2)".
Proof. replay. Qed.
End PayloadTests.

(** ** src/src/config.rs *)
Section ConfigTests.
Local Open Scope string_scope.

(** The documents of the tests, as [toml::from_str] reads them. *)
Definition file_with (host log_filter sqlite : option string) (http workers retention : option Z)
    (unknown : gset string) : ConfigFile := {|
  fl_host := host; fl_http_port := http; fl_grpc_port := None; fl_workers := workers;
  fl_sqlite_path := sqlite; fl_log_filter := log_filter; fl_auth_token := None; fl_admin_token := None;
  fl_lease_ms := None; fl_reap_interval_ms := None; fl_retention_ms := retention;
  fl_default_list_limit := None; fl_audit_log_path := None; fl_unknown := unknown |}.

Definition toml_parse (text : string) : result ConfigFile string :=
  if is_empty text then Ok (file_with None None None None None None ∅)
  else if bool_decide (text = "overrides") then
    Ok (file_with (Some "0.0.0.0") (Some "debug") (Some "runvane.db") (Some 9000%Z) (Some 2%Z) None ∅)
  else if bool_decide (text = "misspelt") then
    Ok (file_with None None None None None None {["hst"; "http_pott"]})
  else if bool_decide (text = "retention") then Ok (file_with None None None None None (Some 1234%Z) ∅)
  else Err "invalid array".

Definition read_config (text : string) : result Config RunvaneError := from_toml_str toml_parse text.
Definition from_env (env : gmap string string) : result Config RunvaneError := apply_env_map shown env config_default.

Lemma defaults_are_usable :
  config_validate config_default = Ok tt ∧ cf_workers config_default = 4%Z ∧
  http_addr config_default = "127.0.0.1:8080" ∧ read_config "" = Ok config_default ∧
  from_env ∅ = Ok config_default.
Proof. replay. Qed.

Lemma toml_overrides_fields :
  (fun c => (cf_host c, cf_http_port c, cf_workers c, cf_log_filter c, cf_sqlite_path c, cf_grpc_port c)) <$>
    result_ok (read_config "overrides")
  = Some ("0.0.0.0", 9000%Z, 2%Z, "debug", Some "runvane.db", DEFAULT_GRPC_PORT) ∧
  cf_retention_ms <$> result_ok (read_config "retention") = Some (Some 1234%Z).
Proof. replay. Qed.

Lemma unknown_keys_fail_loudly :
  read_config "misspelt" = Err (RunvaneError.Config "unknown config key(s): hst, http_pott") ∧
  is_err (read_config "http_port = ]") = true.
Proof. replay. Qed.

Lemma env_overrides_win_over_defaults :
  (fun c => (cf_host c, cf_http_port c, cf_workers c, cf_lease_ms c, cf_grpc_port c)) <$>
    result_ok (from_env {["RUNVANE_HOST" := "0.0.0.0"; "RUNVANE_HTTP_PORT" := "9123"; "RUNVANE_WORKERS" := "7";
                          "RUNVANE_LEASE_MS" := "15000"]})
  = Some ("0.0.0.0", 9123%Z, 7%Z, 15000%Z, DEFAULT_GRPC_PORT) ∧
  cf_retention_ms <$> result_ok (from_env {["RUNVANE_RETENTION_MS" := "60000"]}) = Some (Some 60000%Z) ∧
  cf_auth_token <$> result_ok (from_env {["RUNVANE_AUTH_TOKEN" := "sekrit"]}) = Some (Some "sekrit").
Proof. replay. Qed.

Lemma validation_rejects_zero_ports_and_nonpositive_durations :
  forallb (fun e => is_err (from_env e)) [
    {["RUNVANE_HTTP_PORT" := "0"]}; {["RUNVANE_LEASE_MS" := "0"]}; {["RUNVANE_REAP_MS" := "-5"]};
    {["RUNVANE_RETENTION_MS" := "0"]}] = true.
Proof. replay. Qed.

Lemma env_bad_value_is_a_typed_error :
  match from_env {["RUNVANE_HTTP_PORT" := "not-a-port"]} with
  | Err (RunvaneError.Config m) => has "RUNVANE_HTTP_PORT" m = true
  | _ => False
  end.
Proof. replay. Qed.
End ConfigTests.

(** ** src/src/cli/completion.rs and src/src/plugins *)
Section PluginTests.
Local Open Scope string_scope.

Lemma parse_valid_shells :
  map shell_parse ["bash"; "ZSH"; "Fish"; "unknown"] = [Some Bash; Some Zsh; Some Fish; None].
Proof. replay. Qed.

Lemma generate_all_shell_scripts :
  forallb (fun p => has p (generate_completion Bash)) ["_runvane()"; "dry-run"] = true ∧
  forallb (fun p => has p (generate_completion Zsh)) ["#compdef runvane"; "_describe"] = true ∧
  forallb (fun p => has p (generate_completion Fish)) ["complete -c runvane"; "stats"] = true.
Proof. replay. Qed.

Definition plugin_ctx (input : Json) (cancelled : bool) : TaskContext := {|
  tc_tenant := "acme"; tc_def_name := "nightly"; tc_run_id := "rn_abc"; tc_task_name := "step";
  tc_input := input; tc_attempt := 1; tc_cancelled := cancelled |}.

Lemma builtin_handlers :
  (result_ok (echo_execute (plugin_ctx (JObject [("a", JNumber (PosInt 1))]) false)) ≫= json_get "echo")
    = Some (JObject [("a", JNumber (PosInt 1))]) ∧
  (result_ok (noop_execute (plugin_ctx JNull false)) ≫= json_get "ok") = Some (JBool true) ∧
  match fail_execute (plugin_ctx JNull false) with Err e => he_kind e = FailureKind.Rejected | Ok _ => False end ∧
  he_kind (handler_transient "x") = FailureKind.TransientFailure ∧
  he_kind (handler_permanent "x") = FailureKind.Rejected ∧
  he_kind (handler_cancelled "x") = FailureKind.Cancelled.
Proof. replay. Qed.

(** [echo] and [false] as the operating system runs them. *)
#[local] Instance two_programs : Spawner := fun command args _ =>
  if bool_decide (command = "echo") then
    Ok {| out_code := Some 0%Z; out_stdout := as_bytes (Text.join " " args); out_stderr := [] |}
  else Ok {| out_code := Some 1%Z; out_stdout := []; out_stderr := [] |}.

Lemma script_handler_runs :
  match script_execute (plugin_ctx (JObject [("command", JString "echo");
          ("args", JArray [JString "hello"; JString "world"])]) false) with
  | Ok j => json_get "exit_code" j = Some (JNumber (PosInt 0)) ∧
            json_get "stdout" j ≫= as_str = Some "hello world"
  | Err _ => False
  end ∧
  match script_execute (plugin_ctx (JObject [("command", JString "false")]) false) with
  | Err e => he_kind e = FailureKind.Rejected
  | Ok _ => False
  end ∧
  match script_execute (plugin_ctx (JObject [("command", JString "echo")]) true) with
  | Err e => he_kind e = FailureKind.Cancelled
  | Ok _ => False
  end.
Proof. replay. Qed.
End PluginTests.

(** ** src/src/cli/serve.rs *)
Section LayerTests.
Local Open Scope string_scope.

Definition port_flag (port : option Z) : ServeArgs := {|
  sa_config := None; sa_host := None; sa_http_port := port; sa_grpc_port := None; sa_workers := None;
  sa_sqlite := None; sa_log_filter := None; sa_lease_ms := None; sa_reap_ms := None;
  sa_retention_ms := None |}.

(** A file with [http_port = 7001] and [workers = 1]. *)
Definition filed : Config := file_layer (file_with None None None (Some 7001%Z) (Some 1%Z) None ∅) config_default.

Definition layered (c : Config) (env : gmap string string) (port : option Z) : option (Z * Z * Z) :=
  (fun c => (cf_http_port c, cf_workers c, cf_grpc_port c)) <$>
    result_ok (apply_config_layers shown c env (port_flag port)).

Lemma configuration_layers :
  layered filed ∅ (Some 7002%Z) = Some (7002, 1, DEFAULT_GRPC_PORT)%Z ∧
  layered filed ∅ None = Some (7001, 1, DEFAULT_GRPC_PORT)%Z ∧
  layered config_default {["RUNVANE_HTTP_PORT" := "8001"; "RUNVANE_WORKERS" := "2"]} (Some 8002%Z)
    = Some (8002, 2, DEFAULT_GRPC_PORT)%Z ∧
  layered filed {["RUNVANE_HTTP_PORT" := "8077"]} None = Some (8077, 1, DEFAULT_GRPC_PORT)%Z ∧
  apply_config_layers shown config_default ∅ (port_flag None) = Ok config_default.
Proof. replay. Qed.
End LayerTests.

(** ** src/src/api/grpc.rs *)
Section GrpcTests.
Local Open Scope string_scope.

(** The JSON of the tests, by the text of its bytes. *)
#[local] Instance test_bytes : JsonBytes := {|
  jb_value b := if bool_decide (of_bytes b = "step") then Ok (JObject [("step", JString "build")])
                else if bool_decide (of_bytes b = "ref") then Ok (JObject [("ref", JString "main")])
                else Err "expected value";
  jb_strings b := if bool_decide (of_bytes b = "team") then Ok {["team" := "infra"]}
                  else if bool_decide (of_bytes b = "env") then Ok {["env" := "prod"]}
                  else Err "expected value";
  jb_object _ := Err "expected value" |}.

Definition wire_task (name input : string) (deps : list string) : ProtoTaskSpec := {|
  pt_name := name; pt_handler := "runvane.echo"; pt_input_json := as_bytes input; pt_depends_on := deps;
  pt_timeout_ms := 0; pt_retry := None; pt_meta_json := [] |}.

Definition wire_spec (a b : string) (hooks : option ProtoHooksSpec) : ProtoWorkflowSpec := {|
  pw_tenant := "acme"; pw_name := "ship"; pw_description := "release pipeline";
  pw_tasks := [wire_task a "step" []; wire_task b "" [a]]; pw_timeout_ms := 120000; pw_retry := None;
  pw_default_priority := "normal"; pw_hooks := hooks; pw_tags_json := as_bytes "team" |}.

Definition wire_hooks (url : string) : ProtoHooksSpec := {|
  ph_on_start := []; ph_on_failure := []; ph_on_cancel := [];
  ph_on_success := [{| ph_webhook_url := url; ph_event_filter := "run.succeeded";
                       ph_headers := {["X-Team" := "infra"]} |}] |}.

Definition grpc_cfg (auth : AuthConfig) : AppConfig :=
  {| ac_auth := auth; ac_boot_ms := boot_at; ac_version := "0.1.0" |}.

Definition status_code {A} (r : App MemoryState MemoryAuditLogger * result A GrpcStatus) : option Code :=
  match r.2 with Err s => Some (gs_code s) | Ok _ => None end.

Definition g_create (w : ProtoWorkflowSpec) (st : App MemoryState MemoryAuditLogger) :=
  grpc_create_workflow (fun _ => boot_at) test_uuid (grpc_cfg open_auth) None w st.
Definition g_submit (name : string) (st : App MemoryState MemoryAuditLogger) :=
  grpc_submit_run (fun _ => boot_at) test_uuid (grpc_cfg open_auth) None
    {| ps_tenant := "acme"; ps_name := name; ps_input_json := as_bytes "ref"; ps_tags_json := as_bytes "env" |} st.
Definition g_cancel (id : RunId) (st : App MemoryState MemoryAuditLogger) := grpc_cancel_run (fun _ => boot_at) (grpc_cfg open_auth) None id st.

Lemma create_submit_list_get_cancel_round_trip :
  let '(s1, created) := g_create (wire_spec "build" "deploy" None) test_app in
  let '(s2, submitted) := g_submit "ship" s1 in
  match created, submitted with
  | Ok d, Ok run =>
      wd_name d = "ship" ∧ length (wd_tasks d) = 2%nat ∧ rn_status run = RunStatus.Queued ∧
      rn_run_number run = 1%Z ∧
      let '(s3, got) := grpc_get_run (grpc_cfg open_auth) None (rn_id run) s2 in
      (fun r => rn_tags r !! "env") <$> result_ok got = Some (Some "prod") ∧
      let '(s4, cancelled) := g_cancel (rn_id run) s3 in
      let '(s5, again) := g_cancel (rn_id run) s4 in
      rn_status <$> result_ok cancelled = Some RunStatus.Cancelled ∧
      rn_status <$> result_ok again = Some RunStatus.Cancelled ∧
      hv_queue_depth <$> result_ok (grpc_health (fun _ => boot_at) (grpc_cfg open_auth) s5).2 = Some 0%Z
  | _, _ => False
  end.
Proof. replay. Qed.

Lemma hooks_round_trip_and_validation :
  (fun d => map (fun h => (webhook_url h, headers h !! "X-Team")) (on_success (wd_hooks d))) <$>
    result_ok (g_create (wire_spec "build" "deploy" (Some (wire_hooks "http://127.0.0.1:1/hook"))) test_app).2
  = Some [(Some "http://127.0.0.1:1/hook", Some "infra")] ∧
  status_code (g_create (wire_spec "build" "deploy" (Some (wire_hooks "not a url"))) test_app)
  = Some Code.InvalidArgument.
Proof. replay. Qed.

Lemma error_codes_map_to_tonic_statuses :
  status_code (g_submit "missing" test_app) = Some Code.NotFound ∧
  status_code (grpc_get_run (grpc_cfg open_auth) None "not-an-id" test_app) = Some Code.InvalidArgument ∧
  status_code (g_create (wire_spec "same" "same" None) test_app) = Some Code.InvalidArgument.
Proof. replay. Qed.

Lemma grpc_auth_enforced_per_level :
  let list token := grpc_list_workflows (grpc_cfg two_tier) token "" test_app in
  let cancel token id := grpc_cancel_run (fun _ => boot_at) (grpc_cfg two_tier) (Some token) id test_app in
  status_code (list None) = Some Code.Unauthenticated ∧
  status_code (list (Some "wrong")) = Some Code.Unauthenticated ∧
  (list (Some "op-secret")).2 = Ok [] ∧
  status_code (cancel "op-secret" "rn_x") = Some Code.PermissionDenied ∧
  status_code (cancel "adm-secret" "rn_nope123") = Some Code.NotFound.
Proof. replay. Qed.
End GrpcTests.
