(* ===== verification/ReplayTests.v ===== *)
(** * The integration tests, replayed on the model

    The scenarios of src/tests/e2e_scenarios.rs, boundary.rs, integration_store.rs and
    examples_validation.rs, evaluated by the kernel; the shipped examples of
    src/examples/workflows are transcribed as the payloads serde reads from them. The
    sampled properties of the other files of src/tests are in Sampled. *)
From stdpp Require Import pretty.
From S2P Require Import Prelude RustStrings Text Ids Status Errors StateMachine Float64 Json RetryPolicy.
From S2P Require Import Workflow Dag DryRun Validation Store MemoryStore Sqlite Artifacts Executor Handlers Api Fixtures Sampled Replay ReplayStore ReplayApi.
Local Open Scope Z_scope.

(** ** src/tests/e2e_scenarios.rs *)
Module Scenarios.
Local Open Scope string_scope.

Definition make_task (name : string) (deps : list string) : TaskSpec := {|
  ts_name := name; ts_handler := "runvane.echo"; ts_input := JObject [("step", JString name)]; ts_depends_on := deps;
  ts_timeout_ms := Some 10000%Z; ts_retry := None; ts_meta := ∅
|}.

Definition make_test_def (name : string) (tasks : list TaskSpec) : WorkflowDef := {|
  wd_id := "wf_" +:+ name; wd_tenant := "acme"; wd_name := name; wd_version := 1; wd_description := "e2e pipeline";
  wd_tasks := tasks; wd_timeout_ms := 60000; wd_retry := retry_fixed 3 50; wd_default_priority := priority_default;
  wd_hooks := hooks_default; wd_tags := ∅; wd_spec_version := SPEC_VERSION; wd_created_at_ms := 1000; wd_updated_at_ms := 1000
|}.

Definition pipeline : WorkflowDef := make_test_def "diamond_pipeline" [
  make_task "start" []; make_task "metric_proc" ["start"]; make_task "log_proc" ["start"];
  make_task "aggregate" ["metric_proc"; "log_proc"]].

Definition pipeline_run : Run := run_set_started_at_ms (Some 1000%Z) (frun "rn_diamond00000000" "acme" "diamond_pipeline" RunStatus.Running 1000).

Definition pipeline_attempt : World MemoryState * outcome AttemptOutcome :=
  attempt {["runvane.echo" := handler_of (fun _ s => s) echo_execute]} (fun _ => 1000%Z) 42 (fun x _ => x) (fun _ u => u)
    "rn_diamond00000000" (world0 (mem_put_run pipeline_run (mem_put_workflow pipeline mem_new).1)).

Lemma diamond_dag_fanout_fanin_pipeline :
  match pipeline_attempt with
  | (w, Val o) =>
      ao_run_status o = RunStatus.Succeeded ∧
      failures 0 [
        Expect (GetRun "rn_diamond00000000") (when_ok (fun r => bool_decide (rn_status r = RunStatus.Succeeded)));
        Expect (ListTaskRunsForRun "rn_diamond00000000") (when_ok (fun l => (length l =? 4)%nat &&
          forallb (fun t => bool_decide (tr_status t = TaskStatus.Succeeded)) l))] (w_store w) = []
  | _ => False
  end.
Proof. replay. Qed.

#[local] Existing Instance text_digest.

Definition payload : list Z := as_bytes "dataset: 1, 2, 3, 4, 5".

Lemma cas_artifact_pipeline_with_integrity_and_gc :
  let '(s1, d1) := mem_put memory_artifacts_new "acme" "dataset.json" payload "application/json" 1000 in
  let '(s2, d2) := mem_put s1 "acme" "copy.json" payload "application/json" 2000 in
  let id := of_bytes payload in
  ∃ s3 st3 s4 st4, sweep_artifacts (gc 10000 false) {[id]} 20000 s2 = (s3, Ok st3) ∧
  sweep_artifacts (gc 10000 false) ∅ 20000 s3 = (s4, Ok st4) ∧
  ad_id d1 = id ∧ ad_id d2 = id ∧ mem_get s2 id = Ok (Some payload) ∧
  reclaimed_count st3 = 0%Z ∧ mem_get s3 id = Ok (Some payload) ∧
  reclaimed_count st4 = 1%Z ∧ reclaimed_bytes st4 = Z.of_nat (length payload) ∧ mem_get s4 id = Ok None.
Proof. do 4 eexists. split; [vm_compute; reflexivity|]. split; [vm_compute; reflexivity|replay]. Qed.

Lemma static_dry_run_diamond_simulation_and_metrics :
  match simulate_workflow (make_test_def "wide_fanout" [
    make_task "ingest" []; make_task "clean_a" ["ingest"]; make_task "clean_b" ["ingest"]; make_task "clean_c" ["ingest"];
    make_task "export" ["clean_a"; "clean_b"; "clean_c"]]) with
  | Some (Ok r) => rp_total_tasks r = 5%nat ∧ rp_max_parallelism r = 3%nat ∧
      stage_tasks <$> rp_stages r = [["ingest"]; ["clean_a"; "clean_b"; "clean_c"]; ["export"]] ∧
      length (rp_critical_path r) = 3%nat
  | _ => False
  end.
Proof. replay. Qed.
End Scenarios.

(** ** src/tests/boundary.rs *)
Module Boundary.

Definition pad3 (n : nat) : string := let s : string := pretty n in letters "0" (3 - String.length s) +:+ s.

Definition make_task (name : string) : TaskSpec := {|
  ts_name := name; ts_handler := "testhandler"; ts_input := JObject []; ts_depends_on := [];
  ts_timeout_ms := Some 5000; ts_retry := None; ts_meta := ∅
|}.

Definition make_wf (tasks : list TaskSpec) : WorkflowDef := {|
  wd_id := "wf_boundary001"; wd_tenant := "tenant-test"; wd_name := "wf-boundary"; wd_version := 1;
  wd_description := "boundary testing workflow"; wd_tasks := tasks; wd_timeout_ms := 10000; wd_retry := retry_fixed 1 100;
  wd_default_priority := Priority.Normal; wd_hooks := hooks_default; wd_tags := ∅; wd_spec_version := 1;
  wd_created_at_ms := 1000000; wd_updated_at_ms := 1000000
|}.

Definition numbered (n : nat) : list TaskSpec := map (fun i => make_task ("task_" +:+ pad3 i)) (seq 0 n).

(** The ordering of independent tasks is known without running it. *)
Lemma max_tasks_ceiling_boundary : ValidationTests.validate (make_wf (numbered (Z.to_nat MAX_TASKS))) = Ok tt.
Proof.
  assert (Hedges : validate_edges (numbered (Z.to_nat MAX_TASKS)) = Ok tt).
  { unfold validate_edges. destruct (forward_ordered (numbered (Z.to_nat MAX_TASKS))) as (l&->&_); [| |done].
    - apply (bool_decide_eq_true _). vm_compute. reflexivity.
    - intros i t d Ht Hd. apply list_lookup_fmap_Some in Ht as (k&->&_). by apply elem_of_nil in Hd. }
  unfold ValidationTests.validate, validate_definition. cbn [make_wf wd_tasks wd_name wd_description wd_timeout_ms wd_hooks].
  rewrite Hedges. vm_compute. reflexivity.
Qed.

Lemma definition_boundaries :
  ValidationTests.validate (make_wf []) = Err DomainError.EmptyTasks ∧
  ValidationTests.validate (make_wf (numbered (Z.to_nat MAX_TASKS + 1))) = Err DomainError.TooManyTasks ∧
  ValidationTests.validate (make_wf [make_task (letters "a" (Z.to_nat MAX_TASK_NAME_LEN))]) = Ok tt ∧
  match ValidationTests.validate (make_wf [make_task (letters "a" (Z.to_nat MAX_TASK_NAME_LEN + 1))]) with
  | Err (DomainError.InvalidDefinition _) => True
  | _ => False
  end.
Proof. replay. Qed.

Definition no_numbers : Number → string := fun _ => ""%string.

(** [input_payload_size_boundary], for a text of any length. *)
Lemma input_payload_size_boundary s :
  validate_run_input no_numbers (JObject [("blob"%string, JString s)]) =
  if MAX_RUN_INPUT_BYTES <? str_len s + 6 then Err (DomainError.InputTooLarge (str_len s + 6) MAX_RUN_INPUT_BYTES) else Ok tt.
Proof.
  unfold validate_run_input. cbn [json_size map foldr fst snd]. change (str_len "blob") with 4.
  replace (4 + (str_len s + 2) + 0) with (str_len s + 6) by ring. by destruct (MAX_RUN_INPUT_BYTES <? str_len s + 6).
Qed.

Definition nested (n : nat) : Json := Nat.iter n (fun j => JArray [j]) (JString "leaf").

Lemma json_nesting_depth_boundary :
  json_depth (nested (Z.to_nat MAX_JSON_DEPTH)) 0 = MAX_JSON_DEPTH ∧
  validate_run_input no_numbers (nested (Z.to_nat MAX_JSON_DEPTH)) = Ok tt ∧
  json_depth (nested (Z.to_nat MAX_JSON_DEPTH + 1)) 0 = MAX_JSON_DEPTH + 1 ∧
  is_err (validate_run_input no_numbers (nested (Z.to_nat MAX_JSON_DEPTH + 1))) = true.
Proof. replay. Qed.

Lemma pagination_limit_boundary :
  map (fun n => rf_limit <$> result_ok (into_filter (H := test_texts) (query None None (Some n)))) [1; MAX_LIST_LIMIT; 0; MAX_LIST_LIMIT + 1]%nat =
  [Some (Some 1%nat); Some (Some MAX_LIST_LIMIT); None; None].
Proof. replay. Qed.
End Boundary.

(** ** src/tests/integration_store.rs *)
Module Backends.
Local Open Scope string_scope.

Definition race : list AnyCall := [
  Any (PutRun (frun "rn_race000000001" "tenant1" "wf-race" RunStatus.Queued 1000));
  Any (Enqueue (fresh_entry "rn_race000000001" 1000))].

(** How many of the threads win, in the order in which they reach the store. *)
Fixpoint winners {S} `{Store S} (tokens : list ClaimToken) (s : S) : nat :=
  match tokens with
  | [] => 0
  | token :: rest =>
      let '(s, r) := call (Claim "rn_race000000001" token 1000 5000) s in
      (if is_ok r then 1 else 0) + winners rest s
  end%nat.

Definition eight : list ClaimToken := ["t1"; "t2"; "t3"; "t4"; "t5"; "t6"; "t7"; "t8"].

Lemma concurrent_claims_have_exactly_one_winner :
  winners eight (run_calls race mem_new) = 1%nat ∧
  winners (H := SqliteStore (H := suite_sqlite)) eight
    (run_calls (H := SqliteStore (H := suite_sqlite)) race (sqlite_open (H := suite_sqlite) db_empty).1) = 1%nat.
Proof. replay. Qed.

Definition member (i : nat) : Run := {|
  rn_id := "rn_" +:+ Boundary.pad3 i; rn_tenant := if Nat.even i then "alpha" else "beta"; rn_def_name := "etl-pipeline";
  rn_def_version := 1; rn_input := JObject [];
  rn_status := match Nat.modulo i 4 with
               | O => RunStatus.Queued
               | 1%nat => RunStatus.Running
               | 2%nat => RunStatus.Succeeded
               | _ => RunStatus.Failed
               end;
  rn_attempts := 1; rn_next_attempt_at_ms := None; rn_deadline_at_ms := None; rn_started_at_ms := None;
  rn_finished_at_ms := None; rn_error := None; rn_output := None;
  rn_tags := if Nat.eqb (Nat.modulo i 3) 0 then {["env" := "prod"; "priority" := "high"]} else {["env" := "prod"]};
  rn_created_at_ms := 1000 + Z.of_nat i * 10; rn_run_number := 1
|}.

Definition population : MemoryState := foldl (fun s i => mem_put_run (member i) s) mem_new (seq 0 50).

Definition page_of (offset : nat) : list Run :=
  mem_list_runs (FilterBuilder.with_offset offset (FilterBuilder.with_limit 10 filter_default)) population.

Lemma complex_filter_across_population :
  let f1 := FilterBuilder.with_tenant "alpha" (FilterBuilder.with_status_in [RunStatus.Succeeded; RunStatus.Failed] filter_default) in
  let f2 := FilterBuilder.with_has_tag_key "priority" filter_default in
  forallb (fun r => bool_decide (rn_tenant r = "alpha") && bool_decide (rn_status r ∈ [RunStatus.Succeeded; RunStatus.Failed]))
    (mem_list_runs f1 population) = true ∧
  forallb (fun r => bool_decide (is_Some (rn_tags r !! "priority"))) (mem_list_runs f2 population) = true ∧
  length (page_of 0) = 10%nat ∧ length (page_of 10) = 10%nat ∧
  forallb (fun p => negb (existsb (fun q => bool_decide (rn_id p = rn_id q)) (page_of 10))) (page_of 0) = true.
Proof. replay. Qed.
End Backends.

(** ** src/tests/examples_validation.rs *)
Module Examples.
Local Open Scope string_scope.

Definition echo (name : string) (input : list (string * Json)) (deps : list string) : TaskSpecPayload := {|
  tp_name := name; tp_handler := "runvane.echo"; tp_input := Some (JObject input); tp_depends_on := Some deps;
  tp_timeout_ms := None; tp_retry := None; tp_meta := None |}.

Definition shipped (tenant name description : string) (timeout : Z) (p : Priority) (retry : RetryPolicy)
    (tasks : list TaskSpecPayload) : WorkflowSpec := {|
  sp_tenant := tenant; sp_name := name; sp_description := Some description; sp_tasks := tasks; sp_timeout_ms := Some timeout;
  sp_retry := Some retry; sp_default_priority := Some p; sp_hooks := None; sp_tags := None |}.

Definition policy (attempts base max : Z) (k : BackoffKind) (j : JitterKind) (only : bool) : RetryPolicy := {|
  max_attempts := attempts; base_delay_ms := base; max_delay_ms := max; multiplier := f64_of_Z 2; backoff := k; jitter := j;
  retryable_only := only |}.

Definition data_pipeline : WorkflowSpec := shipped "data-platform" "ecommerce-daily-etl"
  "Daily ETL pipeline extracting transaction logs, computing aggregations in parallel, and publishing reporting metrics."
  120000 Priority.High (policy 3 200 5000 Exponential JitterKind.Full true) [
  echo "extract_raw_events" [("format", JString "parquet"); ("source", JString "s3://lakehouse/events/date=today")] [];
  echo "aggregate_user_metrics" [("dimension", JString "user_id"); ("upstream", JString "${tasks.extract_raw_events.output}")] ["extract_raw_events"];
  echo "aggregate_sales_revenue" [("dimension", JString "sku"); ("upstream", JString "${tasks.extract_raw_events.output}")] ["extract_raw_events"];
  echo "publish_bi_dashboard" [("sales", JString "${tasks.aggregate_sales_revenue.output}"); ("users", JString "${tasks.aggregate_user_metrics.output}")]
    ["aggregate_user_metrics"; "aggregate_sales_revenue"]].

Definition incident_response : WorkflowSpec := shipped "sre-infra" "canary-auto-rollback"
  "Automated canary health assessment and mitigation workflow triggering rollbacks upon elevated error rates."
  30000 Priority.High (policy 2 100 1000 Fixed JitterKind.None false) [
  echo "query_prometheus_slo" [("metric", JString "http_requests_5xx_rate"); ("threshold", JNumber (Float (f64_div f64_one (f64_of_Z 100))))] [];
  echo "drain_traffic_from_canary" [("cluster", JString "prod-us-east-1"); ("weight", JNumber (PosInt 0))] ["query_prometheus_slo"];
  echo "dispatch_pagerduty_alert" [("service", JString "checkout-api"); ("severity", JString "critical")] ["drain_traffic_from_canary"]].

Definition shard (n : string) (i : Z) : TaskSpecPayload :=
  echo ("eval_shard_" +:+ n) [("shard", JNumber (PosInt i)); ("weights", JString "${tasks.load_weights_and_dataset.output}")] ["load_weights_and_dataset"].

Definition ml_training : WorkflowSpec := shipped "ai-research" "distributed-model-eval"
  "Multi-partition ML model evaluation and benchmark aggregation with artifact storage checkpointing."
  300000 Priority.Normal (policy 3 500 10000 Exponential JitterKind.Full true) [
  echo "load_weights_and_dataset" [("checkpoint", JString "s3://weights/epoch_100.ckpt"); ("model_id", JString "resnet50_v2")] [];
  shard "0" 0; shard "1" 1; shard "2" 2;
  echo "compile_evaluation_metrics" [("shard_0", JString "${tasks.eval_shard_0.output}"); ("shard_1", JString "${tasks.eval_shard_1.output}");
    ("shard_2", JString "${tasks.eval_shard_2.output}")] ["eval_shard_0"; "eval_shard_1"; "eval_shard_2"]].

(** The definition is accepted and its dry run has stages and no warnings. *)
Definition ships (spec : WorkflowSpec) : option (list (list string)) :=
  match into_definition (H := test_texts) spec (test_uuid 0) 1000 with
  | Ok def =>
      match simulate_workflow def with
      | Some (Ok r) => if bool_decide (rp_warnings r = []) then Some (stage_tasks <$> rp_stages r) else None
      | _ => None
      end
  | Err _ => None
  end.

Lemma validate_shipped_example_workflows :
  ships data_pipeline = Some [["extract_raw_events"]; ["aggregate_sales_revenue"; "aggregate_user_metrics"]; ["publish_bi_dashboard"]] ∧
  ships incident_response = Some [["query_prometheus_slo"]; ["drain_traffic_from_canary"]; ["dispatch_pagerduty_alert"]] ∧
  ships ml_training = Some [["load_weights_and_dataset"]; ["eval_shard_0"; "eval_shard_1"; "eval_shard_2"]; ["compile_evaluation_metrics"]].
Proof. replay. Qed.
End Examples.
